(** * ROOP language support: structural analysis of [.roop] documents

    A shallow embedding of the line scanners of the ROOP language server
    ([src/server.ts]) and of the client-side fallback ([src/extension.ts]):
    diagnostics, outline symbols, folding ranges, formatting and completion.

    Layout of the development:
    - [JS]        strings, the string methods and the regular-expression
                  matcher the two programs rely on;
    - [Server]    the handlers of [server.ts];
    - [Extension] the validators and the formatter of [extension.ts];
    - [Outline]   what "matched" and "unmatched" mean for task openers and
                  closers, stated line by line;
    - the lemmas and theorems.

    A JavaScript string is a list of code units.  The model covers the code
    units U+0000..U+00FF (type [ascii]); a document is the list of its line
    texts, as returned by [lineAt] / [document.lineAt(i).text]. *)

From Stdlib Require Import Ascii String.
From Stdlib Require Import List Bool Arith ZArith Lia.
Import ListNotations.
Open Scope list_scope.

(* ================================================================== *)
(** * JavaScript strings and regular expressions                       *)
(* ================================================================== *)

Module JS.

Definition str := list ascii.

(** [lit "abc"] is the JavaScript string literal ["abc"]. *)
Definition lit (s : string) : str := list_ascii_of_string s.

Definition DQ  : ascii := ascii_of_nat 34.   (* the double quote *)
Definition LF  : ascii := ascii_of_nat 10.
Definition CR  : ascii := ascii_of_nat 13.
Definition TAB : ascii := ascii_of_nat 9.

(** [q "say ~hi~"] is the literal [say "hi"]: a tilde stands for a double
    quote (no string of the two programs contains a tilde). *)
Definition q (s : string) : str :=
  map (fun c => if Ascii.eqb c "~" then DQ else c) (lit s).

Definition code (c : ascii) : N := N_of_ascii c.

Definition between (lo hi : N) (c : ascii) : bool :=
  (lo <=? code c)%N && (code c <=? hi)%N.

(** [\s], also the characters removed by [trim]: WhiteSpace and
    LineTerminator (TAB, LF, VT, FF, CR, SP, NBSP in this range). *)
Definition isWhiteSpace (c : ascii) : bool :=
  between 9 13 c || (code c =? 32)%N || (code c =? 160)%N.

(** [\w] is [[A-Za-z0-9_]], [\d] is [[0-9]]. *)
Definition isWordChar (c : ascii) : bool :=
  between 65 90 c || between 97 122 c || between 48 57 c || (code c =? 95)%N.

Definition isDigit (c : ascii) : bool := between 48 57 c.

Definition isAlpha (c : ascii) : bool := between 65 90 c || between 97 122 c.

(** [.] matches everything but a line terminator. *)
Definition isLineTerminator (c : ascii) : bool :=
  (code c =? 10)%N || (code c =? 13)%N.

(** Canonicalisation of the [i] flag on the letters of a pattern. *)
Definition toLower (c : ascii) : ascii :=
  if between 65 90 c then ascii_of_N (code c + 32) else c.

Fixpoint dropWhile (p : ascii -> bool) (s : str) : str :=
  match s with
  | [] => []
  | c :: s' => if p c then dropWhile p s' else s
  end.

Definition trimStart (s : str) : str := dropWhile isWhiteSpace s.

(** [trimEnd] drops the whitespace at the end: a character stays when it is
    not whitespace or when something stays behind it. *)
Fixpoint trimEnd (s : str) : str :=
  match s with
  | [] => []
  | c :: s' =>
      match trimEnd s' with
      | [] => if isWhiteSpace c then [] else [c]
      | r => c :: r
      end
  end.

Definition trim (s : str) : str := trimEnd (trimStart s).

Definition isEmpty (s : str) : bool :=
  match s with [] => true | _ => false end.

Fixpoint str_eqb (a b : str) : bool :=
  match a, b with
  | [], [] => true
  | x :: a', y :: b' => Ascii.eqb x y && str_eqb a' b'
  | _, _ => false
  end.

Fixpoint startsWith (s p : str) {struct p} : bool :=
  match p, s with
  | [], _ => true
  | x :: p', y :: s' => Ascii.eqb x y && startsWith s' p'
  | _ :: _, [] => false
  end.

Definition endsWith (s p : str) : bool := startsWith (rev s) (rev p).

(** [s.indexOf(p)]: the first index at which [p] occurs, or [-1]. *)
Fixpoint indexOf_from (i : nat) (s p : str) : Z :=
  if startsWith s p then Z.of_nat i
  else match s with
       | [] => (-1)%Z
       | _ :: s' => indexOf_from (S i) s' p
       end.

Definition indexOf (s p : str) : Z := indexOf_from 0 s p.

Definition includes (l : list str) (v : str) : bool := existsb (str_eqb v) l.

(** [s.slice(0, n)] for [n >= 0]. *)
Definition slice0 (s : str) (n : nat) : str := firstn n s.

(** [s.repeat(n)]; a negative count throws a RangeError ([None]). *)
Definition repeat (s : str) (n : Z) : option str :=
  if (n <? 0)%Z then None
  else Some (concat (List.repeat s (Z.to_nat n))).

(** [lines.join("\n")]. *)
Fixpoint join (lines : list str) : str :=
  match lines with
  | [] => []
  | [l] => l
  | l :: rest => l ++ LF :: join rest
  end.

(** The line texts of a text: a line ends at LF, CR or CR LF. *)
Fixpoint splitLines_aux (cur : str) (s : str) : list str :=
  match s with
  | [] => [rev cur]
  | c :: s' =>
      if Ascii.eqb c LF then rev cur :: splitLines_aux [] s'
      else if Ascii.eqb c CR then
        match s' with
        | c' :: s'' =>
            if Ascii.eqb c' LF then rev cur :: splitLines_aux [] s''
            else rev cur :: splitLines_aux [] s'
        | [] => rev cur :: splitLines_aux [] s'
        end
      else splitLines_aux (c :: cur) s'
  end.

Definition splitLines (s : str) : list str := splitLines_aux [] s.

(** ** Regular expressions

    The constructs used by the patterns of the two programs.  [Star] is
    the greedy [*]; [Group] is a capturing group; [Bol] and [Eol] are [^]
    and [$] (no [m] flag is used anywhere); [WordB] is [\b]. *)
Inductive regex : Type :=
| Empty
| Class (p : ascii -> bool)
| Cat (r1 r2 : regex)
| Or (r1 r2 : regex)
| Star (r : regex)
| Group (r : regex)
| Bol
| Eol
| WordB.

(** A point of the input: the character just before it ([None] at index
    0), the rest of the input, and the captures made so far. *)
Record mstate : Type := MState {
  m_prev : option ascii;
  m_rest : str;
  m_caps : list str
}.

Definition wordBefore (st : mstate) : bool :=
  match m_prev st with Some c => isWordChar c | None => false end.

Definition wordAfter (st : mstate) : bool :=
  match m_rest st with c :: _ => isWordChar c | [] => false end.

(** One more round of a greedy star: [body] is the matcher of the
    repeated expression; a round that consumes nothing is rejected, as in
    RepeatMatcher, and the shorter match is tried when the longer fails. *)
Fixpoint starLoop {A : Type}
    (body : mstate -> (mstate -> option A) -> option A)
    (fuel : nat) (st : mstate) (k : mstate -> option A) : option A :=
  match fuel with
  | O => k st
  | S fuel' =>
      match body st (fun st1 =>
              if length (m_rest st1) <? length (m_rest st)
              then starLoop body fuel' st1 k
              else None) with
      | Some a => Some a
      | None => k st
      end
  end.

(** The backtracking matcher, in continuation-passing style: [run r st k]
    matches [r] at [st] and hands the end point to [k]; alternatives are
    tried in the order of the specification (left first, longest first). *)
Fixpoint run {A : Type} (r : regex) (st : mstate)
    (k : mstate -> option A) : option A :=
  match r with
  | Empty => k st
  | Class p =>
      match m_rest st with
      | c :: s' => if p c then k (MState (Some c) s' (m_caps st)) else None
      | [] => None
      end
  | Cat r1 r2 => run r1 st (fun st1 => run r2 st1 k)
  | Or r1 r2 =>
      match run r1 st k with
      | Some a => Some a
      | None => run r2 st k
      end
  | Star r1 => starLoop (run r1) (length (m_rest st)) st k
  | Group r1 =>
      run r1 st (fun st1 =>
        k (MState (m_prev st1) (m_rest st1)
             (m_caps st1 ++
              [firstn (length (m_rest st) - length (m_rest st1)) (m_rest st)])))
  | Bol => match m_prev st with None => k st | Some _ => None end
  | Eol => match m_rest st with [] => k st | _ :: _ => None end
  | WordB => if xorb (wordBefore st) (wordAfter st) then k st else None
  end.

(** [re.exec(s)]: the captures of the leftmost match, [None] for [null]. *)
Fixpoint search (r : regex) (prev : option ascii) (s : str)
    : option (list str) :=
  match run r (MState prev s []) (fun st => Some (m_caps st)) with
  | Some caps => Some caps
  | None =>
      match s with
      | [] => None
      | c :: s' => search r (Some c) s'
      end
  end.

Definition exec (r : regex) (s : str) : option (list str) := search r None s.

Definition test (r : regex) (s : str) : bool :=
  match exec r s with Some _ => true | None => false end.

(** The first match with its extent: (start index, matched text, rest). *)
Fixpoint searchSpan (r : regex) (prev : option ascii) (before : str) (s : str)
    : option (str * str * str) :=
  match run r (MState prev s []) (fun st => Some (m_rest st)) with
  | Some rest =>
      Some (rev before, firstn (length s - length rest) s, rest)
  | None =>
      match s with
      | [] => None
      | c :: s' => searchSpan r (Some c) (c :: before) s'
      end
  end.

(** [s.replace(re, by)] for a pattern without the [g] flag and a
    replacement text without [$]. *)
Definition replace (r : regex) (s by_ : str) : str :=
  match searchSpan r None [] s with
  | Some (before, _, rest) => before ++ by_ ++ rest
  | None => s
  end.

(** Pattern syntax. *)
Definition chr (c : ascii) : regex := Class (Ascii.eqb c).
Definition ichr (c : ascii) : regex := Class (fun x => Ascii.eqb (toLower x) c).

Fixpoint chars (f : ascii -> regex) (s : str) : regex :=
  match s with
  | [] => Empty
  | c :: s' => Cat (f c) (chars f s')
  end.

(** A literal word, and the same word under the [i] flag. *)
Definition word (s : string) : regex := chars chr (lit s).
Definition iword (s : string) : regex := chars ichr (lit s).

Definition ws : regex := Class isWhiteSpace.                      (* \s *)
Definition wordChar : regex := Class isWordChar.                  (* \w *)
Definition digit : regex := Class isDigit.                        (* \d *)
Definition dot : regex := Class (fun c => negb (isLineTerminator c)). (* . *)
Definition Plus (r : regex) : regex := Cat r (Star r).            (* r+ *)
Definition Opt (r : regex) : regex := Or r Empty.                 (* r? *)

Fixpoint cat (rs : list regex) : regex :=
  match rs with
  | [] => Empty
  | [r] => r
  | r :: rs' => Cat r (cat rs')
  end.

Fixpoint alt (rs : list regex) : regex :=
  match rs with
  | [] => Class (fun _ => false)
  | [r] => r
  | r :: rs' => Or r (alt rs')
  end.

(** A pattern without a capturing group. *)
Fixpoint groupFree (r : regex) : bool :=
  match r with
  | Group _ => false
  | Cat r1 r2 | Or r1 r2 => groupFree r1 && groupFree r2
  | Star r1 => groupFree r1
  | _ => true
  end.

(** Strings of whitespace, and strings that start with a character that
    is not whitespace. *)
Definition allWs (w : str) : Prop := Forall (fun c => isWhiteSpace c = true) w.

Definition solidHead (s : str) : Prop :=
  exists c r, s = c :: r /\ isWhiteSpace c = false.

(** ** The matches of a pattern, as a relation

    [steps r st st'] holds when [r] matches the input from the point [st]
    to the point [st'].  The matcher finds a match exactly when there is
    one (lemmas [run_sound] and [run_complete] below). *)
Inductive steps : regex -> mstate -> mstate -> Prop :=
| StepEmpty : forall st, steps Empty st st
| StepClass : forall p prev c s caps,
    p c = true ->
    steps (Class p) (MState prev (c :: s) caps) (MState (Some c) s caps)
| StepCat : forall r1 r2 st st1 st2,
    steps r1 st st1 -> steps r2 st1 st2 -> steps (Cat r1 r2) st st2
| StepOrL : forall r1 r2 st st',
    steps r1 st st' -> steps (Or r1 r2) st st'
| StepOrR : forall r1 r2 st st',
    steps r2 st st' -> steps (Or r1 r2) st st'
| StepStarStop : forall r st, steps (Star r) st st
| StepStarMore : forall r st st1 st2,
    steps r st st1 ->
    length (m_rest st1) < length (m_rest st) ->
    steps (Star r) st1 st2 ->
    steps (Star r) st st2
| StepGroup : forall r st st1,
    steps r st st1 ->
    steps (Group r) st
      (MState (m_prev st1) (m_rest st1)
         (m_caps st1 ++
          [firstn (length (m_rest st) - length (m_rest st1)) (m_rest st)]))
| StepBol : forall st, m_prev st = None -> steps Bol st st
| StepEol : forall st, m_rest st = [] -> steps Eol st st
| StepWordB : forall st,
    xorb (wordBefore st) (wordAfter st) = true -> steps WordB st st.

End JS.

(* ================================================================== *)
(** * The language server, [src/server.ts]                             *)
(* ================================================================== *)

Module Server.
Import JS.

(** ** Documents, settings, protocol values *)

(** A document is the list of its line texts: [lineAt doc i] is the text
    of line [i] without its line break, the empty string past the end.
    An open document has at least one line. *)
Definition TextDocument := list str.

Definition lineCount (doc : TextDocument) : nat := length doc.
Definition lineAt (doc : TextDocument) (line : nat) : str := nth line doc [].

Inductive LintLevel : Type := off | hint | warning | error.

Record RoopSettings : Type := {
  format_enabled : bool;
  format_indentSize : Z;
  lint_missingColon : LintLevel;
  lint_unbalancedTask : LintLevel;
  completion_extraKeywords : list str
}.

Definition defaultSettings : RoopSettings := {|
  format_enabled := true;
  format_indentSize := 2;
  lint_missingColon := hint;
  lint_unbalancedTask := warning;
  completion_extraKeywords := []
|}.

Inductive DiagnosticSeverity : Type :=
  SevError | SevWarning | SevInformation | SevHint.

Definition toSeverity (level : LintLevel) : option DiagnosticSeverity :=
  match level with
  | hint => Some SevHint
  | warning => Some SevWarning
  | error => Some SevError
  | off => None
  end.

Definition isOff (level : LintLevel) : bool :=
  match level with off => true | _ => false end.

Record Position : Type := { line : nat; character : Z }.
Record Range : Type := { range_start : Position; range_end : Position }.

Definition makeRange (ln : nat) (startChar endChar : Z) : Range :=
  {| range_start := {| line := ln; character := startChar |};
     range_end := {| line := ln; character := endChar |} |}.

(** The three message templates of the diagnostics pass, with their
    arguments:
    - [Block header should end with ':'];
    - [Unbalanced tasks: found <starts> 'start task' and <ends> 'end task'.];
    - [Unrecognized leading verb '<v>'.] *)
Inductive Message : Type :=
| MissingColon
| UnbalancedTask (starts ends : nat)
| UnrecognizedVerb (v : str).

Record Diagnostic : Type := {
  severity : option DiagnosticSeverity;
  message : Message;
  range : Range
}.

Definition isMissingColon (d : Diagnostic) : bool :=
  match message d with MissingColon => true | _ => false end.

Definition isUnbalancedTask (d : Diagnostic) : bool :=
  match message d with UnbalancedTask _ _ => true | _ => false end.

(** A missing-colon diagnostic on line [i]. *)
Definition missingColonAt (i : nat) (d : Diagnostic) : bool :=
  isMissingColon d && (line (range_start (range d)) =? i).

(** What a handler sends to the client besides its result. *)
Inductive Notification : Type :=
| PublishDiagnostics (diagnostics : list Diagnostic).

(** ** Language catalog *)

Definition DIRECTIVES : list str := map lit ["import"; "include"; "pragma"]%string.

Definition STRUCTURAL : list str := map lit
  ["start task"; "end task"; "template task"; "context"; "use module";
   "define"; "run"; "call"; "await run"; "detached run"; "assign";
   "dispatch task"; "synchronize"]%string.

Definition CONTROL : list str := map lit
  ["when"; "on"; "if"; "elseif"; "else"; "repeat"; "while"; "for";
   "parallel"; "at time";
   "break"; "continue"; "exit"; "abort"; "retry"; "fallback"]%string.

Definition EVENTS : list str := map lit
  ["failure"; "success"; "timeout"; "deviation"; "interruption"]%string.

Definition OPERATORS : list str := map lit
  ["and"; "or"; "not"; "is"; "exists"; "near"; "on"; "in"; "before";
   "after"; "within"; "confidently"; "probably"; "similar to"; "anchor on";
   "relative to"]%string.

Definition ACTIONS : list (str * list str) :=
  map (fun e => (lit (fst e), map lit (snd e)))
  [ ("Perception",
      ["detect"; "scan"; "observe"; "track"; "classify"; "identify";
       "localize"; "map"; "estimate"]);
    ("Navigation",
      ["move"; "navigate"; "go to"; "approach"; "follow"; "back off";
       "retreat"; "avoid"; "dock"; "undock"; "align"; "orient"; "set speed"]);
    ("Manipulation",
      ["grasp"; "release"; "pick"; "place"; "push"; "pull"; "press"; "turn";
       "flip"; "slide"; "insert"; "remove"; "pour"; "fill"; "empty"; "stir";
       "scoop"; "shake"; "tighten"; "loosen"; "open"; "close"; "lock";
       "unlock"]);
    ("Environment",
      ["turn on"; "turn off"; "dim"; "brighten"; "toggle"; "set temperature";
       "ventilate"; "humidify"]);
    ("Household",
      ["clean"; "wipe"; "wash"; "rinse"; "dry"; "vacuum"; "mop"; "sweep";
       "sanitize"; "disinfect"; "sort"; "stack"; "fold"]);
    ("Kitchen",
      ["cook"; "bake"; "boil"; "fry"; "heat"; "cool"; "brew"; "serve";
       "deliver"]);
    ("Logistics",
      ["fetch"; "bring"; "collect"; "carry"; "transfer"; "handover"]);
    ("Communication",
      ["say"; "display"; "notify"; "ask"; "expect"; "wait for"; "log";
       "play"; "pause"; "stop"; "resume"; "record"; "capture"; "photograph";
       "stream"]);
    ("Measurement",
      ["measure"; "weigh"; "sample"; "analyze"; "test"; "calibrate";
       "self-check"]);
    ("Maintenance",
      ["charge"; "start module"; "stop module"; "restart module"]);
    ("Multi-robot",
      ["assign"; "dispatch"; "synchronize"; "coordinate"; "share map"]);
    ("Data & Memory", ["remember"; "recall"; "store"; "load"]);
    ("Safety", ["emergency stop"; "yield"; "wait"]);
    ("Planning", ["plan"; "plan path"; "plan grasp"]) ]%string.

Definition ALL_MULTIWORD_STARTERS : list str :=
  DIRECTIVES ++ STRUCTURAL ++ CONTROL ++ OPERATORS ++ map lit
  ["turn on"; "turn off"; "go to"; "back off"; "set speed"; "emergency stop";
   "plan path"; "plan grasp"; "wait for"; "at time"; "dispatch task"]%string.

Definition SINGLE_WORD_STARTERS : list str := map lit
  ["let"; "say"; "move"; "grasp"; "release"; "display"; "notify"; "ask";
   "expect"; "log"; "detect"; "scan"; "observe"; "track"; "classify";
   "identify"; "localize"; "map"; "navigate"; "approach"; "follow";
   "retreat"; "avoid"; "dock"; "undock"; "align"; "orient"; "push"; "pull";
   "press"; "turn"; "flip"; "slide"; "insert"; "remove"; "pour"; "fill";
   "empty"; "stir"; "scoop"; "shake"; "tighten"; "loosen"; "open"; "close";
   "lock"; "unlock"; "clean"; "wipe"; "wash"; "rinse"; "dry"; "vacuum";
   "mop"; "sweep"; "sanitize"; "disinfect"; "sort"; "stack"; "fold"; "cook";
   "bake"; "boil"; "fry"; "heat"; "cool"; "brew"; "serve"; "deliver";
   "fetch"; "bring"; "collect"; "carry"; "transfer"; "handover"; "play";
   "pause"; "stop"; "resume"; "record"; "capture"; "photograph"; "stream";
   "measure"; "weigh"; "sample"; "analyze"; "test"; "calibrate"; "charge";
   "assign"; "dispatch"; "synchronize"; "coordinate"; "remember"; "recall";
   "store"; "load"; "yield"; "wait"; "plan"; "run"; "call"; "define";
   "context"; "template"; "start"; "end"; "use"; "import"; "include";
   "pragma"; "abort"; "retry"; "fallback"; "break"; "continue"; "exit";
   "parallel"; "if"; "elseif"; "else"; "when"; "on"; "while"; "repeat";
   "for"]%string.

(** ** Utilities

    Each pattern is quoted above its definition; where the source has a
    star directly before a closing parenthesis, the quotation puts a space
    between the two. *)

(** [/^\/\//] *)
Definition RE_COMMENT : regex := cat [Bol; chr "/"; chr "/"].

(** [/^(when\b.*|on\s+\w+|if\b.*|elseif\b.*|else\b.*|repeat\b.*|while\b.*|for\b.*|parallel\b.*|template\s+task\b.* )$/] *)
Definition RE_COLON_CANDIDATE : regex :=
  cat [Bol;
       Group (alt [cat [word "when"; WordB; Star dot];
                   cat [word "on"; Plus ws; Plus wordChar];
                   cat [word "if"; WordB; Star dot];
                   cat [word "elseif"; WordB; Star dot];
                   cat [word "else"; WordB; Star dot];
                   cat [word "repeat"; WordB; Star dot];
                   cat [word "while"; WordB; Star dot];
                   cat [word "for"; WordB; Star dot];
                   cat [word "parallel"; WordB; Star dot];
                   cat [word "template"; Plus ws; word "task"; WordB;
                        Star dot]]);
       Eol].

(** Lines that should end with [':'] according to the block rules. *)
Definition endsWithColonCandidate (ln : str) : bool :=
  let trimmed := trim ln in
  if test RE_COMMENT trimmed || (length trimmed =? 0) then false
  else test RE_COLON_CANDIDATE trimmed.

(** [/^\s*start\s+task\b/] and [/^\s*end\s+task\b/] *)
Definition RE_START_TASK : regex :=
  cat [Bol; Star ws; word "start"; Plus ws; word "task"; WordB].
Definition RE_END_TASK : regex :=
  cat [Bol; Star ws; word "end"; Plus ws; word "task"; WordB].

Definition isStartTask (ln : str) : bool := test RE_START_TASK ln.
Definition isEndTask (ln : str) : bool := test RE_END_TASK ln.

Definition multi : list str := map lit
  ["dispatch task"; "await run"; "detached run"; "start task"; "end task";
   "turn on"; "turn off"; "go to"; "back off"; "set speed"; "at time";
   "plan path"; "plan grasp"]%string.

(** [/^([A-Za-z][A-Za-z\-]* )\b/] *)
Definition RE_FIRST_VERB : regex :=
  cat [Bol;
       Group (Cat (Class isAlpha)
                  (Star (Class (fun c => isAlpha c || Ascii.eqb c "-"))));
       WordB].

Definition firstVerb (ln : str) : option str :=
  let t := trim ln in
  if (length t =? 0) || startsWith t (lit "//") then None
  else
    match find (fun m => startsWith t (m ++ lit " ")
                         || str_eqb t m
                         || startsWith t (m ++ lit ":")
                         || startsWith t (m ++ [DQ])) multi with
    | Some m => Some m
    | None =>
        match exec RE_FIRST_VERB t with
        | Some (v :: _) => Some v
        | _ => None
        end
    end.

(** ** Diagnostics *)

(** The loops [for (let i = 0; i < doc.lineCount; i++)] over
    [lineAt(doc, i)] are recursions over the remaining lines, with the
    index [i] of the first of them. *)

(** 6.1 Missing colon on block headers. *)
Fixpoint missingColonLoop (sev : option DiagnosticSeverity) (i : nat)
    (lines : list str) : list Diagnostic :=
  match lines with
  | [] => []
  | text :: rest =>
      if endsWithColonCandidate text && negb (endsWith (trim text) (lit ":"))
      then {| severity := sev; message := MissingColon;
              range := makeRange i 0 (Z.of_nat (length text)) |}
           :: missingColonLoop sev (S i) rest
      else missingColonLoop sev (S i) rest
  end.

(** 6.2 The counters [starts] and [ends]. *)
Fixpoint countTasks (lines : list str) (starts ends : nat) : nat * nat :=
  match lines with
  | [] => (starts, ends)
  | t :: rest =>
      countTasks rest
        (if isStartTask t then S starts else starts)
        (if isEndTask t then S ends else ends)
  end.

Definition unbalancedTaskCheck (sev : option DiagnosticSeverity)
    (doc : TextDocument) : list Diagnostic :=
  let (starts, ends) := countTasks doc 0 0 in
  if negb (starts =? ends) then
    [ {| severity := sev; message := UnbalancedTask starts ends;
         range := makeRange 0 0 (Z.max 1 (Z.of_nat (length (lineAt doc 0)))) |} ]
  else [].

(** 6.3 Unknown or unsupported top-level verb (soft hint). *)
Fixpoint unknownVerbLoop (extraKeywords : list str) (i : nat)
    (lines : list str) : list Diagnostic :=
  match lines with
  | [] => []
  | raw :: rest =>
      let text := trim raw in
      if isEmpty text || startsWith text (lit "//")
         || startsWith text [DQ] || startsWith text (lit "'")
      then unknownVerbLoop extraKeywords (S i) rest
      else
        match firstVerb text with
        | None => unknownVerbLoop extraKeywords (S i) rest
        | Some v =>
            if isEmpty v then unknownVerbLoop extraKeywords (S i) rest
            else
              let ok := includes SINGLE_WORD_STARTERS v
                        || includes ALL_MULTIWORD_STARTERS v in
              let ok := if negb ok && negb (length extraKeywords =? 0)
                        then includes extraKeywords v else ok in
              if negb ok then
                {| severity := Some SevHint; message := UnrecognizedVerb v;
                   range := makeRange i (indexOf raw v)
                              (indexOf raw v + Z.of_nat (length v)) |}
                :: unknownVerbLoop extraKeywords (S i) rest
              else unknownVerbLoop extraKeywords (S i) rest
        end
  end.

(** The diagnostics computed for a document, in the order they are pushed. *)
Definition diagnosticsOf (globalSettings : RoopSettings)
    (doc : TextDocument) : list Diagnostic :=
  (if negb (isOff (lint_missingColon globalSettings))
   then missingColonLoop (toSeverity (lint_missingColon globalSettings)) 0 doc
   else [])
  ++ (if negb (isOff (lint_unbalancedTask globalSettings))
      then unbalancedTaskCheck
             (toSeverity (lint_unbalancedTask globalSettings)) doc
      else [])
  ++ unknownVerbLoop (completion_extraKeywords globalSettings) 0 doc.

(** [validateTextDocument] ends in [connection.sendDiagnostics]. *)
Definition validateTextDocument (globalSettings : RoopSettings)
    (doc : TextDocument) : list Notification :=
  [PublishDiagnostics (diagnosticsOf globalSettings doc)].

(** ** Completion *)

Inductive CompletionItemKind : Type :=
  KindSnippet | KindKeyword | KindFunction | KindOperator.

(** A completion item.  The [documentation] that [push] attaches from the
    [DOCS] table is a function of the label alone and is left out. *)
Record CompletionItem : Type := {
  label : str;
  kind : CompletionItemKind;
  sortText : str;
  detail : option str;
  insertText : option str
}.

(** The local [push(label, kind, detail?, insertText?, sort = "z")]. *)
Definition push (lbl : str) (k : CompletionItemKind) (det ins : option str)
    (sort : option str) : CompletionItem :=
  {| label := lbl; kind := k;
     sortText := match sort with Some x => x | None => lit "z" end;
     detail := det; insertText := ins |}.

Definition RE_BLANK : regex := cat [Bol; Star ws; Eol].          (* /^\s*$/ *)
Definition RE_AFTER_ON : regex := cat [WordB; word "on"; Plus ws; Eol].
                                                                  (* /\bon\s+$/ *)
Definition RE_AFTER_USE : regex := cat [WordB; word "use"; Plus ws; Eol].
                                                                  (* /\buse\s+$/ *)
Definition RE_AFTER_REPEAT : regex :=
  cat [WordB; word "repeat"; Plus ws; Star digit; Star ws; Eol].
                                                         (* /\brepeat\s+\d*\s*$/ *)
Definition RE_AFTER_IF : regex := cat [WordB; word "if"; Plus ws; Eol].
                                                                  (* /\bif\s+$/ *)
Definition RE_AFTER_AT_TIME : regex :=
  cat [WordB; word "at"; Plus ws; word "time"; Star ws; Eol].
                                                           (* /\bat\s+time\s*$/ *)

Definition nl_tab_0 : str := LF :: TAB :: lit "$0".

(** 7.1 Context-aware snippets. *)
Definition contextItems (tillCursor : str) : list CompletionItem :=
  (if test RE_BLANK tillCursor then
     [ push (lit "start task") KindSnippet (Some (lit "Begin a task"))
         (Some (q "start task ~${1:TaskName}~" ++ nl_tab_0
                ++ LF :: lit "end task"))
         (Some (lit "a"));
       push (lit "when") KindKeyword (Some (lit "Event-triggered block"))
         (Some (lit "when ${1:predicate}:" ++ nl_tab_0)) (Some (lit "b"));
       push (lit "if") KindKeyword (Some (lit "Conditional block"))
         (Some (lit "if ${1:condition}:" ++ nl_tab_0)) (Some (lit "c"));
       push (lit "parallel") KindKeyword (Some (lit "Parallel block"))
         (Some (lit "parallel:" ++ nl_tab_0)) (Some (lit "d"));
       push (lit "repeat") KindKeyword (Some (lit "Repeat block"))
         (Some (lit "repeat ${1:3} times:" ++ nl_tab_0)) (Some (lit "e")) ]
   else [])
  ++ (if test RE_AFTER_ON tillCursor then
        map (fun e =>
               push (lit "on " ++ e ++ lit ":") KindKeyword
                 (Some (lit "Event branch"))
                 (Some (lit "on " ++ e ++ lit ":" ++ nl_tab_0))
                 (Some (lit "a")))
            EVENTS
      else [])
  ++ (if test RE_AFTER_USE tillCursor then
        [ push (lit "use module") KindKeyword
            (Some (lit "Declare a capability module"))
            (Some (q "use module ~${1:ModuleName}~")) (Some (lit "a")) ]
      else [])
  ++ (if test RE_AFTER_REPEAT tillCursor then
        [ push (lit "repeat N times:") KindSnippet
            (Some (lit "Fixed-count loop"))
            (Some (lit "repeat ${1:3} times:" ++ nl_tab_0)) (Some (lit "a")) ]
      else [])
  ++ (if test RE_AFTER_IF tillCursor then
        [ push (q "if object ~type~ with color ~c~ is on ~Area~:") KindSnippet
            (Some (lit "Perceptual condition"))
            (Some (q "if object ~${1:mug}~ with color ~${2:red}~ is on ~${3:Table}~:"
                   ++ nl_tab_0))
            (Some (lit "a")) ]
      else [])
  ++ (if test RE_AFTER_AT_TIME tillCursor then
        [ push (q "at time ~HH:MM~:") KindSnippet (Some (lit "Time trigger"))
            (Some (q "at time ~${1:08:00}~:" ++ nl_tab_0)) (Some (lit "a")) ]
      else []).

(** The friendly insert texts of 7.2: the first equal verb decides. *)
Definition friendlyInserts : list (str * str) :=
  [ (lit "say", q "say ~${1:text}~");
    (lit "display", q "display ~${1:text}~ on ~${2:Panel}~");
    (lit "notify", q "notify user ~${1:message}~");
    (lit "ask", q "ask ~${1:question}~ as ${2:variable}");
    (lit "expect", q "expect ${1:object ~name~} within ${2:10} seconds");
    (lit "wait for", lit "wait for ${1:event}");
    (lit "move", q "move ${1:Arm1} to ${2:~Target~}");
    (lit "grasp", lit "grasp with ${1:Gripper1}");
    (lit "release", lit "release with ${1:Gripper1}");
    (lit "detect",
       q "let ${1:var} = object ~${2:type}~ with ${3:attribute} ~${4:value}~");
    (lit "track", lit "track position of ${1:target} as ${2:var}");
    (lit "plan path", lit "plan path from ${1:Arm1} to ${2:Target}");
    (lit "plan grasp", lit "plan grasp for ${1:Target}") ].

Definition insertFor (v : str) : str :=
  match find (fun e => str_eqb v (fst e)) friendlyInserts with
  | Some e => snd e
  | None => v
  end.

(** 7.2 Action catalog completions. *)
Definition actionItems : list CompletionItem :=
  flat_map (fun entry =>
              let (category, verbs) := (entry : str * list str) in
              map (fun v =>
                     push v KindFunction (Some (category ++ lit " action"))
                       (Some (insertFor v)) None)
                  verbs)
           ACTIONS.

(** 7.3 Directives, structural keywords, operators, and the extra
    keywords configured by users. *)
Definition keywordItems (extras : list str) : list CompletionItem :=
  map (fun d => push d KindKeyword (Some (lit "Directive")) None None) DIRECTIVES
  ++ map (fun s => push s KindKeyword (Some (lit "Structural")) None None)
         STRUCTURAL
  ++ map (fun op => push op KindOperator (Some (lit "Operator")) None None)
         OPERATORS
  ++ map (fun x => push x KindKeyword (Some (lit "Custom keyword")) None None)
         extras.

(** [connection.onCompletion]: [doc] is [documents.get(uri)], [None] when
    the document is not open.  The handler sends nothing to the client. *)
Definition onCompletion (globalSettings : RoopSettings)
    (doc : option TextDocument) (pos : nat * nat)
    : list CompletionItem * list Notification :=
  match doc with
  | None => ([], [])
  | Some doc =>
      let lineText := lineAt doc (fst pos) in
      let tillCursor := slice0 lineText (snd pos) in
      (contextItems tillCursor
       ++ actionItems
       ++ keywordItems (completion_extraKeywords globalSettings),
       [])
  end.

(** ** Document symbols (task outline and templates) *)

Inductive SymbolKind : Type := SymModule | SymClass.

Record DocumentSymbol : Type := {
  name : str;
  symbolKind : SymbolKind;
  symbolRange : Range;
  selectionRange : Range
}.

(** An entry of the local [stack]. *)
Record Frame : Type := {
  frameName : str;
  startLine : nat;
  frameKind : SymbolKind
}.

Definition notDQ : regex := Class (fun c => negb (Ascii.eqb c DQ)).

(** [/^\s*start\s+task\s+DQ([^DQ]+)DQ/], with DQ the double quote. *)
Definition RE_SYMBOL_TASK : regex :=
  cat [Bol; Star ws; word "start"; Plus ws; word "task"; Plus ws;
       chr DQ; Group (Plus notDQ); chr DQ].

(** [/^\s*template\s+task\s+DQ([^DQ]+)DQ:/] *)
Definition RE_SYMBOL_TEMPLATE : regex :=
  cat [Bol; Star ws; word "template"; Plus ws; word "task"; Plus ws;
       chr DQ; Group (Plus notDQ); chr DQ; chr ":"].

(** [m?.[1]] when it is truthy (a non-empty string). *)
Definition group1 (m : option (list str)) : option str :=
  match m with
  | Some (g :: _) => if isEmpty g then None else Some g
  | _ => None
  end.

Definition symbolOf (doc : TextDocument) (last : Frame) (endLine : nat)
    : DocumentSymbol :=
  {| name := frameName last;
     symbolKind := frameKind last;
     symbolRange :=
       {| range_start := {| line := startLine last; character := 0 |};
          range_end := {| line := endLine;
                          character := Z.of_nat (length (lineAt doc endLine)) |} |};
     selectionRange :=
       {| range_start := {| line := startLine last; character := 0 |};
          range_end := {| line := startLine last;
                          character :=
                            Z.of_nat (length (lineAt doc (startLine last))) |} |}
  |}.

(** The scan of the lines: the symbols pushed, in order, and the stack
    left at the end (top first). *)
Fixpoint symbolLoop (doc : TextDocument) (i : nat) (lines : list str)
    (stack : list Frame) : list DocumentSymbol * list Frame :=
  match lines with
  | [] => ([], stack)
  | text :: rest =>
      match group1 (exec RE_SYMBOL_TASK text) with
      | Some title =>
          symbolLoop doc (S i) rest
            ({| frameName := title; startLine := i; frameKind := SymModule |}
             :: stack)
      | None =>
          match group1 (exec RE_SYMBOL_TEMPLATE text) with
          | Some title =>
              symbolLoop doc (S i) rest
                ({| frameName := lit "(template) " ++ title; startLine := i;
                    frameKind := SymClass |} :: stack)
          | None =>
              if test RE_END_TASK text then
                match stack with
                | last :: stack' =>
                    let (symbols, final) := symbolLoop doc (S i) rest stack' in
                    (symbolOf doc last i :: symbols, final)
                | [] => symbolLoop doc (S i) rest []
                end
              else symbolLoop doc (S i) rest stack
          end
      end
  end.

(** [connection.onDocumentSymbol]: unterminated blocks are closed at EOF
    for outline purposes. *)
Definition onDocumentSymbol (doc : option TextDocument) : list DocumentSymbol :=
  match doc with
  | None => []
  | Some doc =>
      let (symbols, stack) := symbolLoop doc 0 doc [] in
      let eofLine := lineCount doc - 1 in
      symbols ++ map (fun last => symbolOf doc last eofLine) stack
  end.

(** ** Folding ranges *)

Inductive FoldingRangeKind : Type := FoldRegion.

Record FoldingRange : Type := {
  foldStart : nat;
  foldEnd : nat;
  foldKind : option FoldingRangeKind
}.

(** The local [pushFold]: a fold is kept when it spans more than a line. *)
Definition pushFold (s e : nat) (k : option FoldingRangeKind)
    : list FoldingRange :=
  if s <? e then [ {| foldStart := s; foldEnd := e; foldKind := k |} ] else [].

(** Task folds: [taskStart] is the line of the last [start task] not yet
    folded, [None] for [null]. *)
Fixpoint taskFoldLoop (i : nat) (lines : list str) (taskStart : option nat)
    : list FoldingRange :=
  match lines with
  | [] => []
  | t :: rest =>
      if test RE_START_TASK t then taskFoldLoop (S i) rest (Some i)
      else if test RE_END_TASK t then
        match taskStart with
        | Some s => pushFold s i (Some FoldRegion) ++ taskFoldLoop (S i) rest None
        | None => taskFoldLoop (S i) rest taskStart
        end
      else taskFoldLoop (S i) rest taskStart
  end.

(** [/^(when\b.*:|on\s+\w+\s*:|if\b.*:|elseif\b.*:|else\s*:|repeat\b.*:|while\b.*:|for\b.*:|parallel\s*:|template\s+task\b.*:)$/] *)
Definition RE_BLOCK_HEADER : regex :=
  cat [Bol;
       Group (alt [cat [word "when"; WordB; Star dot; chr ":"];
                   cat [word "on"; Plus ws; Plus wordChar; Star ws; chr ":"];
                   cat [word "if"; WordB; Star dot; chr ":"];
                   cat [word "elseif"; WordB; Star dot; chr ":"];
                   cat [word "else"; Star ws; chr ":"];
                   cat [word "repeat"; WordB; Star dot; chr ":"];
                   cat [word "while"; WordB; Star dot; chr ":"];
                   cat [word "for"; WordB; Star dot; chr ":"];
                   cat [word "parallel"; Star ws; chr ":"];
                   cat [word "template"; Plus ws; word "task"; WordB;
                        Star dot; chr ":"]]);
       Eol].

(** The words a block header starts with. *)
Definition headerWords : list str := map lit
  ["when"; "on"; "if"; "elseif"; "else"; "repeat"; "while"; "for";
   "parallel"; "template"]%string.

(** Block folds: a header line is pushed; a blank line closes the last
    open block at the line before it ("close on blank lines for
    stability").  A pop follows a push on an earlier line, so [i - 1] is a
    line number. *)
Fixpoint blockFoldLoop (i : nat) (lines : list str) (stack : list nat)
    : list FoldingRange * list nat :=
  match lines with
  | [] => ([], stack)
  | ln :: rest =>
      let t := trim ln in
      if test RE_BLOCK_HEADER t then blockFoldLoop (S i) rest (i :: stack)
      else if test RE_BLANK t then
        match stack with
        | s :: stack' =>
            let (folds, final) := blockFoldLoop (S i) rest stack' in
            (pushFold s (i - 1) None ++ folds, final)
        | [] => blockFoldLoop (S i) rest stack
        end
      else blockFoldLoop (S i) rest stack
  end.

(** [connection.onFoldingRanges]: the remaining blocks are closed at EOF. *)
Definition onFoldingRanges (doc : option TextDocument) : list FoldingRange :=
  match doc with
  | None => []
  | Some doc =>
      let (blockFolds, stack) := blockFoldLoop 0 doc [] in
      let eof := lineCount doc - 1 in
      taskFoldLoop 0 doc None
      ++ blockFolds
      ++ flat_map (fun s => pushFold s eof None) stack
  end.

(** ** Formatting (indentation and block headers) *)

Record TextEdit : Type := { editRange : Range; newText : str }.

Definition RE_FMT_END_TASK : regex :=                  (* /^end\s+task\b/ *)
  cat [Bol; word "end"; Plus ws; word "task"; WordB].
Definition RE_FMT_START_TASK : regex :=              (* /^start\s+task\b/ *)
  cat [Bol; word "start"; Plus ws; word "task"; WordB].
(** [/^(elseif\b.*:|else\s*:)$/] *)
Definition RE_FMT_TRANSITIONAL : regex :=
  cat [Bol;
       Group (alt [cat [word "elseif"; WordB; Star dot; chr ":"];
                   cat [word "else"; Star ws; chr ":"]]);
       Eol].

(** Pre-decrease for certain tokens. *)
Definition preDecrease (level : Z) (trimmed : str) : Z :=
  if test RE_FMT_END_TASK trimmed then Z.max 0 (level - 1)
  else if test RE_FMT_TRANSITIONAL trimmed then Z.max 0 (level - 1)
  else level.

(** Post-increase for block starters. *)
Definition postIncrease (level : Z) (trimmed : str) : Z :=
  if test RE_FMT_START_TASK trimmed then level + 1
  else if test RE_BLOCK_HEADER trimmed then level + 1
  else level.

(** The text of a line behind its padding: the colon is ensured on
    common block headers if missing. *)
Definition ensureColon (trimmed : str) : str :=
  if endsWithColonCandidate trimmed && negb (endsWith trimmed (lit ":"))
  then trimmed ++ lit ":" else trimmed.

(** The loop of the formatter; [None] when [" ".repeat] throws. *)
Fixpoint formatLoop (indentSize : Z) (level : Z) (lines : list str)
    : option (list str) :=
  match lines with
  | [] => Some []
  | t :: rest =>
      let trimmed := trim t in
      let level := preDecrease level trimmed in
      match repeat (lit " ") (level * indentSize) with
      | None => None
      | Some pad =>
          let t := pad ++ ensureColon trimmed in
          match formatLoop indentSize (postIncrease level trimmed) rest with
          | None => None
          | Some out => Some (t :: out)
          end
      end
  end.

(** The level at which each line is written, in the same loop. *)
Fixpoint levelTrace (level : Z) (lines : list str) : list Z :=
  match lines with
  | [] => []
  | t :: rest =>
      let trimmed := trim t in
      let level := preDecrease level trimmed in
      level :: levelTrace (postIncrease level trimmed) rest
  end.

(** The value of [level] after the loop has run over [lines]. *)
Fixpoint levelAfter (level : Z) (lines : list str) : Z :=
  match lines with
  | [] => level
  | t :: rest =>
      let trimmed := trim t in
      levelAfter (postIncrease (preDecrease level trimmed) trimmed) rest
  end.

Definition fullRange (doc : TextDocument) : Range :=
  {| range_start := {| line := 0; character := 0 |};
     range_end := {| line := lineCount doc - 1;
                     character :=
                       Z.of_nat (length (lineAt doc (lineCount doc - 1))) |} |}.

(** [connection.onDocumentFormatting]: one edit that replaces the whole
    text; [None] stands for the exception of [repeat]. *)
Definition onDocumentFormatting (globalSettings : RoopSettings)
    (doc : option TextDocument) : option (list TextEdit) :=
  match doc with
  | None => Some []
  | Some doc =>
      if negb (format_enabled globalSettings) then Some []
      else
        match formatLoop (format_indentSize globalSettings) 0 doc with
        | None => None
        | Some lines =>
            Some [ {| editRange := fullRange doc; newText := join lines |} ]
        end
  end.

(** The document after the client has applied the edits of the formatter:
    the single edit replaces the full range. *)
Definition applyFormatting (doc : TextDocument) (edits : list TextEdit)
    : TextDocument :=
  match edits with
  | [] => doc
  | e :: _ => splitLines (newText e)
  end.

(** The document after a formatting request. *)
Definition formatDocument (globalSettings : RoopSettings)
    (doc : TextDocument) : option TextDocument :=
  match onDocumentFormatting globalSettings (Some doc) with
  | Some edits => Some (applyFormatting doc edits)
  | None => None
  end.

(** ** Code actions (quick fixes) *)

(** The text by which the quick fix ["Add ':' to block header"] replaces
    the line of a missing-colon diagnostic. *)
Definition addColonFix (text : str) : str := trimEnd text ++ lit ":".

(** The document after the client has applied that fix at line [i]. *)
Fixpoint fixLine (doc : TextDocument) (i : nat) : TextDocument :=
  match doc, i with
  | [], _ => []
  | text :: rest, O => addColonFix text :: rest
  | text :: rest, S i' => text :: fixLine rest i'
  end.

End Server.

(* ================================================================== *)
(** * The client-side fallback, [src/extension.ts]                     *)
(* ================================================================== *)

Module Extension.
Import JS.

(** A [vscode.TextDocument] is the list of its line texts
    ([document.lineAt(i).text]). *)
Definition TextDocument := list str.

Definition lineCount (doc : TextDocument) : nat := length doc.
Definition lineText (doc : TextDocument) (i : nat) : str := nth i doc [].

Record Range : Type := {
  startLine : nat; startCharacter : nat;
  endLine : nat; endCharacter : nat
}.

(** [document.lineAt(i).range]: the line without its line break. *)
Definition lineRange (doc : TextDocument) (i : nat) : Range :=
  {| startLine := i; startCharacter := 0;
     endLine := i; endCharacter := length (lineText doc i) |}.

(** [line.isEmptyOrWhitespace] *)
Definition isEmptyOrWhitespace (text : str) : bool := forallb isWhiteSpace text.

(** ** Patterns (all with the [i] flag) *)

(** [/^\s*(?:(?:when|on|at|if|elseif|else|repeat|while|for|parallel|context|with\s+timeout|every|sync\s+when)\b.*:|(?:detached\s+run|await\s+run|run)\b.*:|template\s+task\b.*:|start\s+task\b.*(?::\s* )?$|fallback:)\s*$/i] *)
Definition INCREASE_INDENT_RE : regex :=
  cat [Bol; Star ws;
       alt [cat [alt [iword "when"; iword "on"; iword "at"; iword "if";
                      iword "elseif"; iword "else"; iword "repeat";
                      iword "while"; iword "for"; iword "parallel";
                      iword "context";
                      cat [iword "with"; Plus ws; iword "timeout"];
                      iword "every";
                      cat [iword "sync"; Plus ws; iword "when"]];
                 WordB; Star dot; chr ":"];
            cat [alt [cat [iword "detached"; Plus ws; iword "run"];
                      cat [iword "await"; Plus ws; iword "run"];
                      iword "run"];
                 WordB; Star dot; chr ":"];
            cat [iword "template"; Plus ws; iword "task"; WordB; Star dot;
                 chr ":"];
            cat [iword "start"; Plus ws; iword "task"; WordB; Star dot;
                 Opt (Cat (chr ":") (Star ws)); Eol];
            cat [iword "fallback"; chr ":"]];
       Star ws; Eol].

(** [/^\s*(?:end\s+task\b|elseif\b.*:|else:)\s*$/i] *)
Definition DECREASE_INDENT_RE : regex :=
  cat [Bol; Star ws;
       alt [cat [iword "end"; Plus ws; iword "task"; WordB];
            cat [iword "elseif"; WordB; Star dot; chr ":"];
            cat [iword "else"; chr ":"]];
       Star ws; Eol].

(** [/^\s*(?:when\b.*|on\b.*|at\b.*|if\b.*|elseif\b.*|else|repeat\b.*|while\b.*|for\b.*|parallel|context\b.*|with\s+timeout\b.*|every\b.*|sync\s+when\b.*|template\s+task\b.*|fallback)\s*:?\s*$/i] *)
Definition HEADER_MAY_REQUIRE_COLON_RE : regex :=
  cat [Bol; Star ws;
       alt [cat [iword "when"; WordB; Star dot];
            cat [iword "on"; WordB; Star dot];
            cat [iword "at"; WordB; Star dot];
            cat [iword "if"; WordB; Star dot];
            cat [iword "elseif"; WordB; Star dot];
            iword "else";
            cat [iword "repeat"; WordB; Star dot];
            cat [iword "while"; WordB; Star dot];
            cat [iword "for"; WordB; Star dot];
            iword "parallel";
            cat [iword "context"; WordB; Star dot];
            cat [iword "with"; Plus ws; iword "timeout"; WordB; Star dot];
            cat [iword "every"; WordB; Star dot];
            cat [iword "sync"; Plus ws; iword "when"; WordB; Star dot];
            cat [iword "template"; Plus ws; iword "task"; WordB; Star dot];
            iword "fallback"];
       Star ws; Opt (chr ":"); Star ws; Eol].

Definition RE_HAS_COLON : regex := cat [chr ":"; Star ws; Eol].   (* /:\s*$/ *)
Definition RE_TRAILING_WS : regex := cat [Star ws; Eol].          (* /\s*$/ *)

(** [startRe] and [endRe]: [/^\s*start\s+task\b/i], [/^\s*end\s+task\b/i]. *)
Definition startRe : regex :=
  cat [Bol; Star ws; iword "start"; Plus ws; iword "task"; WordB].
Definition endRe : regex :=
  cat [Bol; Star ws; iword "end"; Plus ws; iword "task"; WordB].

(** ** Diagnostics *)

(** [vscode.DiagnosticSeverity]: Error = 0, Warning = 1, Information = 2,
    Hint = 3. *)
Definition SeverityError : nat := 0.
Definition SeverityWarning : nat := 1.
Definition SeverityInformation : nat := 2.
Definition SeverityHint : nat := 3.

Inductive LintLevel : Type := hint | warning | error | off.

(** [toSeverity]: a [vscode.DiagnosticSeverity], or [0]. *)
Definition toSeverity (s : LintLevel) : nat :=
  match s with
  | hint => SeverityHint
  | warning => SeverityWarning
  | error => SeverityError
  | off => 0
  end.

(** A number used as a condition. *)
Definition truthy (n : nat) : bool := negb (n =? 0).

(** The message texts: [Block header is missing a trailing ':'],
    ["end task" without a matching "start task".] and
    ["start task" has no matching "end task".] *)
Inductive Message : Type :=
| MissingTrailingColon
| EndWithoutStart
| StartWithoutEnd.

Record Diagnostic : Type := {
  range : Range;
  message : Message;
  severity : nat
}.

Definition stripLineComment (text : str) : str :=
  let idx := indexOf text (lit "//") in
  trimEnd (if (0 <=? idx)%Z then slice0 text (Z.to_nat idx) else text).

(** The loop of [collectMissingColonDiagnostics]; [emitted] is
    [out.length], the result is what the loop pushes from line [i] on. *)
Fixpoint missingColonLoop (doc : TextDocument) (severity : nat) (budget : Z)
    (i : nat) (lines : list str) (emitted : nat) : list Diagnostic :=
  match lines with
  | [] => []
  | lineText_i :: rest =>
      if (Z.of_nat emitted <? budget)%Z then
        if isEmptyOrWhitespace lineText_i
        then missingColonLoop doc severity budget (S i) rest emitted
        else
          let text := trim (stripLineComment lineText_i) in
          if isEmpty text
          then missingColonLoop doc severity budget (S i) rest emitted
          else
            let looksHeader := test HEADER_MAY_REQUIRE_COLON_RE text in
            let hasColon := test RE_HAS_COLON text in
            if looksHeader && negb hasColon then
              {| range := lineRange doc i; message := MissingTrailingColon;
                 severity := severity |}
              :: missingColonLoop doc severity budget (S i) rest (S emitted)
            else missingColonLoop doc severity budget (S i) rest emitted
      else []
  end.

Definition collectMissingColonDiagnostics (doc : TextDocument)
    (severity : nat) (budget : Z) : list Diagnostic :=
  if (budget <=? 0)%Z then []
  else missingColonLoop doc severity budget 0 doc 0.

(** The first loop of [collectTaskBalanceDiagnostics]: what it pushes
    from line [i] on, and the stack it leaves (top first, each entry the
    line of a [start task]). *)
Fixpoint taskBalanceLoop (doc : TextDocument) (severity : nat) (budget : Z)
    (i : nat) (lines : list str) (stack : list nat) (emitted : nat)
    : list Diagnostic * list nat :=
  match lines with
  | [] => ([], stack)
  | lineText_i :: rest =>
      if (Z.of_nat emitted <? budget)%Z then
        let text := stripLineComment lineText_i in
        if isEmpty text
        then taskBalanceLoop doc severity budget (S i) rest stack emitted
        else if test startRe text
        then taskBalanceLoop doc severity budget (S i) rest (i :: stack) emitted
        else if test endRe text then
          match stack with
          | [] =>
              let (out, final) :=
                taskBalanceLoop doc severity budget (S i) rest [] (S emitted) in
              ({| range := lineRange doc i; message := EndWithoutStart;
                  severity := severity |} :: out, final)
          | _ :: stack' =>
              taskBalanceLoop doc severity budget (S i) rest stack' emitted
          end
        else taskBalanceLoop doc severity budget (S i) rest stack emitted
      else ([], stack)
  end.

(** The second loop: the openers left on the stack, innermost first. *)
Fixpoint drainStack (doc : TextDocument) (severity : nat) (budget : Z)
    (stack : list nat) (emitted : nat) : list Diagnostic :=
  match stack with
  | [] => []
  | unclosed :: stack' =>
      if (Z.of_nat emitted <? budget)%Z then
        {| range := lineRange doc unclosed; message := StartWithoutEnd;
           severity := severity |}
        :: drainStack doc severity budget stack' (S emitted)
      else []
  end.

Definition collectTaskBalanceDiagnostics (doc : TextDocument)
    (severity : nat) (budget : Z) : list Diagnostic :=
  if (budget <=? 0)%Z then []
  else
    let (out, stack) := taskBalanceLoop doc severity budget 0 doc [] 0 in
    out ++ drainStack doc severity budget stack (length out).

(** The [roop] section of the workspace configuration. *)
Record Configuration : Type := {
  validation_enable : bool;
  validation_maxProblems : Z;
  lint_missingColon_severity : LintLevel;
  lint_unbalancedTask_severity : LintLevel;
  format_indentSize : Z
}.

Definition defaultConfiguration : Configuration := {|
  validation_enable := true;
  validation_maxProblems := 200;
  lint_missingColon_severity := hint;
  lint_unbalancedTask_severity := warning;
  format_indentSize := 2
|}.

(** The configuration with [validation.maxProblems] set to [n]. *)
Definition withMaxProblems (cfg : Configuration) (n : Z) : Configuration :=
  {| validation_enable := validation_enable cfg;
     validation_maxProblems := n;
     lint_missingColon_severity := lint_missingColon_severity cfg;
     lint_unbalancedTask_severity := lint_unbalancedTask_severity cfg;
     format_indentSize := format_indentSize cfg |}.

(** What [validateDocument] does to the diagnostic collection. *)
Inductive CollectionUpdate : Type :=
| Untouched
| Delete
| SetDiagnostics (diags : list Diagnostic).

Definition published (u : CollectionUpdate) : list Diagnostic :=
  match u with SetDiagnostics diags => diags | _ => [] end.

Definition validateDocument (cfg : Configuration) (isRoop : bool)
    (doc : TextDocument) : CollectionUpdate :=
  if negb isRoop then Untouched
  else if negb (validation_enable cfg) then Delete
  else
    let maxProblems := Z.max 1 (validation_maxProblems cfg) in
    let sevMissing := toSeverity (lint_missingColon_severity cfg) in
    let sevUnbalanced := toSeverity (lint_unbalancedTask_severity cfg) in
    let diags :=
      if truthy sevMissing
      then collectMissingColonDiagnostics doc sevMissing (maxProblems - 0)
      else [] in
    let diags :=
      if (Z.of_nat (length diags) <? maxProblems)%Z && truthy sevUnbalanced
      then diags ++ collectTaskBalanceDiagnostics doc sevUnbalanced
                      (maxProblems - Z.of_nat (length diags))
      else diags in
    SetDiagnostics diags.

(** ** Document formatter *)

Record TextEdit : Type := { editRange : Range; newText : str }.

(** The text of a line with its header colon normalised. *)
Definition normalize (text : str) : str :=
  let mayBeHeader := test HEADER_MAY_REQUIRE_COLON_RE (trim text) in
  let hasColon := test RE_HAS_COLON text in
  if mayBeHeader && negb hasColon
  then JS.replace RE_TRAILING_WS text (lit ":")
  else text.

Definition decrease (indentLevel : Z) (trimmed : str) : Z :=
  if test DECREASE_INDENT_RE trimmed && (0 <? indentLevel)%Z
  then indentLevel - 1 else indentLevel.

Definition increase (indentLevel : Z) (trimmed : str) : Z :=
  if test INCREASE_INDENT_RE trimmed then indentLevel + 1 else indentLevel.

(** The loop of [provideDocumentFormattingEdits]; [None] when
    [" ".repeat] throws. *)
Fixpoint formatLoop (indentSize : Z) (indentLevel : Z) (i : nat)
    (lines : list str) : option (list TextEdit) :=
  match lines with
  | [] => Some []
  | text :: rest =>
      let normalized := normalize text in
      let trimmed := trimStart normalized in
      let indentLevel := decrease indentLevel trimmed in
      match repeat (lit " ") (indentLevel * indentSize) with
      | None => None
      | Some desiredIndent =>
          let rebuilt := desiredIndent ++ trimmed in
          match formatLoop indentSize (increase indentLevel trimmed) (S i) rest
          with
          | None => None
          | Some edits =>
              if negb (str_eqb rebuilt text)
              then Some ({| editRange :=
                              {| startLine := i; startCharacter := 0;
                                 endLine := i;
                                 endCharacter := length text |};
                            newText := rebuilt |} :: edits)
              else Some edits
          end
      end
  end.

(** The indentation level at which each line is rebuilt. *)
Fixpoint levelTrace (indentLevel : Z) (lines : list str) : list Z :=
  match lines with
  | [] => []
  | text :: rest =>
      let trimmed := trimStart (normalize text) in
      let indentLevel := decrease indentLevel trimmed in
      indentLevel :: levelTrace (increase indentLevel trimmed) rest
  end.

Definition provideDocumentFormattingEdits (cfg : Configuration)
    (document : TextDocument) : option (list TextEdit) :=
  let indentSize := Z.max 2 (Z.min 8 (format_indentSize cfg)) in
  formatLoop indentSize 0 0 document.

(** The document after the editor has applied the edits: each edit
    replaces the text of one line. *)
Fixpoint replaceLine (doc : TextDocument) (i : nat) (text : str)
    : TextDocument :=
  match doc, i with
  | [], _ => []
  | _ :: rest, O => text :: rest
  | l :: rest, S i' => l :: replaceLine rest i' text
  end.

Definition applyEdits (doc : TextDocument) (edits : list TextEdit)
    : TextDocument :=
  fold_left (fun d e => replaceLine d (startLine (editRange e)) (newText e))
            edits doc.

(** The document after a formatting request. *)
Definition formatDocument (cfg : Configuration) (document : TextDocument)
    : option TextDocument :=
  match provideDocumentFormattingEdits cfg document with
  | Some edits => Some (applyEdits document edits)
  | None => None
  end.

End Extension.

(* ================================================================== *)
(** * Matched and unmatched task lines                                 *)
(* ================================================================== *)

(** What the specification means by an opener without a closer and by a
    closer without an opener, stated line by line over the roles of the
    lines, without a stack. *)
Module Outline.
Import JS.

Inductive Role : Type := Opens | Closes | Neutral.

Section Matching.
Variable role : str -> Role.

Definition opens (l : str) : bool :=
  match role l with Opens => true | _ => false end.
Definition closes (l : str) : bool :=
  match role l with Closes => true | _ => false end.

Definition depthStep (d : nat) (l : str) : nat :=
  match role l with
  | Opens => S d
  | Closes => pred d
  | Neutral => d
  end.

(** The number of openers still open after [lines], when [d] were open
    before them; a closer with nothing open leaves the count at 0. *)
Fixpoint depthFrom (d : nat) (lines : list str) : nat :=
  match lines with
  | [] => d
  | l :: rest => depthFrom (depthStep d l) rest
  end.

(** Line [i] is a closer and no opener is open when it appears, [d]
    openers being open before line 0. *)
Definition closerWithoutOpenerFrom (d : nat) (doc : list str) (i : nat)
    : bool :=
  closes (nth i doc []) && (depthFrom d (firstn i doc) =? 0).

(** The number of openers open just before line [i] of a document. *)
Definition depthBefore (doc : list str) (i : nat) : nat :=
  depthFrom 0 (firstn i doc).

(** An opener followed by [lines], with [d] further openers open above
    it, is still open after them. *)
Fixpoint staysOpen (d : nat) (lines : list str) : bool :=
  match lines with
  | [] => true
  | l :: rest =>
      match role l with
      | Opens => staysOpen (S d) rest
      | Closes => match d with
                  | O => false
                  | S d' => staysOpen d' rest
                  end
      | Neutral => staysOpen d rest
      end
  end.

(** Line [i] is an opener and no later closer matches it. *)
Definition openerWithoutCloser (doc : list str) (i : nat) : bool :=
  opens (nth i doc []) && staysOpen 0 (skipn (S i) doc).

Definition unmatchedClosersFrom (d : nat) (doc : list str) : list nat :=
  filter (closerWithoutOpenerFrom d doc) (seq 0 (length doc)).

Definition unmatchedClosers (doc : list str) : list nat :=
  unmatchedClosersFrom 0 doc.

Definition unmatchedOpeners (doc : list str) : list nat :=
  filter (openerWithoutCloser doc) (seq 0 (length doc)).

Definition countOpeners (doc : list str) : nat := length (filter opens doc).
Definition countClosers (doc : list str) : nat := length (filter closes doc).

(** The balance property of the specification: as many openers as
    closers, and every closer has an opener open when it appears. *)
Definition balanced (doc : list str) : Prop :=
  countOpeners doc = countClosers doc
  /\ forall i, i < length doc -> closes (nth i doc []) = true ->
               0 < depthBefore doc i.

(** The scan of a task stack over the roles of the lines, from line [i]
    on: the lines of the closers met with an empty stack, and the stack
    left at the end (top first).  A stepping stone of the proofs. *)
Fixpoint scan (i : nat) (lines : list str) (stack : list nat)
    : list nat * list nat :=
  match lines with
  | [] => ([], stack)
  | l :: rest =>
      match role l with
      | Opens => scan (S i) rest (i :: stack)
      | Closes =>
          match stack with
          | [] => let (cs, final) := scan (S i) rest [] in (i :: cs, final)
          | _ :: stack' => scan (S i) rest stack'
          end
      | Neutral => scan (S i) rest stack
      end
  end.
End Matching.

(** The roles of a line for the client-side task-balance check ... *)
Definition clientRole (l : str) : Role :=
  let text := Extension.stripLineComment l in
  if isEmpty text then Neutral
  else if test Extension.startRe text then Opens
  else if test Extension.endRe text then Closes
  else Neutral.

(** ... for the counters of the server's check ... *)
Definition serverRole (l : str) : Role :=
  if Server.isStartTask l then Opens
  else if Server.isEndTask l then Closes
  else Neutral.

(** ... and for the outline of the server, where an opener is a line
    [start task "<title>"] or [template task "<title>":]. *)
Definition outlineTitle (l : str) : option (str * Server.SymbolKind) :=
  match Server.group1 (exec Server.RE_SYMBOL_TASK l) with
  | Some title => Some (title, Server.SymModule)
  | None =>
      match Server.group1 (exec Server.RE_SYMBOL_TEMPLATE l) with
      | Some title => Some (lit "(template) " ++ title, Server.SymClass)
      | None => None
      end
  end.

Definition outlineRole (l : str) : Role :=
  match outlineTitle l with
  | Some _ => Opens
  | None => if test Server.RE_END_TASK l then Closes else Neutral
  end.

(** The diagnostics the specification asks of the client-side
    task-balance check: one per closer without opener, at that line, then
    one per opener without closer, at that line, innermost first. *)
Definition closerDiag (doc : Extension.TextDocument) (severity : nat)
    (i : nat) : Extension.Diagnostic :=
  {| Extension.range := Extension.lineRange doc i;
     Extension.message := Extension.EndWithoutStart;
     Extension.severity := severity |}.

Definition openerDiag (doc : Extension.TextDocument) (severity : nat)
    (i : nat) : Extension.Diagnostic :=
  {| Extension.range := Extension.lineRange doc i;
     Extension.message := Extension.StartWithoutEnd;
     Extension.severity := severity |}.

Definition taskDefects (doc : Extension.TextDocument) (severity : nat)
    : list Extension.Diagnostic :=
  map (closerDiag doc severity) (unmatchedClosers clientRole doc)
  ++ map (openerDiag doc severity) (rev (unmatchedOpeners clientRole doc)).

(** A line on which the client-side missing-colon check reports. *)
Definition needsColon (l : str) : bool :=
  negb (Extension.isEmptyOrWhitespace l)
  && (let text := trim (Extension.stripLineComment l) in
      negb (isEmpty text)
      && test Extension.HEADER_MAY_REQUIRE_COLON_RE text
      && negb (test Extension.RE_HAS_COLON text)).

Definition colonDiag (doc : Extension.TextDocument) (severity : nat)
    (i : nat) : Extension.Diagnostic :=
  {| Extension.range := Extension.lineRange doc i;
     Extension.message := Extension.MissingTrailingColon;
     Extension.severity := severity |}.

Definition colonDefects (doc : Extension.TextDocument) (severity : nat)
    : list Extension.Diagnostic :=
  map (colonDiag doc severity)
      (filter (fun i => needsColon (nth i doc [])) (seq 0 (length doc))).

(** The diagnostics of the client-side validator before any budget. *)
Definition allDefects (cfg : Extension.Configuration)
    (doc : Extension.TextDocument) : list Extension.Diagnostic :=
  let sevMissing :=
    Extension.toSeverity (Extension.lint_missingColon_severity cfg) in
  let sevUnbalanced :=
    Extension.toSeverity (Extension.lint_unbalancedTask_severity cfg) in
  (if Extension.truthy sevMissing then colonDefects doc sevMissing else [])
  ++ (if Extension.truthy sevUnbalanced then taskDefects doc sevUnbalanced
      else []).

(** Whitespace-only and comment-only lines. *)
Definition isBlank (l : str) : bool := isEmpty (trim l).
Definition isCommentOnly (l : str) : bool := startsWith (trim l) (lit "//").
Definition isTransparent (l : str) : bool := isBlank l || isCommentOnly l.

(** The lines that are neither, and the levels given to them. *)
Definition solidLines (doc : list str) : list str :=
  filter (fun l => negb (isTransparent l)) doc.

Definition solidLevels (doc : list str) (levels : list Z) : list Z :=
  map snd (filter (fun p => negb (isTransparent (fst p))) (combine doc levels)).

End Outline.

(* ================================================================== *)
(** * Indentation levels                                               *)
(* ================================================================== *)

(** The single pass of the two formatters over the lines, reduced to its
    level: a line that steps back is written one level up (never above
    level 0), and a line that opens a block puts the lines after it one
    level down. *)
Module Nesting.
Import JS.

(** The lines at which the formatter of the server steps back and opens
    a block ... *)
Definition serverDecreases (l : str) : bool :=
  test Server.RE_FMT_END_TASK (trim l)
  || test Server.RE_FMT_TRANSITIONAL (trim l).

Definition serverIncreases (l : str) : bool :=
  test Server.RE_FMT_START_TASK (trim l) || test Server.RE_BLOCK_HEADER (trim l).

(** ... and those of the formatter of the client. *)
Definition clientDecreases (l : str) : bool :=
  test Extension.DECREASE_INDENT_RE (trimStart (Extension.normalize l)).

Definition clientIncreases (l : str) : bool :=
  test Extension.INCREASE_INDENT_RE (trimStart (Extension.normalize l)).

Section Levels.
Variables dec inc : str -> bool.

Definition stepBack (level : Z) (l : str) : Z :=
  if dec l then Z.max 0 (level - 1) else level.

Definition stepIn (level : Z) (l : str) : Z :=
  if inc l then level + 1 else level.

Fixpoint trace (level : Z) (lines : list str) : list Z :=
  match lines with
  | [] => []
  | l :: rest => stepBack level l :: trace (stepIn (stepBack level l) l) rest
  end.

Fixpoint levelAfter (level : Z) (lines : list str) : Z :=
  match lines with
  | [] => level
  | l :: rest => levelAfter (stepIn (stepBack level l) l) rest
  end.

(** The depth behind [lines], counted from [depth] without any level: a
    line that steps back leaves a block, a line that opens enters one, a
    transitional header does both.  [None] when a line steps back with no
    block left to leave. *)
Fixpoint depthBehind (depth : nat) (lines : list str) : option nat :=
  match lines with
  | [] => Some depth
  | l :: rest =>
      if dec l then
        match depth with
        | 0 => None
        | S d => depthBehind (if inc l then S d else d) rest
        end
      else depthBehind (if inc l then S depth else depth) rest
  end.

(** The lines strictly between line [i] and line [j]. *)
Definition linesBetween (doc : list str) (i j : nat) : list str :=
  firstn (j - S i) (skipn (S i) doc).

(** Between the opener at line [i] and line [j] every block that is
    opened is left again: inside the block of line [i] (depth 1) the lines
    between end inside a block at that depth.  Lines that neither step
    back nor open leave the depth as it is. *)
Definition closedBetween (doc : list str) (i j : nat) : Prop :=
  depthBehind 1 (linesBetween doc i j) = Some 1.

(** Indent-outdent: what a pass that keeps one level, and no stack of
    open blocks, gives the lines of [doc]:
    - no level is negative;
    - adjacent lines differ by at most one level;
    - the line after a line that opens a block is one level deeper,
      unless it steps back itself;
    - a line that steps back (a transitional header or [end task]) is
      written one level below the level left by the line before it, and
      not below level 0;
    - so a line that steps back is written at the level of an opener
      before it when every block opened between the two is left again. *)
Definition IndentOutdent (doc : list str) (levels : list Z) : Prop :=
  length levels = length doc
  /\ (forall i, i < length doc -> (0 <= nth i levels 0)%Z)
  /\ (forall i, S i < length doc ->
        (Z.abs (nth (S i) levels 0 - nth i levels 0) <= 1)%Z)
  /\ (forall i, S i < length doc ->
        inc (nth i doc []) = true -> dec (nth (S i) doc []) = false ->
        nth (S i) levels 0%Z = (nth i levels 0 + 1)%Z)
  /\ (forall i, S i < length doc ->
        dec (nth (S i) doc []) = true ->
        nth (S i) levels 0%Z
        = Z.max 0 (stepIn (nth i levels 0%Z) (nth i doc []) - 1))
  /\ (forall i j, i < j -> j < length doc ->
        inc (nth i doc []) = true ->
        closedBetween doc i j ->
        dec (nth j doc []) = true ->
        nth j levels 0%Z = nth i levels 0%Z).
End Levels.

End Nesting.

(* ================================================================== *)
(** * Task blocks of the outline                                       *)
(* ================================================================== *)

Module Blocks.
Import JS.

(** Lines [s] to [e] of [doc] are a task closed by its own [end task] at
    line [e] with no task line in between: no opener or closer of the
    outline and no [start task]. *)
Definition flatClosedTask (doc : list str) (s e : nat) : Prop :=
  s < e /\ e < length doc
  /\ test Server.RE_END_TASK (nth e doc []) = true
  /\ forall j, s < j -> j < e ->
       Outline.outlineRole (nth j doc []) = Outline.Neutral
       /\ Server.isStartTask (nth j doc []) = false.

Definition startOf (sym : Server.DocumentSymbol) : nat :=
  Server.line (Server.range_start (Server.symbolRange sym)).

Definition endOf (sym : Server.DocumentSymbol) : nat :=
  Server.line (Server.range_end (Server.symbolRange sym)).

(** A frame or symbol of kind [kind] that starts at line [s] comes from a
    line [start task "<title>"] when it is a task. *)
Definition fromTaskLine (doc : Server.TextDocument) (kind : Server.SymbolKind)
    (s : nat) : Prop :=
  kind = Server.SymModule ->
  exists title,
    Server.group1 (exec Server.RE_SYMBOL_TASK (nth s doc [])) = Some title.

(** A folding range with the lines of the symbol. *)
Definition hasFold (folds : list Server.FoldingRange)
    (sym : Server.DocumentSymbol) : Prop :=
  exists f, In f folds
            /\ Server.foldStart f = startOf sym
            /\ Server.foldEnd f = endOf sym.

End Blocks.

(* ================================================================== *)
(** * Documents the formatter can leave alone                          *)
(* ================================================================== *)

Module Formatted.
Import JS.

(** Every header line of the colon-requiring shape has its colon. *)
Definition colonsPresent (doc : list str) : Prop :=
  Forall (fun l => Server.ensureColon (trim l) = trim l) doc.

(** No line holds a line break (the lines of a document never do). *)
Definition noLineBreaks (doc : list str) : Prop :=
  Forall (Forall (fun c => Ascii.eqb c LF = false /\ Ascii.eqb c CR = false))
         doc.

End Formatted.

From Stdlib Require Sorted QArith Qround DecimalString.

(* ================================================================== *)
(** * What the diagnostics pass of the server reports                  *)
(* ================================================================== *)

Module Checks.
Import JS.

(** A line on which the missing-colon check of the server reports, and
    the diagnostic it pushes for line [i]. *)
Definition serverNeedsColon (l : str) : bool :=
  Server.endsWithColonCandidate l && negb (endsWith (trim l) (lit ":")).

Definition missingColonDiag (settings : Server.RoopSettings)
    (doc : Server.TextDocument) (i : nat) : Server.Diagnostic :=
  {| Server.severity := Server.toSeverity (Server.lint_missingColon settings);
     Server.message := Server.MissingColon;
     Server.range :=
       Server.makeRange i 0 (Z.of_nat (length (Server.lineAt doc i))) |}.

(** The single diagnostic of the task counters. *)
Definition unbalancedDiag (settings : Server.RoopSettings)
    (doc : Server.TextDocument) : Server.Diagnostic :=
  {| Server.severity := Server.toSeverity (Server.lint_unbalancedTask settings);
     Server.message :=
       Server.UnbalancedTask (length (filter Server.isStartTask doc))
                             (length (filter Server.isEndTask doc));
     Server.range :=
       Server.makeRange 0 0
         (Z.max 1 (Z.of_nat (length (Server.lineAt doc 0)))) |}.

(** The settings with [completion.extraKeywords] set to [ks]. *)
Definition withExtraKeywords (settings : Server.RoopSettings)
    (ks : list str) : Server.RoopSettings :=
  {| Server.format_enabled := Server.format_enabled settings;
     Server.format_indentSize := Server.format_indentSize settings;
     Server.lint_missingColon := Server.lint_missingColon settings;
     Server.lint_unbalancedTask := Server.lint_unbalancedTask settings;
     Server.completion_extraKeywords := ks |}.

(** A diagnostic that is not about a verb of [ks]. *)
Definition notAbout (ks : list str) (d : Server.Diagnostic) : bool :=
  match Server.message d with
  | Server.UnrecognizedVerb v => negb (includes ks v)
  | _ => true
  end.

(** The verbs the pass knows without any setting. *)
Definition knownVerb (v : str) : bool :=
  includes Server.SINGLE_WORD_STARTERS v
  || includes Server.ALL_MULTIWORD_STARTERS v.

End Checks.

(* ================================================================== *)
(** * Ranges of symbols and folds                                      *)
(* ================================================================== *)

Module Ranges.
Import JS.

(** The order of positions, and the containment of ranges, of the
    language server protocol. *)
Definition posLe (p q : Server.Position) : Prop :=
  Server.line p < Server.line q
  \/ (Server.line p = Server.line q
      /\ (Server.character p <= Server.character q)%Z).

Definition contains (outer inner : Server.Range) : Prop :=
  posLe (Server.range_start outer) (Server.range_start inner)
  /\ posLe (Server.range_end inner) (Server.range_end outer).

(** A line that opens a symbol of the outline. *)
Definition opensSymbol (l : str) : bool :=
  match Outline.outlineTitle l with Some _ => true | None => false end.

(** A fold of the task kind, and the order of folds that follow one
    another without touching. *)
Definition isTaskFold (f : Server.FoldingRange) : bool :=
  match Server.foldKind f with Some Server.FoldRegion => true | None => false end.

Definition foldBefore (f g : Server.FoldingRange) : Prop :=
  Server.foldEnd f < Server.foldStart g.

End Ranges.

(* ================================================================== *)
(** * Code actions of the server                                       *)
(* ================================================================== *)

Module CodeActions.
Import JS.

(** A quick fix: its title is ["Add ':' to block header"] and its kind
    [CodeActionKind.QuickFix]; [fixes] is the field [diagnostics], [edit]
    the single text edit on the document. *)
Record CodeAction : Type := {
  fixes : list Server.Diagnostic;
  edit : Server.TextEdit
}.

(** [connection.onCodeAction]: [diagnostics] is
    [params.context.diagnostics].  A diagnostic gets a fix when its message
    is the one of the missing-colon check. *)
Definition onCodeAction (doc : option Server.TextDocument)
    (diagnostics : list Server.Diagnostic) : list CodeAction :=
  match doc with
  | None => []
  | Some doc =>
      flat_map
        (fun d =>
           match Server.message d with
           | Server.MissingColon =>
               let ln := Server.line (Server.range_start (Server.range d)) in
               let text := Server.lineAt doc ln in
               [ {| fixes := [d];
                    edit :=
                      {| Server.editRange :=
                           Server.makeRange ln 0 (Z.of_nat (length text));
                         Server.newText := trimEnd text ++ lit ":" |} |} ]
           | _ => []
           end)
        diagnostics
  end.

(** The document after the client has applied an edit that replaces a
    whole line of the document. *)
Fixpoint setLine (doc : Server.TextDocument) (i : nat) (text : str)
    : Server.TextDocument :=
  match doc, i with
  | [], _ => []
  | _ :: rest, O => text :: rest
  | l :: rest, S i' => l :: setLine rest i' text
  end.

Definition applyEdit (doc : Server.TextDocument) (e : Server.TextEdit)
    : Server.TextDocument :=
  setLine doc (Server.line (Server.range_start (Server.editRange e)))
          (Server.newText e).

(** A diagnostic that does not lie on line [i]. *)
Definition offLine (i : nat) (d : Server.Diagnostic) : bool :=
  negb (Server.line (Server.range_start (Server.range d)) =? i).

End CodeActions.

(* ================================================================== *)
(** * The settings of the server                                       *)
(* ================================================================== *)

Module Settings.
Import JS.

(** A number of a settings object.  Settings arrive as JSON: a number is
    a finite double, here the rational it denotes, or an infinity when
    the literal is out of range; it is never NaN. *)
Inductive Number : Type :=
| Finite (x : QArith_base.Q)
| PosInfinity
| NegInfinity.

(** A value found in the settings: [Strings] is an array (of strings),
    [Object] an object that is not an array.  Arrays with other members
    are outside the model. *)
Inductive Value : Type :=
| Undefined
| Null
| Boolean (b : bool)
| Num (n : Number)
| Str (s : str)
| Strings (l : list str)
| Object.

(** The five values the handler reads from [change.settings?.roop || {}],
    each [Undefined] when it or an object on its path is missing:
    [cfg.format?.enabled], [cfg.format?.indentSize],
    [cfg.lint?.missingColon?.severity], [cfg.lint?.unbalancedTask?.severity]
    and [cfg.completion?.extraKeywords]. *)
Record RawSettings : Type := {
  raw_enabled : Value;
  raw_indentSize : Value;
  raw_missingColon : Value;
  raw_unbalancedTask : Value;
  raw_extraKeywords : Value
}.

(** The object [{}]. *)
Definition noSettings : RawSettings :=
  {| raw_enabled := Undefined; raw_indentSize := Undefined;
     raw_missingColon := Undefined; raw_unbalancedTask := Undefined;
     raw_extraKeywords := Undefined |}.

(** A value used as a condition. *)
Definition truthy (v : Value) : bool :=
  match v with
  | Undefined | Null => false
  | Boolean b => b
  | Num (Finite x) => negb (QArith_base.Qnum x =? 0)%Z
  | Num _ => true
  | Str s => negb (isEmpty s)
  | Strings _ | Object => true
  end.

(** [clampInt]: [Math.floor] of a number, the default for any other
    value, brought between [min] and [max]. *)
Definition clampInt (v : Value) (min max def : Z) : Z :=
  match v with
  | Num (Finite x) => Z.max min (Z.min max (Qround.Qfloor x))
  | Num PosInfinity => Z.max min max
  | Num NegInfinity => min
  | _ => Z.max min (Z.min max def)
  end.

Definition validateLint (v : Value) (def : Server.LintLevel)
    : Server.LintLevel :=
  match v with
  | Str s =>
      if str_eqb s (lit "off") then Server.off
      else if str_eqb s (lit "hint") then Server.hint
      else if str_eqb s (lit "warning") then Server.warning
      else if str_eqb s (lit "error") then Server.error
      else def
  | _ => def
  end.

(** The new value of [globalSettings]. *)
Definition settingsOf (cfg : RawSettings) : Server.RoopSettings :=
  {| Server.format_enabled :=
       match raw_enabled cfg with
       | Undefined | Null => Server.format_enabled Server.defaultSettings
       | v => truthy v
       end;
     Server.format_indentSize :=
       clampInt (raw_indentSize cfg) 2 8
         (Server.format_indentSize Server.defaultSettings);
     Server.lint_missingColon :=
       validateLint (raw_missingColon cfg)
         (Server.lint_missingColon Server.defaultSettings);
     Server.lint_unbalancedTask :=
       validateLint (raw_unbalancedTask cfg)
         (Server.lint_unbalancedTask Server.defaultSettings);
     Server.completion_extraKeywords :=
       match raw_extraKeywords cfg with
       | Strings l => l
       | _ => []
       end |}.

(** [connection.onDidChangeConfiguration]: the new settings, and what is
    sent when all open documents are validated again. *)
Definition onDidChangeConfiguration (cfg : RawSettings)
    (openDocuments : list Server.TextDocument)
    : Server.RoopSettings * list Server.Notification :=
  let globalSettings := settingsOf cfg in
  (globalSettings,
   flat_map (Server.validateTextDocument globalSettings) openDocuments).

End Settings.

(* ================================================================== *)
(** * The word under the cursor                                        *)
(* ================================================================== *)

Module Words.
Import JS.

(** [/[A-Za-z0-9_\-]/] on one character. *)
Definition isWordish (ch : ascii) : bool :=
  isAlpha ch || isDigit ch || Ascii.eqb ch "_" || Ascii.eqb ch "-".

(** The loop of [scanBackward], from the value [i] on: [text[i - 1]] is
    [nth_error text j] for [i = S j], [None] when it is [undefined]. *)
Fixpoint scanBackward_loop (text : str) (i : nat) : nat :=
  match i with
  | O => O
  | S j =>
      match nth_error text j with
      | Some ch => if isWordish ch then scanBackward_loop text j else i
      | None => i
      end
  end.

(** [scanBackward]: an offset is a natural number, and [start - 1]
    stops at 0 as [Math.max(0, start - 1)] does. *)
Definition scanBackward (text : str) (start : nat) : nat :=
  scanBackward_loop text (Nat.max 0 (start - 1)).

(** The loop of [scanForward]: [rest] is the text from index [i] on, so
    [i < text.length] holds when [rest] is not empty. *)
Fixpoint scanForward_loop (rest : str) (i : nat) : nat :=
  match rest with
  | [] => i
  | ch :: rest' => if isWordish ch then scanForward_loop rest' (S i) else i
  end.

Definition scanForward (text : str) (start : nat) : nat :=
  scanForward_loop (skipn start text) start.

(** The two offsets [getWordRangeAt] turns into the range of the word. *)
Definition getWordSpan (text : str) (offset : nat) : nat * nat :=
  (scanBackward text offset, scanForward text offset).

End Words.

(* ================================================================== *)
(** * Matches anywhere in a text, and the formatter of the client      *)
(* ================================================================== *)

Module Anywhere.
Import JS.

(** The character before the point reached after reading [a], when
    [prev] was the character before [a]. *)
Definition prevAfter (prev : option ascii) (a : str) : option ascii :=
  fold_left (fun _ c => Some c) a prev.

End Anywhere.

Module Rebuilt.
Import JS.

(** The text [rebuilt] of each line in the loop of
    [provideDocumentFormattingEdits], whether it differs from the line
    or not; [None] when [" ".repeat] throws. *)
Fixpoint rebuiltLines (indentSize : Z) (indentLevel : Z) (lines : list str)
    : option (list str) :=
  match lines with
  | [] => Some []
  | text :: rest =>
      let trimmed := trimStart (Extension.normalize text) in
      let indentLevel := Extension.decrease indentLevel trimmed in
      match repeat (lit " ") (indentLevel * indentSize) with
      | None => None
      | Some desiredIndent =>
          match rebuiltLines indentSize
                  (Extension.increase indentLevel trimmed) rest with
          | None => None
          | Some out => Some ((desiredIndent ++ trimmed) :: out)
          end
      end
  end.

(** The lines of [doc] that differ from those of [out]. *)
Definition changedLines (doc out : list str) : list nat :=
  filter (fun i => negb (str_eqb (nth i out []) (nth i doc [])))
         (seq 0 (length doc)).

End Rebuilt.

(* ================================================================== *)
(** * The tasks of a document, for the command that runs one           *)
(* ================================================================== *)

Module Tasks.
Import JS.

Record Task : Type := {
  name : str;
  startLine : nat;
  endLine : nat
}.

(** [/^\s*start\s+task\s+DQ([^DQ]+)DQ\s*$/i], with DQ the double quote. *)
Definition startRe : regex :=
  cat [Bol; Star ws; iword "start"; Plus ws; iword "task"; Plus ws;
       chr DQ; Group (Plus Server.notDQ); chr DQ; Star ws; Eol].

(** [/^\s*end\s+task\b/i] *)
Definition endRe : regex := Extension.endRe.

(** The decimal digits of a number, as in a template literal. *)
Definition decimal (n : nat) : str :=
  lit (DecimalString.NilEmpty.string_of_uint (Nat.to_uint n)).

(** [start[1] ?? `Task@${i + 1}`] *)
Definition nameOf (caps : list str) (i : nat) : str :=
  match caps with
  | g :: _ => g
  | [] => lit "Task@" ++ decimal (i + 1)
  end.

(** The loop of [parseTasks] from line [i] on: the tasks it pushes, and
    the stack it leaves (top first; each entry a name and a start line). *)
Fixpoint parseLoop (i : nat) (lines : list str) (stack : list (str * nat))
    : list Task * list (str * nat) :=
  match lines with
  | [] => ([], stack)
  | lineText :: rest =>
      let text := Extension.stripLineComment lineText in
      if isEmpty text then parseLoop (S i) rest stack
      else
        match exec startRe text with
        | Some caps => parseLoop (S i) rest ((nameOf caps i, i) :: stack)
        | None =>
            if test endRe text then
              match stack with
              | open :: stack' =>
                  let (tasks, final) := parseLoop (S i) rest stack' in
                  ({| name := fst open; startLine := snd open; endLine := i |}
                   :: tasks, final)
              | [] => parseLoop (S i) rest []
              end
            else parseLoop (S i) rest stack
        end
  end.

(** [parseTasks]: the tasks still open at the end are pushed from the
    bottom of the stack up, each ending at the last line. *)
Definition parseTasks (doc : Extension.TextDocument) : list Task :=
  let (tasks, stack) := parseLoop 0 doc [] in
  tasks
  ++ map (fun open => {| name := fst open; startLine := snd open;
                         endLine := Extension.lineCount doc - 1 |})
         (rev stack).

(** The choice of [runCurrentTask]: the first task around the cursor,
    [None] when the user is asked to pick one. *)
Definition around (cursorLine : nat) (t : Task) : bool :=
  (startLine t <=? cursorLine) && (cursorLine <=? endLine t).

Definition selected (tasks : list Task) (cursorLine : nat) : option Task :=
  find (around cursorLine) tasks.

(** A line that opens a task for [parseTasks], and one that closes. *)
Definition opensTask (l : str) : bool :=
  let text := Extension.stripLineComment l in
  negb (isEmpty text)
  && match exec startRe text with Some _ => true | None => false end.

Definition closesTask (l : str) : bool :=
  let text := Extension.stripLineComment l in
  negb (isEmpty text)
  && match exec startRe text with Some _ => false | None => test endRe text end.

End Tasks.

(* ================================================================== *)
(** * Replacing every match, quoting and file names                    *)
(* ================================================================== *)

Module Global.
Import JS.

(** [s.replace(re, by)] for a pattern with the [g] flag and a
    replacement text without [$]: the matches are replaced from left to
    right, each search starting where the last match ended, one
    character further after an empty match.  [fuel] bounds the number of
    searches; one more than the length of the text is enough. *)
Fixpoint replaceAll_from (fuel : nat) (r : regex) (prev : option ascii)
    (s by_ : str) : str :=
  match fuel with
  | O => s
  | S fuel' =>
      match run r (MState prev s []) (fun st => Some (m_rest st, m_prev st))
      with
      | Some (rest, prev') =>
          if length rest <? length s
          then by_ ++ replaceAll_from fuel' r prev' rest by_
          else match s with
               | [] => by_
               | c :: s' => by_ ++ c :: replaceAll_from fuel' r (Some c) s' by_
               end
      | None =>
          match s with
          | [] => []
          | c :: s' => c :: replaceAll_from fuel' r (Some c) s' by_
          end
      end
  end.

Definition replaceAll (r : regex) (s by_ : str) : str :=
  replaceAll_from (S (length s)) r None s by_.

End Global.

Module Shell.
Import JS.

Definition SQ : ascii := "'"%char.
Definition BSL : ascii := ascii_of_nat 92.   (* the backslash *)

(** [quote]: [win32] stands for [process.platform === "win32"]. *)
Definition quote (win32 : bool) (s : str) : str :=
  if win32
  then [DQ] ++ Global.replaceAll (chr DQ) s [BSL; DQ] ++ [DQ]
  else [SQ] ++ Global.replaceAll (chr SQ) s [SQ; BSL; SQ; SQ] ++ [SQ].

(** How a POSIX shell reads a word made of single-quoted parts and of
    characters escaped by a backslash (Shell Command Language, 2.2.1 and
    2.2.2): inside single quotes every character stands for itself up to
    the closing quote; outside, a backslash makes the next character
    stand for itself.  [None]: the word is not of that form. *)
Fixpoint readWord (inQuotes : bool) (w : str) : option str :=
  match w with
  | [] => if inQuotes then None else Some []
  | c :: w' =>
      if inQuotes then
        if Ascii.eqb c SQ then readWord false w'
        else option_map (cons c) (readWord true w')
      else if Ascii.eqb c SQ then readWord true w'
      else if Ascii.eqb c BSL then
        match w' with
        | c' :: w'' => option_map (cons c') (readWord false w'')
        | [] => None
        end
      else None
  end.

(** The text between the outer double quotes of a word, each backslash
    that stands before a double quote taken away. *)
Fixpoint unescape (w : str) : str :=
  match w with
  | [] => []
  | c :: w' =>
      if Ascii.eqb c BSL then
        match w' with
        | c' :: w'' => if Ascii.eqb c' DQ then DQ :: unescape w''
                       else c :: unescape w'
        | [] => [c]
        end
      else c :: unescape w'
  end.

End Shell.

Module FileNames.
Import JS.

(** [[\w\-.]]: the characters a file name keeps. *)
Definition isSafe (c : ascii) : bool :=
  isWordChar c || Ascii.eqb c "-" || Ascii.eqb c ".".

(** [sanitizeFileName]: [name.replace(/[^\w\-.]+/g, "_")]. *)
Definition sanitizeFileName (name : str) : str :=
  Global.replaceAll (Plus (Class (fun c => negb (isSafe c)))) name (lit "_").

End FileNames.

(* ------------------------------------------------------------------ *)
(** ** Header lines, in words                                          *)
(* ------------------------------------------------------------------ *)

(** The header shapes of [endsWithColonCandidate], said without a
    pattern: what the text of a line is behind its leading whitespace. *)
Module Headers.
Import JS.

(** A word ends in front of [r]: nothing follows, or a character that is
    not a word character. *)
Definition wordEnds (r : str) : bool :=
  match r with
  | [] => true
  | c :: _ => negb (isWordChar c)
  end.

(** A text without a line terminator. *)
Definition oneLine (r : str) : bool :=
  forallb (fun c => negb (isLineTerminator c)) r.

(** The text [t] is the word [kw], which ends there, and then any text
    without a line terminator. *)
Definition wordThenText (kw t : str) : bool :=
  let r := skipn (length kw) t in
  startsWith t kw && wordEnds r && oneLine r.

(** The header words that any text may follow. *)
Definition openWords : list str := map lit
  ["when"; "if"; "elseif"; "else"; "repeat"; "while"; "for";
   "parallel"]%string.

(** [on], whitespace, and one word up to the end of the text. *)
Definition onWord (t : str) : bool :=
  let r := skipn 2 t in
  let v := trimStart r in
  startsWith t (lit "on") && (length v <? length r) && negb (isEmpty v)
  && forallb isWordChar v.

(** [template], whitespace, the word [task], and then any text. *)
Definition templateTask (t : str) : bool :=
  let r := skipn 8 t in
  let v := trimStart r in
  startsWith t (lit "template") && (length v <? length r)
  && wordThenText (lit "task") v.

(** A header line of the missing-colon check of the server. *)
Definition headerLine (l : str) : bool :=
  let t := trim l in
  existsb (fun kw => wordThenText kw t) openWords
  || onWord t || templateTask t.

(** The headers of the formatters, in words.  An opening header with its
    colon: one of the words [when], [if], [repeat], [while], [for], which
    ends there, then text on the same line, the last character a colon;
    or a line without a line terminator that is [start], whitespace and
    the word [task], then any text. *)
Definition colonHeader (kw t : str) : bool :=
  wordThenText kw t && endsWith t (lit ":").

Definition blockWords : list str := map lit
  ["when"; "if"; "repeat"; "while"; "for"]%string.

Definition taskOpener (l : str) : bool :=
  let t := trim l in
  let r := skipn 5 t in
  let v := trimStart r in
  oneLine l && startsWith t (lit "start") && (length v <? length r)
  && wordThenText (lit "task") v.

Definition openingHeader (l : str) : bool :=
  existsb (fun kw => colonHeader kw (trim l)) blockWords || taskOpener l.

(** A transitional header: [elseif], text and a colon, or [else:]. *)
Definition transitionalHeader (l : str) : bool :=
  colonHeader (lit "elseif") (trim l) || str_eqb (trim l) (lit "else:").

End Headers.

(* ================================================================== *)
(** * Lemmas and theorems                                              *)
(* ================================================================== *)

(** ** Strings *)

Module StrFacts.
Import JS.

Lemma trimStart_ws (w s : str) : allWs w -> trimStart (w ++ s) = trimStart s.
Proof.
  induction 1 as [|c w Hc _ IH]; simpl; [reflexivity|].
  unfold trimStart in *. simpl. rewrite Hc. exact IH.
Qed.

Lemma trimStart_solid (s : str) : solidHead s -> trimStart s = s.
Proof.
  intros [c [r [-> Hc]]]. unfold trimStart. simpl. rewrite Hc. reflexivity.
Qed.

Lemma trimStart_split (s : str) :
  exists w, s = w ++ trimStart s /\ allWs w.
Proof.
  induction s as [|c s [w [Hs Hw]]].
  - exists []. split; [reflexivity | constructor].
  - unfold trimStart in *. simpl. destruct (isWhiteSpace c) eqn:Hc.
    + exists (c :: w). split; [simpl; f_equal; exact Hs | constructor; assumption].
    + exists []. split; [reflexivity | constructor].
Qed.

Lemma trimStart_head (s : str) : trimStart s = [] \/ solidHead (trimStart s).
Proof.
  induction s as [|c s IH]; [left; reflexivity|].
  unfold trimStart in *. simpl. destruct (isWhiteSpace c) eqn:Hc.
  - exact IH.
  - right. exists c, s. split; [reflexivity | exact Hc].
Qed.

Lemma trimEnd_ws (w : str) : allWs w -> trimEnd w = [].
Proof.
  induction 1 as [|c w Hc _ IH]; simpl; [reflexivity|].
  rewrite IH, Hc. reflexivity.
Qed.

Lemma trimEnd_nil_ws (s : str) : trimEnd s = [] -> allWs s.
Proof.
  induction s as [|c s IH]; intros H; [constructor|].
  simpl in H. destruct (trimEnd s) eqn:E; [|discriminate].
  destruct (isWhiteSpace c) eqn:Hc; [|discriminate].
  constructor; [exact Hc | apply IH; reflexivity].
Qed.

Lemma trimEnd_split (s : str) :
  exists w, s = trimEnd s ++ w /\ allWs w.
Proof.
  induction s as [|c s [w [Hs Hw]]].
  - exists []. split; [reflexivity | constructor].
  - simpl. destruct (trimEnd s) as [|x r] eqn:E.
    + destruct (isWhiteSpace c) eqn:Hc.
      * exists (c :: s). split; [reflexivity|].
        constructor; [exact Hc | apply trimEnd_nil_ws; exact E].
      * exists w. split; [simpl in *; f_equal; exact Hs | exact Hw].
    + exists w. split; [simpl in *; f_equal; exact Hs | exact Hw].
Qed.

Lemma trimEnd_cons_solid (c : ascii) (s : str) :
  isWhiteSpace c = false -> trimEnd (c :: s) = c :: trimEnd s.
Proof.
  intros Hc. simpl. rewrite Hc. destruct (trimEnd s); reflexivity.
Qed.

Lemma trimEnd_app_solid (w s : str) :
  trimEnd s <> [] -> trimEnd (w ++ s) = w ++ trimEnd s.
Proof.
  intros Hs. induction w as [|c w IH]; [reflexivity|].
  simpl. rewrite IH. destruct (w ++ trimEnd s) eqn:E; [|reflexivity].
  apply app_eq_nil in E. destruct E as [_ E]. contradiction.
Qed.

(** The shape of a line: whitespace, its trimmed text, whitespace. *)
Lemma trim_split (s : str) :
  exists w1 w2, s = w1 ++ trim s ++ w2 /\ allWs w1 /\ allWs w2
                /\ trimStart s = trim s ++ w2.
Proof.
  destruct (trimStart_split s) as [w1 [H1 Hw1]].
  destruct (trimEnd_split (trimStart s)) as [w2 [H2 Hw2]].
  exists w1, w2. unfold trim. repeat split; try assumption.
  rewrite <- H2. exact H1.
Qed.

Lemma trim_head (s : str) : trim s = [] \/ solidHead (trim s).
Proof.
  unfold trim. destruct (trimStart_head s) as [E | [c [r [E Hc]]]].
  - left. rewrite E. reflexivity.
  - right. rewrite E. rewrite trimEnd_cons_solid by exact Hc.
    exists c, (trimEnd r). split; [reflexivity | exact Hc].
Qed.

Lemma trim_nil_ws (s : str) : trim s = [] -> allWs s.
Proof.
  intros H. destruct (trim_split s) as [w1 [w2 [E [H1 [H2 _]]]]].
  rewrite H in E. simpl in E. rewrite E. apply Forall_app. split; assumption.
Qed.

Lemma trim_ws (s : str) : allWs s -> trim s = [].
Proof.
  intros H. unfold trim.
  destruct (trimStart_split s) as [w [E Hw]].
  apply trimEnd_ws. rewrite E in H. apply Forall_app in H. apply H.
Qed.

(** The text of a line from its first solid character on. *)
Lemma trimStart_begins (s kw r : str) :
  trim s = kw ++ r -> kw <> [] -> exists r', trimStart s = kw ++ r'.
Proof.
  intros H Hk. destruct (trim_split s) as [w1 [w2 [_ [_ [_ E]]]]].
  exists (r ++ w2). rewrite E, H, app_assoc. reflexivity.
Qed.

Lemma trimStart_trimEnd (s : str) : trimStart (trimEnd s) = trim s.
Proof.
  unfold trim. destruct (trimStart_split s) as [w [E Hw]].
  destruct (trimStart_head s) as [E0 | Hs].
  - rewrite E0 in *. rewrite app_nil_r in E. rewrite E at 1.
    rewrite (trimEnd_ws w Hw). reflexivity.
  - destruct Hs as [c [r [Es Hc]]].
    assert (Hne : trimEnd (trimStart s) <> []).
    { rewrite Es, trimEnd_cons_solid by exact Hc. discriminate. }
    rewrite E at 1. rewrite trimEnd_app_solid by exact Hne.
    rewrite trimStart_ws by exact Hw.
    apply trimStart_solid.
    rewrite Es, trimEnd_cons_solid by exact Hc.
    exists c, (trimEnd r). split; [reflexivity | exact Hc].
Qed.

End StrFacts.

(** ** Patterns *)

Module JSFacts.
Import JS.

(** ** The matcher and the relation agree *)

Lemma starLoop_sound {A : Type} (r : regex)
    (body : mstate -> (mstate -> option A) -> option A) :
  (forall st k a, body st k = Some a ->
                  exists st', steps r st st' /\ k st' = Some a) ->
  forall fuel st k a, starLoop body fuel st k = Some a ->
                      exists st', steps (Star r) st st' /\ k st' = Some a.
Proof.
  intros Hbody fuel.
  induction fuel as [|fuel IH]; intros st k a H; simpl in H.
  - exists st. split; [apply StepStarStop | exact H].
  - destruct (body st _) as [b|] eqn:Hb.
    + injection H as <-.
      apply Hbody in Hb. destruct Hb as [st1 [Hst1 Hk]].
      destruct (length (m_rest st1) <? length (m_rest st)) eqn:Hlt;
        [|discriminate].
      apply Nat.ltb_lt in Hlt.
      apply IH in Hk. destruct Hk as [st2 [Hst2 Hk2]].
      exists st2. split; [eapply StepStarMore; eauto | exact Hk2].
    + exists st. split; [apply StepStarStop | exact H].
Qed.

Lemma run_sound {A : Type} (r : regex) :
  forall st (k : mstate -> option A) a,
    run r st k = Some a -> exists st', steps r st st' /\ k st' = Some a.
Proof.
  induction r as [|p|r1 IH1 r2 IH2|r1 IH1 r2 IH2|r IH|r IH| | |];
    intros st k a H; simpl in H.
  - exists st. split; [constructor | exact H].
  - destruct st as [prev rest caps]. simpl in H.
    destruct rest as [|c s]; [discriminate|].
    destruct (p c) eqn:Hp; [|discriminate].
    eexists. split; [apply StepClass; exact Hp | exact H].
  - apply IH1 in H. destruct H as [st1 [H1 H]].
    apply IH2 in H. destruct H as [st2 [H2 H]].
    exists st2. split; [econstructor; eauto | exact H].
  - destruct (run r1 st k) as [b|] eqn:Hb.
    + injection H as <-. apply IH1 in Hb. destruct Hb as [st' [H1 Hk]].
      exists st'. split; [apply StepOrL; exact H1 | exact Hk].
    + apply IH2 in H. destruct H as [st' [H2 Hk]].
      exists st'. split; [apply StepOrR; exact H2 | exact Hk].
  - eapply starLoop_sound; [|exact H]. intros; eapply IH; eauto.
  - apply IH in H. destruct H as [st1 [H1 Hk]].
    eexists. split; [apply StepGroup; exact H1 | exact Hk].
  - destruct (m_prev st) eqn:Hp; [discriminate|].
    exists st. split; [apply StepBol; exact Hp | exact H].
  - destruct (m_rest st) eqn:Hr; [|discriminate].
    exists st. split; [apply StepEol; exact Hr | exact H].
  - destruct (xorb _ _) eqn:Hx; [|discriminate].
    exists st. split; [apply StepWordB; exact Hx | exact H].
Qed.

Lemma run_complete_gen {A : Type} (r : regex) (st st' : mstate) :
  steps r st st' ->
  (forall (k : mstate -> option A), k st' <> None -> run r st k <> None)
  /\ (forall r0, r = Star r0 ->
        forall n (k : mstate -> option A),
          length (m_rest st) <= n -> k st' <> None ->
          starLoop (run r0) n st k <> None).
Proof.
  induction 1 as
    [st|p prev c s caps Hp|r1 r2 st st1 st2 H1 IH1 H2 IH2
    |r1 r2 st st' H1 IH1|r1 r2 st st' H2 IH2
    |r st|r st st1 st2 H1 IH1 Hlt H2 IH2
    |r st st1 H1 IH1|st Hp|st He|st Hx].
  - split; [intros k Hk; exact Hk | intros r0 E; discriminate].
  - split; [|intros r0 E; discriminate].
    intros k Hk. simpl. rewrite Hp. exact Hk.
  - split; [|intros r0 E; discriminate].
    intros k Hk. simpl. apply (proj1 IH1). apply (proj1 IH2). exact Hk.
  - split; [|intros r0 E; discriminate].
    intros k Hk. simpl. pose proof (proj1 IH1 k Hk) as Hn.
    destruct (run r1 st k); [discriminate | contradiction].
  - split; [|intros r0 E; discriminate].
    intros k Hk. simpl. pose proof (proj1 IH2 k Hk) as Hn.
    destruct (run r1 st k); [discriminate | exact Hn].
  - assert (G : forall n (k : mstate -> option A),
               k st <> None -> starLoop (run r) n st k <> None).
    { intros n k Hk. destruct n as [|n]; simpl; [exact Hk|].
      destruct (run r st _); [discriminate | exact Hk]. }
    split.
    + intros k Hk. simpl. apply G. exact Hk.
    + intros r0 E n k _ Hk. injection E as <-. apply G. exact Hk.
  - assert (G : forall n (k : mstate -> option A),
               length (m_rest st) <= n -> k st2 <> None ->
               starLoop (run r) n st k <> None).
    { intros n k Hn Hk. destruct n as [|n]; [lia|]. simpl.
      match goal with
      | |- match run r st ?k' with _ => _ end <> None =>
          assert (Hrun : run r st k' <> None)
      end.
      { apply (proj1 IH1).
        apply Nat.ltb_lt in Hlt as Hlt'. rewrite Hlt'.
        apply (proj2 IH2 r eq_refl); [lia | exact Hk]. }
      destruct (run r st _); [discriminate | contradiction]. }
    split.
    + intros k Hk. simpl. apply G; [lia | exact Hk].
    + intros r0 E n k Hn Hk. injection E as <-. apply G; assumption.
  - split; [|intros r0 E; discriminate].
    intros k Hk. simpl. apply (proj1 IH1). exact Hk.
  - split; [|intros r0 E; discriminate].
    intros k Hk. simpl. rewrite Hp. exact Hk.
  - split; [|intros r0 E; discriminate].
    intros k Hk. simpl. rewrite He. exact Hk.
  - split; [|intros r0 E; discriminate].
    intros k Hk. simpl. rewrite Hx. exact Hk.
Qed.

Lemma run_complete {A : Type} (r : regex) (st st' : mstate)
    (k : mstate -> option A) :
  steps r st st' -> k st' <> None -> run r st k <> None.
Proof. intros H. apply (proj1 (run_complete_gen r st st' H)). Qed.

(** ** [test] on a pattern *)

Lemma test_true_iff (r : regex) (s : str) :
  test r s = true <-> exists caps, exec r s = Some caps.
Proof.
  unfold test. destruct (exec r s) as [c|].
  - split; [intros _; exists c; reflexivity | reflexivity].
  - split; [discriminate | intros [c Hc]; discriminate].
Qed.

(** A pattern that starts with [^] can only match at index 0. *)
Lemma search_anchored (r : regex) (s : str) (c : ascii) :
  search (Cat Bol r) (Some c) s = None.
Proof.
  revert c. induction s as [|x s IH]; intros c; simpl; [reflexivity|].
  apply IH.
Qed.

Lemma exec_anchored (r : regex) (s : str) :
  exec (Cat Bol r) s
  = run r (MState None s []) (fun st => Some (m_caps st)).
Proof.
  unfold exec. destruct s as [|c s]; simpl.
  - destruct (run r _ _); reflexivity.
  - destruct (run r _ _); [reflexivity | apply search_anchored].
Qed.

Lemma exec_anchored_sound (r : regex) (s : str) (caps : list str) :
  exec (Cat Bol r) s = Some caps ->
  exists st', steps r (MState None s []) st' /\ m_caps st' = caps.
Proof.
  rewrite exec_anchored. intros H. apply run_sound in H.
  destruct H as [st' [H1 H2]]. exists st'. split; [exact H1|].
  cbv beta in H2. congruence.
Qed.

Lemma test_anchored_sound (r : regex) (s : str) :
  test (Cat Bol r) s = true -> exists st', steps r (MState None s []) st'.
Proof.
  intros H. apply test_true_iff in H. destruct H as [caps H].
  apply exec_anchored_sound in H. destruct H as [st' [H _]]. eauto.
Qed.

Lemma test_anchored_complete (r : regex) (s : str) (st' : mstate) :
  steps r (MState None s []) st' -> test (Cat Bol r) s = true.
Proof.
  intros H. unfold test. rewrite exec_anchored.
  pose proof (run_complete r _ _ (fun st => Some (m_caps st)) H) as Hn.
  destruct (run r _ _); [reflexivity|]. exfalso. apply Hn; [discriminate | reflexivity].
Qed.

End JSFacts.

Module PatternFacts.
Import JS StrFacts JSFacts.

Lemma startsWith_begins (s p : str) :
  startsWith s p = true -> exists r, s = p ++ r.
Proof.
  revert s. induction p as [|x p IH]; intros s H.
  - exists s. reflexivity.
  - destruct s as [|y s]; simpl in H; [discriminate|].
    apply andb_true_iff in H. destruct H as [Hxy H].
    apply Ascii.eqb_eq in Hxy. subst y.
    destruct (IH s H) as [r ->]. exists r. reflexivity.
Qed.

Lemma steps_star_class (p : ascii -> bool) (st st' : mstate) :
  steps (Star (Class p)) st st' ->
  exists w, m_rest st = w ++ m_rest st' /\ Forall (fun c => p c = true) w.
Proof.
  intros H. remember (Star (Class p)) as r eqn:Er.
  induction H; try discriminate.
  - exists []. split; [reflexivity | constructor].
  - injection Er as ->.
    destruct (IHsteps2 eq_refl) as [w [E Hw]].
    inversion H; subst. simpl in *.
    exists (c :: w). split; [rewrite E; reflexivity | constructor; assumption].
Qed.

Lemma steps_chars (w : str) (st st' : mstate) :
  steps (chars chr w) st st' -> m_rest st = w ++ m_rest st'.
Proof.
  revert st. induction w as [|c w IH]; intros st H; simpl in H.
  - inversion H; subst. reflexivity.
  - inversion H as [| |r1 r2 s0 s1 s2 H1 H2| | | | | | | |]; subst.
    inversion H1; subst. simpl.
    match goal with Hc : Ascii.eqb _ _ = true |- _ =>
      apply Ascii.eqb_eq in Hc; subst end.
    apply IH in H2. simpl in H2. rewrite H2. reflexivity.
Qed.

(** A match of [kw] followed by anything starts with [kw]. *)
Lemma steps_word_then (kw : str) (X : regex) (st st' : mstate) :
  steps (Cat (chars chr kw) X) st st' -> exists r, m_rest st = kw ++ r.
Proof.
  intros H. inversion H; subst.
  match goal with H1 : steps (chars chr kw) _ _ |- _ =>
    apply steps_chars in H1; eauto end.
Qed.

Lemma steps_lead_ws (X : regex) (st st' : mstate) :
  steps (Cat (Star ws) X) st st' ->
  exists w mid, m_rest st = w ++ m_rest mid /\ allWs w /\ steps X mid st'.
Proof.
  intros H. inversion H; subst.
  match goal with H1 : steps (Star ws) _ ?m |- _ =>
    apply steps_star_class in H1; destruct H1 as [w [E Hw]];
    exists w, m; auto end.
Qed.

Lemma steps_alt (rs : list regex) (st st' : mstate) :
  steps (alt rs) st st' -> exists r, In r rs /\ steps r st st'.
Proof.
  induction rs as [|r rs IH]; simpl; intros H.
  - inversion H; discriminate.
  - destruct rs as [|r' rs'].
    + exists r. split; [left; reflexivity | exact H].
    + inversion H; subst.
      * exists r. split; [left; reflexivity | assumption].
      * destruct IH as [x [Hin Hx]]; [assumption|].
        exists x. split; [right; exact Hin | exact Hx].
Qed.

(** [^\s*kw...]: the line is [kw...] from its first solid character on. *)
Lemma exec_lead_word (kw : str) (X : regex) (l : str) (caps : list str) :
  solidHead kw ->
  exec (Cat Bol (Cat (Star ws) (Cat (chars chr kw) X))) l = Some caps ->
  exists r, trimStart l = kw ++ r.
Proof.
  intros Hk H. apply exec_anchored_sound in H. destruct H as [st' [H _]].
  apply steps_lead_ws in H. destruct H as [w [mid [E [Hw H]]]].
  apply steps_word_then in H. destruct H as [r Er].
  simpl in E. exists r. rewrite E, Er, trimStart_ws by exact Hw.
  apply trimStart_solid. destruct Hk as [c [k [-> Hc]]].
  exists c, (k ++ r). split; [reflexivity | exact Hc].
Qed.

Lemma test_lead_word (kw : str) (X : regex) (l : str) :
  solidHead kw ->
  test (Cat Bol (Cat (Star ws) (Cat (chars chr kw) X))) l = true ->
  exists r, trimStart l = kw ++ r.
Proof.
  intros Hk H. apply test_true_iff in H. destruct H as [caps H].
  eapply exec_lead_word; eauto.
Qed.

(** [^kw...] *)
Lemma test_head_word (kw : str) (X : regex) (t : str) :
  test (Cat Bol (Cat (chars chr kw) X)) t = true -> exists r, t = kw ++ r.
Proof.
  intros H. apply test_anchored_sound in H. destruct H as [st' H].
  apply steps_word_then in H. exact H.
Qed.

(** [^(a1|...|an)$] *)
Lemma test_head_alt (rs : list regex) (t : str) :
  test (Cat Bol (Cat (Group (alt rs)) Eol)) t = true ->
  exists r st', In r rs /\ steps r (MState None t []) st'.
Proof.
  intros H. apply test_anchored_sound in H. destruct H as [st' H].
  inversion H; subst.
  match goal with H1 : steps (Group _) _ _ |- _ => inversion H1; subst end.
  match goal with H1 : steps (alt _) _ _ |- _ =>
    apply steps_alt in H1; destruct H1 as [r [Hin Hr]] end.
  eauto.
Qed.

Lemma solidHead_lit (c : ascii) (k : str) :
  isWhiteSpace c = false -> solidHead (c :: k).
Proof. intros H. exists c, k. auto. Qed.

End PatternFacts.

Module ServerPatterns.
Import JS StrFacts JSFacts PatternFacts Server.

Lemma start_task_shape (l : str) :
  isStartTask l = true -> exists r, trimStart l = lit "start" ++ r.
Proof.
  intros H. apply (test_lead_word (lit "start") _ l) in H; [exact H|].
  apply solidHead_lit. reflexivity.
Qed.

Lemma end_task_shape (l : str) :
  isEndTask l = true -> exists r, trimStart l = lit "end" ++ r.
Proof.
  intros H. apply (test_lead_word (lit "end") _ l) in H; [exact H|].
  apply solidHead_lit. reflexivity.
Qed.

Lemma symbol_task_shape (l : str) (caps : list str) :
  exec RE_SYMBOL_TASK l = Some caps -> exists r, trimStart l = lit "start" ++ r.
Proof.
  intros H. apply (exec_lead_word (lit "start") _ l) in H; [exact H|].
  apply solidHead_lit. reflexivity.
Qed.

Lemma symbol_template_shape (l : str) (caps : list str) :
  exec RE_SYMBOL_TEMPLATE l = Some caps ->
  exists r, trimStart l = lit "template" ++ r.
Proof.
  intros H. apply (exec_lead_word (lit "template") _ l) in H; [exact H|].
  apply solidHead_lit. reflexivity.
Qed.

Ltac word_cases Hin Hr :=
  cbn [In] in Hin;
  repeat (destruct Hin as [<- | Hin];
          [cbn [cat] in Hr; apply steps_word_then in Hr;
           destruct Hr as [r Hr]; cbn [m_rest] in Hr;
           eexists; exists r; split; [|exact Hr]; cbn; tauto|]);
  contradiction.

Lemma colon_candidate_shape (t : str) :
  test RE_COLON_CANDIDATE t = true ->
  exists kw r, In kw headerWords /\ t = kw ++ r.
Proof.
  intros H. apply test_head_alt in H. destruct H as [x [st' [Hin Hr]]].
  word_cases Hin Hr.
Qed.

Lemma block_header_shape (t : str) :
  test RE_BLOCK_HEADER t = true ->
  exists kw r, In kw headerWords /\ t = kw ++ r.
Proof.
  intros H. apply test_head_alt in H. destruct H as [x [st' [Hin Hr]]].
  word_cases Hin Hr.
Qed.

Lemma transitional_shape (t : str) :
  test RE_FMT_TRANSITIONAL t = true ->
  exists kw r, In kw headerWords /\ t = kw ++ r.
Proof.
  intros H. apply test_head_alt in H. destruct H as [x [st' [Hin Hr]]].
  word_cases Hin Hr.
Qed.

Lemma fmt_start_task_shape (t : str) :
  test RE_FMT_START_TASK t = true -> exists r, t = lit "start" ++ r.
Proof. apply test_head_word. Qed.

Lemma fmt_end_task_shape (t : str) :
  test RE_FMT_END_TASK t = true -> exists r, t = lit "end" ++ r.
Proof. apply test_head_word. Qed.

End ServerPatterns.

Module ServerLines.
Import JS StrFacts JSFacts PatternFacts Server ServerPatterns Outline.

Lemma header_word_solid (kw : str) : In kw headerWords -> solidHead kw.
Proof.
  intros H. cbn in H.
  repeat (destruct H as [<- | H]; [apply solidHead_lit; reflexivity|]).
  contradiction.
Qed.

Lemma header_word_not_start (kw r r' : str) :
  In kw headerWords -> kw ++ r = lit "start" ++ r' -> False.
Proof.
  intros H E. cbn in H.
  repeat (destruct H as [<- | H]; [discriminate E|]). contradiction.
Qed.

Lemma header_word_not_end (kw r r' : str) :
  In kw headerWords -> kw ++ r = lit "end" ++ r' -> False.
Proof.
  intros H E. cbn in H.
  repeat (destruct H as [<- | H]; [discriminate E|]). contradiction.
Qed.

(** A line whose text starts with a header word is no task line. *)
Lemma header_line_not_task (l kw r : str) :
  In kw headerWords -> trimStart l = kw ++ r ->
  isStartTask l = false /\ isEndTask l = false.
Proof.
  intros Hin E. split.
  - destruct (isStartTask l) eqn:H; [|reflexivity].
    apply start_task_shape in H. destruct H as [r' H]. rewrite H in E.
    symmetry in E. exfalso. eapply header_word_not_start; eauto.
  - destruct (isEndTask l) eqn:H; [|reflexivity].
    apply end_task_shape in H. destruct H as [r' H]. rewrite H in E.
    symmetry in E. exfalso. eapply header_word_not_end; eauto.
Qed.

Lemma candidate_shape (l : str) :
  endsWithColonCandidate l = true ->
  exists kw r, In kw headerWords /\ trim l = kw ++ r.
Proof.
  unfold endsWithColonCandidate. intros H.
  destruct (test RE_COMMENT (trim l) || (length (trim l) =? 0));
    [discriminate|].
  apply colon_candidate_shape. exact H.
Qed.

Lemma candidate_not_task (l : str) :
  endsWithColonCandidate l = true ->
  isStartTask l = false /\ isEndTask l = false.
Proof.
  intros H. apply candidate_shape in H. destruct H as [kw [r [Hin E]]].
  pose proof (header_word_solid kw Hin) as [c [k [Ek _]]].
  apply trimStart_begins in E; [|subst kw; discriminate].
  destruct E as [r' E]. eapply header_line_not_task; eauto.
Qed.

Lemma candidate_fix_not_task (l : str) :
  endsWithColonCandidate l = true ->
  isStartTask (addColonFix l) = false /\ isEndTask (addColonFix l) = false.
Proof.
  intros H. apply candidate_shape in H. destruct H as [kw [r [Hin E]]].
  apply (header_line_not_task _ kw (r ++ lit ":")); [exact Hin|].
  unfold addColonFix.
  destruct (trimStart_split (trimEnd l)) as [w [Ew Hw]].
  rewrite trimStart_trimEnd in Ew. rewrite Ew, <- app_assoc.
  rewrite trimStart_ws by exact Hw. rewrite E, <- app_assoc.
  apply trimStart_solid.
  destruct (header_word_solid kw Hin) as [c [k [-> Hc]]].
  exists c, (k ++ r ++ lit ":"). split; [reflexivity | exact Hc].
Qed.

(** Whitespace-only and comment-only lines. *)
Lemma blank_trim (l : str) : isBlank l = true -> trim l = [].
Proof. unfold isBlank. destruct (trim l); [reflexivity | discriminate]. Qed.

Lemma comment_trim (l : str) :
  isCommentOnly l = true -> exists r, trim l = "/"%char :: "/"%char :: r.
Proof. intros H. apply startsWith_begins in H. exact H. Qed.

Lemma transparent_trimStart (l : str) :
  isTransparent l = true ->
  trimStart l = [] \/ exists r, trimStart l = "/"%char :: r.
Proof.
  intros H. apply orb_true_iff in H. destruct H as [H | H].
  - left. apply blank_trim in H. apply trim_nil_ws in H.
    destruct (trimStart_split l) as [w [E Hw]].
    destruct (trimStart_head l) as [E0 | [c [r [E1 Hc]]]]; [exact E0|].
    rewrite E in H. apply Forall_app in H. destruct H as [_ H].
    rewrite E1 in H. inversion H; subst. congruence.
  - right. apply comment_trim in H. destruct H as [r H].
    apply (trimStart_begins l ["/"%char] ("/"%char :: r)) in H;
      [|discriminate].
    destruct H as [r' H]. exists r'. exact H.
Qed.

Lemma transparent_not_task (l : str) :
  isTransparent l = true -> isStartTask l = false /\ isEndTask l = false.
Proof.
  intros H. apply transparent_trimStart in H. split.
  - destruct (isStartTask l) eqn:E; [|reflexivity].
    apply start_task_shape in E. destruct E as [r E].
    destruct H as [H | [r' H]]; rewrite H in E; discriminate E.
  - destruct (isEndTask l) eqn:E; [|reflexivity].
    apply end_task_shape in E. destruct E as [r E].
    destruct H as [H | [r' H]]; rewrite H in E; discriminate E.
Qed.

Lemma test_anchored_eq (r : regex) (s : str) :
  test (Cat Bol r) s
  = match run r (MState None s []) (fun st => Some (m_caps st)) with
    | Some _ => true
    | None => false
    end.
Proof. unfold test. rewrite exec_anchored. reflexivity. Qed.

Ltac anchored :=
  unfold preDecrease, postIncrease, RE_FMT_END_TASK, RE_FMT_TRANSITIONAL,
    RE_FMT_START_TASK, RE_BLOCK_HEADER, RE_BLANK;
  cbn [cat]; rewrite !test_anchored_eq; reflexivity.

Lemma transparent_level (l : str) (level : Z) :
  isTransparent l = true ->
  preDecrease level (trim l) = level /\ postIncrease level (trim l) = level.
Proof.
  intros H. apply orb_true_iff in H. destruct H as [H | H].
  - apply blank_trim in H. rewrite H. split; reflexivity.
  - apply comment_trim in H. destruct H as [r H]. rewrite H.
    split; anchored.
Qed.

Lemma comment_no_fold (l : str) :
  isCommentOnly l = true ->
  test RE_BLOCK_HEADER (trim l) = false /\ test RE_BLANK (trim l) = false.
Proof.
  intros H. apply comment_trim in H. destruct H as [r H]. rewrite H.
  split; anchored.
Qed.

Lemma blank_closes_fold (l : str) :
  isBlank l = true ->
  test RE_BLOCK_HEADER (trim l) = false /\ test RE_BLANK (trim l) = true.
Proof. intros H. apply blank_trim in H. rewrite H. split; reflexivity. Qed.

End ServerLines.

(** ** Matched and unmatched lines *)

Module MatchingFacts.
Import JS Outline.

Lemma filter_map_comm {A B : Type} (f : B -> bool) (g : A -> B) (l : list A) :
  filter f (map g l) = map g (filter (fun x => f (g x)) l).
Proof.
  induction l as [|x l IH]; simpl; [reflexivity|].
  destruct (f (g x)); simpl; rewrite IH; reflexivity.
Qed.

Lemma filter_seq_cons (f : nat -> bool) (n : nat) :
  filter f (seq 0 (S n))
  = (if f 0 then [0] else []) ++ map S (filter (fun i => f (S i)) (seq 0 n)).
Proof.
  simpl. rewrite <- seq_shift, filter_map_comm.
  destruct (f 0); reflexivity.
Qed.

Section Roles.
Variable role : str -> Role.

Local Abbreviation closes := (closes role).
Local Abbreviation opens := (opens role).
Local Abbreviation depthStep := (depthStep role).
Local Abbreviation depthFrom := (depthFrom role).
Local Abbreviation staysOpen := (staysOpen role).
Local Abbreviation closersFrom := (unmatchedClosersFrom role).
Local Abbreviation openers := (unmatchedOpeners role).
Local Abbreviation scan := (scan role).

Lemma closersFrom_cons (d : nat) (l : str) (rest : list str) :
  closersFrom d (l :: rest)
  = (if closes l && (d =? 0) then [0] else [])
    ++ map S (closersFrom (depthStep d l) rest).
Proof.
  unfold unmatchedClosersFrom. cbn [length]. rewrite filter_seq_cons.
  reflexivity.
Qed.

Lemma openers_cons (l : str) (rest : list str) :
  openers (l :: rest)
  = (if opens l && staysOpen 0 rest then [0] else [])
    ++ map S (openers rest).
Proof.
  unfold unmatchedOpeners. cbn [length]. rewrite filter_seq_cons.
  reflexivity.
Qed.

Lemma closersFrom_S (lines : list str) :
  forall d, length (closersFrom (S d) lines)
            = pred (length (closersFrom d lines)).
Proof.
  induction lines as [|l rest IH]; intros d; [reflexivity|].
  rewrite !closersFrom_cons, !length_app, !length_map.
  unfold Outline.depthStep, Outline.closes.
  destruct (role l); cbn [andb Nat.eqb length Nat.add pred].
  - apply IH.
  - destruct d as [|d]; cbn [andb Nat.eqb length Nat.add pred].
    + reflexivity.
    + apply IH.
  - apply IH.
Qed.

Lemma staysOpen_closers (lines : list str) :
  forall d, staysOpen d lines = (length (closersFrom 0 lines) <=? d).
Proof.
  induction lines as [|l rest IH]; intros d; [reflexivity|].
  rewrite closersFrom_cons, length_app, length_map.
  unfold Outline.depthStep, Outline.closes. cbn [Outline.staysOpen].
  destruct (role l); cbn [andb Nat.eqb length Nat.add pred].
  - rewrite IH, closersFrom_S.
    destruct (length (closersFrom 0 rest)) as [|n]; reflexivity.
  - destruct d as [|d]; [reflexivity|]. apply IH.
  - apply IH.
Qed.

(** The stack of the scan against the line-by-line definitions. *)
Lemma scan_spec (lines : list str) :
  forall i stack,
    scan i lines stack
    = (map (fun j => i + j) (closersFrom (length stack) lines),
       rev (map (fun j => i + j) (openers lines))
       ++ skipn (length (closersFrom 0 lines)) stack).
Proof.
  induction lines as [|l rest IH]; intros i stack; [reflexivity|].
  rewrite !closersFrom_cons, openers_cons.
  rewrite !map_app, !map_map, !length_app, !length_map, rev_app_distr.
  cbn [Outline.scan]. unfold Outline.depthStep, Outline.closes, Outline.opens.
  assert (Hshift : forall xs, map (fun j => S i + j) xs
                              = map (fun x => i + S x) xs).
  { intros xs. apply map_ext. intros; lia. }
  destruct (role l) eqn:Hr; cbn [andb Nat.eqb length Nat.add pred app map rev].
  - rewrite IH. cbn [length]. rewrite closersFrom_S, staysOpen_closers, !Hshift.
    f_equal.
    destruct (length (closersFrom 0 rest)) as [|n]; cbn.
    + rewrite Nat.add_0_r, <- app_assoc. reflexivity.
    + rewrite app_nil_r. reflexivity.
  - destruct stack as [|x stack]; cbn [length Nat.eqb andb].
    + rewrite IH. cbn [length pred map app]. rewrite Nat.add_0_r, !Hshift.
      rewrite app_nil_r. f_equal. f_equal. destruct (length _); reflexivity.
    + rewrite IH. cbn [pred app skipn]. rewrite !Hshift, app_nil_r.
      reflexivity.
  - rewrite IH, !Hshift, app_nil_r. reflexivity.
Qed.

Lemma scan_whole (doc : list str) :
  scan 0 doc [] = (unmatchedClosers role doc, rev (openers doc)).
Proof.
  rewrite scan_spec. cbn [length]. rewrite skipn_nil, app_nil_r.
  unfold unmatchedClosers. rewrite !map_id. reflexivity.
Qed.

Lemma scan_stack_length (lines : list str) :
  forall i stack,
    length (snd (scan i lines stack)) = depthFrom (length stack) lines.
Proof.
  induction lines as [|l rest IH]; intros i stack; [reflexivity|].
  cbn [Outline.scan Outline.depthFrom]. unfold Outline.depthStep.
  destruct (role l).
  - rewrite IH. reflexivity.
  - destruct stack as [|x stack].
    + specialize (IH (S i) []). destruct (scan (S i) rest []). exact IH.
    + rewrite IH. reflexivity.
  - apply IH.
Qed.

Lemma openers_length (doc : list str) :
  length (openers doc) = depthFrom 0 doc.
Proof.
  pose proof (scan_stack_length doc 0 []) as H.
  rewrite scan_whole in H. cbn [snd length] in H.
  rewrite length_rev in H. exact H.
Qed.

Lemma depth_count (lines : list str) :
  forall d, depthFrom d lines + countClosers role lines
            = d + countOpeners role lines + length (closersFrom d lines).
Proof.
  unfold countClosers, countOpeners.
  induction lines as [|l rest IH]; intros d; [cbn; lia|].
  rewrite closersFrom_cons, length_app, length_map.
  cbn [Outline.depthFrom filter].
  pose proof (IH (S d)) as IH1. pose proof (IH (pred d)) as IH2.
  pose proof (IH d) as IH3.
  unfold Outline.depthStep, Outline.closes, Outline.opens in *.
  destruct (role l); cbn [andb Nat.eqb length Nat.add pred].
  - lia.
  - destruct d as [|d]; cbn [andb Nat.eqb length Nat.add pred] in *; lia.
  - lia.
Qed.

Lemma closers_nil_iff (doc : list str) :
  unmatchedClosers role doc = []
  <-> forall i, i < length doc -> closes (nth i doc []) = true ->
                0 < depthBefore role doc i.
Proof.
  unfold unmatchedClosers, unmatchedClosersFrom. split.
  - intros H i Hi Hc.
    assert (Hin : In i (seq 0 (length doc))) by (apply in_seq; lia).
    destruct (depthBefore role doc i) eqn:E; [|lia].
    exfalso.
    assert (Hf : In i (filter (closerWithoutOpenerFrom role 0 doc)
                         (seq 0 (length doc)))).
    { apply filter_In. split; [exact Hin|].
      unfold closerWithoutOpenerFrom. rewrite Hc.
      unfold depthBefore in E. rewrite E. reflexivity. }
    rewrite H in Hf. exact Hf.
  - intros H.
    destruct (filter _ _) as [|i rest] eqn:E; [reflexivity|].
    assert (Hf : In i (filter (closerWithoutOpenerFrom role 0 doc)
                         (seq 0 (length doc)))) by (rewrite E; left; reflexivity).
    apply filter_In in Hf. destruct Hf as [Hin Hp].
    apply in_seq in Hin. unfold closerWithoutOpenerFrom in Hp.
    apply andb_true_iff in Hp. destruct Hp as [Hc Hd].
    apply Nat.eqb_eq in Hd.
    specialize (H i ltac:(lia) Hc). unfold depthBefore in H. lia.
Qed.

(** The balance property, in terms of the unmatched lines. *)
Lemma balanced_iff (doc : list str) :
  balanced role doc
  <-> unmatchedClosers role doc = [] /\ openers doc = [].
Proof.
  unfold balanced. rewrite <- closers_nil_iff.
  pose proof (depth_count doc 0) as Hd.
  pose proof (openers_length doc) as Ho.
  fold (unmatchedClosers role doc) in Hd.
  split.
  - intros [Hc Hu]. split; [exact Hu|].
    rewrite Hu in Hd. cbn [length] in Hd.
    apply length_zero_iff_nil. lia.
  - intros [Hu Hop]. split; [|exact Hu].
    rewrite Hu in Hd. rewrite Hop in Ho. cbn [length] in *. lia.
Qed.
End Roles.

End MatchingFacts.

(** ** The client-side validator *)

Module ClientBalance.
Import JS Outline Extension MatchingFacts.

Section Budget.
Variable doc : TextDocument.
Variable sev : nat.
Variable budget : Z.

Lemma drainStack_spec (stack : list nat) :
  forall e, (Z.of_nat e <= budget)%Z ->
    drainStack doc sev budget stack e
    = firstn (Z.to_nat budget - e) (map (openerDiag doc sev) stack).
Proof.
  induction stack as [|x stack IH]; intros e He; cbn [drainStack map].
  - rewrite firstn_nil. reflexivity.
  - destruct (Z.of_nat e <? budget)%Z eqn:Hlt.
    + apply Z.ltb_lt in Hlt.
      replace (Z.to_nat budget - e) with (S (Z.to_nat budget - S e)) by lia.
      cbn [firstn]. rewrite IH by lia. reflexivity.
    + apply Z.ltb_ge in Hlt.
      replace (Z.to_nat budget - e) with 0 by lia. reflexivity.
Qed.

(** The budgeted loops emit the first diagnostics of the scan. *)
Lemma taskBalanceLoop_spec (lines : list str) :
  forall i stack e, (Z.of_nat e <= budget)%Z ->
    fst (taskBalanceLoop doc sev budget i lines stack e)
    ++ drainStack doc sev budget
         (snd (taskBalanceLoop doc sev budget i lines stack e))
         (e + length (fst (taskBalanceLoop doc sev budget i lines stack e)))
    = firstn (Z.to_nat budget - e)
        (map (closerDiag doc sev) (fst (scan clientRole i lines stack))
         ++ map (openerDiag doc sev) (snd (scan clientRole i lines stack))).
Proof.
  induction lines as [|l rest IH]; intros i stack e He.
  - cbn. rewrite Nat.add_0_r. apply drainStack_spec. exact He.
  - cbn [taskBalanceLoop scan].
    destruct (Z.of_nat e <? budget)%Z eqn:Hlt.
    + apply Z.ltb_lt in Hlt.
      assert (Hrole : clientRole l
                      = if isEmpty (stripLineComment l) then Neutral
                        else if test startRe (stripLineComment l) then Opens
                        else if test endRe (stripLineComment l) then Closes
                        else Neutral) by reflexivity.
      rewrite Hrole. clear Hrole.
      destruct (isEmpty (stripLineComment l)); [apply IH; exact He|].
      destruct (test startRe (stripLineComment l)); [apply IH; exact He|].
      destruct (test endRe (stripLineComment l)); [|apply IH; exact He].
      destruct stack as [|x stack]; [|apply IH; exact He].
      specialize (IH (S i) [] (S e) ltac:(lia)).
      destruct (taskBalanceLoop doc sev budget (S i) rest [] (S e))
        as [out fin].
      destruct (scan clientRole (S i) rest []) as [cs fs].
      cbn [fst snd length map app] in *.
      replace (Z.to_nat budget - e) with (S (Z.to_nat budget - S e)) by lia.
      cbn [firstn]. rewrite <- IH.
      replace (e + S (length out)) with (S e + length out) by lia.
      reflexivity.
    + apply Z.ltb_ge in Hlt.
      replace (Z.to_nat budget - e) with 0 by lia.
      cbn. destruct stack; cbn; [reflexivity|].
      rewrite Nat.add_0_r.
      destruct (Z.of_nat e <? budget)%Z eqn:Hlt'; [|reflexivity].
      apply Z.ltb_lt in Hlt'. lia.
Qed.
End Budget.

(** The client-side task-balance check emits the first [budget] of the
    diagnostics the specification asks for. *)
Lemma collectTaskBalance_spec (doc : TextDocument) (sev : nat) (budget : Z) :
  collectTaskBalanceDiagnostics doc sev budget
  = firstn (Z.to_nat budget) (taskDefects doc sev).
Proof.
  unfold collectTaskBalanceDiagnostics, taskDefects.
  destruct (budget <=? 0)%Z eqn:Hb.
  - apply Z.leb_le in Hb. replace (Z.to_nat budget) with 0 by lia.
    reflexivity.
  - apply Z.leb_gt in Hb.
    pose proof (taskBalanceLoop_spec doc sev budget doc 0 [] 0 ltac:(lia)) as H.
    rewrite scan_whole in H. cbn [fst snd Nat.add] in H.
    rewrite Nat.sub_0_r in H.
    destruct (taskBalanceLoop doc sev budget 0 doc [] 0) as [out fin].
    exact H.
Qed.

End ClientBalance.

Module ClientValidator.
Import JS Outline Extension MatchingFacts ClientBalance.

Lemma missingColonLoop_spec (doc : TextDocument) (sev : nat) (budget : Z)
    (lines : list str) :
  forall i e, (Z.of_nat e <= budget)%Z ->
    missingColonLoop doc sev budget i lines e
    = firstn (Z.to_nat budget - e)
        (map (fun j => colonDiag doc sev (i + j))
             (filter (fun j => needsColon (nth j lines []))
                     (seq 0 (length lines)))).
Proof.
  induction lines as [|l rest IH]; intros i e He.
  - cbn. rewrite firstn_nil. reflexivity.
  - cbn [length]. rewrite filter_seq_cons. cbn [nth missingColonLoop].
    rewrite map_app, map_map.
    assert (Hshift : forall xs, map (fun x => colonDiag doc sev (i + S x)) xs
                     = map (fun j => colonDiag doc sev (S i + j)) xs).
    { intros xs. apply map_ext. intros x. f_equal. lia. }
    rewrite Hshift. clear Hshift.
    destruct (Z.of_nat e <? budget)%Z eqn:Hlt.
    + apply Z.ltb_lt in Hlt. unfold needsColon at 1.
      destruct (isEmptyOrWhitespace l); cbn [negb andb app map];
        [apply IH; exact He|].
      destruct (isEmpty (trim (stripLineComment l))); cbn [negb andb app map];
        [apply IH; exact He|].
      destruct (test HEADER_MAY_REQUIRE_COLON_RE (trim (stripLineComment l))
                && negb (test RE_HAS_COLON (trim (stripLineComment l))));
        cbn [app map]; [|apply IH; exact He].
      replace (Z.to_nat budget - e) with (S (Z.to_nat budget - S e)) by lia.
      cbn [firstn]. rewrite IH by lia. rewrite Nat.add_0_r. reflexivity.
    + apply Z.ltb_ge in Hlt.
      replace (Z.to_nat budget - e) with 0 by lia. reflexivity.
Qed.

Lemma collectMissingColon_spec (doc : TextDocument) (sev : nat) (budget : Z) :
  collectMissingColonDiagnostics doc sev budget
  = firstn (Z.to_nat budget) (colonDefects doc sev).
Proof.
  unfold collectMissingColonDiagnostics, colonDefects.
  destruct (budget <=? 0)%Z eqn:Hb.
  - apply Z.leb_le in Hb. replace (Z.to_nat budget) with 0 by lia.
    reflexivity.
  - apply Z.leb_gt in Hb. rewrite missingColonLoop_spec by lia.
    rewrite Nat.sub_0_r. reflexivity.
Qed.

(** The validator publishes the first [maxProblems] diagnostics of the
    two checks. *)
Lemma validateDocument_spec (cfg : Configuration) (doc : TextDocument) :
  validation_enable cfg = true ->
  validateDocument cfg true doc
  = SetDiagnostics
      (firstn (Z.to_nat (Z.max 1 (validation_maxProblems cfg)))
              (allDefects cfg doc)).
Proof.
  intros Hen. unfold validateDocument, allDefects. rewrite Hen.
  cbn [negb]. f_equal.
  set (n := Z.max 1 (validation_maxProblems cfg)).
  set (sm := toSeverity (lint_missingColon_severity cfg)).
  set (su := toSeverity (lint_unbalancedTask_severity cfg)).
  assert (Hn : (1 <= n)%Z) by (subst n; lia).
  rewrite Z.sub_0_r.
  set (M := if truthy sm then colonDefects doc sm else []).
  assert (Hm : (if truthy sm then collectMissingColonDiagnostics doc sm n
                else []) = firstn (Z.to_nat n) M).
  { subst M. destruct (truthy sm); [apply collectMissingColon_spec|].
    rewrite firstn_nil. reflexivity. }
  rewrite Hm. clear Hm.
  rewrite firstn_app.
  destruct (Z.of_nat (length (firstn (Z.to_nat n) M)) <? n)%Z eqn:Hlt.
  - apply Z.ltb_lt in Hlt. rewrite length_firstn in Hlt.
    assert (HM : length M < Z.to_nat n) by lia.
    rewrite (firstn_all2 (n := Z.to_nat n) M) by lia.
    destruct (truthy su); cbn [andb].
    + rewrite collectTaskBalance_spec. f_equal. f_equal. lia.
    + rewrite firstn_nil, app_nil_r. reflexivity.
  - apply Z.ltb_ge in Hlt. rewrite length_firstn in Hlt.
    cbn [andb].
    replace (Z.to_nat n - length M) with 0 by lia.
    cbn [firstn]. rewrite app_nil_r. reflexivity.
Qed.

Lemma published_spec (cfg : Configuration) (isRoop : bool) (doc : TextDocument) :
  exists D,
    forall n, published (validateDocument (withMaxProblems cfg n) isRoop doc)
              = firstn (Z.to_nat (Z.max 1 n)) D.
Proof.
  destruct isRoop.
  - destruct (validation_enable cfg) eqn:Hen.
    + exists (allDefects cfg doc). intros n.
      rewrite validateDocument_spec by exact Hen. reflexivity.
    + exists []. intros n. unfold validateDocument. cbn.
      rewrite Hen. cbn. rewrite firstn_nil. reflexivity.
  - exists []. intros n. cbn. rewrite firstn_nil. reflexivity.
Qed.

(** The balance property holds of the client-side check. *)
Lemma client_balance_property (doc : TextDocument) (sev : nat) (budget : Z) :
  (1 <= budget)%Z ->
  collectTaskBalanceDiagnostics doc sev budget = []
  <-> balanced clientRole doc.
Proof.
  intros Hb. rewrite collectTaskBalance_spec, balanced_iff.
  unfold taskDefects.
  destruct (Z.to_nat budget) as [|n] eqn:En; [lia|].
  split.
  - intros H.
    destruct (unmatchedClosers clientRole doc) as [|c cs]; [|discriminate H].
    split; [reflexivity|].
    destruct (unmatchedOpeners clientRole doc) as [|o os] using rev_ind;
      [reflexivity|].
    rewrite rev_app_distr in H. discriminate H.
  - intros [-> ->]. reflexivity.
Qed.

End ClientValidator.

(** ** Indentation levels *)

Module NestingFacts.
Import JS Nesting.

Section Levels.
Variables dec inc : str -> bool.

Local Abbreviation stepBack := (stepBack dec).
Local Abbreviation stepIn := (stepIn inc).
Local Abbreviation trace := (trace dec inc).
Local Abbreviation levelAfter := (levelAfter dec inc).

Lemma trace_length (lines : list str) :
  forall level, length (trace level lines) = length lines.
Proof.
  induction lines as [|l rest IH]; intros level; [reflexivity|].
  cbn. rewrite IH. reflexivity.
Qed.

Lemma stepBack_nonneg (level : Z) (l : str) :
  (0 <= level)%Z -> (0 <= stepBack level l)%Z.
Proof. unfold Nesting.stepBack. destruct (dec l); lia. Qed.

Lemma stepIn_nonneg (level : Z) (l : str) :
  (0 <= level)%Z -> (0 <= stepIn level l)%Z.
Proof. unfold Nesting.stepIn. destruct (inc l); lia. Qed.

Lemma levelAfter_nonneg (lines : list str) :
  forall level, (0 <= level)%Z -> (0 <= levelAfter level lines)%Z.
Proof.
  induction lines as [|l rest IH]; intros level H; [exact H|].
  cbn. apply IH, stepIn_nonneg, stepBack_nonneg, H.
Qed.

(** The level of line [i] comes from the level in force before it. *)
Lemma trace_nth (lines : list str) :
  forall level i, i < length lines ->
    nth i (trace level lines) 0%Z
    = stepBack (levelAfter level (firstn i lines)) (nth i lines []).
Proof.
  induction lines as [|l rest IH]; intros level i Hi; [cbn in Hi; lia|].
  destruct i as [|i]; [reflexivity|].
  cbn. apply IH. cbn in Hi. lia.
Qed.

Lemma levelAfter_next (lines : list str) :
  forall level i, i < length lines ->
    levelAfter level (firstn (S i) lines)
    = stepIn (stepBack (levelAfter level (firstn i lines)) (nth i lines []))
             (nth i lines []).
Proof.
  induction lines as [|l rest IH]; intros level i Hi; [cbn in Hi; lia|].
  destruct i as [|i]; [reflexivity|].
  cbn [firstn Nesting.levelAfter nth]. apply IH. cbn in Hi. lia.
Qed.

Lemma levelAfter_app (a b : list str) :
  forall level, levelAfter level (a ++ b) = levelAfter (levelAfter level a) b.
Proof.
  induction a as [|l a IH]; intros level; [reflexivity|].
  cbn [app Nesting.levelAfter]. apply IH.
Qed.

Lemma firstn_between (doc : list str) (i j : nat) :
  i < j -> firstn j doc = firstn (S i) doc ++ linesBetween doc i j.
Proof.
  intros Hij. unfold linesBetween.
  replace j with (S i + (j - S i)) at 1 by lia.
  generalize (S i) as n, (j - S i) as m. clear.
  intros n. revert doc. induction n as [|n IH]; intros doc m.
  - reflexivity.
  - destruct doc as [|l doc]; [cbn; rewrite firstn_nil; reflexivity|].
    cbn [Nat.add firstn skipn app]. rewrite IH. reflexivity.
Qed.

(** The level in force follows the depth wherever the depth is defined:
    the floor at level 0 is never touched there. *)
Lemma levelAfter_depth (lines : list str) :
  forall L d d', (0 <= L)%Z ->
    depthBehind dec inc d lines = Some d' ->
    levelAfter (L + Z.of_nat d) lines = (L + Z.of_nat d')%Z.
Proof.
  induction lines as [|l rest IH]; intros L d d' HL H.
  - cbn in H. injection H as <-. reflexivity.
  - cbn [Nesting.depthBehind] in H. cbn [Nesting.levelAfter].
    unfold Nesting.stepIn, Nesting.stepBack.
    destruct (dec l).
    + destruct d as [|d]; [discriminate|].
      apply (IH L _ _ HL) in H. rewrite <- H. f_equal.
      destruct (inc l); lia.
    + apply (IH L _ _ HL) in H. rewrite <- H. f_equal.
      destruct (inc l); lia.
Qed.

(** Behind an opener and lines that leave every block they open, the
    level in force is one above the level of the opener. *)
Lemma levelAfter_closed (doc : list str) (level : Z) (i j : nat) :
  (0 <= level)%Z -> i < j -> j < length doc ->
  inc (nth i doc []) = true ->
  closedBetween dec inc doc i j ->
  levelAfter level (firstn j doc) = (nth i (trace level doc) 0 + 1)%Z.
Proof.
  intros H0 Hij Hj Hinc Hc.
  rewrite (firstn_between doc i j Hij), levelAfter_app.
  rewrite levelAfter_next by lia. rewrite <- trace_nth by lia.
  unfold Nesting.stepIn at 1. rewrite Hinc.
  assert (Hnn : (0 <= nth i (trace level doc) 0)%Z).
  { rewrite trace_nth by lia. apply stepBack_nonneg, levelAfter_nonneg, H0. }
  apply (levelAfter_depth _ _ 1 1 Hnn Hc).
Qed.

Theorem trace_nesting (doc : list str) (level : Z) :
  (0 <= level)%Z -> IndentOutdent dec inc doc (trace level doc).
Proof.
  intros H0. unfold IndentOutdent.
  split; [apply trace_length|].
  assert (Hnn : forall i, i < length doc -> (0 <= nth i (trace level doc) 0)%Z).
  { intros i Hi. rewrite trace_nth by exact Hi.
    apply stepBack_nonneg, levelAfter_nonneg, H0. }
  split; [exact Hnn|].
  split; [|split; [|split]].
  - intros i Hi. specialize (Hnn i ltac:(lia)).
    rewrite (trace_nth doc level (S i)) by lia.
    rewrite levelAfter_next by lia. rewrite <- trace_nth by lia.
    unfold Nesting.stepIn, Nesting.stepBack.
    destruct (inc (nth i doc [])), (dec (nth (S i) doc [])); lia.
  - intros i Hi Hinc Hdec.
    rewrite (trace_nth doc level (S i)) by lia.
    rewrite levelAfter_next by lia. rewrite <- trace_nth by lia.
    unfold Nesting.stepIn, Nesting.stepBack. rewrite Hinc, Hdec. reflexivity.
  - intros i Hi Hdec.
    rewrite (trace_nth doc level (S i)) by lia.
    rewrite levelAfter_next by lia. rewrite <- trace_nth by lia.
    unfold Nesting.stepBack. rewrite Hdec. reflexivity.
  - intros i j Hij Hj Hinc Hc Hdec.
    rewrite (trace_nth doc level j) by lia.
    rewrite (levelAfter_closed doc level i j) by assumption.
    specialize (Hnn i ltac:(lia)).
    unfold Nesting.stepBack. rewrite Hdec. lia.
Qed.
End Levels.

(** The two formatters follow that pass. *)
Lemma server_trace (lines : list str) :
  forall level,
    Server.levelTrace level lines
    = trace serverDecreases serverIncreases level lines.
Proof.
  induction lines as [|l rest IH]; intros level; [reflexivity|].
  cbn [Server.levelTrace trace].
  assert (Hb : Server.preDecrease level (trim l)
               = stepBack serverDecreases level l).
  { unfold Server.preDecrease, stepBack, serverDecreases.
    destruct (test Server.RE_FMT_END_TASK (trim l)),
             (test Server.RE_FMT_TRANSITIONAL (trim l)); reflexivity. }
  assert (Hi : forall lv, Server.postIncrease lv (trim l)
                          = stepIn serverIncreases lv l).
  { intros lv. unfold Server.postIncrease, stepIn, serverIncreases.
    destruct (test Server.RE_FMT_START_TASK (trim l)),
             (test Server.RE_BLOCK_HEADER (trim l)); reflexivity. }
  rewrite Hb, Hi, IH. reflexivity.
Qed.

Lemma client_trace (lines : list str) :
  forall level, (0 <= level)%Z ->
    Extension.levelTrace level lines
    = trace clientDecreases clientIncreases level lines.
Proof.
  induction lines as [|l rest IH]; intros level H0; [reflexivity|].
  cbn [Extension.levelTrace trace].
  assert (Hb : Extension.decrease level (trimStart (Extension.normalize l))
               = stepBack clientDecreases level l).
  { unfold Extension.decrease, stepBack, clientDecreases.
    destruct (test Extension.DECREASE_INDENT_RE _); cbn [andb]; [|reflexivity].
    destruct (0 <? level)%Z eqn:E;
      [apply Z.ltb_lt in E | apply Z.ltb_ge in E]; lia. }
  rewrite Hb. f_equal.
  rewrite IH; [reflexivity|].
  unfold Extension.increase.
  pose proof (stepBack_nonneg clientDecreases level l H0).
  destruct (test Extension.INCREASE_INDENT_RE _); lia.
Qed.

(** The formatter of the server writes each line at its level. *)
Lemma formatLoop_levels (indentSize : Z) (lines : list str) :
  forall level out,
    Server.formatLoop indentSize level lines = Some out ->
    length out = length lines
    /\ forall i, i < length lines ->
         exists pad,
           JS.repeat (lit " ")
             (nth i (Server.levelTrace level lines) 0%Z * indentSize)
           = Some pad
           /\ nth i out [] = pad ++ Server.ensureColon (trim (nth i lines [])).
Proof.
  induction lines as [|l rest IH]; intros level out H.
  - injection H as <-. split; [reflexivity|]. intros i Hi. cbn in Hi. lia.
  - cbn [Server.formatLoop] in H.
    destruct (JS.repeat _ _) as [pad|] eqn:Hpad; [|discriminate].
    destruct (Server.formatLoop _ _ rest) as [out'|] eqn:Hrest; [|discriminate].
    injection H as <-. apply IH in Hrest. destruct Hrest as [Hlen Hnth].
    split; [cbn; rewrite Hlen; reflexivity|].
    intros [|i] Hi.
    + exists pad. split; [exact Hpad | reflexivity].
    + cbn in Hi. destruct (Hnth i ltac:(lia)) as [p [H1 H2]].
      exists p. split; assumption.
Qed.

End NestingFacts.

Module ServerDiagnostics.
Import JS StrFacts Server ServerLines.

Lemma filter_none {A : Type} (f : A -> bool) (l : list A) :
  Forall (fun x => f x = false) l -> filter f l = [].
Proof.
  induction 1 as [|x l Hx _ IH]; [reflexivity|].
  cbn. rewrite Hx. exact IH.
Qed.

(** 6.1 reports on lines from [i] on, with the one message. *)
Lemma missingColonLoop_lines (sev : option DiagnosticSeverity)
    (lines : list str) :
  forall i, Forall (fun d => i <= line (range_start (range d))
                             /\ message d = MissingColon)
                   (missingColonLoop sev i lines).
Proof.
  induction lines as [|l rest IH]; intros i; [constructor|].
  cbn [missingColonLoop].
  assert (Hrest : Forall (fun d => i <= line (range_start (range d))
                                   /\ message d = MissingColon)
                         (missingColonLoop sev (S i) rest)).
  { eapply Forall_impl; [|apply IH]. cbv beta. intros d [H1 H2].
    split; [lia | exact H2]. }
  destruct (endsWithColonCandidate l && negb (endsWith (trim l) (lit ":")));
    [|exact Hrest].
  constructor; [|exact Hrest]. cbn. split; [lia | reflexivity].
Qed.

(** Exactly one of them for a header line without its colon. *)
Lemma missingColonLoop_at (sev : option DiagnosticSeverity)
    (lines : list str) :
  forall i0 k,
    k < length lines ->
    endsWithColonCandidate (nth k lines []) = true ->
    endsWith (trim (nth k lines [])) (lit ":") = false ->
    filter (missingColonAt (i0 + k)) (missingColonLoop sev i0 lines)
    = [ {| severity := sev; message := MissingColon;
           range := makeRange (i0 + k) 0
                      (Z.of_nat (length (nth k lines []))) |} ].
Proof.
  induction lines as [|l rest IH]; intros i0 k Hk Hc He; [cbn in Hk; lia|].
  destruct k as [|k].
  - cbn [nth] in *. cbn [missingColonLoop]. rewrite Hc, He. cbn [negb andb].
    rewrite Nat.add_0_r. cbn [filter].
    unfold missingColonAt at 1. cbn. rewrite Nat.eqb_refl.
    f_equal. apply filter_none.
    eapply Forall_impl; [|apply missingColonLoop_lines].
    cbv beta. intros d [H1 _]. unfold missingColonAt.
    apply andb_false_iff. right. apply Nat.eqb_neq. lia.
  - cbn [nth] in *. cbn [missingColonLoop].
    replace (i0 + S k) with (S i0 + k) by lia.
    destruct (endsWithColonCandidate l && negb (endsWith (trim l) (lit ":"))).
    + cbn [filter]. unfold missingColonAt at 1. cbn.
      replace (i0 =? S (i0 + k)) with false
        by (symmetry; apply Nat.eqb_neq; lia).
      apply (IH (S i0) k); [cbn in Hk; lia | exact Hc | exact He].
    + apply (IH (S i0) k); [cbn in Hk; lia | exact Hc | exact He].
Qed.

Lemma unbalancedTaskCheck_messages (sev : option DiagnosticSeverity)
    (doc : TextDocument) :
  Forall (fun d => isUnbalancedTask d = true /\ isMissingColon d = false)
         (unbalancedTaskCheck sev doc).
Proof.
  unfold unbalancedTaskCheck. destruct (countTasks doc 0 0) as [s e].
  destruct (negb (s =? e)); constructor; [|constructor].
  split; reflexivity.
Qed.

Lemma unknownVerbLoop_messages (extras : list str) (lines : list str) :
  forall i, Forall (fun d => isUnbalancedTask d = false
                             /\ isMissingColon d = false)
                   (unknownVerbLoop extras i lines).
Proof.
  induction lines as [|l rest IH]; intros i; [constructor|].
  cbn [unknownVerbLoop].
  destruct (isEmpty (trim l) || _ || _ || _); [apply IH|].
  destruct (firstVerb (trim l)) as [v|]; [|apply IH].
  destruct (isEmpty v); [apply IH|].
  destruct (negb _); [|apply IH].
  constructor; [split; reflexivity | apply IH].
Qed.

(** The counters do not see a header line, with or without its colon. *)
Lemma countTasks_fixLine (doc : TextDocument) :
  forall i s e,
    endsWithColonCandidate (lineAt doc i) = true ->
    countTasks (fixLine doc i) s e = countTasks doc s e.
Proof.
  induction doc as [|l rest IH]; intros i s e H; [reflexivity|].
  destruct i as [|i].
  - cbn [fixLine countTasks]. unfold lineAt in H. cbn [nth] in H.
    destruct (candidate_not_task l H) as [-> ->].
    destruct (candidate_fix_not_task l H) as [-> ->]. reflexivity.
  - cbn [fixLine countTasks]. apply IH. exact H.
Qed.

Lemma unbalancedTaskCheck_length (sev : option DiagnosticSeverity)
    (doc : TextDocument) :
  length (unbalancedTaskCheck sev doc)
  = if fst (countTasks doc 0 0) =? snd (countTasks doc 0 0) then 0 else 1.
Proof.
  unfold unbalancedTaskCheck. destruct (countTasks doc 0 0) as [s e].
  cbn [fst snd]. destruct (s =? e); reflexivity.
Qed.

(** The [UnbalancedTask] diagnostics of a pass are those of 6.2. *)
Lemma unbalanced_of_pass (settings : RoopSettings) (doc : TextDocument) :
  filter isUnbalancedTask (diagnosticsOf settings doc)
  = if isOff (lint_unbalancedTask settings) then []
    else unbalancedTaskCheck (toSeverity (lint_unbalancedTask settings)) doc.
Proof.
  unfold diagnosticsOf. rewrite !filter_app.
  rewrite (filter_none isUnbalancedTask (unknownVerbLoop _ _ _)), app_nil_r.
  2:{ eapply Forall_impl; [|apply unknownVerbLoop_messages].
      cbv beta. intros d [H _]. exact H. }
  replace (filter isUnbalancedTask
             (if negb (isOff (lint_missingColon settings))
              then missingColonLoop (toSeverity (lint_missingColon settings)) 0 doc
              else [])) with (@nil Diagnostic).
  2:{ symmetry. destruct (negb _); [|reflexivity]. apply filter_none.
      eapply Forall_impl; [|apply missingColonLoop_lines].
      cbv beta. intros d [_ H]. unfold isUnbalancedTask. rewrite H.
      reflexivity. }
  cbn [app]. destruct (isOff (lint_unbalancedTask settings)); [reflexivity|].
  cbn [negb].
  induction (unbalancedTaskCheck_messages
               (toSeverity (lint_unbalancedTask settings)) doc)
    as [|d l [Hd _] _ IH]; [reflexivity|].
  cbn. rewrite Hd, IH. reflexivity.
Qed.

End ServerDiagnostics.

(** ** Outline and folds of the server *)

Module ServerOutline.
Import JS StrFacts JSFacts PatternFacts Server ServerPatterns ServerLines.
Import Outline Blocks.

Lemma ws_not_word (c : ascii) : isWhiteSpace c = true -> isWordChar c = false.
Proof.
  destruct c as [[] [] [] [] [] [] [] []]; vm_compute; congruence.
Qed.

Lemma steps_chars_prev (w : str) (c : ascii) (st st' : mstate) :
  steps (chars chr (w ++ [c])) st st' -> m_prev st' = Some c.
Proof.
  revert st. induction w as [|x w IH]; intros st H; cbn in H.
  - inversion H; subst.
    match goal with
    | H1 : steps (chr _) _ _, H2 : steps Empty _ _ |- _ =>
        inversion H1; subst; inversion H2; subst
    end.
    match goal with Hc : Ascii.eqb _ _ = true |- _ =>
      apply Ascii.eqb_eq in Hc; subst end.
    reflexivity.
  - inversion H; subst. eapply IH; eauto.
Qed.

(** A line the outline takes for a task opener is a [start task] line. *)
Lemma symbol_task_is_start (l title : str) :
  group1 (exec RE_SYMBOL_TASK l) = Some title -> isStartTask l = true.
Proof.
  intros H. destruct (exec RE_SYMBOL_TASK l) as [caps|] eqn:E;
    [|discriminate].
  clear H. apply exec_anchored_sound in E. destruct E as [st' [H _]].
  cbn [cat] in H.
  inversion H as [| |? ? st0 st1 ? HA H1| | | | | | | |]; subst; clear H.
  inversion H1 as [| |? ? ? st2 ? HB H2| | | | | | | |]; subst; clear H1.
  inversion H2 as [| |? ? ? st3 ? HC H3| | | | | | | |]; subst; clear H2.
  inversion H3 as [| |? ? ? st4 ? HD H4| | | | | | | |]; subst; clear H3.
  inversion H4 as [| |? ? ? st5 ? HE _| | | | | | | |]; subst; clear H4.
  inversion HE as [| |? ? ? st6 ? HF _| | | | | | | |]; subst; clear HE.
  apply (test_anchored_complete _ l st4).
  cbn [cat].
  repeat (eapply StepCat; [eassumption|]).
  apply StepWordB.
  apply (steps_chars_prev (lit "tas") "k"%char) in HD.
  unfold wordBefore, wordAfter. rewrite HD.
  inversion HF; subst. cbn [m_rest].
  match goal with Hw : isWhiteSpace _ = true |- _ =>
    rewrite (ws_not_word _ Hw) end.
  reflexivity.
Qed.

(** An [end task] line is no opener, for the outline or for the folds. *)
Lemma end_task_not_opener (l : str) :
  test RE_END_TASK l = true ->
  outlineTitle l = None /\ isStartTask l = false.
Proof.
  intros H. apply end_task_shape in H. destruct H as [r H]. split.
  - unfold outlineTitle.
    destruct (exec RE_SYMBOL_TASK l) as [caps|] eqn:E1.
    { apply symbol_task_shape in E1. destruct E1 as [r' E1].
      rewrite E1 in H. discriminate H. }
    destruct (exec RE_SYMBOL_TEMPLATE l) as [caps|] eqn:E2.
    { apply symbol_template_shape in E2. destruct E2 as [r' E2].
      rewrite E2 in H. discriminate H. }
    reflexivity.
  - destruct (isStartTask l) eqn:E; [|reflexivity].
    apply start_task_shape in E. destruct E as [r' E].
    rewrite E in H. discriminate H.
Qed.

Lemma outlineRole_neutral (l : str) :
  outlineRole l = Neutral ->
  outlineTitle l = None /\ test RE_END_TASK l = false.
Proof.
  unfold outlineRole. destruct (outlineTitle l); [discriminate|].
  destruct (test RE_END_TASK l); [discriminate|]. auto.
Qed.

(** ** The scan of the outline *)

(** One step of [symbolLoop], by the role of the line. *)
Lemma symbolLoop_opens (doc : TextDocument) (i : nat) (l : str)
    (rest : list str) (stack : list Frame) (title : str) (k : SymbolKind) :
  outlineTitle l = Some (title, k) ->
  symbolLoop doc i (l :: rest) stack
  = symbolLoop doc (S i) rest
      ({| frameName := title; startLine := i; frameKind := k |} :: stack).
Proof.
  unfold outlineTitle. cbn [symbolLoop]. intros H.
  destruct (group1 (exec RE_SYMBOL_TASK l)) as [t|].
  - injection H as <- <-. reflexivity.
  - destruct (group1 (exec RE_SYMBOL_TEMPLATE l)) as [t|]; [|discriminate].
    injection H as <- <-. reflexivity.
Qed.

Lemma symbolLoop_other (doc : TextDocument) (i : nat) (l : str)
    (rest : list str) (stack : list Frame) :
  outlineTitle l = None ->
  symbolLoop doc i (l :: rest) stack
  = if test RE_END_TASK l then
      match stack with
      | last :: stack' =>
          let (symbols, final) := symbolLoop doc (S i) rest stack' in
          (symbolOf doc last i :: symbols, final)
      | [] => symbolLoop doc (S i) rest []
      end
    else symbolLoop doc (S i) rest stack.
Proof.
  unfold outlineTitle. cbn [symbolLoop]. intros H.
  destruct (group1 (exec RE_SYMBOL_TASK l)) as [t|]; [discriminate|].
  destruct (group1 (exec RE_SYMBOL_TEMPLATE l)) as [t|]; [discriminate|].
  reflexivity.
Qed.

(** A frame under [k] others stays on the stack while it stays open. *)
Lemma frame_stays (doc : TextDocument) (lines : list str) :
  forall i stack k fr,
    nth_error stack k = Some fr ->
    staysOpen outlineRole k lines = true ->
    In fr (snd (symbolLoop doc i lines stack)).
Proof.
  induction lines as [|l rest IH]; intros i stack k fr Hfr Hopen.
  - cbn. eapply nth_error_In; eauto.
  - cbn [staysOpen] in Hopen. unfold outlineRole in Hopen.
    destruct (outlineTitle l) as [[title kind]|] eqn:Et.
    + rewrite (symbolLoop_opens _ _ _ _ _ _ _ Et).
      apply (IH _ _ (S k)); [exact Hfr | exact Hopen].
    + rewrite (symbolLoop_other _ _ _ _ _ Et).
      destruct (test RE_END_TASK l).
      * destruct k as [|k]; [discriminate|].
        destruct stack as [|x stack]; [discriminate|]. cbn in Hfr.
        specialize (IH (S i) stack k fr Hfr Hopen).
        destruct (symbolLoop doc (S i) rest stack). exact IH.
      * apply (IH _ _ k); assumption.
Qed.

Lemma symbolLoop_app (doc : TextDocument) (a b : list str) :
  forall i stack,
    symbolLoop doc i (a ++ b) stack
    = (fst (symbolLoop doc i a stack)
       ++ fst (symbolLoop doc (i + length a) b (snd (symbolLoop doc i a stack))),
       snd (symbolLoop doc (i + length a) b (snd (symbolLoop doc i a stack)))).
Proof.
  induction a as [|l a IH]; intros i stack.
  - cbn. rewrite Nat.add_0_r. destruct (symbolLoop doc i b stack); reflexivity.
  - cbn [app length]. replace (i + S (length a)) with (S i + length a) by lia.
    destruct (outlineTitle l) as [[title kind]|] eqn:Et.
    + rewrite !(symbolLoop_opens _ _ _ _ _ _ _ Et). apply IH.
    + rewrite !(symbolLoop_other _ _ _ _ _ Et).
      destruct (test RE_END_TASK l); [|apply IH].
      destruct stack as [|x stack]; [apply IH|].
      rewrite IH. destruct (symbolLoop doc (S i) a stack). reflexivity.
Qed.

Lemma skipn_head (doc : list str) (i : nat) (l : str) (rest : list str) :
  skipn i doc = l :: rest -> nth i doc [] = l /\ skipn (S i) doc = rest.
Proof.
  revert i. induction doc as [|x doc IH]; intros i H.
  - destruct i; discriminate.
  - destruct i as [|i]; [injection H as -> ->; auto|].
    cbn in H. apply IH in H. exact H.
Qed.

Lemma symbolLoop_from_task (doc : TextDocument) (lines : list str) :
  forall i stack,
    skipn i doc = lines ->
    Forall (fun fr => fromTaskLine doc (frameKind fr) (startLine fr)) stack ->
    Forall (fun sym => fromTaskLine doc (symbolKind sym) (startOf sym))
           (fst (symbolLoop doc i lines stack))
    /\ Forall (fun fr => fromTaskLine doc (frameKind fr) (startLine fr))
              (snd (symbolLoop doc i lines stack)).
Proof.
  induction lines as [|l rest IH]; intros i stack Hs Hst.
  - cbn. split; [constructor | exact Hst].
  - apply skipn_head in Hs. destruct Hs as [Hl Hs].
    cbn [symbolLoop].
    destruct (group1 (exec RE_SYMBOL_TASK l)) as [t|] eqn:E1.
    { apply IH; [exact Hs|]. constructor; [|exact Hst].
      cbn. intros _. exists t. rewrite Hl. exact E1. }
    destruct (group1 (exec RE_SYMBOL_TEMPLATE l)) as [t|] eqn:E2.
    { apply IH; [exact Hs|]. constructor; [|exact Hst].
      cbn. intros H. discriminate H. }
    destruct (test RE_END_TASK l); [|apply IH; assumption].
    destruct stack as [|x stack]; [apply IH; assumption|].
    pose proof (Forall_inv Hst) as Hx.
    pose proof (Forall_inv_tail Hst) as Hst'.
    specialize (IH (S i) stack Hs Hst').
    destruct (symbolLoop doc (S i) rest stack) as [symbols final].
    cbn [fst snd] in *. destruct IH as [IH1 IH2].
    split; [|exact IH2]. constructor; [exact Hx | exact IH1].
Qed.

Lemma symbol_from_task (doc : TextDocument) (sym : DocumentSymbol) :
  In sym (onDocumentSymbol (Some doc)) ->
  symbolKind sym = SymModule ->
  isStartTask (nth (startOf sym) doc []) = true.
Proof.
  unfold onDocumentSymbol. intros Hin Hk.
  destruct (symbolLoop_from_task doc doc 0 [] eq_refl (Forall_nil _))
    as [H1 H2].
  destruct (symbolLoop doc 0 doc []) as [symbols stack].
  cbn [fst snd] in *. apply in_app_or in Hin.
  destruct Hin as [Hin | Hin].
  - rewrite Forall_forall in H1. destruct (H1 sym Hin Hk) as [t Ht].
    eapply symbol_task_is_start; eauto.
  - apply in_map_iff in Hin. destruct Hin as [fr [<- Hfr]].
    rewrite Forall_forall in H2. destruct (H2 fr Hfr Hk) as [t Ht].
    eapply symbol_task_is_start; eauto.
Qed.

(** ** Task folds *)

Lemma taskFold_open (lines : list str) :
  forall i s0 e,
    e < length lines ->
    (forall j, j < e -> isStartTask (nth j lines []) = false
                        /\ isEndTask (nth j lines []) = false) ->
    isStartTask (nth e lines []) = false ->
    isEndTask (nth e lines []) = true ->
    s0 < i + e ->
    In {| foldStart := s0; foldEnd := i + e; foldKind := Some FoldRegion |}
       (taskFoldLoop i lines (Some s0)).
Proof.
  induction lines as [|l rest IH]; intros i s0 e He Hbody HS HE Hlt;
    [cbn in He; lia|].
  cbn [taskFoldLoop]. fold (isStartTask l). fold (isEndTask l).
  destruct e as [|e].
  - cbn [nth] in HS, HE. rewrite HS, HE. apply in_or_app. left.
    unfold pushFold. rewrite Nat.add_0_r in *.
    apply Nat.ltb_lt in Hlt. rewrite Hlt. left. reflexivity.
  - destruct (Hbody 0 ltac:(lia)) as [H1 H2]. cbn [nth] in H1, H2.
    rewrite H1, H2. replace (i + S e) with (S i + e) by lia.
    apply IH; [cbn in He; lia| |exact HS|exact HE|lia].
    intros j Hj. apply (Hbody (S j)). lia.
Qed.

Lemma taskFold_found (lines : list str) :
  forall i ts s e,
    s < e -> e < length lines ->
    isStartTask (nth s lines []) = true ->
    (forall j, s < j -> j < e -> isStartTask (nth j lines []) = false
                                 /\ isEndTask (nth j lines []) = false) ->
    isStartTask (nth e lines []) = false ->
    isEndTask (nth e lines []) = true ->
    In {| foldStart := i + s; foldEnd := i + e; foldKind := Some FoldRegion |}
       (taskFoldLoop i lines ts).
Proof.
  induction lines as [|l rest IH]; intros i ts s e Hse He Hs Hbody HS HE;
    [cbn in He; lia|].
  destruct e as [|e]; [lia|].
  cbn [taskFoldLoop]. fold (isStartTask l). fold (isEndTask l).
  destruct s as [|s].
  - cbn [nth] in Hs. rewrite Hs. rewrite Nat.add_0_r.
    replace (i + S e) with (S i + e) by lia.
    apply taskFold_open; [cbn in He; lia| |exact HS|exact HE|lia].
    intros j Hj. apply (Hbody (S j)); lia.
  - assert (Hrec : forall ts',
               In {| foldStart := i + S s; foldEnd := i + S e;
                     foldKind := Some FoldRegion |}
                  (taskFoldLoop (S i) rest ts')).
    { intros ts'. replace (i + S s) with (S i + s) by lia.
      replace (i + S e) with (S i + e) by lia.
      apply IH; [lia|cbn in He; lia|exact Hs| |exact HS|exact HE].
      intros j H1 H2. apply (Hbody (S j)); lia. }
    destruct (isStartTask l); [apply Hrec|].
    destruct (isEndTask l); [|apply Hrec].
    destruct ts as [s0|]; [|apply Hrec].
    apply in_or_app. right. apply Hrec.
Qed.

End ServerOutline.

(** ** Whitespace-only and comment-only lines *)

Module TransparentLines.
Import JS StrFacts JSFacts PatternFacts Server ServerLines Outline.

Lemma ws_not_slash (c : ascii) :
  isWhiteSpace c = true -> Ascii.eqb "/" c = false.
Proof.
  intros H. destruct (Ascii.eqb_spec "/"%char c) as [<-|]; [|reflexivity].
  discriminate H.
Qed.

Lemma indexOf_comment (w x : str) :
  allWs w ->
  forall i, indexOf_from i (w ++ "/"%char :: "/"%char :: x) (lit "//")
            = Z.of_nat (i + length w).
Proof.
  induction 1 as [|c w Hc _ IH]; intros i.
  - cbn. rewrite Nat.add_0_r. reflexivity.
  - cbn [app indexOf_from length]. cbn [startsWith lit list_ascii_of_string].
    rewrite (ws_not_slash c Hc). cbn [andb]. rewrite IH. f_equal. lia.
Qed.

(** The client-side checks see nothing on such a line. *)
Lemma transparent_strip (l : str) :
  isTransparent l = true -> Extension.stripLineComment l = [].
Proof.
  intros H. unfold Extension.stripLineComment.
  apply orb_true_iff in H. destruct H as [H | H].
  - apply blank_trim in H. apply trim_nil_ws in H.
    apply trimEnd_ws. destruct (0 <=? indexOf l (lit "//"))%Z; [|exact H].
    unfold slice0. rewrite <- (firstn_skipn (Z.to_nat (indexOf l (lit "//"))) l) in H.
    apply Forall_app in H. apply H.
  - apply comment_trim in H. destruct H as [r H].
    destruct (trim_split l) as [w1 [w2 [E [H1 [H2 _]]]]].
    rewrite H in E. cbn [app] in E.
    assert (Hi : indexOf l (lit "//") = Z.of_nat (length w1)).
    { unfold indexOf. rewrite E at 1. rewrite indexOf_comment by exact H1.
      reflexivity. }
    rewrite Hi. replace (0 <=? Z.of_nat (length w1))%Z with true
      by (symmetry; apply Z.leb_le; lia).
    rewrite Nat2Z.id. unfold slice0. rewrite E at 1.
    rewrite firstn_app, firstn_all, Nat.sub_diag. cbn [firstn].
    rewrite app_nil_r. apply trimEnd_ws. exact H1.
Qed.

Lemma transparent_clientRole (l : str) :
  isTransparent l = true -> clientRole l = Neutral.
Proof.
  intros H. unfold clientRole. rewrite (transparent_strip l H). reflexivity.
Qed.

Lemma levelTrace_transparent (l : str) (level : Z) (rest : list str) :
  isTransparent l = true ->
  levelTrace level (l :: rest) = level :: levelTrace level rest.
Proof.
  intros H. cbn [levelTrace].
  destruct (transparent_level l level H) as [-> ->]. reflexivity.
Qed.

(** The levels of the other lines are those of the document without the
    whitespace-only and comment-only lines. *)
Lemma levels_of_solid_lines (doc : list str) :
  forall level,
    solidLevels doc (levelTrace level doc)
    = levelTrace level (solidLines doc).
Proof.
  unfold solidLevels, solidLines.
  induction doc as [|l rest IH]; intros level; [reflexivity|].
  destruct (isTransparent l) eqn:Ht.
  - rewrite levelTrace_transparent by exact Ht.
    cbn [combine filter fst]. rewrite Ht. cbn [negb]. apply IH.
  - cbn [levelTrace combine filter fst]. rewrite Ht. cbn [negb map snd levelTrace].
    f_equal. apply IH.
Qed.

End TransparentLines.

(** ** The formatter of the server on its own output *)

Module FormatterFacts.
Import JS StrFacts Server Formatted.

Lemma trimEnd_idem (s : str) : trimEnd (trimEnd s) = trimEnd s.
Proof.
  induction s as [|c s IH]; [reflexivity|].
  cbn [trimEnd]. destruct (trimEnd s) as [|x r] eqn:E.
  - destruct (isWhiteSpace c) eqn:Hc; [reflexivity|].
    cbn. rewrite Hc. reflexivity.
  - cbn [trimEnd] in *. rewrite IH. reflexivity.
Qed.

Lemma trim_idem (s : str) : trim (trim s) = trim s.
Proof.
  unfold trim at 1.
  assert (H : trimStart (trim s) = trim s).
  { destruct (trim_head s) as [E | E]; [rewrite E; reflexivity|].
    apply trimStart_solid. exact E. }
  rewrite H. unfold trim. apply trimEnd_idem.
Qed.

(** Padding before a trimmed text does not change what [trim] finds. *)
Lemma trim_padded (w s : str) : allWs w -> trim (w ++ trim s) = trim s.
Proof.
  intros Hw. unfold trim at 1. rewrite trimStart_ws by exact Hw.
  fold (trim (trim s)). apply trim_idem.
Qed.

Lemma repeat_space_spaces (n : Z) (pad : str) :
  JS.repeat (lit " ") n = Some pad -> Forall (fun c => c = " "%char) pad.
Proof.
  unfold JS.repeat. destruct (n <? 0)%Z; [discriminate|].
  intros H. injection H as <-.
  induction (Z.to_nat n) as [|k IH]; [constructor|].
  cbn. constructor; [reflexivity | exact IH].
Qed.

Lemma repeat_space_ws (n : Z) (pad : str) :
  JS.repeat (lit " ") n = Some pad -> allWs pad.
Proof.
  intros H. apply repeat_space_spaces in H.
  eapply Forall_impl; [|exact H]. cbv beta. intros c ->. reflexivity.
Qed.

(** The loop of the formatter leaves its own output alone when no colon
    was missing. *)
Lemma formatLoop_stable (indentSize : Z) (lines : list str) :
  forall level out,
    colonsPresent lines ->
    formatLoop indentSize level lines = Some out ->
    formatLoop indentSize level out = Some out.
Proof.
  induction lines as [|l rest IH]; intros level out Hc H.
  - injection H as <-. reflexivity.
  - cbn [formatLoop] in H.
    destruct (JS.repeat _ _) as [pad|] eqn:Hpad; [|discriminate].
    destruct (formatLoop _ _ rest) as [out'|] eqn:Hrest; [|discriminate].
    injection H as <-.
    pose proof (Forall_inv Hc) as Hl. pose proof (Forall_inv_tail Hc) as Hr.
    cbv beta in Hl. rewrite Hl.
    cbn [formatLoop].
    rewrite (trim_padded pad l (repeat_space_ws _ _ Hpad)).
    rewrite Hpad, Hl. rewrite (IH _ _ Hr Hrest). reflexivity.
Qed.

(** Lines come back from [join] as they went in. *)
Lemma splitLines_aux_line (l : str) :
  Forall (fun c => Ascii.eqb c LF = false /\ Ascii.eqb c CR = false) l ->
  forall cur rest,
    splitLines_aux cur (l ++ LF :: rest)
    = (rev cur ++ l) :: splitLines_aux [] rest.
Proof.
  induction 1 as [|c l [H1 H2] _ IH]; intros cur rest.
  - cbn. rewrite app_nil_r. reflexivity.
  - cbn [app splitLines_aux]. rewrite H1, H2, IH. cbn [rev].
    rewrite <- app_assoc. reflexivity.
Qed.

Lemma splitLines_aux_last (l : str) :
  Forall (fun c => Ascii.eqb c LF = false /\ Ascii.eqb c CR = false) l ->
  forall cur, splitLines_aux cur l = [rev cur ++ l].
Proof.
  induction 1 as [|c l [H1 H2] _ IH]; intros cur.
  - cbn. rewrite app_nil_r. reflexivity.
  - cbn [splitLines_aux]. rewrite H1, H2, IH. cbn [rev].
    rewrite <- app_assoc. reflexivity.
Qed.

Lemma splitLines_join (lines : list str) :
  lines <> [] -> noLineBreaks lines -> splitLines (join lines) = lines.
Proof.
  unfold splitLines. induction lines as [|l rest IH]; intros Hne Hnb;
    [contradiction|].
  pose proof (Forall_inv Hnb) as Hl. pose proof (Forall_inv_tail Hnb) as Hr.
  destruct rest as [|l2 rest].
  - cbn [join]. rewrite splitLines_aux_last by exact Hl. reflexivity.
  - change (join (l :: l2 :: rest)) with (l ++ LF :: join (l2 :: rest)).
    rewrite splitLines_aux_line by exact Hl. cbn [rev app].
    rewrite IH; [reflexivity | discriminate | exact Hr].
Qed.

(** What the formatter writes has no line break when the input has none,
    and misses no colon. *)
Lemma dropWhile_keeps (P : ascii -> Prop) (p : ascii -> bool) (s : str) :
  Forall P s -> Forall P (dropWhile p s).
Proof.
  induction 1 as [|c s Hc Hs IH]; [constructor|].
  cbn. destruct (p c); [exact IH | constructor; assumption].
Qed.

Lemma trimEnd_keeps (P : ascii -> Prop) (s : str) :
  Forall P s -> Forall P (trimEnd s).
Proof.
  induction 1 as [|c s Hc Hs IH]; [constructor|].
  cbn. destruct (trimEnd s) as [|x r].
  - destruct (isWhiteSpace c); constructor; [exact Hc | constructor].
  - constructor; assumption.
Qed.

Lemma trim_keeps (P : ascii -> Prop) (s : str) :
  Forall P s -> Forall P (trim s).
Proof. intros H. apply trimEnd_keeps, dropWhile_keeps, H. Qed.

Lemma formatLoop_output (indentSize : Z) (lines : list str) :
  forall level out,
    colonsPresent lines -> noLineBreaks lines ->
    formatLoop indentSize level lines = Some out ->
    colonsPresent out /\ noLineBreaks out /\ length out = length lines.
Proof.
  induction lines as [|l rest IH]; intros level out Hc Hn H.
  - injection H as <-. repeat split; constructor.
  - cbn [formatLoop] in H.
    destruct (JS.repeat _ _) as [pad|] eqn:Hpad; [|discriminate].
    destruct (formatLoop _ _ rest) as [out'|] eqn:Hrest; [|discriminate].
    injection H as <-.
    pose proof (Forall_inv Hc) as Hl. pose proof (Forall_inv_tail Hc) as Hr.
    pose proof (Forall_inv Hn) as Hnl. pose proof (Forall_inv_tail Hn) as Hnr.
    destruct (IH _ _ Hr Hnr Hrest) as [IH1 [IH2 IH3]].
    cbv beta in Hl. rewrite Hl.
    pose proof (repeat_space_ws _ _ Hpad) as Hw.
    repeat split.
    + constructor; [|exact IH1]. rewrite trim_padded by exact Hw. exact Hl.
    + constructor; [|exact IH2]. apply Forall_app. split.
      * eapply Forall_impl; [|exact (repeat_space_spaces _ _ Hpad)].
        cbv beta. intros c ->. split; reflexivity.
      * apply trim_keeps. exact Hnl.
    + cbn. rewrite IH3. reflexivity.
Qed.

(** Formatting is idempotent on the documents that miss no colon. *)
Theorem server_format_stable (settings : RoopSettings) (doc once : TextDocument) :
  doc <> [] -> noLineBreaks doc -> colonsPresent doc ->
  formatDocument settings doc = Some once ->
  formatDocument settings once = Some once.
Proof.
  intros Hne Hn Hc. unfold formatDocument, onDocumentFormatting.
  destruct (negb (format_enabled settings)) eqn:Hen.
  - cbn. intros H. injection H as <-. reflexivity.
  - destruct (formatLoop _ 0 doc) as [out|] eqn:Hout; [|discriminate].
    cbn [applyFormatting newText]. intros H. injection H as <-.
    destruct (formatLoop_output _ _ _ _ Hc Hn Hout) as [H1 [H2 H3]].
    assert (Hne' : out <> []).
    { destruct out; [|discriminate]. destruct doc; [contradiction|].
      discriminate H3. }
    rewrite (splitLines_join out Hne' H2).
    rewrite (formatLoop_stable _ _ _ _ Hc Hout). cbn [applyFormatting newText].
    rewrite (splitLines_join out Hne' H2). reflexivity.
Qed.

End FormatterFacts.

(** ** Totals, solid lines, severities *)

Module ServerTotals.
Import JS Server ServerDiagnostics.

Lemma countTasks_totals (doc : TextDocument) :
  forall s e,
    countTasks doc s e
    = (s + length (filter isStartTask doc), e + length (filter isEndTask doc)).
Proof.
  induction doc as [|l rest IH]; intros s e.
  - cbn. rewrite !Nat.add_0_r. reflexivity.
  - cbn [countTasks filter]. rewrite IH.
    destruct (isStartTask l), (isEndTask l); cbn [length]; f_equal; lia.
Qed.

(** The check of the server is silent exactly when the two totals agree,
    whatever the order of the lines. *)
Lemma server_unbalanced_iff_totals (settings : RoopSettings)
    (doc : TextDocument) :
  lint_unbalancedTask settings <> off ->
  filter isUnbalancedTask (diagnosticsOf settings doc) = []
  <-> length (filter isStartTask doc) = length (filter isEndTask doc).
Proof.
  intros Hon. rewrite unbalanced_of_pass.
  destruct (lint_unbalancedTask settings) eqn:E; [contradiction| | |];
    cbn [isOff]; unfold unbalancedTaskCheck; rewrite countTasks_totals;
    cbn [Nat.add];
    destruct (Nat.eqb_spec (length (filter isStartTask doc))
                           (length (filter isEndTask doc))) as [H|H];
    cbn [negb]; split; intros H'; try assumption; try reflexivity;
    try discriminate; contradiction.
Qed.

End ServerTotals.

Module SolidLines.
Import JS Outline MatchingFacts.

Lemma map_constant {A B : Type} (b : B) (l : list A) :
  map (fun _ => b) l = List.repeat b (length l).
Proof. induction l as [|x l IH]; cbn; [|rewrite IH]; reflexivity. Qed.

Section Kept.
Variable role : str -> Role.
Variable keep : str -> bool.
Hypothesis dropped_neutral : forall l, keep l = false -> role l = Neutral.

(** Dropping neutral lines changes no count of unmatched lines. *)
Lemma closers_kept (lines : list str) :
  forall d,
    length (unmatchedClosersFrom role d (filter keep lines))
    = length (unmatchedClosersFrom role d lines).
Proof.
  induction lines as [|l rest IH]; intros d; [reflexivity|].
  cbn [filter]. destruct (keep l) eqn:Hk.
  - rewrite !closersFrom_cons, !length_app, !length_map, IH. reflexivity.
  - rewrite closersFrom_cons, length_app, length_map.
    unfold depthStep, closes. rewrite (dropped_neutral l Hk).
    cbn [andb length Nat.add]. apply IH.
Qed.

Lemma staysOpen_kept (lines : list str) (d : nat) :
  staysOpen role d (filter keep lines) = staysOpen role d lines.
Proof. rewrite !staysOpen_closers, closers_kept. reflexivity. Qed.

Lemma openers_kept (lines : list str) :
  length (unmatchedOpeners role (filter keep lines))
  = length (unmatchedOpeners role lines).
Proof.
  induction lines as [|l rest IH]; [reflexivity|].
  cbn [filter]. destruct (keep l) eqn:Hk.
  - rewrite !openers_cons, !length_app, !length_map, IH, staysOpen_kept.
    reflexivity.
  - rewrite openers_cons, length_app, length_map.
    unfold opens. rewrite (dropped_neutral l Hk).
    cbn [andb length Nat.add]. exact IH.
Qed.
End Kept.

(** The messages of the client-side task-balance check are those it
    gives on the document without its whitespace-only and comment-only
    lines. *)
Lemma taskDefects_messages (doc : Extension.TextDocument) (sev : nat) :
  map Extension.message (taskDefects doc sev)
  = List.repeat Extension.EndWithoutStart
      (length (unmatchedClosers clientRole doc))
    ++ List.repeat Extension.StartWithoutEnd
         (length (unmatchedOpeners clientRole doc)).
Proof.
  unfold taskDefects. rewrite map_app, !map_map.
  cbn [closerDiag openerDiag Extension.message].
  rewrite !map_constant, length_rev. reflexivity.
Qed.

Lemma client_messages_solid (doc : Extension.TextDocument) (sev : nat)
    (budget : Z) :
  map Extension.message
      (Extension.collectTaskBalanceDiagnostics doc sev budget)
  = map Extension.message
      (Extension.collectTaskBalanceDiagnostics (solidLines doc) sev budget).
Proof.
  rewrite !ClientBalance.collectTaskBalance_spec, <- !firstn_map.
  rewrite !taskDefects_messages. unfold solidLines, unmatchedClosers.
  assert (H : forall l, negb (isTransparent l) = false -> clientRole l = Neutral).
  { intros l Hl. apply negb_false_iff in Hl.
    apply TransparentLines.transparent_clientRole. exact Hl. }
  rewrite (closers_kept clientRole _ H), (openers_kept clientRole _ H).
  reflexivity.
Qed.

Lemma server_counters_solid (doc : Server.TextDocument) :
  forall s e,
    Server.countTasks (solidLines doc) s e = Server.countTasks doc s e.
Proof.
  unfold solidLines. induction doc as [|l rest IH]; intros s e; [reflexivity|].
  cbn [filter]. destruct (isTransparent l) eqn:Ht; cbn [negb].
  - cbn [Server.countTasks].
    destruct (ServerLines.transparent_not_task l Ht) as [-> ->]. apply IH.
  - cbn [Server.countTasks]. apply IH.
Qed.

End SolidLines.

Module ClientSeverity.
Import JS Extension.

(** [toSeverity "error"] is [vscode.DiagnosticSeverity.Error], the number
    0, which the validator takes for "off": with both checks set to
    [error] it publishes nothing. *)
Lemma error_severity_silences (cfg : Configuration) (doc : TextDocument) :
  validation_enable cfg = true ->
  lint_missingColon_severity cfg = error ->
  lint_unbalancedTask_severity cfg = error ->
  validateDocument cfg true doc = SetDiagnostics [].
Proof.
  intros H1 H2 H3. unfold validateDocument. rewrite H1, H2, H3. cbn.
  destruct (0 <? Z.max 1 (validation_maxProblems cfg))%Z; reflexivity.
Qed.

End ClientSeverity.

(** ** Titles of task symbols *)

Module Titles.
Import JS StrFacts JSFacts PatternFacts Server.

Lemma steps_groupFree (r : regex) (st st' : mstate) :
  steps r st st' -> groupFree r = true -> m_caps st' = m_caps st.
Proof.
  induction 1; cbn [groupFree]; intros G;
    try reflexivity; try discriminate;
    try (apply andb_true_iff in G; destruct G as [G1 G2]).
  - rewrite IHsteps2, IHsteps1 by assumption. reflexivity.
  - apply IHsteps; assumption.
  - apply IHsteps; assumption.
  - rewrite IHsteps2, IHsteps1 by assumption. reflexivity.
Qed.

Lemma steps_plus_class (p : ascii -> bool) (st st' : mstate) :
  steps (Plus (Class p)) st st' ->
  exists w, m_rest st = w ++ m_rest st' /\ Forall (fun c => p c = true) w.
Proof.
  intros H. inversion H as [| |? ? ? st1 ? H1 H2| | | | | | | |]; subst.
  apply steps_star_class in H2. destruct H2 as [w [E Hw]].
  inversion H1; subst. cbn [m_rest] in *.
  exists (c :: w). rewrite E. split; [reflexivity | constructor; assumption].
Qed.

Lemma not_in_forall (P : ascii -> Prop) (x : ascii) (w : str) :
  Forall P w -> ~ P x -> ~ In x w.
Proof.
  intros H Hx Hin. rewrite Forall_forall in H. apply Hx, H, Hin.
Qed.

Lemma firstn_consumed (t rest : str) :
  firstn (length (t ++ rest) - length rest) (t ++ rest) = t.
Proof.
  rewrite length_app, Nat.add_sub, firstn_app, firstn_all, Nat.sub_diag.
  cbn. apply app_nil_r.
Qed.

(** The title of a task symbol is the text between the first two double
    quotes of its line. *)
Lemma symbol_title_quoted (l title : str) :
  group1 (exec RE_SYMBOL_TASK l) = Some title ->
  exists before after,
    l = before ++ DQ :: title ++ DQ :: after
    /\ ~ In DQ before /\ ~ In DQ title.
Proof.
  intros H. destruct (exec RE_SYMBOL_TASK l) as [caps|] eqn:E;
    [|discriminate].
  apply exec_anchored_sound in E. destruct E as [st' [Hs Hcaps]].
  cbn [cat] in Hs.
  inversion Hs as [| |? ? st0 s1 ? HA H1| | | | | | | |]; subst; clear Hs.
  inversion H1 as [| |? ? ? s2 ? HB H2| | | | | | | |]; subst; clear H1.
  inversion H2 as [| |? ? ? s3 ? HC H3| | | | | | | |]; subst; clear H2.
  inversion H3 as [| |? ? ? s4 ? HD H4| | | | | | | |]; subst; clear H3.
  inversion H4 as [| |? ? ? s5 ? HE H5| | | | | | | |]; subst; clear H4.
  inversion H5 as [| |? ? ? s6 ? HQ H6| | | | | | | |]; subst; clear H5.
  inversion H6 as [| |? ? ? s7 ? HG HQ2| | | | | | | |]; subst; clear H6.
  pose proof (steps_groupFree _ _ _ HA eq_refl) as CA.
  pose proof (steps_groupFree _ _ _ HB eq_refl) as CB.
  pose proof (steps_groupFree _ _ _ HC eq_refl) as CC.
  pose proof (steps_groupFree _ _ _ HD eq_refl) as CD.
  pose proof (steps_groupFree _ _ _ HE eq_refl) as CE.
  pose proof (steps_groupFree _ _ _ HQ eq_refl) as CQ.
  cbn [m_caps] in CA.
  apply steps_star_class in HA. destruct HA as [wA [EA HwA]].
  apply steps_chars in HB. apply steps_plus_class in HC.
  destruct HC as [wC [EC HwC]].
  apply steps_chars in HD. apply steps_plus_class in HE.
  destruct HE as [wE [EE HwE]].
  inversion HQ as [|? ? cq rq ? Hq| | | | | | | | |]; subst.
  apply Ascii.eqb_eq in Hq. subst cq.
  inversion HG as [| | | | | | |? ? g1 HP| | |]; subst.
  pose proof (steps_groupFree _ _ _ HP eq_refl) as CP.
  apply steps_plus_class in HP. destruct HP as [t [Et Ht]].
  inversion HQ2 as [|? ? cq2 rq2 ? Hq2| | | | | | | | |]; subst.
  apply Ascii.eqb_eq in Hq2. subst cq2.
  cbn [m_rest m_caps] in *.
  match goal with
  | Hr : m_rest g1 = _ |- _ => rename Hr into Eg
  | Hr : _ = m_rest g1 |- _ => rename Hr into Eg; symmetry in Eg
  end.
  assert (Hcaps0 : m_caps g1 = []) by congruence.
  rewrite Hcaps0, Et, Eg in H. cbn [app group1] in H.
  rewrite firstn_consumed in H.
  destruct (isEmpty t); [discriminate|]. injection H as <-.
  exists (wA ++ lit "start" ++ wC ++ lit "task" ++ wE), rq2.
  split.
  - rewrite EA, HB, EC, HD, EE, Et, Eg, <- !app_assoc. reflexivity.
  - split.
    + intros Hin. repeat (apply in_app_or in Hin; destruct Hin as [Hin|Hin]).
      * revert Hin. apply (not_in_forall _ DQ _ HwA). discriminate.
      * cbn in Hin. repeat (destruct Hin as [Hin|Hin]; [discriminate Hin|]).
        exact Hin.
      * revert Hin. apply (not_in_forall _ DQ _ HwC). discriminate.
      * cbn in Hin. repeat (destruct Hin as [Hin|Hin]; [discriminate Hin|]).
        exact Hin.
      * revert Hin. apply (not_in_forall _ DQ _ HwE). discriminate.
    + apply (not_in_forall _ DQ _ Ht). cbn. discriminate.
Qed.

End Titles.

(* ================================================================== *)
(** * Further lemmas                                                   *)
(* ================================================================== *)

(** ** The diagnostics of the server, line by line *)

Module ServerChecks.
Import JS Server Checks StrFacts JSFacts PatternFacts.

Lemma str_eqb_eq (a b : str) : str_eqb a b = true -> a = b.
Proof.
  revert b. induction a as [|x a IH]; intros [|y b] H; try discriminate.
  - reflexivity.
  - cbn in H. apply andb_true_iff in H. destruct H as [H1 H2].
    apply Ascii.eqb_eq in H1. subst y. f_equal. apply IH. exact H2.
Qed.

Lemma str_eqb_refl (a : str) : str_eqb a a = true.
Proof.
  induction a as [|x a IH]; [reflexivity|].
  cbn. rewrite Ascii.eqb_refl. exact IH.
Qed.

Lemma startsWith_app (p r : str) : startsWith (p ++ r) p = true.
Proof.
  induction p as [|x p IH]; [reflexivity|].
  cbn. rewrite Ascii.eqb_refl. exact IH.
Qed.

Lemma alpha_not_ws (c : ascii) : isAlpha c = true -> isWhiteSpace c = false.
Proof.
  destruct c as [[] [] [] [] [] [] [] []]; vm_compute; congruence.
Qed.

(** The first occurrence of a text that starts with a solid character,
    behind whitespace. *)
Lemma indexOf_behind_ws (w v r : str) :
  allWs w -> solidHead v ->
  forall i, indexOf_from i (w ++ v ++ r) v = Z.of_nat (i + length w).
Proof.
  intros Hw [c [v' [-> Hc]]].
  induction Hw as [|x w Hx Hw IH]; intros i.
  - cbn [app length]. rewrite Nat.add_0_r.
    change (c :: v' ++ r) with ((c :: v') ++ r).
    destruct (c :: v') eqn:E; [discriminate|].
    rewrite <- E. unfold indexOf_from.
    destruct ((c :: v') ++ r) eqn:E2; [discriminate|]. rewrite <- E2.
    rewrite startsWith_app. reflexivity.
  - cbn [app indexOf_from startsWith].
    replace (Ascii.eqb c x) with false.
    2:{ symmetry. apply Ascii.eqb_neq. intros ->. congruence. }
    cbn [andb]. rewrite IH. f_equal. cbn [length]. lia.
Qed.

Lemma multi_alpha :
  Forall (fun m => exists c m', m = c :: m' /\ isAlpha c = true) multi.
Proof.
  repeat constructor; eexists; eexists; split; reflexivity.
Qed.

Lemma steps_class_inv (p : ascii -> bool) (st st' : mstate) :
  steps (Class p) st st' ->
  exists c, m_rest st = c :: m_rest st' /\ p c = true.
Proof.
  intros H. inversion H; subst. cbn. eexists. split; [reflexivity|assumption].
Qed.

(** The verb of a line is a prefix of its trimmed text and starts with a
    letter. *)
Lemma firstVerb_prefix (l v : str) :
  firstVerb l = Some v ->
  exists c v' r, v = c :: v' /\ isAlpha c = true /\ trim l = v ++ r.
Proof.
  unfold firstVerb.
  destruct ((length (trim l) =? 0) || startsWith (trim l) (lit "//"));
    [discriminate|].
  lazymatch goal with
  | |- context [find ?f multi] => destruct (find f multi) as [m|] eqn:Ef
  end.
  - intros H. injection H as <-.
    apply find_some in Ef. destruct Ef as [Hin Hp].
    pose proof (proj1 (Forall_forall _ _) multi_alpha _ Hin)
      as [c [m' [-> Hc]]].
    exists c, m'.
    repeat (apply orb_true_iff in Hp; destruct Hp as [Hp|Hp]).
    + apply startsWith_begins in Hp. destruct Hp as [r Hr].
      exists (lit " " ++ r). rewrite Hr, <- app_assoc. auto.
    + apply str_eqb_eq in Hp. exists []. rewrite Hp, app_nil_r. auto.
    + apply startsWith_begins in Hp. destruct Hp as [r Hr].
      exists (lit ":" ++ r). rewrite Hr, <- app_assoc. auto.
    + apply startsWith_begins in Hp. destruct Hp as [r Hr].
      exists ([DQ] ++ r). rewrite Hr, <- app_assoc. auto.
  - destruct (exec RE_FIRST_VERB (trim l)) as [caps|] eqn:E; [|discriminate].
    destruct caps as [|g caps]; [discriminate|].
    intros H. injection H as <-.
    apply exec_anchored_sound in E. destruct E as [st' [Hs Hcaps]].
    cbn [cat] in Hs.
    inversion Hs as [| |? ? st0 s1 ? HG HB| | | | | | | |]; subst; clear Hs.
    inversion HB; subst.
    inversion HG as [| | | | | | |? ? g1 HP| | |]; subst.
    inversion HP as [| |? ? ? s2 ? HA HS| | | | | | | |]; subst.
    pose proof (Titles.steps_groupFree _ _ _ HP eq_refl) as CP.
    apply steps_class_inv in HA. destruct HA as [c [EA Hc]].
    apply steps_star_class in HS. destruct HS as [w [ES Hw]].
    cbn [m_rest m_caps] in *.
    rewrite CP in Hcaps. cbn [app] in Hcaps.
    injection Hcaps as Hg _.
    rewrite EA, ES in Hg.
    change (c :: w ++ m_rest g1) with ((c :: w) ++ m_rest g1) in Hg.
    rewrite Titles.firstn_consumed in Hg. subst g.
    exists c, w, (m_rest g1). rewrite EA, ES. auto.
Qed.

(** What [unknownVerbLoop] pushes: each diagnostic is a hint on a line
    of the loop, about the verb of that line, which no list knows, and
    its range is the verb behind the indentation. *)
Lemma unknownVerbLoop_sound (extras : list str) (lines : list str) :
  forall i0 d,
    In d (unknownVerbLoop extras i0 lines) ->
    exists k v indent rest,
      k < length lines
      /\ line (range_start (range d)) = i0 + k
      /\ severity d = Some SevHint
      /\ message d = UnrecognizedVerb v
      /\ nth k lines [] = indent ++ v ++ rest
      /\ allWs indent
      /\ firstVerb (nth k lines []) = Some v
      /\ range d = makeRange (i0 + k) (Z.of_nat (length indent))
                     (Z.of_nat (length indent) + Z.of_nat (length v))
      /\ knownVerb v = false
      /\ includes extras v = false.
Proof.
  induction lines as [|raw rest IH]; intros i0 d Hin; [destruct Hin|].
  assert (Hnext : In d (unknownVerbLoop extras (S i0) rest) ->
                  exists k v indent rest0,
                    k < length (raw :: rest)
                    /\ line (range_start (range d)) = i0 + k
                    /\ severity d = Some SevHint
                    /\ message d = UnrecognizedVerb v
                    /\ nth k (raw :: rest) [] = indent ++ v ++ rest0
                    /\ allWs indent
                    /\ firstVerb (nth k (raw :: rest) []) = Some v
                    /\ range d = makeRange (i0 + k) (Z.of_nat (length indent))
                                   (Z.of_nat (length indent)
                                    + Z.of_nat (length v))
                    /\ knownVerb v = false
                    /\ includes extras v = false).
  { intros H. destruct (IH _ _ H) as [k [v [ind [r0 [H1 [H2 H3]]]]]].
    exists (S k), v, ind, r0. cbn [length nth].
    replace (i0 + S k) with (S i0 + k) by lia.
    split; [lia|]. split; [exact H2|]. exact H3. }
  cbn [unknownVerbLoop] in Hin.
  destruct (isEmpty (trim raw) || startsWith (trim raw) (lit "//")
            || startsWith (trim raw) [DQ] || startsWith (trim raw) (lit "'"));
    [auto|].
  destruct (firstVerb (trim raw)) as [v|] eqn:Ev; [|auto].
  destruct (isEmpty v); [auto|].
  assert (Ev' : firstVerb raw = Some v).
  { unfold firstVerb in *. rewrite FormatterFacts.trim_idem in Ev. exact Ev. }
  destruct (negb (if negb (includes SINGLE_WORD_STARTERS v
                           || includes ALL_MULTIWORD_STARTERS v)
                     && negb (length extras =? 0)
                  then includes extras v
                  else includes SINGLE_WORD_STARTERS v
                       || includes ALL_MULTIWORD_STARTERS v)) eqn:Eok; [|auto].
  destruct Hin as [<- | Hin]; [|auto].
  destruct (firstVerb_prefix _ _ Ev') as [c [v' [r [Hv [Hc Ht]]]]].
  destruct (trim_split raw) as [w1 [w2 [Hraw [Hw1 [Hw2 _]]]]].
  assert (Hidx : indexOf raw v = Z.of_nat (length w1)).
  { unfold indexOf. rewrite Hraw at 1. rewrite Ht, <- app_assoc.
    rewrite indexOf_behind_ws; [reflexivity | exact Hw1 |].
    exists c, v'. split; [exact Hv | apply alpha_not_ws; exact Hc]. }
  exists 0, v, w1, (r ++ w2). cbn [nth length range message severity].
  rewrite Nat.add_0_r, Hidx.
  split; [lia|]. split; [reflexivity|]. split; [reflexivity|].
  split; [reflexivity|].
  split; [rewrite Hraw at 1; rewrite Ht, <- !app_assoc; reflexivity|].
  split; [exact Hw1|]. split; [exact Ev'|]. split; [reflexivity|].
  unfold knownVerb.
  destruct (includes SINGLE_WORD_STARTERS v || includes ALL_MULTIWORD_STARTERS v);
    [discriminate|].
  split; [reflexivity|]. cbn [negb andb] in Eok.
  destruct (length extras =? 0) eqn:El.
  - apply Nat.eqb_eq in El. destruct extras; [reflexivity|discriminate].
  - cbn [negb] in Eok. destruct (includes extras v); [discriminate|reflexivity].
Qed.

(** The extra keywords only take hints away. *)
Lemma unknownVerbLoop_extras (extras : list str) (lines : list str) :
  forall i0,
    unknownVerbLoop extras i0 lines
    = filter (notAbout extras) (unknownVerbLoop [] i0 lines).
Proof.
  induction lines as [|raw rest IH]; intros i0; [reflexivity|].
  cbn [unknownVerbLoop].
  destruct (isEmpty (trim raw) || startsWith (trim raw) (lit "//")
            || startsWith (trim raw) [DQ] || startsWith (trim raw) (lit "'"));
    [apply IH|].
  destruct (firstVerb (trim raw)) as [v|]; [|apply IH].
  destruct (isEmpty v); [apply IH|].
  cbn [length Nat.eqb negb andb].
  rewrite andb_false_r.
  destruct (includes SINGLE_WORD_STARTERS v || includes ALL_MULTIWORD_STARTERS v)
    eqn:Ek; cbn [negb andb].
  - apply IH.
  - cbn [filter]. unfold notAbout at 1. cbn [message].
    destruct (length extras =? 0) eqn:El; cbn [negb].
    + apply Nat.eqb_eq in El. destruct extras; [|discriminate].
      cbn [includes existsb negb]. f_equal. apply IH.
    + destruct (includes extras v); cbn [negb]; [apply IH | f_equal; apply IH].
Qed.

Lemma filter_all {A : Type} (f : A -> bool) (l : list A) :
  Forall (fun x => f x = true) l -> filter f l = l.
Proof.
  induction 1 as [|x l Hx _ IH]; [reflexivity|].
  cbn. rewrite Hx, IH. reflexivity.
Qed.

(** The missing-colon loop, line by line. *)
Lemma server_missingColonLoop_spec (sev : option DiagnosticSeverity)
    (doc : TextDocument) (lines : list str) :
  forall i0,
    (forall k, k < length lines -> nth k lines [] = lineAt doc (i0 + k)) ->
    missingColonLoop sev i0 lines
    = map (fun i => {| severity := sev; message := MissingColon;
                       range := makeRange i 0
                                  (Z.of_nat (length (lineAt doc i))) |})
          (filter (fun i => serverNeedsColon (lineAt doc i))
                  (seq i0 (length lines))).
Proof.
  induction lines as [|l rest IH]; intros i0 Hl; [reflexivity|].
  cbn [missingColonLoop length seq filter].
  pose proof (Hl 0 ltac:(cbn; lia)) as H0. cbn [nth] in H0.
  rewrite Nat.add_0_r in H0. rewrite <- H0.
  assert (IH' := IH (S i0)). rewrite IH'.
  2:{ intros k Hk. specialize (Hl (S k) ltac:(cbn; lia)). cbn [nth] in Hl.
      rewrite Hl. f_equal. lia. }
  change (serverNeedsColon l)
    with (endsWithColonCandidate l && negb (endsWith (trim l) (lit ":"))).
  destruct (endsWithColonCandidate l && negb (endsWith (trim l) (lit ":")));
    [cbn [map]; cbv beta; f_equal; rewrite H0 at 1|]; reflexivity.
Qed.

End ServerChecks.

(** ** The formatter of the server, on every document *)

Module ServerFormat.
Import JS StrFacts Server Formatted FormatterFacts Checks.

(** The [MissingColon] diagnostics of the pass. *)
Lemma missingColon_of_pass (settings : RoopSettings) (doc : TextDocument) :
  filter isMissingColon (diagnosticsOf settings doc)
  = if isOff (lint_missingColon settings) then []
    else map (missingColonDiag settings doc)
             (filter (fun i => serverNeedsColon (lineAt doc i))
                     (seq 0 (lineCount doc))).
Proof.
  unfold diagnosticsOf. rewrite !filter_app.
  rewrite (ServerDiagnostics.filter_none isMissingColon
             (unknownVerbLoop _ _ _)), app_nil_r.
  2:{ eapply Forall_impl; [|apply ServerDiagnostics.unknownVerbLoop_messages].
      cbv beta. intros d [_ H]. exact H. }
  rewrite (ServerDiagnostics.filter_none isMissingColon
             (if negb (isOff (lint_unbalancedTask settings))
              then _ else _)), app_nil_r.
  2:{ destruct (negb _); [|constructor].
      eapply Forall_impl;
        [|apply ServerDiagnostics.unbalancedTaskCheck_messages].
      cbv beta. intros d [_ H]. exact H. }
  destruct (isOff (lint_missingColon settings)); [reflexivity|]. cbn [negb].
  rewrite (ServerChecks.server_missingColonLoop_spec _ doc doc 0)
    by (intros k _; reflexivity).
  rewrite ServerChecks.filter_all; [reflexivity|].
  apply Forall_forall. intros d Hd. apply in_map_iff in Hd.
  destruct Hd as [i [<- _]]. reflexivity.
Qed.

Lemma preDecrease_nonneg (level : Z) (t : str) :
  (0 <= level)%Z -> (0 <= preDecrease level t)%Z.
Proof.
  unfold preDecrease. intros H.
  destruct (test RE_FMT_END_TASK t); [lia|].
  destruct (test RE_FMT_TRANSITIONAL t); lia.
Qed.

Lemma postIncrease_nonneg (level : Z) (t : str) :
  (0 <= level)%Z -> (0 <= postIncrease level t)%Z.
Proof.
  unfold postIncrease. intros H.
  destruct (test RE_FMT_START_TASK t); [lia|].
  destruct (test RE_BLOCK_HEADER t); lia.
Qed.

(** With an indent size that is not negative the loop never throws. *)
Lemma formatLoop_total (indentSize : Z) (lines : list str) :
  (0 <= indentSize)%Z ->
  forall level, (0 <= level)%Z ->
    exists out, formatLoop indentSize level lines = Some out.
Proof.
  intros Hi. induction lines as [|l rest IH]; intros level Hl.
  - exists []. reflexivity.
  - cbn [formatLoop].
    pose proof (preDecrease_nonneg level (trim l) Hl) as H1.
    pose proof (postIncrease_nonneg _ (trim l) H1) as H2.
    destruct (IH _ H2) as [out Hout]. rewrite Hout.
    unfold JS.repeat.
    replace (preDecrease level (trim l) * indentSize <? 0)%Z with false
      by (symmetry; apply Z.ltb_ge; nia).
    eexists. reflexivity.
Qed.

Lemma endsWith_colon (s : str) : endsWith (s ++ lit ":") (lit ":") = true.
Proof.
  unfold endsWith. rewrite rev_app_distr. reflexivity.
Qed.

Lemma trim_colon (w s : str) :
  allWs w -> trim (w ++ trim s ++ lit ":") = trim s ++ lit ":".
Proof.
  intros Hw. unfold trim at 1. rewrite trimStart_ws by exact Hw.
  rewrite trimStart_solid.
  - apply trimEnd_app_solid. discriminate.
  - destruct (trim_head s) as [E | [c [r [E Hc]]]]; rewrite E.
    + exists ":"%char, []. split; reflexivity.
    + exists c, (r ++ lit ":"). split; [reflexivity | exact Hc].
Qed.

Lemma candidate_trim (l : str) :
  endsWithColonCandidate (trim l) = endsWithColonCandidate l.
Proof. unfold endsWithColonCandidate. rewrite trim_idem. reflexivity. Qed.

(** A line misses no colon exactly when the formatter adds none. *)
Lemma needsColon_ensure (l : str) :
  serverNeedsColon l = false <-> ensureColon (trim l) = trim l.
Proof.
  unfold serverNeedsColon, ensureColon. rewrite candidate_trim.
  destruct (endsWithColonCandidate l && negb (endsWith (trim l) (lit ":"))).
  - split; [discriminate|]. intros H.
    apply (f_equal (@length ascii)) in H. rewrite length_app in H.
    cbn in H. lia.
  - split; reflexivity.
Qed.

(** What the loop writes misses no colon, whatever the input. *)
Lemma formatLoop_colons (indentSize : Z) (lines : list str) :
  forall level out,
    formatLoop indentSize level lines = Some out ->
    colonsPresent out
    /\ (noLineBreaks lines -> noLineBreaks out)
    /\ length out = length lines
    /\ map trim out = map (fun l => ensureColon (trim l)) lines.
Proof.
  induction lines as [|l rest IH]; intros level out H.
  - injection H as <-. repeat split; constructor.
  - cbn [formatLoop] in H.
    destruct (JS.repeat _ _) as [pad|] eqn:Hpad; [|discriminate].
    destruct (formatLoop _ _ rest) as [out'|] eqn:Hrest; [|discriminate].
    injection H as <-.
    destruct (IH _ _ Hrest) as [IH1 [IH2 [IH3 IH4]]].
    pose proof (repeat_space_ws _ _ Hpad) as Hw.
    assert (Ht : trim (pad ++ ensureColon (trim l)) = ensureColon (trim l)).
    { unfold ensureColon.
      destruct (endsWithColonCandidate (trim l)
                && negb (endsWith (trim l) (lit ":"))).
      - apply trim_colon. exact Hw.
      - apply trim_padded. exact Hw. }
    split; [|split; [|split]].
    + constructor; [|exact IH1]. rewrite Ht.
      unfold ensureColon at 2 3.
      destruct (endsWithColonCandidate (trim l)
                && negb (endsWith (trim l) (lit ":"))) eqn:Ec.
      * unfold ensureColon. rewrite endsWith_colon.
        rewrite andb_false_r. reflexivity.
      * unfold ensureColon. rewrite Ec. reflexivity.
    + intros Hn.
      pose proof (Forall_inv Hn) as Hnl. pose proof (Forall_inv_tail Hn) as Hnr.
      constructor; [|exact (IH2 Hnr)]. apply Forall_app. split.
      * eapply Forall_impl; [|exact (repeat_space_spaces _ _ Hpad)].
        cbv beta. intros c ->. split; reflexivity.
      * unfold ensureColon.
        destruct (endsWithColonCandidate (trim l)
                  && negb (endsWith (trim l) (lit ":")));
          [apply Forall_app; split|]; try (apply trim_keeps; exact Hnl).
        repeat constructor.
    + cbn. rewrite IH3. reflexivity.
    + cbn [map]. rewrite Ht, IH4. reflexivity.
Qed.

Lemma nonempty_length {A : Type} (a b : list A) :
  length a = length b -> b <> [] -> a <> [].
Proof. intros H Hb ->. destruct b; [contradiction | discriminate]. Qed.

End ServerFormat.

(** ** Ranges of the outline and of the folds *)

Module RangeFacts.
Import JS Server Ranges.

Lemma symbolLoop_wf (doc : TextDocument) (lines : list str) :
  forall i stack,
    i + length lines = length doc ->
    Forall (fun f => startLine f < i) stack ->
    Forall (fun sym => Blocks.startOf sym < Blocks.endOf sym
                       /\ Blocks.endOf sym < length doc
                       /\ exists f, sym = symbolOf doc f (Blocks.endOf sym))
           (fst (symbolLoop doc i lines stack))
    /\ Forall (fun f => startLine f < length doc)
              (snd (symbolLoop doc i lines stack))
    /\ length (fst (symbolLoop doc i lines stack))
       + length (snd (symbolLoop doc i lines stack))
       = length stack + length (filter opensSymbol lines).
Proof.
  induction lines as [|l rest IH]; intros i stack Hlen Hst.
  - cbn. split; [constructor|]. split; [|lia].
    eapply Forall_impl; [|exact Hst]. cbv beta. intros f Hf.
    cbn in Hlen. lia.
  - cbn [length] in Hlen.
    assert (Hpush : forall f, startLine f = i ->
              Forall (fun f => startLine f < S i) (f :: stack)).
    { intros f Hf. constructor; [lia|].
      eapply Forall_impl; [|exact Hst]. cbv beta. intros; lia. }
    assert (Hkeep : Forall (fun f => startLine f < S i) stack).
    { eapply Forall_impl; [|exact Hst]. cbv beta. intros; lia. }
    cbn [symbolLoop filter]. unfold opensSymbol at 1, Outline.outlineTitle.
    destruct (group1 (exec RE_SYMBOL_TASK l)) as [title|].
    { destruct (IH (S i) ({| frameName := title; startLine := i;
                             frameKind := SymModule |} :: stack)
                  ltac:(lia) ltac:(apply Hpush; reflexivity)) as [H1 [H2 H3]].
      split; [exact H1|]. split; [exact H2|]. rewrite H3. cbn [length]. lia. }
    destruct (group1 (exec RE_SYMBOL_TEMPLATE l)) as [title|].
    { destruct (IH (S i) ({| frameName := lit "(template) " ++ title;
                             startLine := i; frameKind := SymClass |} :: stack)
                  ltac:(lia) ltac:(apply Hpush; reflexivity)) as [H1 [H2 H3]].
      split; [exact H1|]. split; [exact H2|]. rewrite H3. cbn [length]. lia. }
    destruct (test RE_END_TASK l).
    + destruct stack as [|last stack'].
      * destruct (IH (S i) [] ltac:(lia) ltac:(constructor)) as [H1 [H2 H3]].
        split; [exact H1|]. split; [exact H2|]. rewrite H3. reflexivity.
      * pose proof (Forall_inv Hst) as Hlast.
        pose proof (Forall_inv_tail Hkeep) as Hkeep'.
        destruct (IH (S i) stack' ltac:(lia) Hkeep') as [H1 [H2 H3]].
        destruct (symbolLoop doc (S i) rest stack') as [symbols final].
        cbn [fst snd] in *.
        split; [|split; [exact H2 | cbn [length]; lia]].
        constructor; [|exact H1].
        unfold Blocks.startOf, Blocks.endOf. cbn.
        split; [exact Hlast|]. split; [lia|]. exists last. reflexivity.
    + destruct (IH (S i) stack ltac:(lia) Hkeep) as [H1 [H2 H3]].
      split; [exact H1|]. split; [exact H2|]. rewrite H3. reflexivity.
Qed.

Lemma taskFoldLoop_wf (lines : list str) :
  forall i taskStart,
    (forall s, taskStart = Some s -> s < i) ->
    Forall (fun f => foldStart f < foldEnd f
                     /\ i <= foldEnd f < i + length lines
                     /\ match taskStart with Some s => s | None => i end
                        <= foldStart f
                     /\ isTaskFold f = true)
           (taskFoldLoop i lines taskStart)
    /\ Sorted.StronglySorted foldBefore (taskFoldLoop i lines taskStart).
Proof.
  induction lines as [|l rest IH]; intros i ts Hts.
  - split; constructor.
  - cbn [taskFoldLoop length].
    assert (Hshift : forall ts',
              (forall s, ts' = Some s -> s < S i) ->
              match ts with Some s => s | None => i end
              <= match ts' with Some s => s | None => S i end ->
              Forall (fun f => foldStart f < foldEnd f
                               /\ i <= foldEnd f < i + S (length rest)
                               /\ match ts with Some s => s | None => i end
                                  <= foldStart f
                               /\ isTaskFold f = true)
                     (taskFoldLoop (S i) rest ts')
              /\ Sorted.StronglySorted foldBefore (taskFoldLoop (S i) rest ts')).
    { intros ts' H' Hlow. destruct (IH (S i) ts' H') as [H1 H2].
      split; [|exact H2]. eapply Forall_impl; [|exact H1].
      cbv beta. intros f [Ha [Hb [Hc Hd]]].
      repeat split; try assumption; lia. }
    destruct (test RE_START_TASK l).
    { apply Hshift.
      - intros s Hs. assert (s = i) by congruence. lia.
      - destruct ts as [s|]; [specialize (Hts s eq_refl)|]; lia. }
    destruct (test RE_END_TASK l).
    2:{ apply Hshift.
        - intros s Hs. specialize (Hts s Hs). lia.
        - destruct ts; lia. }
    destruct ts as [s|].
    2:{ apply Hshift; [discriminate | cbn; lia]. }
    specialize (Hts s eq_refl).
    destruct (Hshift None ltac:(discriminate) ltac:(cbn; lia)) as [H1 H2].
    unfold pushFold. replace (s <? i) with true
      by (symmetry; apply Nat.ltb_lt; exact Hts).
    cbn [app]. split.
    + constructor; [|exact H1]. cbn. repeat split; lia.
    + constructor; [exact H2|].
      destruct (IH (S i) None ltac:(discriminate)) as [K1 _].
      eapply Forall_impl; [|exact K1]. cbv beta.
      intros f [Ha [Hb [Hc _]]]. unfold foldBefore. cbn. lia.
Qed.

Lemma blockFoldLoop_wf (lines : list str) :
  forall i stack,
    Forall (fun s => s < i) stack ->
    Forall (fun f => foldStart f < foldEnd f
                     /\ foldEnd f < i + length lines
                     /\ isTaskFold f = false)
           (fst (blockFoldLoop i lines stack))
    /\ Forall (fun s => s < i + length lines)
              (snd (blockFoldLoop i lines stack)).
Proof.
  induction lines as [|l rest IH]; intros i stack Hst.
  - cbn. split; [constructor|]. rewrite Nat.add_0_r. exact Hst.
  - cbn [blockFoldLoop length].
    assert (Hkeep : Forall (fun s => s < S i) stack).
    { eapply Forall_impl; [|exact Hst]. cbv beta. intros; lia. }
    assert (Hshift : forall stack', Forall (fun s => s < S i) stack' ->
              Forall (fun f => foldStart f < foldEnd f
                               /\ foldEnd f < i + S (length rest)
                               /\ isTaskFold f = false)
                     (fst (blockFoldLoop (S i) rest stack'))
              /\ Forall (fun s => s < i + S (length rest))
                        (snd (blockFoldLoop (S i) rest stack'))).
    { intros stack' H'. destruct (IH (S i) stack' H') as [H1 H2]. split.
      - eapply Forall_impl; [|exact H1]. cbv beta.
        intros f [Ha [Hb Hc]]. repeat split; try assumption; lia.
      - eapply Forall_impl; [|exact H2]. cbv beta. intros; lia. }
    destruct (test RE_BLOCK_HEADER (trim l)).
    { apply Hshift. constructor; [lia | exact Hkeep]. }
    destruct (test RE_BLANK (trim l)); [|apply Hshift; exact Hkeep].
    destruct stack as [|s stack']; [apply Hshift; constructor|].
    pose proof (Forall_inv Hst) as Hs.
    destruct (Hshift stack' (Forall_inv_tail Hkeep)) as [H1 H2].
    destruct (blockFoldLoop (S i) rest stack') as [folds final].
    cbn [fst snd] in *. split; [|exact H2].
    apply Forall_app. split; [|exact H1].
    unfold pushFold. destruct (s <? i - 1) eqn:E; [|constructor].
    apply Nat.ltb_lt in E. constructor; [|constructor].
    cbn. repeat split; lia.
Qed.

Lemma filter_task_folds (doc : TextDocument) :
  filter isTaskFold (onFoldingRanges (Some doc)) = taskFoldLoop 0 doc None.
Proof.
  unfold onFoldingRanges.
  destruct (blockFoldLoop_wf doc 0 [] ltac:(constructor)) as [H1 _].
  destruct (blockFoldLoop 0 doc []) as [blockFolds stack]. cbn [fst] in H1.
  rewrite !filter_app.
  rewrite (ServerDiagnostics.filter_none isTaskFold blockFolds).
  2:{ eapply Forall_impl; [|exact H1]. cbv beta. intros f [_ [_ H]]. exact H. }
  rewrite (ServerDiagnostics.filter_none isTaskFold (flat_map _ stack)).
  2:{ apply Forall_forall. intros f Hf. apply in_flat_map in Hf.
      destruct Hf as [s [_ Hf]]. unfold pushFold in Hf.
      destruct (s <? lineCount doc - 1); [|destruct Hf].
      destruct Hf as [<- | []]. reflexivity. }
  rewrite !app_nil_r. apply ServerChecks.filter_all.
  destruct (taskFoldLoop_wf doc 0 None ltac:(discriminate)) as [H _].
  eapply Forall_impl; [|exact H]. cbv beta. intros f [_ [_ [_ Hk]]]. exact Hk.
Qed.

End RangeFacts.

(** ** The quick fix of the server *)

Module QuickFix.
Import JS StrFacts Server Checks CodeActions.

Lemma setLine_length (doc : TextDocument) (i : nat) (text : str) :
  length (setLine doc i text) = length doc.
Proof.
  revert i. induction doc as [|l rest IH]; intros [|i]; cbn; try reflexivity.
  rewrite IH. reflexivity.
Qed.

Lemma setLine_nth (doc : TextDocument) (text : str) :
  forall i j, i < length doc ->
    nth j (setLine doc i text) [] = if j =? i then text else nth j doc [].
Proof.
  induction doc as [|l rest IH]; intros i j Hi; [cbn in Hi; lia|].
  destruct i as [|i], j as [|j]; cbn [setLine nth Nat.eqb]; try reflexivity.
  apply IH. cbn in Hi. lia.
Qed.

Lemma trimStart_colon (a : str) :
  exists y, trimStart (a ++ lit ":") = y ++ lit ":".
Proof.
  induction a as [|c a [y IH]].
  - exists []. reflexivity.
  - unfold trimStart in *. cbn [app dropWhile].
    destruct (isWhiteSpace c).
    + exists y. exact IH.
    + exists (c :: a). reflexivity.
Qed.

(** A line that ends with the colon of the fix misses none. *)
Lemma fixed_needs_none (l : str) :
  serverNeedsColon (trimEnd l ++ lit ":") = false.
Proof.
  unfold serverNeedsColon. apply andb_false_iff. right.
  apply negb_false_iff. unfold trim.
  destruct (trimStart_colon (trimEnd l)) as [y ->].
  rewrite trimEnd_app_solid by discriminate.
  apply ServerFormat.endsWith_colon.
Qed.

Lemma filter_filter_and {A : Type} (f g : A -> bool) (l : list A) :
  filter f (filter g l) = filter (fun x => g x && f x) l.
Proof.
  induction l as [|x l IH]; [reflexivity|].
  cbn. destruct (g x); cbn; [destruct (f x)|]; rewrite IH; reflexivity.
Qed.

(** The missing-colon diagnostics after the fix of line [i]. *)
Lemma missingColon_after_fix (settings : RoopSettings) (doc : TextDocument)
    (i : nat) :
  i < lineCount doc ->
  let fixed := setLine doc i (trimEnd (lineAt doc i) ++ lit ":") in
  filter isMissingColon (diagnosticsOf settings fixed)
  = filter (offLine i) (filter isMissingColon (diagnosticsOf settings doc)).
Proof.
  intros Hi fixed. rewrite !ServerFormat.missingColon_of_pass.
  destruct (isOff (lint_missingColon settings)); [reflexivity|].
  rewrite MatchingFacts.filter_map_comm, filter_filter_and.
  unfold lineCount, fixed. rewrite setLine_length.
  assert (Hline : forall j,
            lineAt (setLine doc i (trimEnd (lineAt doc i) ++ lit ":")) j
            = if j =? i then trimEnd (lineAt doc i) ++ lit ":"
              else lineAt doc j).
  { intros j. unfold lineAt. apply setLine_nth. exact Hi. }
  rewrite (filter_ext
             (fun j => serverNeedsColon
                         (lineAt (setLine doc i
                                    (trimEnd (lineAt doc i) ++ lit ":")) j))
             (fun j => serverNeedsColon (lineAt doc j)
                       && offLine i (missingColonDiag settings doc j))).
  2:{ intros j. rewrite Hline. unfold offLine. cbn.
      destruct (j =? i); cbn [negb].
      - rewrite fixed_needs_none, andb_false_r. reflexivity.
      - rewrite andb_true_r. reflexivity. }
  apply map_ext_in. intros j Hj. apply filter_In in Hj.
  destruct Hj as [_ Hj]. apply andb_true_iff in Hj. destruct Hj as [_ Hj].
  unfold offLine in Hj. cbn in Hj. apply negb_true_iff in Hj.
  unfold missingColonDiag. rewrite Hline, Hj. reflexivity.
Qed.

End QuickFix.

(** ** The word under the cursor *)

Module WordFacts.
Import JS Words.

Lemma scanBackward_loop_spec (text : str) :
  forall i, i <= length text ->
    scanBackward_loop text i <= i
    /\ (forall k, scanBackward_loop text i <= k -> k < i ->
          exists ch, nth_error text k = Some ch /\ isWordish ch = true)
    /\ (forall b, scanBackward_loop text i = S b ->
          exists ch, nth_error text b = Some ch /\ isWordish ch = false).
Proof.
  induction i as [|j IH]; intros Hi.
  - cbn. split; [lia|]. split; [intros; lia | discriminate].
  - cbn [scanBackward_loop].
    destruct (nth_error text j) as [ch|] eqn:E.
    2:{ apply nth_error_None in E. lia. }
    destruct (isWordish ch) eqn:Hw.
    + destruct (IH ltac:(lia)) as [H1 [H2 H3]].
      split; [lia|]. split; [|exact H3].
      intros k Hk1 Hk2. destruct (Nat.eq_dec k j) as [-> | Hne].
      * exists ch. split; assumption.
      * apply H2; lia.
    + split; [lia|]. split; [intros; lia|].
      intros b Hb. injection Hb as <-. exists ch. split; assumption.
Qed.

Lemma scanBackward_loop_prefix (text text' : str) :
  forall i, firstn i text = firstn i text' ->
    scanBackward_loop text i = scanBackward_loop text' i.
Proof.
  induction i as [|j IH]; intros H; [reflexivity|].
  cbn [scanBackward_loop].
  assert (Hj : nth_error text j = nth_error text' j).
  { pose proof (nth_error_firstn (S j) text j) as E1.
    pose proof (nth_error_firstn (S j) text' j) as E2.
    replace (j <? S j) with true in E1, E2
      by (symmetry; apply Nat.ltb_lt; lia).
    rewrite <- E1, <- E2, H. reflexivity. }
  assert (Hp : firstn j text = firstn j text').
  { apply (f_equal (firstn j)) in H.
    rewrite !firstn_firstn in H.
    replace (Nat.min j (S j)) with j in H by lia. exact H. }
  rewrite Hj, (IH Hp). reflexivity.
Qed.

Lemma scanForward_loop_spec (rest : str) :
  forall i,
    i <= scanForward_loop rest i <= i + length rest
    /\ (forall k, k < scanForward_loop rest i - i ->
          exists ch, nth_error rest k = Some ch /\ isWordish ch = true)
    /\ (scanForward_loop rest i < i + length rest ->
          exists ch, nth_error rest (scanForward_loop rest i - i) = Some ch
                     /\ isWordish ch = false).
Proof.
  induction rest as [|c rest IH]; intros i.
  - cbn. split; [lia|]. split; intros; lia.
  - cbn [scanForward_loop length].
    destruct (isWordish c) eqn:Hc.
    + destruct (IH (S i)) as [H1 [H2 H3]].
      split; [lia|]. split.
      * intros k Hk. destruct k as [|k].
        -- exists c. split; [reflexivity | exact Hc].
        -- cbn [nth_error]. apply H2. lia.
      * intros Hlt. destruct (H3 ltac:(lia)) as [ch [Hn Hw]].
        exists ch. split; [|exact Hw].
        replace (scanForward_loop rest (S i) - i)
          with (S (scanForward_loop rest (S i) - S i)) by lia.
        exact Hn.
    + split; [lia|]. split; [intros; lia|].
      intros _. rewrite Nat.sub_diag. exists c. split; [reflexivity|exact Hc].
Qed.

End WordFacts.

(** ** Occurrences of a text, and line comments *)

Module CommentFacts.
Import JS StrFacts.

Lemma startsWith_nil_false (p : str) : p <> [] -> startsWith [] p = false.
Proof. destruct p; [contradiction | reflexivity]. Qed.

Lemma startsWith_app_l (a b p : str) :
  startsWith a p = true -> startsWith (a ++ b) p = true.
Proof.
  intros H. apply PatternFacts.startsWith_begins in H. destruct H as [r ->].
  rewrite <- app_assoc. apply ServerChecks.startsWith_app.
Qed.

(** [indexOf_from]: the index found is the first one at which the text
    occurs; [-1] means that it occurs nowhere. *)
Lemma indexOf_from_spec (p : str) (s : str) :
  forall i,
    (indexOf_from i s p = (-1)%Z
     /\ forall j, startsWith (skipn j s) p = false \/ length s < j)
    \/ (exists k, indexOf_from i s p = Z.of_nat (i + k)
                  /\ k <= length s
                  /\ startsWith (skipn k s) p = true
                  /\ forall j, j < k -> startsWith (skipn j s) p = false).
Proof.
  induction s as [|c s IH]; intros i.
  - cbn [indexOf_from]. destruct (startsWith [] p) eqn:E.
    + right. exists 0. rewrite Nat.add_0_r. cbn.
      repeat split; try assumption; try lia.
    + left. split; [reflexivity|]. intros [|j]; [left; exact E|].
      right. cbn. lia.
  - cbn [indexOf_from]. destruct (startsWith (c :: s) p) eqn:E.
    + right. exists 0. rewrite Nat.add_0_r. cbn [skipn length].
      repeat split; try assumption; try lia.
    + destruct (IH (S i)) as [[H1 H2] | [k [H1 [H2 [H3 H4]]]]].
      * left. split; [exact H1|]. intros [|j]; [left; exact E|].
        cbn [skipn length]. destruct (H2 j); [left; assumption | right; lia].
      * right. exists (S k). replace (i + S k) with (S i + k) by lia.
        split; [exact H1|]. cbn [length skipn]. split; [lia|].
        split; [exact H3|]. intros [|j] Hj; [exact E|].
        cbn [skipn]. apply H4. lia.
Qed.

Lemma indexOf_none (p s : str) :
  p <> [] ->
  (forall j, startsWith (skipn j s) p = false) -> indexOf s p = (-1)%Z.
Proof.
  intros Hp H. unfold indexOf.
  destruct (indexOf_from_spec p s 0) as [[H1 _] | [k [_ [_ [H3 _]]]]];
    [exact H1|].
  rewrite H in H3. discriminate.
Qed.

(** An occurrence in a prefix is an occurrence in the whole. *)
Lemma occurs_in_prefix (p a b : str) (j : nat) :
  p <> [] ->
  startsWith (skipn j a) p = true ->
  j + length p <= length a /\ startsWith (skipn j (a ++ b)) p = true.
Proof.
  intros Hp H.
  pose proof (PatternFacts.startsWith_begins _ _ H) as [r Hr].
  assert (Hlen : length (skipn j a) = length p + length r)
    by (rewrite Hr, length_app; reflexivity).
  rewrite length_skipn in Hlen.
  assert (Hpl : 0 < length p) by (destruct p; [contradiction | cbn; lia]).
  split; [lia|]. rewrite skipn_app.
  apply startsWith_app_l. exact H.
Qed.

Lemma stripLineComment_cases (text : str) :
  (indexOf text (lit "//") = (-1)%Z
   /\ Extension.stripLineComment text = trimEnd text)
  \/ (exists k, indexOf text (lit "//") = Z.of_nat k
                /\ Extension.stripLineComment text = trimEnd (firstn k text)
                /\ forall j, j < k ->
                     startsWith (skipn j text) (lit "//") = false).
Proof.
  unfold Extension.stripLineComment, indexOf.
  destruct (indexOf_from_spec (lit "//") text 0)
    as [[H1 H2] | [k [H1 [H2 [H3 H4]]]]].
  - left. rewrite H1. split; reflexivity.
  - right. exists k. rewrite H1. cbn [Nat.add].
    replace (0 <=? Z.of_nat k)%Z with true by (symmetry; apply Z.leb_le; lia).
    unfold slice0. rewrite Nat2Z.id. repeat split. exact H4.
Qed.

Lemma no_comment_left (text : str) :
  forall j, startsWith (skipn j (Extension.stripLineComment text)) (lit "//")
            = false.
Proof.
  intros j.
  destruct (startsWith (skipn j (Extension.stripLineComment text)) (lit "//"))
    eqn:E; [|reflexivity].
  exfalso.
  destruct (stripLineComment_cases text) as [[H1 H2] | [k [H1 [H2 H3]]]].
  - rewrite H2 in E. destruct (trimEnd_split text) as [w [Hw _]].
    destruct (occurs_in_prefix (lit "//") _ w j ltac:(discriminate) E) as [_ Ho].
    rewrite <- Hw in Ho.
    unfold indexOf in H1.
    destruct (indexOf_from_spec (lit "//") text 0)
      as [[_ K] | [k [K1 _]]]; [|rewrite K1 in H1; lia].
    destruct (K j) as [K' | K']; [congruence|].
    rewrite skipn_all2 in Ho by lia. discriminate.
  - rewrite H2 in E. destruct (trimEnd_split (firstn k text)) as [w [Hw _]].
    destruct (occurs_in_prefix (lit "//") _ w j ltac:(discriminate) E) as [Hl Ho].
    rewrite <- Hw in Ho.
    destruct (occurs_in_prefix (lit "//") _ (skipn k text) j ltac:(discriminate) Ho)
      as [Hl2 Ho2].
    rewrite firstn_skipn in Ho2. rewrite length_firstn in Hl2.
    cbn in Hl2. rewrite (H3 j ltac:(lia)) in Ho2. discriminate.
Qed.

End CommentFacts.

(** ** Matches anywhere in a text *)

Module SearchFacts.
Import JS JSFacts Anywhere.

Lemma search_complete (r : regex) (a : str) :
  forall prev b st',
    steps r (MState (prevAfter prev a) b []) st' ->
    search r prev (a ++ b) <> None.
Proof.
  induction a as [|c a IH]; intros prev b st' H.
  - cbn [app prevAfter fold_left] in *.
    pose proof (run_complete r _ _ (fun st => Some (m_caps st)) H
                  ltac:(discriminate)) as Hr.
    destruct b; cbn [search];
      destruct (run r _ _) eqn:E; congruence.
  - cbn [app search].
    destruct (run r _ _); [discriminate|].
    apply (IH (Some c) b st'). exact H.
Qed.

Lemma search_sound (r : regex) (s : str) :
  forall prev caps,
    search r prev s = Some caps ->
    exists a b st',
      s = a ++ b /\ steps r (MState (prevAfter prev a) b []) st'.
Proof.
  induction s as [|c s IH]; intros prev caps H.
  - cbn [search] in H.
    destruct (run r (MState prev [] []) _) eqn:E; [|discriminate].
    apply run_sound in E. destruct E as [st' [Hs _]].
    exists [], [], st'. split; [reflexivity | exact Hs].
  - cbn [search] in H.
    destruct (run r (MState prev (c :: s) []) _) eqn:E.
    + apply run_sound in E. destruct E as [st' [Hs _]].
      exists [], (c :: s), st'. split; [reflexivity | exact Hs].
    + destruct (IH _ _ H) as [a [b [st' [Hab Hs]]]].
      exists (c :: a), b, st'. split; [rewrite Hab; reflexivity | exact Hs].
Qed.

(** [searchSpan] stops at the first index at which the pattern matches. *)
Lemma searchSpan_at (r : regex) (a : str) :
  forall prev before b rest,
    (forall a1 a2 st', a = a1 ++ a2 -> a2 <> [] ->
       ~ steps r (MState (prevAfter prev a1) (a2 ++ b) []) st') ->
    run r (MState (prevAfter prev a) b []) (fun st => Some (m_rest st))
    = Some rest ->
    searchSpan r prev before (a ++ b)
    = Some (rev before ++ a, firstn (length b - length rest) b, rest).
Proof.
  induction a as [|c a IH]; intros prev before b rest Hno Hrun.
  - cbn [app prevAfter fold_left] in *. rewrite app_nil_r.
    destruct b; cbn [searchSpan]; rewrite Hrun; reflexivity.
  - cbn [app searchSpan].
    destruct (run r (MState prev (c :: a ++ b) []) (fun st => Some (m_rest st)))
      eqn:E.
    + exfalso. apply run_sound in E. destruct E as [st2 [Hs2 _]].
      apply (Hno [] (c :: a) st2 eq_refl ltac:(discriminate)). exact Hs2.
    + rewrite (IH (Some c) (c :: before) b rest).
      * cbn [rev]. rewrite <- app_assoc. reflexivity.
      * intros a1 a2 st2 Ha Ha2 Hs2.
        apply (Hno (c :: a1) a2 st2); [rewrite Ha; reflexivity | exact Ha2|].
        exact Hs2.
      * exact Hrun.
Qed.

End SearchFacts.

(** ** The formatter of the client *)

Module ClientFormat.
Import JS JSFacts StrFacts PatternFacts Anywhere SearchFacts Extension Rebuilt.

Lemma steps_star_ws_intro (w : str) :
  allWs w ->
  forall prev rest caps,
    steps (Star ws) (MState prev (w ++ rest) caps)
          (MState (prevAfter prev w) rest caps).
Proof.
  induction 1 as [|c w Hc _ IH]; intros prev rest caps.
  - apply StepStarStop.
  - cbn [app prevAfter fold_left].
    apply (StepStarMore ws _ (MState (Some c) (w ++ rest) caps)).
    + apply StepClass. exact Hc.
    + cbn. lia.
    + apply IH.
Qed.

(** [/:\s*$/] finds a colon followed by whitespace only. *)
Lemma hasColon_iff (s : str) :
  test RE_HAS_COLON s = true
  <-> exists a w, s = a ++ lit ":" ++ w /\ allWs w.
Proof.
  split.
  - intros H. apply test_true_iff in H. destruct H as [caps H].
    apply search_sound in H. destruct H as [a [b [st' [Hab Hs]]]].
    unfold RE_HAS_COLON in Hs. cbn [cat] in Hs.
    inversion Hs as [| |? ? ? s1 ? HA HB| | | | | | | |]; subst; clear Hs.
    inversion HB as [| |? ? ? s2 ? HC HD| | | | | | | |]; subst; clear HB.
    inversion HA as [|? ? c r ? Hc| | | | | | | | |]; subst.
    apply Ascii.eqb_eq in Hc. subst c.
    apply steps_star_class in HC. destruct HC as [w [Ew Hw]].
    inversion HD; subst. cbn [m_rest] in *.
    exists a, w. split; [|exact Hw].
    match goal with Hr : m_rest st' = [] |- _ => rewrite Hr in Ew end.
    rewrite app_nil_r in Ew. subst w. reflexivity.
  - intros [a [w [-> Hw]]]. apply test_true_iff.
    destruct (search RE_HAS_COLON None (a ++ lit ":" ++ w)) as [caps|] eqn:E;
      [exists caps; exact E|].
    exfalso. revert E.
    apply (search_complete RE_HAS_COLON a None (lit ":" ++ w)
             (MState (prevAfter (Some ":"%char) w) [] [])).
    unfold RE_HAS_COLON. cbn [cat].
    apply (StepCat _ _ _ (MState (Some ":"%char) w [])).
    + apply (StepClass _ _ ":"%char w []). reflexivity.
    + apply (StepCat _ _ _ (MState (prevAfter (Some ":"%char) w) [] [])).
      * pose proof (steps_star_ws_intro w Hw (Some ":"%char) [] []) as K.
        rewrite app_nil_r in K. exact K.
      * apply StepEol. reflexivity.
Qed.

Lemma trimEnd_app_ws (s w : str) : allWs w -> trimEnd (s ++ w) = trimEnd s.
Proof.
  intros Hw. induction s as [|c s IH].
  - cbn [app]. apply trimEnd_ws. exact Hw.
  - cbn [app trimEnd]. rewrite IH. reflexivity.
Qed.

Lemma trimEnd_length (s : str) : length (trimEnd s) <= length s.
Proof.
  destruct (trimEnd_split s) as [w [Hw _]].
  rewrite Hw at 2. rewrite length_app. lia.
Qed.

(** [text.replace(/\s*$/, by)] puts [by] in place of the trailing
    whitespace. *)
Lemma replace_trailing_ws (text by_ : str) :
  JS.replace RE_TRAILING_WS text by_ = trimEnd text ++ by_.
Proof.
  unfold JS.replace.
  destruct (trimEnd_split text) as [w [Hw Hws]].
  rewrite Hw at 1.
  assert (Hrun : run RE_TRAILING_WS (MState (prevAfter None (trimEnd text)) w [])
                     (fun st => Some (m_rest st)) = Some []).
  { destruct (run RE_TRAILING_WS _ _) as [rest|] eqn:E.
    - apply run_sound in E. destruct E as [st' [Hs Hr]].
      unfold RE_TRAILING_WS in Hs. cbn [cat] in Hs.
      inversion Hs as [| |? ? ? s1 ? HA HB| | | | | | | |]; subst.
      inversion HB; subst. injection Hr as <-.
      match goal with Hm : m_rest st' = [] |- _ => rewrite Hm end. reflexivity.
    - exfalso. revert E.
      apply (run_complete RE_TRAILING_WS _
               (MState (prevAfter (prevAfter None (trimEnd text)) w) [] [])).
      + unfold RE_TRAILING_WS. cbn [cat].
        eapply StepCat; [|apply StepEol; reflexivity].
        pose proof (steps_star_ws_intro w Hws
                      (prevAfter None (trimEnd text)) [] []) as K.
        rewrite app_nil_r in K. exact K.
      + discriminate. }
  rewrite (searchSpan_at RE_TRAILING_WS (trimEnd text) None [] w [] ); cycle 1.
  - intros a1 a2 st' Ha Ha2 Hs.
    unfold RE_TRAILING_WS in Hs. cbn [cat] in Hs.
    inversion Hs as [| |? ? ? s1 ? HA HB| | | | | | | |]; subst.
    apply steps_star_class in HA. destruct HA as [w' [Ew Hw']].
    inversion HB; subst. cbn [m_rest] in *.
    match goal with Hr : m_rest st' = [] |- _ => rewrite Hr in Ew end.
    rewrite app_nil_r in Ew. subst w'.
    apply Forall_app in Hw'. destruct Hw' as [Hw2 _].
    pose proof (FormatterFacts.trimEnd_idem text) as Hid.
    rewrite Ha in Hid. rewrite trimEnd_app_ws in Hid by exact Hw2.
    pose proof (trimEnd_length a1) as Hl.
    rewrite Hid, length_app in Hl.
    destruct a2; [contradiction | cbn in Hl; lia].
  - exact Hrun.
  - cbn [rev app]. rewrite app_nil_r. reflexivity.
Qed.

Lemma trimStart_idem (s : str) : trimStart (trimStart s) = trimStart s.
Proof.
  destruct (trimStart_head s) as [E | E]; [rewrite E; reflexivity|].
  apply trimStart_solid. exact E.
Qed.

Lemma trimStart_keeps_colon (a w : str) :
  exists a', trimStart (a ++ lit ":" ++ w) = a' ++ lit ":" ++ w.
Proof.
  induction a as [|c a [a' IH]].
  - exists []. reflexivity.
  - unfold trimStart in *. cbn [app dropWhile].
    destruct (isWhiteSpace c).
    + exists a'. exact IH.
    + exists (c :: a). reflexivity.
Qed.

Lemma trim_of_trimStart (w s : str) :
  allWs w -> trim (w ++ trimStart s) = trim s.
Proof.
  intros Hw. unfold trim. rewrite trimStart_ws by exact Hw.
  rewrite trimStart_idem. reflexivity.
Qed.

Lemma normalize_cases (text : str) :
  (normalize text = trimEnd text ++ lit ":")
  \/ (normalize text = text
      /\ (test HEADER_MAY_REQUIRE_COLON_RE (trim text) = false
          \/ test RE_HAS_COLON text = true)).
Proof.
  unfold normalize.
  destruct (test HEADER_MAY_REQUIRE_COLON_RE (trim text)); cbn [andb].
  - destruct (test RE_HAS_COLON text); cbn [negb].
    + right. split; [reflexivity | right; reflexivity].
    + left. apply replace_trailing_ws.
  - right. split; [reflexivity | left; reflexivity].
Qed.

Lemma normalize_with_colon (s : str) :
  test RE_HAS_COLON s = true -> normalize s = s.
Proof.
  intros H. unfold normalize. rewrite H, andb_false_r. reflexivity.
Qed.

(** A line the formatter has rebuilt is left as it is by [normalize]. *)
Lemma normalize_rebuilt (pad text : str) :
  allWs pad ->
  normalize (pad ++ trimStart (normalize text))
  = pad ++ trimStart (normalize text).
Proof.
  intros Hpad.
  destruct (normalize_cases text) as [-> | [-> [E | E]]].
  - destruct (QuickFix.trimStart_colon (trimEnd text)) as [a' ->].
    apply normalize_with_colon. apply hasColon_iff. exists (pad ++ a'), [].
    split; [rewrite <- app_assoc; reflexivity | constructor].
  - unfold normalize. rewrite trim_of_trimStart by exact Hpad.
    rewrite E. reflexivity.
  - apply hasColon_iff in E. destruct E as [a [w [-> Hw]]].
    destruct (trimStart_keeps_colon a w) as [a' ->].
    apply normalize_with_colon. apply hasColon_iff. exists (pad ++ a'), w.
    split; [rewrite <- app_assoc; reflexivity | exact Hw].
Qed.

Lemma trimStart_rebuilt (pad text : str) :
  allWs pad -> trimStart (pad ++ trimStart text) = trimStart text.
Proof.
  intros Hpad. rewrite trimStart_ws by exact Hpad. apply trimStart_idem.
Qed.

Lemma decrease_nonneg (level : Z) (t : str) :
  (0 <= level)%Z -> (0 <= decrease level t)%Z.
Proof.
  unfold decrease. intros H.
  destruct (test DECREASE_INDENT_RE t && (0 <? level)%Z) eqn:E; [|exact H].
  apply andb_true_iff in E. destruct E as [_ E]. apply Z.ltb_lt in E. lia.
Qed.

Lemma increase_nonneg (level : Z) (t : str) :
  (0 <= level)%Z -> (0 <= increase level t)%Z.
Proof.
  unfold increase. intros H. destruct (test INCREASE_INDENT_RE t); lia.
Qed.

Lemma rebuiltLines_total (indentSize : Z) (lines : list str) :
  (0 <= indentSize)%Z ->
  forall level, (0 <= level)%Z ->
    exists out, rebuiltLines indentSize level lines = Some out
                /\ length out = length lines.
Proof.
  intros Hi. induction lines as [|l rest IH]; intros level Hl.
  - exists []. split; reflexivity.
  - cbn [rebuiltLines].
    pose proof (decrease_nonneg level (trimStart (normalize l)) Hl) as H1.
    pose proof (increase_nonneg _ (trimStart (normalize l)) H1) as H2.
    destruct (IH _ H2) as [out [Hout Hlen]]. rewrite Hout.
    unfold JS.repeat.
    replace (decrease level (trimStart (normalize l)) * indentSize <? 0)%Z
      with false by (symmetry; apply Z.ltb_ge; nia).
    eexists. split; [reflexivity|]. cbn. rewrite Hlen. reflexivity.
Qed.

Lemma replaceLine_at (pre rest : list str) (old new : str) :
  replaceLine (pre ++ old :: rest) (length pre) new = pre ++ new :: rest.
Proof.
  induction pre as [|p pre IH]; [reflexivity|].
  cbn [app length replaceLine]. rewrite IH. reflexivity.
Qed.

(** The edits of the loop turn the lines into the rebuilt ones, and
    there is one edit for each line that changes. *)
Lemma formatLoop_rebuilt (indentSize : Z) (lines : list str) :
  forall level out pre,
    rebuiltLines indentSize level lines = Some out ->
    exists edits,
      formatLoop indentSize level (length pre) lines = Some edits
      /\ applyEdits (pre ++ lines) edits = pre ++ out
      /\ map (fun e => startLine (editRange e)) edits
         = map (fun i => length pre + i) (changedLines lines out)
      /\ Forall (fun e =>
                   exists k,
                     editRange e
                     = {| startLine := length pre + k; startCharacter := 0;
                          endLine := length pre + k;
                          endCharacter := length (nth k lines []) |}
                     /\ newText e = nth k out [])
                edits.
Proof.
  induction lines as [|text rest IH]; intros level out pre H.
  - injection H as <-. exists []. cbn. repeat split. constructor.
  - cbn [rebuiltLines] in H. cbn [formatLoop].
    destruct (JS.repeat _ _) as [pad|]; [|discriminate].
    destruct (rebuiltLines _ _ rest) as [out'|] eqn:Hout; [|discriminate].
    injection H as <-.
    set (rebuilt := pad ++ trimStart (normalize text)) in *.
    assert (Hshift : forall x,
              map (fun i => length pre + i)
                  (filter (fun i => negb (str_eqb
                                            (nth i (rebuilt :: out') [])
                                            (nth i (text :: rest) [])))
                          (seq 1 (length rest)))
              = map (fun i => length (pre ++ [x]) + i)
                    (changedLines rest out')).
    { intros x. unfold changedLines. rewrite <- seq_shift.
      rewrite MatchingFacts.filter_map_comm, map_map. cbn [nth].
      apply map_ext. intros i. rewrite length_app. cbn. lia. }
    assert (Hrange : forall x edits,
              Forall (fun e =>
                        exists k,
                          editRange e
                          = {| startLine := length (pre ++ [x]) + k;
                               startCharacter := 0;
                               endLine := length (pre ++ [x]) + k;
                               endCharacter := length (nth k rest []) |}
                          /\ newText e = nth k out' [])
                     edits ->
              Forall (fun e =>
                        exists k,
                          editRange e
                          = {| startLine := length pre + k;
                               startCharacter := 0;
                               endLine := length pre + k;
                               endCharacter :=
                                 length (nth k (text :: rest) []) |}
                          /\ newText e = nth k (rebuilt :: out') [])
                     edits).
    { intros x edits HF. eapply Forall_impl; [|exact HF]. cbv beta.
      intros e [k [Ha Hb]]. exists (S k). cbn [nth].
      rewrite Ha, Hb, length_app. cbn [length].
      replace (length pre + 1 + k) with (length pre + S k) by lia.
      split; reflexivity. }
    destruct (str_eqb rebuilt text) eqn:Eq.
    + pose proof (ServerChecks.str_eqb_eq _ _ Eq) as Eq'. cbn [negb].
      destruct (IH _ out' (pre ++ [text]) Hout) as [edits [H1 [H2 [H3 H4]]]].
      rewrite length_app in H1. cbn [length] in H1.
      rewrite Nat.add_1_r in H1. rewrite H1.
      exists edits. split; [reflexivity|].
      rewrite <- !app_assoc in H2. cbn [app] in H2.
      split; [rewrite H2, Eq'; reflexivity|].
      split; [|apply (Hrange text); exact H4].
      rewrite H3. unfold changedLines at 2. cbn [length seq filter nth].
      rewrite Eq. cbn [negb]. symmetry. apply Hshift.
    + cbn [negb].
      destruct (IH _ out' (pre ++ [rebuilt]) Hout)
        as [edits [H1 [H2 [H3 H4]]]].
      rewrite length_app in H1. cbn [length] in H1.
      rewrite Nat.add_1_r in H1. rewrite H1.
      eexists. split; [reflexivity|].
      rewrite <- !app_assoc in H2. cbn [app] in H2.
      split; [|split].
      * unfold applyEdits in *. cbn [fold_left editRange startLine newText].
        rewrite replaceLine_at. exact H2.
      * cbn [map editRange startLine]. unfold changedLines at 1.
        cbn [length seq filter nth]. rewrite Eq. cbn [negb map].
        rewrite Nat.add_0_r. f_equal. rewrite H3.
        symmetry. apply Hshift.
      * constructor; [|apply (Hrange rebuilt); exact H4].
        exists 0. cbn [editRange newText nth]. rewrite Nat.add_0_r.
        split; reflexivity.
Qed.

(** The loop finds nothing to edit in lines it has rebuilt. *)
Lemma formatLoop_on_rebuilt (indentSize : Z) (lines : list str) :
  forall level out i,
    rebuiltLines indentSize level lines = Some out ->
    formatLoop indentSize level i out = Some [].
Proof.
  induction lines as [|text rest IH]; intros level out i H.
  - injection H as <-. reflexivity.
  - cbn [rebuiltLines] in H.
    destruct (JS.repeat _ _) as [pad|] eqn:Hpad; [|discriminate].
    destruct (rebuiltLines _ _ rest) as [out'|] eqn:Hout; [|discriminate].
    injection H as <-.
    pose proof (FormatterFacts.repeat_space_ws _ _ Hpad) as Hw.
    cbn [formatLoop].
    rewrite (normalize_rebuilt pad text Hw).
    rewrite (trimStart_rebuilt pad (normalize text) Hw).
    rewrite Hpad, (IH _ _ (S i) Hout).
    rewrite ServerChecks.str_eqb_refl. reflexivity.
Qed.

Lemma rebuiltLines_nth (indentSize : Z) (lines : list str) :
  forall level out,
    rebuiltLines indentSize level lines = Some out ->
    forall i, i < length lines ->
      exists pad,
        JS.repeat (lit " ") (nth i (levelTrace level lines) 0%Z * indentSize)
        = Some pad
        /\ nth i out [] = pad ++ trimStart (normalize (nth i lines [])).
Proof.
  induction lines as [|text rest IH]; intros level out H i Hi;
    [cbn in Hi; lia|].
  cbn [rebuiltLines] in H.
  destruct (JS.repeat _ _) as [pad|] eqn:Hpad; [|discriminate].
  destruct (rebuiltLines _ _ rest) as [out'|] eqn:Hout; [|discriminate].
  injection H as <-. cbn [levelTrace].
  destruct i as [|i]; cbn [nth].
  - exists pad. split; [exact Hpad | reflexivity].
  - apply (IH _ _ Hout). cbn in Hi. lia.
Qed.

End ClientFormat.

(** ** The tasks of a document *)

Module TaskFacts.
Import JS JSFacts PatternFacts Tasks.

Lemma steps_ichars (w : str) (st st' : mstate) :
  steps (chars ichr w) st st' ->
  exists u, m_rest st = u ++ m_rest st' /\ map toLower u = w
            /\ m_caps st' = m_caps st.
Proof.
  revert st. induction w as [|c w IH]; intros st H.
  - cbn in H. inversion H; subst. exists []. repeat split.
  - cbn [chars] in H.
    inversion H as [| |? ? ? s1 ? HA HB| | | | | | | |]; subst.
    inversion HA as [|? ? x r ? Hx| | | | | | | | |]; subst.
    apply Ascii.eqb_eq in Hx.
    destruct (IH _ HB) as [u [Hu [Hm Hc]]]. cbn [m_rest m_caps] in *.
    exists (x :: u). rewrite Hu. cbn [app map]. rewrite Hx, Hm.
    repeat split. exact Hc.
Qed.

Lemma steps_plus_class_ne (p : ascii -> bool) (st st' : mstate) :
  steps (Plus (Class p)) st st' ->
  exists c w, m_rest st = c :: w ++ m_rest st'
              /\ p c = true /\ Forall (fun x => p x = true) w.
Proof.
  unfold Plus. intros H.
  inversion H as [| |? ? ? s1 ? HA HB| | | | | | | |]; subst.
  inversion HA as [|? ? c r ? Hc| | | | | | | | |]; subst.
  apply steps_star_class in HB. destruct HB as [w [Ew Hw]].
  cbn [m_rest] in *. exists c, w. rewrite Ew. repeat split; assumption.
Qed.

(** The name captured by [startRe] is the text between the first two
    double quotes of the line, and only whitespace follows it. *)
Lemma startRe_shape (text : str) (caps : list str) :
  exec startRe text = Some caps ->
  exists before title after,
    caps = [title]
    /\ text = before ++ DQ :: title ++ DQ :: after
    /\ title <> [] /\ ~ In DQ title /\ ~ In DQ before /\ allWs after.
Proof.
  intros E. apply exec_anchored_sound in E. destruct E as [st' [Hs Hcaps]].
  unfold startRe in Hs. cbn [cat] in Hs.
  inversion Hs as [| |? ? st0 s1 ? HA H1| | | | | | | |]; subst; clear Hs.
  inversion H1 as [| |? ? ? s2 ? HB H2| | | | | | | |]; subst; clear H1.
  inversion H2 as [| |? ? ? s3 ? HC H3| | | | | | | |]; subst; clear H2.
  inversion H3 as [| |? ? ? s4 ? HD H4| | | | | | | |]; subst; clear H3.
  inversion H4 as [| |? ? ? s5 ? HE H5| | | | | | | |]; subst; clear H4.
  inversion H5 as [| |? ? ? s6 ? HQ H6| | | | | | | |]; subst; clear H5.
  inversion H6 as [| |? ? ? s7 ? HG H7| | | | | | | |]; subst; clear H6.
  inversion H7 as [| |? ? ? s8 ? HQ2 H8| | | | | | | |]; subst; clear H7.
  inversion H8 as [| |? ? ? s9 ? HW HEnd| | | | | | | |]; subst; clear H8.
  pose proof (Titles.steps_groupFree _ _ _ HA eq_refl) as CA.
  pose proof (Titles.steps_groupFree _ _ _ HC eq_refl) as CC.
  pose proof (Titles.steps_groupFree _ _ _ HE eq_refl) as CE.
  pose proof (Titles.steps_groupFree _ _ _ HW eq_refl) as CW.
  cbn [m_caps] in CA.
  apply steps_star_class in HA. destruct HA as [wA [EA HwA]].
  apply steps_ichars in HB. destruct HB as [uB [EB [MB CB]]].
  apply Titles.steps_plus_class in HC. destruct HC as [wC [EC HwC]].
  apply steps_ichars in HD. destruct HD as [uD [ED [MD CD]]].
  apply Titles.steps_plus_class in HE. destruct HE as [wE [EE HwE]].
  inversion HQ as [|? ? cq rq ? Hq| | | | | | | | |]; subst.
  apply Ascii.eqb_eq in Hq. subst cq.
  inversion HG as [| | | | | | |? ? g1 HP| | |]; subst.
  pose proof (Titles.steps_groupFree _ _ _ HP eq_refl) as CP.
  apply steps_plus_class_ne in HP.
  destruct HP as [t0 [t1 [Et [Ht0 Ht1]]]].
  assert (Ht : Forall (fun c => negb (Ascii.eqb c DQ) = true) (t0 :: t1))
    by (constructor; assumption).
  change (t0 :: t1 ++ m_rest g1) with ((t0 :: t1) ++ m_rest g1) in Et.
  set (t := t0 :: t1) in *.
  inversion HQ2 as [|? ? cq2 rq2 ? Hq2| | | | | | | | |]; subst.
  apply Ascii.eqb_eq in Hq2. subst cq2.
  apply steps_star_class in HW. destruct HW as [wW [EW HwW]].
  inversion HEnd; subst.
  cbn [m_rest m_caps] in *.
  match goal with
  | Hr : m_rest g1 = _ |- _ => rename Hr into Eg
  | Hr : _ = m_rest g1 |- _ => rename Hr into Eg; symmetry in Eg
  end.
  match goal with Hr : m_rest st' = [] |- _ => rewrite Hr in EW end.
  rewrite app_nil_r in EW. subst wW.
  assert (Hcaps0 : m_caps g1 = []) by congruence.
  exists (wA ++ uB ++ wC ++ uD ++ wE), t, rq2.
  split.
  { rewrite CW, Hcaps0, Et, Eg. cbn [app].
    rewrite Titles.firstn_consumed. reflexivity. }
  split.
  { rewrite EA, EB, EC, ED, EE, Et, Eg, <- !app_assoc. reflexivity. }
  assert (Hlow : forall u w, map toLower u = lit w ->
            Forall (fun c => isAlpha c = true) (lit w) -> ~ In DQ u).
  { intros u w Hm Hal Hin.
    apply (in_map toLower) in Hin. rewrite Hm in Hin.
    rewrite Forall_forall in Hal. specialize (Hal _ Hin).
    vm_compute in Hal. discriminate. }
  split.
  { subst t. discriminate. }
  split.
  { apply (Titles.not_in_forall _ DQ _ Ht). cbn. discriminate. }
  split; [|exact HwW].
  intros Hin. repeat (apply in_app_or in Hin; destruct Hin as [Hin|Hin]).
  - revert Hin. apply (Titles.not_in_forall _ DQ _ HwA). discriminate.
  - revert Hin. apply (Hlow uB "start"%string MB). repeat constructor.
  - revert Hin. apply (Titles.not_in_forall _ DQ _ HwC). discriminate.
  - revert Hin. apply (Hlow uD "task"%string MD). repeat constructor.
  - revert Hin. apply (Titles.not_in_forall _ DQ _ HwE). discriminate.
Qed.

(** A stack entry or a task that comes from an opening line of [doc]. *)
Local Abbreviation fromOpener doc nm s :=
  (s < length doc
   /\ opensTask (nth s doc []) = true
   /\ exec startRe (Extension.stripLineComment (nth s doc [])) = Some [nm]).

Lemma parseLoop_wf (doc : list str) (lines : list str) :
  forall i stack,
    i + length lines = length doc ->
    (forall k, k < length lines -> nth k lines [] = nth (i + k) doc []) ->
    Forall (fun f => snd f < i /\ fromOpener doc (fst f) (snd f)) stack ->
    Forall (fun t => fromOpener doc (name t) (startLine t)
                     /\ startLine t < endLine t
                     /\ endLine t < length doc
                     /\ closesTask (nth (endLine t) doc []) = true)
           (fst (parseLoop i lines stack))
    /\ Forall (fun f => fromOpener doc (fst f) (snd f))
              (snd (parseLoop i lines stack))
    /\ length (fst (parseLoop i lines stack))
       + length (snd (parseLoop i lines stack))
       = length stack + length (filter opensTask lines).
Proof.
  induction lines as [|l rest IH]; intros i stack Hlen Hl Hst.
  - cbn. split; [constructor|]. split; [|lia].
    eapply Forall_impl; [|exact Hst]. cbv beta. intros f [_ H]. exact H.
  - cbn [length] in Hlen.
    assert (Hl0 : l = nth i doc []).
    { specialize (Hl 0 ltac:(cbn; lia)). cbn [nth] in Hl.
      rewrite Nat.add_0_r in Hl. exact Hl. }
    assert (Hl' : forall k, k < length rest ->
                    nth k rest [] = nth (S i + k) doc []).
    { intros k Hk. specialize (Hl (S k) ltac:(cbn; lia)). cbn [nth] in Hl.
      rewrite Hl. f_equal. lia. }
    assert (Hkeep : forall st,
              Forall (fun f => snd f < i /\ fromOpener doc (fst f) (snd f)) st ->
              Forall (fun f => snd f < S i /\ fromOpener doc (fst f) (snd f))
                     st).
    { intros st H. eapply Forall_impl; [|exact H]. cbv beta.
      intros f [H1 H2]. split; [lia | exact H2]. }
    assert (Hopen : opensTask l
                    = negb (isEmpty (Extension.stripLineComment l))
                      && match exec startRe (Extension.stripLineComment l) with
                         | Some _ => true
                         | None => false
                         end) by reflexivity.
    cbn [parseLoop filter]. rewrite Hopen. clear Hopen.
    destruct (isEmpty (Extension.stripLineComment l)) eqn:Ee; cbn [negb andb].
    { destruct (IH (S i) stack ltac:(lia) Hl' (Hkeep _ Hst)) as [H1 [H2 H3]].
      split; [exact H1|]. split; [exact H2 | exact H3]. }
    destruct (exec startRe (Extension.stripLineComment l)) as [caps|] eqn:Ex.
    { destruct (startRe_shape _ _ Ex) as [b [title [a [Hc _]]]].
      subst caps. cbn [nameOf].
      assert (Hnew : Forall (fun f => snd f < S i
                                      /\ fromOpener doc (fst f) (snd f))
                            ((title, i) :: stack)).
      { constructor; [|apply Hkeep; exact Hst]. cbn [fst snd].
        split; [lia|]. split; [lia|]. rewrite <- Hl0. unfold opensTask.
        rewrite Ee, Ex. split; reflexivity. }
      destruct (IH (S i) _ ltac:(lia) Hl' Hnew) as [H1 [H2 H3]].
      split; [exact H1|]. split; [exact H2|]. rewrite H3. cbn [length]. lia. }
    destruct (test endRe (Extension.stripLineComment l)) eqn:Et.
    + destruct stack as [|open stack'].
      * destruct (IH (S i) [] ltac:(lia) Hl' ltac:(constructor))
          as [H1 [H2 H3]].
        split; [exact H1|]. split; [exact H2 | exact H3].
      * pose proof (Forall_inv Hst) as [Ho1 Ho2].
        destruct (IH (S i) stack' ltac:(lia) Hl'
                    (Hkeep _ (Forall_inv_tail Hst))) as [H1 [H2 H3]].
        destruct (parseLoop (S i) rest stack') as [tasks final].
        cbn [fst snd] in *.
        split; [|split; [exact H2 | cbn [length]; lia]].
        constructor; [|exact H1]. cbn [name startLine endLine].
        split; [exact Ho2|]. split; [exact Ho1|]. split; [lia|].
        rewrite <- Hl0. unfold closesTask. rewrite Ee, Ex, Et. reflexivity.
    + destruct (IH (S i) stack ltac:(lia) Hl' (Hkeep _ Hst)) as [H1 [H2 H3]].
      split; [exact H1|]. split; [exact H2 | exact H3].
Qed.

(** Every opening line and every stack entry ends as a task or on the
    stack left at the end. *)
Lemma parseLoop_covers (lines : list str) :
  forall i stack,
    (forall f, In f stack ->
       (exists t, In t (fst (parseLoop i lines stack))
                  /\ startLine t = snd f)
       \/ In f (snd (parseLoop i lines stack)))
    /\ (forall k, k < length lines -> opensTask (nth k lines []) = true ->
          (exists t, In t (fst (parseLoop i lines stack))
                     /\ startLine t = i + k)
          \/ (exists f, In f (snd (parseLoop i lines stack))
                        /\ snd f = i + k)).
Proof.
  induction lines as [|l rest IH]; intros i stack.
  - cbn. split; [intros f Hf; right; exact Hf | intros; lia].
  - assert (Hshift : forall st,
              forall k, k < length (l :: rest) -> k <> 0 ->
                opensTask (nth k (l :: rest) []) = true ->
                (exists t, In t (fst (parseLoop (S i) rest st))
                           /\ startLine t = i + k)
                \/ (exists f, In f (snd (parseLoop (S i) rest st))
                              /\ snd f = i + k)).
    { intros st k Hk Hk0 Ho. destruct k as [|k]; [contradiction|].
      cbn [nth] in Ho. cbn [length] in Hk.
      destruct (IH (S i) st) as [_ H].
      replace (i + S k) with (S i + k) by lia. apply H; [lia | exact Ho]. }
    cbn [parseLoop].
    destruct (isEmpty (Extension.stripLineComment l)) eqn:Ee.
    { split; [apply (IH (S i) stack)|].
      intros k Hk Ho. destruct (Nat.eq_dec k 0) as [-> | Hne];
        [|apply Hshift; assumption].
      cbn [nth] in Ho. unfold opensTask in Ho. rewrite Ee in Ho.
      discriminate. }
    destruct (exec startRe (Extension.stripLineComment l)) as [caps|] eqn:Ex.
    { destruct (IH (S i) ((nameOf caps i, i) :: stack)) as [H1 H2].
      split; [intros f Hf; apply H1; right; exact Hf|].
      intros k Hk Ho. destruct (Nat.eq_dec k 0) as [-> | Hne];
        [|apply Hshift; assumption].
      rewrite Nat.add_0_r.
      destruct (H1 (nameOf caps i, i) ltac:(left; reflexivity))
        as [[t [Ht1 Ht2]] | Hf].
      - left. exists t. split; assumption.
      - right. eexists. split; [exact Hf | reflexivity]. }
    assert (Hno : forall k, k = 0 ->
              opensTask (nth k (l :: rest) []) = true -> False).
    { intros k -> Ho. cbn [nth] in Ho. unfold opensTask in Ho.
      rewrite Ex in Ho. rewrite andb_false_r in Ho. discriminate. }
    destruct (test endRe (Extension.stripLineComment l)).
    + destruct stack as [|open stack'].
      * split; [intros f []|].
        intros k Hk Ho. destruct (Nat.eq_dec k 0) as [E | Hne];
          [destruct (Hno k E Ho) | apply Hshift; assumption].
      * pose proof (IH (S i) stack') as [H1 H2].
        pose proof (Hshift stack') as Hs.
        destruct (parseLoop (S i) rest stack') as [tasks final].
        cbn [fst snd] in *. split.
        -- intros f [<- | Hf].
           ++ left. eexists. split; [left; reflexivity | reflexivity].
           ++ destruct (H1 f Hf) as [[t [Ht1 Ht2]] | Hfin].
              ** left. exists t. split; [right; exact Ht1 | exact Ht2].
              ** right. exact Hfin.
        -- intros k Hk Ho. destruct (Nat.eq_dec k 0) as [E | Hne];
             [destruct (Hno k E Ho)|].
           destruct (Hs k Hk Hne Ho) as [[t [Ht1 Ht2]] | Hfin].
           ++ left. exists t. split; [right; exact Ht1 | exact Ht2].
           ++ right. exact Hfin.
    + split; [apply (IH (S i) stack)|].
      intros k Hk Ho. destruct (Nat.eq_dec k 0) as [E | Hne];
        [destruct (Hno k E Ho) | apply Hshift; assumption].
Qed.

(** The tasks of [parseTasks], one by one. *)
Lemma parseTasks_spec (doc : Extension.TextDocument) :
  length (Tasks.parseTasks doc) = length (filter Tasks.opensTask doc)
  /\ forall t, In t (Tasks.parseTasks doc) ->
       Tasks.startLine t <= Tasks.endLine t
       /\ Tasks.endLine t < Extension.lineCount doc
       /\ Tasks.opensTask (nth (Tasks.startLine t) doc []) = true
       /\ (exists before after,
             Extension.stripLineComment (nth (Tasks.startLine t) doc [])
             = before ++ DQ :: Tasks.name t ++ DQ :: after
             /\ Tasks.name t <> []
             /\ ~ In DQ (Tasks.name t) /\ ~ In DQ before /\ allWs after)
       /\ ((Tasks.startLine t < Tasks.endLine t
            /\ Tasks.closesTask (nth (Tasks.endLine t) doc []) = true)
           \/ Tasks.endLine t = Extension.lineCount doc - 1).
Proof.
  unfold Tasks.parseTasks.
  destruct (TaskFacts.parseLoop_wf doc doc 0 [] eq_refl
              ltac:(intros; reflexivity) ltac:(constructor))
    as [H1 [H2 H3]].
  destruct (Tasks.parseLoop 0 doc []) as [tasks stack].
  cbn [fst snd length Nat.add] in *.
  split; [rewrite length_app, length_map, length_rev; exact H3|].
  assert (Hname : forall nm s,
            exec Tasks.startRe (Extension.stripLineComment (nth s doc []))
            = Some [nm] ->
            exists before after,
              Extension.stripLineComment (nth s doc [])
              = before ++ DQ :: nm ++ DQ :: after
              /\ nm <> [] /\ ~ In DQ nm /\ ~ In DQ before /\ allWs after).
  { intros nm s E.
    destruct (TaskFacts.startRe_shape _ _ E)
      as [b [title [a [Hc [Ht [Hne [Hq [Hb Ha]]]]]]]].
    injection Hc as <-. exists b, a. repeat split; assumption. }
  intros t Hin. apply in_app_or in Hin. destruct Hin as [Hin | Hin].
  - rewrite Forall_forall in H1.
    destruct (H1 t Hin) as [[Ha [Hb Hc]] [Hd [He Hf]]].
    unfold Extension.lineCount.
    split; [lia|]. split; [exact He|]. split; [exact Hb|].
    split; [apply Hname; exact Hc|]. left. split; assumption.
  - apply in_map_iff in Hin. destruct Hin as [f [<- Hf]].
    apply in_rev in Hf. rewrite Forall_forall in H2.
    destruct (H2 f Hf) as [Ha [Hb Hc]].
    cbn [Tasks.name Tasks.startLine Tasks.endLine].
    unfold Extension.lineCount.
    split; [lia|]. split; [lia|]. split; [exact Hb|].
    split; [apply Hname; exact Hc|]. right. reflexivity.
Qed.

End TaskFacts.

(** ** Replacing every match *)

Module GlobalFacts.
Import JS JSFacts PatternFacts Global.

(** Every occurrence of a character of a class is replaced. *)
Lemma replaceAll_class (p : ascii -> bool) (by_ : str) :
  forall fuel s prev,
    length s < fuel ->
    replaceAll_from fuel (Class p) prev s by_
    = flat_map (fun x => if p x then by_ else [x]) s.
Proof.
  induction fuel as [|fuel IH]; intros s prev Hf; [lia|].
  cbn [replaceAll_from run m_rest m_caps].
  destruct s as [|c s]; [reflexivity|].
  cbn [flat_map]. destruct (p c).
  - cbn [m_rest m_prev length].
    replace (length s <? S (length s)) with true
      by (symmetry; apply Nat.ltb_lt; lia).
    rewrite IH by (cbn in Hf; lia). reflexivity.
  - rewrite IH by (cbn in Hf; lia). reflexivity.
Qed.

Lemma run_plus_class_sound {A : Type} (p : ascii -> bool) (st : mstate)
    (k : mstate -> option A) (a : A) :
  run (Plus (Class p)) st k = Some a ->
  exists c w st', m_rest st = c :: w ++ m_rest st'
                  /\ p c = true /\ k st' = Some a.
Proof.
  intros H. apply run_sound in H. destruct H as [st' [Hs Hk]].
  apply TaskFacts.steps_plus_class_ne in Hs.
  destruct Hs as [c [w [E [Hc _]]]]. exists c, w, st'. auto.
Qed.

Lemma run_plus_class_none {A : Type} (p : ascii -> bool)
    (prev : option ascii) (c : ascii) (s : str) (k : mstate -> option A) :
  (forall st, k st <> None) ->
  run (Plus (Class p)) (MState prev (c :: s) []) k = None -> p c = false.
Proof.
  intros Hk H. destruct (p c) eqn:E; [|reflexivity]. exfalso. revert H.
  apply (run_complete _ _ (MState (Some c) s [])); [|apply Hk].
  unfold Plus. eapply StepCat; [apply StepClass; exact E | apply StepStarStop].
Qed.

(** What [replaceAll] leaves of the runs of a class: no character of the
    class, nothing longer, nothing empty, and a text without such a
    character as it is. *)
Lemma replaceAll_runs (p : ascii -> bool) (x : ascii) :
  p x = false ->
  forall fuel s prev,
    length s < fuel ->
    let out := replaceAll_from fuel (Plus (Class p)) prev s [x] in
    Forall (fun c => p c = false) out
    /\ length out <= length s
    /\ (s <> [] -> out <> [])
    /\ (Forall (fun c => p c = false) s -> out = s).
Proof.
  intros Hx. induction fuel as [|fuel IH]; intros s prev Hf; [lia|].
  cbn zeta. cbn [replaceAll_from].
  destruct (run (Plus (Class p)) (MState prev s [])
              (fun st => Some (m_rest st, m_prev st)))
    as [[rest prev']|] eqn:E.
  - apply run_plus_class_sound in E.
    destruct E as [c [w [st' [Es [Hc Hk]]]]].
    injection Hk as <- <-. cbn [m_rest] in Es.
    assert (Hlen : length (m_rest st') < length s).
    { rewrite Es. cbn [length]. rewrite length_app. lia. }
    replace (length (m_rest st') <? length s) with true
      by (symmetry; apply Nat.ltb_lt; exact Hlen).
    destruct (IH (m_rest st') (m_prev st') ltac:(lia)) as [H1 [H2 [_ _]]].
    cbn [app]. split; [constructor; assumption|].
    split; [cbn [length]; lia|]. split; [discriminate|].
    intros Hs. exfalso. rewrite Es in Hs.
    pose proof (Forall_inv Hs) as Hc'. cbv beta in Hc'. congruence.
  - destruct s as [|c s].
    + repeat split; try constructor; try reflexivity. intros H; contradiction.
    + apply run_plus_class_none in E; [|discriminate].
      destruct (IH s (Some c) ltac:(cbn in Hf; lia)) as [H1 [H2 [_ H4]]].
      split; [constructor; assumption|].
      split; [cbn [length]; lia|]. split; [discriminate|].
      intros Hs. rewrite (H4 (Forall_inv_tail Hs)). reflexivity.
Qed.

End GlobalFacts.

(** ** Quoted words *)

Module ShellFacts.
Import JS Global Shell.

Lemma quote_posix (s : str) :
  quote false s
  = SQ :: flat_map (fun x => if Ascii.eqb SQ x then [SQ; BSL; SQ; SQ]
                              else [x]) s ++ [SQ].
Proof.
  unfold quote, replaceAll, chr.
  rewrite GlobalFacts.replaceAll_class by lia. reflexivity.
Qed.

Lemma quote_win32 (s : str) :
  quote true s
  = DQ :: flat_map (fun x => if Ascii.eqb DQ x then [BSL; DQ] else [x]) s
          ++ [DQ].
Proof.
  unfold quote, replaceAll, chr.
  rewrite GlobalFacts.replaceAll_class by lia. reflexivity.
Qed.

Lemma readWord_close (w : str) : readWord true (SQ :: w) = readWord false w.
Proof. reflexivity. Qed.

Lemma readWord_open (w : str) : readWord false (SQ :: w) = readWord true w.
Proof. reflexivity. Qed.

Lemma readWord_escaped (c : ascii) (w : str) :
  readWord false (BSL :: c :: w) = option_map (cons c) (readWord false w).
Proof. reflexivity. Qed.

Lemma readWord_quoted (s : str) :
  readWord true
    (flat_map (fun x => if Ascii.eqb SQ x then [SQ; BSL; SQ; SQ] else [x]) s
     ++ [SQ])
  = Some s.
Proof.
  induction s as [|c s IH]; [reflexivity|].
  cbn [flat_map]. destruct (Ascii.eqb SQ c) eqn:E.
  - apply Ascii.eqb_eq in E. subst c. cbn [app].
    rewrite readWord_close, readWord_escaped, readWord_open, IH.
    reflexivity.
  - cbn [app readWord]. rewrite Ascii.eqb_sym, E, IH. reflexivity.
Qed.

Lemma unescape_escaped (s : str) (rest : str) :
  (forall c r, rest = c :: r -> Ascii.eqb c DQ = false) ->
  unescape
    (flat_map (fun x => if Ascii.eqb DQ x then [BSL; DQ] else [x]) s ++ rest)
  = s ++ unescape rest.
Proof.
  intros Hrest. induction s as [|c s IH]; [reflexivity|].
  cbn [flat_map]. destruct (Ascii.eqb DQ c) eqn:E.
  - apply Ascii.eqb_eq in E. subst c. cbn [app unescape].
    replace (Ascii.eqb BSL BSL) with true by reflexivity.
    rewrite Ascii.eqb_refl. rewrite IH. reflexivity.
  - cbn [app unescape]. destruct (Ascii.eqb c BSL) eqn:Eb.
    + destruct (flat_map _ s ++ rest) as [|c' w] eqn:Ew.
      * destruct s as [|c2 s2].
        -- cbn in Ew. subst rest. cbn. reflexivity.
        -- cbn [flat_map] in Ew. destruct (Ascii.eqb DQ c2); discriminate.
      * destruct (Ascii.eqb c' DQ) eqn:Eq.
        -- exfalso. apply Ascii.eqb_eq in Eq. subst c'.
           destruct s as [|c2 s2].
           ++ cbn in Ew. specialize (Hrest _ _ Ew).
              rewrite Ascii.eqb_refl in Hrest. discriminate.
           ++ cbn [flat_map] in Ew. destruct (Ascii.eqb DQ c2) eqn:E2.
              ** cbn in Ew. injection Ew as Ew _. discriminate Ew.
              ** cbn in Ew. injection Ew as Ew _. subst c2.
                 rewrite Ascii.eqb_refl in E2. discriminate.
        -- rewrite IH. reflexivity.
    + rewrite IH. reflexivity.
Qed.

End ShellFacts.

(** ** Where the folds start and end *)

Module FoldAnchors.
Import JS Server Ranges.

Lemma taskFoldLoop_anchors (doc : TextDocument) (lines : list str) :
  forall i taskStart,
    (forall k, k < length lines -> nth k lines [] = lineAt doc (i + k)) ->
    (forall s, taskStart = Some s ->
       s < i
       /\ test RE_START_TASK (lineAt doc s) = true
       /\ forall j, s < j -> j < i ->
            test RE_START_TASK (lineAt doc j) = false
            /\ test RE_END_TASK (lineAt doc j) = false) ->
    Forall (fun f =>
              test RE_START_TASK (lineAt doc (foldStart f)) = true
              /\ test RE_END_TASK (lineAt doc (foldEnd f)) = true
              /\ forall j, foldStart f < j -> j < foldEnd f ->
                   test RE_START_TASK (lineAt doc j) = false
                   /\ test RE_END_TASK (lineAt doc j) = false)
           (taskFoldLoop i lines taskStart).
Proof.
  induction lines as [|l rest IH]; intros i ts Hl Hts; [constructor|].
  assert (Hl0 : l = lineAt doc i).
  { specialize (Hl 0 ltac:(cbn; lia)). cbn [nth] in Hl.
    rewrite Nat.add_0_r in Hl. exact Hl. }
  assert (Hl' : forall k, k < length rest ->
                  nth k rest [] = lineAt doc (S i + k)).
  { intros k Hk. specialize (Hl (S k) ltac:(cbn; lia)). cbn [nth] in Hl.
    rewrite Hl. f_equal. lia. }
  cbn [taskFoldLoop].
  destruct (test RE_START_TASK l) eqn:Es.
  { apply IH; [exact Hl'|]. intros s Hs. injection Hs as <-.
    split; [lia|]. split; [rewrite <- Hl0; exact Es|]. intros j H1 H2. lia. }
  destruct (test RE_END_TASK l) eqn:Ee.
  - destruct ts as [s|].
    + destruct (Hts s eq_refl) as [H1 [H2 H3]].
      unfold pushFold. replace (s <? i) with true
        by (symmetry; apply Nat.ltb_lt; exact H1).
      cbn [app]. constructor.
      * cbn [foldStart foldEnd]. split; [exact H2|].
        split; [rewrite <- Hl0; exact Ee | exact H3].
      * apply IH; [exact Hl' | discriminate].
    + apply IH; [exact Hl' | discriminate].
  - apply IH; [exact Hl'|]. intros s Hs.
    destruct (Hts s Hs) as [H1 [H2 H3]].
    split; [lia|]. split; [exact H2|]. intros j Hj1 Hj2.
    destruct (Nat.eq_dec j i) as [-> | Hne].
    + rewrite <- Hl0. split; assumption.
    + apply H3; lia.
Qed.

Lemma blockFoldLoop_anchors (doc : TextDocument) (lines : list str) :
  forall i stack,
    i + length lines = length doc ->
    (forall k, k < length lines -> nth k lines [] = lineAt doc (i + k)) ->
    Forall (fun s => test RE_BLOCK_HEADER (trim (lineAt doc s)) = true) stack ->
    Forall (fun f =>
              test RE_BLOCK_HEADER (trim (lineAt doc (foldStart f))) = true
              /\ S (foldEnd f) < length doc
              /\ test RE_BLANK (trim (lineAt doc (S (foldEnd f)))) = true)
           (fst (blockFoldLoop i lines stack))
    /\ Forall (fun s => test RE_BLOCK_HEADER (trim (lineAt doc s)) = true)
              (snd (blockFoldLoop i lines stack)).
Proof.
  induction lines as [|l rest IH]; intros i stack Hlen Hl Hst.
  - cbn. split; [constructor | exact Hst].
  - cbn [length] in Hlen.
    assert (Hl0 : l = lineAt doc i).
    { specialize (Hl 0 ltac:(cbn; lia)). cbn [nth] in Hl.
      rewrite Nat.add_0_r in Hl. exact Hl. }
    assert (Hl' : forall k, k < length rest ->
                    nth k rest [] = lineAt doc (S i + k)).
    { intros k Hk. specialize (Hl (S k) ltac:(cbn; lia)). cbn [nth] in Hl.
      rewrite Hl. f_equal. lia. }
    cbn [blockFoldLoop].
    destruct (test RE_BLOCK_HEADER (trim l)) eqn:Eh.
    { apply IH; [lia | exact Hl'|]. constructor; [|exact Hst].
      rewrite <- Hl0. exact Eh. }
    destruct (test RE_BLANK (trim l)) eqn:Eb;
      [|apply IH; [lia | exact Hl' | exact Hst]].
    destruct stack as [|s stack']; [apply IH; [lia | exact Hl' | exact Hst]|].
    destruct (IH (S i) stack' ltac:(lia) Hl' (Forall_inv_tail Hst))
      as [H1 H2].
    destruct (blockFoldLoop (S i) rest stack') as [folds final].
    cbn [fst snd] in *. split; [|exact H2].
    apply Forall_app. split; [|exact H1].
    unfold pushFold. destruct (s <? i - 1) eqn:E; [|constructor].
    apply Nat.ltb_lt in E. constructor; [|constructor].
    cbn [foldStart foldEnd]. split; [exact (Forall_inv Hst)|].
    replace (S (i - 1)) with i by lia. split; [lia|].
    rewrite <- Hl0. exact Eb.
Qed.

End FoldAnchors.
(** ** Lines without a comment, through the formatter of the client *)

Module CleanLines.
Import JS StrFacts Extension.

(** A text in which [//] occurs nowhere. *)
Local Abbreviation clean s := (forall i, indexOf_from i s (lit "//") = (-1)%Z).

Lemma clean_cons (c : ascii) (s : str) :
  clean (c :: s) <-> startsWith (c :: s) (lit "//") = false /\ clean s.
Proof.
  split.
  - intros H. pose proof (H 0) as H0. cbn [indexOf_from] in H0.
    destruct (startsWith (c :: s) (lit "//")) eqn:E; [lia|].
    split; [reflexivity|]. intros i. specialize (H i).
    cbn [indexOf_from] in H. rewrite E in H.
    destruct (CommentFacts.indexOf_from_spec (lit "//") s (S i))
      as [[K _] | [k [K _]]]; [|rewrite K in H; lia].
    destruct (CommentFacts.indexOf_from_spec (lit "//") s i)
      as [[K2 _] | [k [K2 [K3 [K4 K5]]]]]; [exact K2|].
    exfalso.
    destruct (CommentFacts.indexOf_from_spec (lit "//") s (S i))
      as [[_ K6] | [k' [K6 _]]]; [|rewrite K6 in K; lia].
    destruct (K6 k) as [K7 | K7]; [congruence | lia].
  - intros [E H] i. cbn [indexOf_from]. rewrite E. apply H.
Qed.

Lemma clean_nil : clean [].
Proof. intros i. reflexivity. Qed.

Lemma clean_of_indexOf (s : str) : indexOf s (lit "//") = (-1)%Z -> clean s.
Proof.
  unfold indexOf. induction s as [|c s IH]; intros H; [apply clean_nil|].
  cbn [indexOf_from] in H.
  destruct (startsWith (c :: s) (lit "//")) eqn:E; [lia|].
  apply clean_cons. split; [exact E|]. apply IH.
  destruct (CommentFacts.indexOf_from_spec (lit "//") s 1)
    as [[_ K6] | [k' [K6 _]]]; [|rewrite K6 in H; lia].
  destruct (CommentFacts.indexOf_from_spec (lit "//") s 0)
    as [[K2 _] | [k [K2 [K3 [K4 K5]]]]]; [exact K2|].
  destruct (K6 k) as [K7 | K7]; [congruence | lia].
Qed.

Lemma startsWith_comment (s : str) :
  startsWith s (lit "//")
  = match s with
    | a :: b :: _ => Ascii.eqb "/" a && Ascii.eqb "/" b
    | _ => false
    end.
Proof.
  destruct s as [|a [|b s]]; cbn; try reflexivity.
  - rewrite andb_false_r. reflexivity.
  - rewrite andb_true_r. reflexivity.
Qed.

Lemma clean_suffix (a b : str) : clean (a ++ b) -> clean b.
Proof.
  induction a as [|c a IH]; intros H; [exact H|].
  apply IH. cbn [app] in H. apply clean_cons in H. apply H.
Qed.

Lemma clean_colon (a : str) : clean a -> clean (a ++ lit ":").
Proof.
  induction a as [|c a IH]; intros H.
  - apply clean_cons. split; [reflexivity | apply clean_nil].
  - apply clean_cons in H. destruct H as [E H].
    cbn [app]. apply clean_cons. split; [|apply IH; exact H].
    rewrite startsWith_comment in *. destruct a as [|d a]; cbn [app].
    + cbv iota. destruct (Ascii.eqb "/" c); reflexivity.
    + exact E.
Qed.

Lemma clean_prefix (a b : str) : clean (a ++ b) -> clean a.
Proof.
  induction a as [|c a IH]; intros H; [apply clean_nil|].
  cbn [app] in H. apply clean_cons in H. destruct H as [E H].
  apply clean_cons. split; [|apply IH; exact H].
  rewrite startsWith_comment in *. destruct a as [|d a]; [reflexivity|].
  exact E.
Qed.

Lemma clean_padded (pad b : str) :
  Forall (fun c => c = " "%char) pad -> clean b -> clean (pad ++ b).
Proof.
  induction 1 as [|c pad Hc _ IH]; intros H; [exact H|].
  cbn [app]. apply clean_cons. split; [|apply IH; exact H].
  subst c. rewrite startsWith_comment.
  destruct (pad ++ b); reflexivity.
Qed.

Lemma clean_strip (s : str) : clean s -> stripLineComment s = trimEnd s.
Proof.
  intros H. unfold stripLineComment, indexOf. rewrite H. reflexivity.
Qed.

(** A line without a comment that the formatter has rebuilt no longer
    needs a colon. *)
Lemma rebuilt_needs_none (pad l : str) :
  Forall (fun c => c = " "%char) pad ->
  indexOf l (lit "//") = (-1)%Z ->
  Outline.needsColon (pad ++ trimStart (normalize l)) = false.
Proof.
  intros Hpad Hl. pose proof (clean_of_indexOf l Hl) as Hc. clear Hl.
  assert (Hws : allWs pad).
  { eapply Forall_impl; [|exact Hpad]. cbv beta. intros c ->. reflexivity. }
  assert (Hn : clean (normalize l)).
  { destruct (ClientFormat.normalize_cases l) as [-> | [-> _]]; [|exact Hc].
    apply clean_colon. destruct (trimEnd_split l) as [w [Hw _]].
    apply (clean_prefix _ w). rewrite <- Hw. exact Hc. }
  assert (Hr : clean (pad ++ trimStart (normalize l))).
  { apply clean_padded; [exact Hpad|].
    destruct (trimStart_split (normalize l)) as [w [Hw _]].
    apply (clean_suffix w). rewrite <- Hw. exact Hn. }
  unfold Outline.needsColon. rewrite (clean_strip _ Hr).
  assert (Ht : trim (trimEnd (pad ++ trimStart (normalize l)))
               = trim (normalize l)).
  { unfold trim at 1. rewrite trimStart_trimEnd.
    rewrite <- (ClientFormat.trim_of_trimStart pad (normalize l) Hws).
    unfold trim. apply FormatterFacts.trimEnd_idem. }
  rewrite Ht.
  apply andb_false_iff. right.
  destruct (ClientFormat.normalize_cases l) as [E | [E [H | H]]]; rewrite E.
  - replace (test RE_HAS_COLON (trim (trimEnd l ++ lit ":"))) with true;
      [rewrite !andb_false_r; reflexivity|].
    symmetry. apply ClientFormat.hasColon_iff. unfold trim.
    destruct (QuickFix.trimStart_colon (trimEnd l)) as [y ->].
    rewrite trimEnd_app_solid by discriminate.
    exists y, []. split; [reflexivity | constructor].
  - rewrite H, andb_false_r. reflexivity.
  - replace (test RE_HAS_COLON (trim l)) with true;
      [rewrite !andb_false_r; reflexivity|].
    symmetry. apply ClientFormat.hasColon_iff.
    apply ClientFormat.hasColon_iff in H. destruct H as [a [w [-> Hw]]].
    unfold trim. destruct (ClientFormat.trimStart_keeps_colon a w) as [a' ->].
    change (a' ++ lit ":" ++ w) with (a' ++ (lit ":" ++ w)).
    rewrite app_assoc, (ClientFormat.trimEnd_app_ws _ w Hw).
    rewrite trimEnd_app_solid by discriminate.
    exists a', []. split; [reflexivity | constructor].
Qed.

End CleanLines.

Module CleanDocuments.
Import JS StrFacts Extension.

Lemma repeat_spaces (n : Z) (pad : str) :
  JS.repeat (lit " ") n = Some pad -> Forall (fun c => c = " "%char) pad.
Proof.
  unfold JS.repeat. destruct (n <? 0)%Z; [discriminate|].
  intros H. injection H as <-.
  induction (Z.to_nat n) as [|k IH]; [constructor|].
  cbn. constructor; [reflexivity | exact IH].
Qed.

Lemma filter_nowhere {A : Type} (f : A -> bool) (l : list A) :
  (forall x, In x l -> f x = false) -> filter f l = [].
Proof.
  induction l as [|x l IH]; intros H; [reflexivity|].
  cbn [filter]. rewrite (H x (or_introl eq_refl)).
  apply IH. intros y Hy. apply H. right. exact Hy.
Qed.

(** The lines of a formatted document without comments need no colon. *)
Lemma formatted_needs_none (indentSize level : Z) (doc out : list str) :
  Forall (fun l => indexOf l (lit "//") = (-1)%Z) doc ->
  Rebuilt.rebuiltLines indentSize level doc = Some out ->
  length out = length doc ->
  forall j, In j (seq 0 (length out)) ->
    Outline.needsColon (nth j out []) = false.
Proof.
  intros Hdoc Hout Hlen j Hj. apply in_seq in Hj.
  destruct (ClientFormat.rebuiltLines_nth indentSize doc level out Hout j
              ltac:(lia)) as [pad [Hpad ->]].
  apply CleanLines.rebuilt_needs_none.
  - apply (repeat_spaces _ _ Hpad).
  - rewrite Forall_forall in Hdoc. apply Hdoc. apply nth_In. lia.
Qed.

End CleanDocuments.

(** ** Header lines in words are header lines of the server *)

Module HeaderShapes.
Import JS JSFacts StrFacts PatternFacts Anywhere Server Headers.

Lemma steps_chars_intro (w : str) :
  forall prev rest caps,
    steps (chars chr w) (MState prev (w ++ rest) caps)
          (MState (prevAfter prev w) rest caps).
Proof.
  induction w as [|c w IH]; intros prev rest caps.
  - apply StepEmpty.
  - cbn [chars app prevAfter fold_left].
    apply (StepCat _ _ _ (MState (Some c) (w ++ rest) caps)).
    + apply StepClass. apply Ascii.eqb_refl.
    + apply IH.
Qed.

Lemma steps_star_class_intro (p : ascii -> bool) (w : str) :
  Forall (fun c => p c = true) w ->
  forall prev rest caps,
    steps (Star (Class p)) (MState prev (w ++ rest) caps)
          (MState (prevAfter prev w) rest caps).
Proof.
  induction 1 as [|c w Hc _ IH]; intros prev rest caps.
  - apply StepStarStop.
  - cbn [app prevAfter fold_left].
    apply (StepStarMore _ _ (MState (Some c) (w ++ rest) caps)).
    + apply StepClass. exact Hc.
    + cbn. lia.
    + apply IH.
Qed.

Lemma steps_alt_intro (rs : list regex) (r : regex) (st st' : mstate) :
  In r rs -> steps r st st' -> steps (alt rs) st st'.
Proof.
  induction rs as [|x rs IH]; intros Hin H; [contradiction|].
  destruct rs as [|y rs].
  - destruct Hin as [<- | []]. exact H.
  - destruct Hin as [<- | Hin].
    + apply StepOrL. exact H.
    + apply StepOrR. apply IH; assumption.
Qed.

Lemma prevAfter_last (prev : option ascii) (k : str) (c : ascii) :
  prevAfter prev (k ++ [c]) = Some c.
Proof. unfold prevAfter. rewrite fold_left_app. reflexivity. Qed.

Lemma skipn_behind (kw r : str) : skipn (length kw) (kw ++ r) = r.
Proof. induction kw as [|c kw IH]; [reflexivity | exact IH]. Qed.

Lemma oneLine_dots (r : str) :
  oneLine r = true ->
  Forall (fun c => negb (isLineTerminator c) = true) r.
Proof. intros H. apply Forall_forall. apply forallb_forall. exact H. Qed.

(** [kw\b.*] matches the word, when it ends there, and the text behind
    it to its end. *)
Lemma steps_word_text (k : str) (c : ascii) (r : str) :
  isWordChar c = true -> wordEnds r = true -> oneLine r = true ->
  forall prev caps, exists p',
    steps (Cat (chars chr (k ++ [c])) (Cat WordB (Star dot)))
          (MState prev ((k ++ [c]) ++ r) caps) (MState p' [] caps).
Proof.
  intros Hc Hw Hl prev caps.
  exists (prevAfter (Some c) r).
  apply (StepCat _ _ _ (MState (Some c) r caps)).
  - rewrite <- (prevAfter_last prev k c). apply steps_chars_intro.
  - apply (StepCat _ _ _ (MState (Some c) r caps)).
    + apply StepWordB. unfold wordBefore, wordAfter. cbn [m_prev m_rest].
      rewrite Hc. destruct r as [|x r]; [reflexivity|].
      cbn in Hw. destruct (isWordChar x); [discriminate | reflexivity].
    + pose proof (steps_star_class_intro _ r (oneLine_dots r Hl)
                    (Some c) [] caps) as K.
      rewrite app_nil_r in K. exact K.
Qed.

(** [^(a1|...|an)$] holds of a text that one of the alternatives matches
    to its end. *)
Lemma group_alt_eol (rs : list regex) (t : str) (r0 : regex) (p' : option ascii) :
  In r0 rs -> steps r0 (MState None t []) (MState p' [] []) ->
  test (Cat Bol (Cat (Group (alt rs)) Eol)) t = true.
Proof.
  intros Hin H.
  eapply test_anchored_complete.
  eapply StepCat.
  - apply StepGroup. apply (steps_alt_intro rs r0 _ _ Hin H).
  - apply StepEol. reflexivity.
Qed.

Lemma wordThenText_split (kw t : str) :
  wordThenText kw t = true ->
  exists r, t = kw ++ r /\ wordEnds r = true /\ oneLine r = true.
Proof.
  unfold wordThenText. intros H.
  apply andb_true_iff in H. destruct H as [H Hl].
  apply andb_true_iff in H. destruct H as [Hs Hw].
  apply startsWith_begins in Hs. destruct Hs as [r ->].
  rewrite skipn_behind in Hw, Hl. exists r. repeat split; assumption.
Qed.

(** A text that starts with a letter is no comment and is not empty. *)
Lemma letter_no_comment (c : ascii) (r : str) :
  isAlpha c = true ->
  test RE_COMMENT (c :: r) || (length (c :: r) =? 0) = false.
Proof.
  intros Hc. unfold RE_COMMENT. cbn [cat]. rewrite ServerLines.test_anchored_eq.
  cbn [run m_rest m_caps chr length Nat.eqb].
  destruct (Ascii.eqb "/" c) eqn:E; [|reflexivity].
  apply Ascii.eqb_eq in E. subst c. discriminate Hc.
Qed.

Lemma openWord_candidate (k : str) (c : ascii) (r : str) :
  In (k ++ [c]) openWords -> wordEnds r = true -> oneLine r = true ->
  test RE_COLON_CANDIDATE ((k ++ [c]) ++ r) = true.
Proof.
  intros Hin Hw Hl.
  assert (Hc : isWordChar c = true).
  { cbn in Hin.
    repeat (destruct Hin as [Hin | Hin];
            [apply (f_equal (@rev ascii)) in Hin; rewrite rev_app_distr in Hin;
             cbn in Hin; injection Hin as <- _; reflexivity|]).
    contradiction. }
  destruct (steps_word_text k c r Hc Hw Hl None []) as [p' H].
  unfold RE_COLON_CANDIDATE. cbn [cat].
  apply (group_alt_eol _ _ (Cat (chars chr (k ++ [c])) (Cat WordB (Star dot))) p');
    [|exact H].
  cbn in Hin. unfold word.
  repeat (destruct Hin as [Hin | Hin]; [rewrite <- Hin; cbn; tauto|]).
  contradiction.
Qed.

Lemma trimStart_shorter (r : str) :
  length (trimStart r) < length r ->
  exists x w, r = (x :: w) ++ trimStart r /\ allWs (x :: w).
Proof.
  intros H. destruct (trimStart_split r) as [w [E Hw]].
  destruct w as [|x w].
  - cbn in E. rewrite <- E in H. lia.
  - exists x, w. split; assumption.
Qed.

Lemma steps_plus_ws_intro (x : ascii) (w rest : str) :
  allWs (x :: w) ->
  forall prev caps,
    steps (Plus ws) (MState prev ((x :: w) ++ rest) caps)
          (MState (prevAfter prev (x :: w)) rest caps).
Proof.
  intros Hw prev caps.
  pose proof (Forall_inv Hw) as Hx. pose proof (Forall_inv_tail Hw) as Hw'.
  cbv beta in Hx.
  unfold Plus. cbn [app prevAfter fold_left].
  apply (StepCat _ _ _ (MState (Some x) (w ++ rest) caps)).
  - apply StepClass. exact Hx.
  - apply (steps_star_class_intro isWhiteSpace w Hw').
Qed.

Lemma onWord_candidate (t : str) :
  onWord t = true -> test RE_COLON_CANDIDATE t = true.
Proof.
  unfold onWord. intros H.
  apply andb_true_iff in H. destruct H as [H Hv].
  apply andb_true_iff in H. destruct H as [H Hne].
  apply andb_true_iff in H. destruct H as [Hs Hlen].
  apply startsWith_begins in Hs. destruct Hs as [r ->].
  change (skipn 2 (lit "on" ++ r)) with r in *.
  apply Nat.ltb_lt in Hlen.
  destruct (trimStart_shorter r Hlen) as [x [w [Er Hw]]].
  destruct (trimStart r) as [|y v]; [discriminate Hne|].
  assert (Hy : Forall (fun c => isWordChar c = true) (y :: v)).
  { apply Forall_forall. apply forallb_forall. exact Hv. }
  pose proof (Forall_inv Hy) as Hy1. pose proof (Forall_inv_tail Hy) as Hy2.
  cbv beta in Hy1.
  assert (Hs : steps (Cat (word "on") (Cat (Plus ws) (Plus wordChar)))
                     (MState None (lit "on" ++ r) [])
                     (MState (prevAfter (Some y) v) [] [])).
  { rewrite Er.
    eapply StepCat; [apply (steps_chars_intro (lit "on"))|].
    eapply StepCat; [apply (steps_plus_ws_intro x w _ Hw)|].
    unfold Plus, wordChar.
    eapply StepCat; [apply StepClass; exact Hy1|].
    pose proof (steps_star_class_intro isWordChar v Hy2 (Some y) [] []) as K.
    rewrite app_nil_r in K. exact K. }
  unfold RE_COLON_CANDIDATE. cbn [cat].
  refine (group_alt_eol _ _ _ _ _ Hs). right. left. reflexivity.
Qed.

Lemma templateTask_candidate (t : str) :
  templateTask t = true -> test RE_COLON_CANDIDATE t = true.
Proof.
  unfold templateTask. intros H.
  apply andb_true_iff in H. destruct H as [H Hv].
  apply andb_true_iff in H. destruct H as [Hs Hlen].
  apply startsWith_begins in Hs. destruct Hs as [r ->].
  change (skipn 8 (lit "template" ++ r)) with r in *.
  apply Nat.ltb_lt in Hlen.
  destruct (trimStart_shorter r Hlen) as [x [w [Er Hw]]].
  apply wordThenText_split in Hv. destruct Hv as [r' [Ev [Hw' Hl']]].
  destruct (steps_word_text (lit "tas") "k" r' eq_refl Hw' Hl'
              (prevAfter (prevAfter None (lit "template")) (x :: w)) [])
    as [p' Hp].
  assert (Hs : steps (Cat (word "template")
                        (Cat (Plus ws)
                           (Cat (word "task") (Cat WordB (Star dot)))))
                     (MState None (lit "template" ++ r) [])
                     (MState p' [] [])).
  { rewrite Er, Ev.
    eapply StepCat; [apply (steps_chars_intro (lit "template"))|].
    eapply StepCat; [apply (steps_plus_ws_intro x w _ Hw)|].
    exact Hp. }
  unfold RE_COLON_CANDIDATE. cbn [cat].
  refine (group_alt_eol _ _ _ _ _ Hs). do 9 right. left. reflexivity.
Qed.

(** A header line in words is a line on which the check of the server
    asks for a colon. *)
Lemma headerLine_candidate (l : str) :
  headerLine l = true -> endsWithColonCandidate l = true.
Proof.
  unfold headerLine, endsWithColonCandidate. intros H.
  assert (Hc : test RE_COLON_CANDIDATE (trim l) = true
               /\ exists c r, trim l = c :: r /\ isAlpha c = true).
  { apply orb_true_iff in H. destruct H as [H | H].
    - apply orb_true_iff in H. destruct H as [H | H].
      + apply existsb_exists in H. destruct H as [kw [Hin H]].
        apply wordThenText_split in H. destruct H as [r [E [Hw Hl]]].
        assert (Hk : exists k c, kw = k ++ [c]
                                 /\ exists c0 r0, kw = c0 :: r0
                                                  /\ isAlpha c0 = true).
        { cbn in Hin.
          repeat (destruct Hin as [<- | Hin];
                  [match goal with
                   | |- exists k c, ?w = _ /\ _ =>
                       exists (removelast w), (last w " "%char)
                   end;
                   split; [reflexivity|];
                   eexists; eexists; split; reflexivity|]).
          contradiction. }
        destruct Hk as [k [c [Ek [c0 [r0 [E0 Ha]]]]]].
        split.
        * rewrite E, Ek. apply openWord_candidate; [rewrite <- Ek|..];
            assumption.
        * exists c0, (r0 ++ r). rewrite E, E0. split; [reflexivity | exact Ha].
      + split; [apply onWord_candidate; exact H|].
        unfold onWord in H. apply andb_true_iff in H. destruct H as [H _].
        apply andb_true_iff in H. destruct H as [H _].
        apply andb_true_iff in H. destruct H as [H _].
        apply startsWith_begins in H. destruct H as [r ->].
        eexists; eexists; split; reflexivity.
    - split; [apply templateTask_candidate; exact H|].
      unfold templateTask in H. apply andb_true_iff in H. destruct H as [H _].
      apply andb_true_iff in H. destruct H as [H _].
      apply startsWith_begins in H. destruct H as [r ->].
      eexists; eexists; split; reflexivity. }
  destruct Hc as [Hc [c [r [E Ha]]]].
  rewrite E in *. rewrite (letter_no_comment c r Ha). exact Hc.
Qed.

End HeaderShapes.

(** ** The diagnostic budget in the two passes *)

Module Budgets.
Import JS.

(** The validator of the client keeps to its budget: with
    [validation.maxProblems] at [N >= 1] it publishes at most [N]
    diagnostics, the first [N] of what it publishes under any larger
    budget. *)
Lemma client_budget_caps_and_keeps_prefix
    (cfg : Extension.Configuration) (isRoop : bool)
    (doc : Extension.TextDocument) (N : Z) :
  (1 <= N)%Z ->
  let diags n :=
    Extension.published
      (Extension.validateDocument (Extension.withMaxProblems cfg n) isRoop doc)
  in
  (Z.of_nat (length (diags N)) <= N)%Z
  /\ forall M, (N <= M)%Z -> diags N = firstn (Z.to_nat N) (diags M).
Proof.
  intros HN diags.
  destruct (ClientValidator.published_spec cfg isRoop doc) as [D HD].
  subst diags. cbv beta. split.
  - rewrite HD, length_firstn. lia.
  - intros M HM. rewrite !HD, firstn_firstn. f_equal. lia.
Qed.

(** The missing-colon loop of the server pushes one diagnostic for each
    line that misses its colon, however many there are. *)
Lemma server_missingColonLoop_repeat (sev : option Server.DiagnosticSeverity)
    (l : str) :
  Checks.serverNeedsColon l = true ->
  forall n i, length (Server.missingColonLoop sev i (List.repeat l n)) = n.
Proof.
  intros Hl. induction n as [|n IH]; intros i; [reflexivity|].
  cbn [List.repeat Server.missingColonLoop].
  unfold Checks.serverNeedsColon in Hl. rewrite Hl.
  cbn [length]. rewrite IH. reflexivity.
Qed.

(** No number bounds what the pass of the server publishes. *)
Lemma server_pass_unbounded (n : nat) :
  n <= length (Server.diagnosticsOf Server.defaultSettings
                 (List.repeat (lit "if x") n)).
Proof.
  unfold Server.diagnosticsOf. cbn [Server.lint_missingColon
    Server.defaultSettings Server.isOff negb].
  rewrite length_app.
  rewrite (server_missingColonLoop_repeat _ (lit "if x")); [lia|].
  vm_compute. reflexivity.
Qed.

End Budgets.

(** ** Headers in words are headers of the two formatters *)

Module FormatterHeaders.
Import JS JSFacts StrFacts PatternFacts Anywhere Headers HeaderShapes.

Lemma steps_ichars_intro (w : str) :
  Forall (fun c => toLower c = c) w ->
  forall prev rest caps,
    steps (chars ichr w) (MState prev (w ++ rest) caps)
          (MState (prevAfter prev w) rest caps).
Proof.
  induction 1 as [|c w Hc _ IH]; intros prev rest caps.
  - apply StepEmpty.
  - cbn [chars app prevAfter fold_left].
    apply (StepCat _ _ _ (MState (Some c) (w ++ rest) caps)).
    + apply StepClass. rewrite Hc. apply Ascii.eqb_refl.
    + apply IH.
Qed.

Lemma oneLine_app (a b : str) :
  oneLine (a ++ b) = oneLine a && oneLine b.
Proof. apply forallb_app. Qed.

Lemma endsWith_colon_inv (t : str) :
  endsWith t (lit ":") = true -> exists x, t = x ++ lit ":".
Proof.
  unfold endsWith. intros H. apply startsWith_begins in H.
  destruct H as [r H]. exists (rev r).
  apply (f_equal (@rev ascii)) in H. rewrite rev_involutive in H.
  rewrite H. cbn. reflexivity.
Qed.

(** A header with its colon: the word, the text behind it, the colon. *)
Lemma colonHeader_split (k : str) (c : ascii) (t : str) :
  isWordChar c = true ->
  colonHeader (k ++ [c]) t = true ->
  exists r0, t = (k ++ [c]) ++ r0 ++ lit ":"
             /\ wordEnds (r0 ++ lit ":") = true /\ oneLine r0 = true.
Proof.
  intros Hc H. unfold colonHeader in H.
  apply andb_true_iff in H. destruct H as [H He].
  apply wordThenText_split in H. destruct H as [r [-> [Hw Hl]]].
  apply endsWith_colon_inv in He. destruct He as [x He].
  destruct (exists_last (l := r)) as [r0 [z Er]].
  - intros ->. rewrite app_nil_r in He.
    apply app_inj_tail in He. destruct He as [_ He]. subst c.
    discriminate Hc.
  - subst r. rewrite app_assoc in He.
    apply app_inj_tail in He. destruct He as [_ ->].
    exists r0. split; [reflexivity|]. split; [exact Hw|].
    rewrite oneLine_app in Hl. apply andb_true_iff in Hl. apply Hl.
Qed.

(** [W\b.*:] where [W] has read a word that ends there. *)
Lemma steps_header_colon (W : regex) (kw r0 : str) (c : ascii) :
  isWordChar c = true -> wordEnds (r0 ++ lit ":") = true ->
  oneLine r0 = true ->
  forall prev rest caps,
    steps W (MState prev (kw ++ r0 ++ lit ":" ++ rest) caps)
          (MState (Some c) (r0 ++ lit ":" ++ rest) caps) ->
    steps (Cat W (Cat WordB (Cat (Star dot) (chr ":"))))
          (MState prev (kw ++ r0 ++ lit ":" ++ rest) caps)
          (MState (Some ":"%char) rest caps).
Proof.
  intros Hc Hw Hl prev rest caps HW.
  eapply StepCat; [exact HW|].
  apply (StepCat _ _ _ (MState (Some c) (r0 ++ lit ":" ++ rest) caps)).
  - apply StepWordB. unfold wordBefore, wordAfter. cbn [m_prev m_rest].
    rewrite Hc. destruct r0 as [|x r0]; [reflexivity|].
    cbn in Hw |- *. destruct (isWordChar x); [discriminate | reflexivity].
  - apply (StepCat _ _ _
             (MState (prevAfter (Some c) r0) (lit ":" ++ rest) caps)).
    + apply steps_star_class_intro. apply oneLine_dots. exact Hl.
    + apply StepClass. reflexivity.
Qed.

(** The server: [^(...|kw\b.*:|...)$]. *)
Lemma server_colon_header (rs : list regex) (k : str) (c : ascii) (t : str) :
  isWordChar c = true ->
  colonHeader (k ++ [c]) t = true ->
  In (Cat (chars chr (k ++ [c])) (Cat WordB (Cat (Star dot) (chr ":")))) rs ->
  test (Cat Bol (Cat (Group (alt rs)) Eol)) t = true.
Proof.
  intros Hc H Hin.
  destruct (colonHeader_split k c t Hc H) as [r0 [-> [Hw Hl]]].
  refine (group_alt_eol rs _ _ (Some ":"%char) Hin _).
  pose proof (steps_header_colon (chars chr (k ++ [c])) (k ++ [c]) r0 c
                Hc Hw Hl None [] []) as K.
  rewrite !app_nil_r in K. apply K.
  pose proof (steps_chars_intro (k ++ [c]) None (r0 ++ lit ":") []) as K2.
  rewrite prevAfter_last in K2. exact K2.
Qed.

(** The client: [^\s*(?:...|W\b.*:|...)\s*$] with [W] among the words of
    the first alternative, on a text with whitespace behind it. *)
Lemma client_colon_header (W : regex) (rs : list regex)
    (k : str) (c : ascii) (t w2 : str) :
  isWordChar c = true ->
  Forall (fun x => toLower x = x) (k ++ [c]) ->
  colonHeader (k ++ [c]) t = true ->
  allWs w2 ->
  (forall st st', steps (chars ichr (k ++ [c])) st st' -> steps W st st') ->
  In (Cat W (Cat WordB (Cat (Star dot) (chr ":")))) rs ->
  test (Cat Bol (Cat (Star ws) (Cat (alt rs) (Cat (Star ws) Eol))))
       (t ++ w2) = true.
Proof.
  intros Hc Hlow H Hw2 HW Hin.
  destruct (colonHeader_split k c t Hc H) as [r0 [-> [Hw Hl]]].
  replace (((k ++ [c]) ++ r0 ++ lit ":") ++ w2)
    with ((k ++ [c]) ++ r0 ++ lit ":" ++ w2)
    by (rewrite <- !app_assoc; reflexivity).
  eapply test_anchored_complete.
  eapply StepCat; [apply StepStarStop|].
  apply (StepCat _ _ _ (MState (Some ":"%char) w2 [])).
  - apply (steps_alt_intro _ (Cat W (Cat WordB (Cat (Star dot) (chr ":")))));
      [exact Hin|].
    apply (steps_header_colon W (k ++ [c]) r0 c Hc Hw Hl None w2 []).
    apply HW.
    pose proof (steps_ichars_intro (k ++ [c]) Hlow None
                  (r0 ++ lit ":" ++ w2) []) as K2.
    rewrite prevAfter_last in K2. exact K2.
  - apply (StepCat _ _ _ (MState (prevAfter (Some ":"%char) w2) [] [])).
    + pose proof (steps_star_class_intro isWhiteSpace w2 Hw2
                    (Some ":"%char) [] []) as K.
      rewrite app_nil_r in K. exact K.
    + apply StepEol. reflexivity.
Qed.

(** The text the formatter of the client looks at, for a line that ends
    with a colon. *)
Lemma client_text_with_colon (l t0 : str) :
  trim l = t0 ++ lit ":" ->
  exists w2, allWs w2
             /\ trimStart (Extension.normalize l) = trim l ++ w2.
Proof.
  intros E. destruct (trim_split l) as [w1 [w2 [El [Hw1 [Hw2 Et]]]]].
  exists w2. split; [exact Hw2|].
  rewrite ClientFormat.normalize_with_colon; [exact Et|].
  apply ClientFormat.hasColon_iff. exists (w1 ++ t0), w2.
  split; [|exact Hw2].
  rewrite El at 1. rewrite E. rewrite <- !app_assoc. reflexivity.
Qed.

(** Membership in a list of alternatives that is written out. *)
Ltac among := repeat (first [left; reflexivity | right]).

Lemma client_words_first (kw : str) (st st' : mstate) :
  In kw (map lit ["when"; "if"; "elseif"; "else"; "repeat"; "while";
                  "for"]%string) ->
  steps (chars ichr kw) st st' ->
  steps (alt [iword "when"; iword "on"; iword "at"; iword "if";
              iword "elseif"; iword "else"; iword "repeat";
              iword "while"; iword "for"; iword "parallel";
              iword "context";
              cat [iword "with"; Plus ws; iword "timeout"];
              iword "every";
              cat [iword "sync"; Plus ws; iword "when"]]) st st'.
Proof.
  intros Hin H. refine (steps_alt_intro _ _ _ _ _ H).
  cbn in Hin.
  repeat (destruct Hin as [<- | Hin]; [among|]). contradiction.
Qed.

Lemma header_word_parts (kw : str) :
  In kw (map lit ["when"; "if"; "elseif"; "else"; "repeat"; "while";
                  "for"]%string) ->
  exists k c, kw = k ++ [c] /\ isWordChar c = true
              /\ Forall (fun x => toLower x = x) kw.
Proof.
  intros Hin. cbn in Hin.
  repeat (destruct Hin as [<- | Hin];
          [match goal with
           | |- exists k c, ?w = _ /\ _ =>
               exists (removelast w), (last w " "%char)
           end;
           split; [reflexivity|]; split; [reflexivity|];
           repeat constructor|]).
  contradiction.
Qed.

(** The client opens a block behind a header with its colon. *)
Lemma client_opens (kw : str) (l : str) :
  In kw (map lit ["when"; "if"; "elseif"; "else"; "repeat"; "while";
                  "for"]%string) ->
  colonHeader kw (trim l) = true ->
  Nesting.clientIncreases l = true.
Proof.
  intros Hin H.
  destruct (header_word_parts kw Hin) as [k [c [E [Hc Hlow]]]].
  pose proof H as H'. rewrite E in H'.
  destruct (colonHeader_split k c _ Hc H') as [r0 [Et _]].
  destruct (client_text_with_colon l ((k ++ [c]) ++ r0)) as [w2 [Hw2 Ec]].
  { rewrite Et. rewrite <- !app_assoc. reflexivity. }
  unfold Nesting.clientIncreases. rewrite Ec.
  unfold Extension.INCREASE_INDENT_RE. cbn [cat].
  apply (client_colon_header
           (alt [iword "when"; iword "on"; iword "at"; iword "if";
                 iword "elseif"; iword "else"; iword "repeat";
                 iword "while"; iword "for"; iword "parallel";
                 iword "context";
                 cat [iword "with"; Plus ws; iword "timeout"];
                 iword "every";
                 cat [iword "sync"; Plus ws; iword "when"]])
           _ k c (trim l) w2 Hc);
    [rewrite <- E; exact Hlow | exact H' | exact Hw2 | | left; reflexivity].
  intros st st' Hs. rewrite <- E in Hs.
  apply (client_words_first kw st st' Hin Hs).
Qed.

(** The server opens a block behind a header with its colon. *)
Lemma server_opens (kw : str) (l : str) :
  In kw (map lit ["when"; "if"; "elseif"; "repeat"; "while";
                  "for"]%string) ->
  colonHeader kw (trim l) = true ->
  Nesting.serverIncreases l = true.
Proof.
  intros Hin H. unfold Nesting.serverIncreases.
  apply orb_true_iff. right.
  unfold Server.RE_BLOCK_HEADER. cbn [cat].
  cbn in Hin.
  repeat (destruct Hin as [<- | Hin];
          [match type of H with
           | colonHeader ?w _ = true =>
               apply (server_colon_header _ (removelast w) (last w " "%char)
                        _ eq_refl H)
           end; among|]).
  contradiction.
Qed.

(** A line on which the text is [else:]. *)
Lemma else_line (l : str) :
  trim l = lit "else:" ->
  Nesting.serverDecreases l = true /\ Nesting.serverIncreases l = true
  /\ Nesting.clientDecreases l = true /\ Nesting.clientIncreases l = true.
Proof.
  intros E.
  destruct (client_text_with_colon l (lit "else") E) as [w2 [Hw2 Ec]].
  split; [unfold Nesting.serverDecreases; rewrite E; reflexivity|].
  split; [unfold Nesting.serverIncreases; rewrite E; reflexivity|].
  split.
  - unfold Nesting.clientDecreases. rewrite Ec, E.
    unfold Extension.DECREASE_INDENT_RE. cbn [cat].
    eapply test_anchored_complete.
    eapply StepCat; [apply StepStarStop|].
    apply (StepCat _ _ _ (MState (Some ":"%char) w2 [])).
    + apply (steps_alt_intro _ (Cat (iword "else") (chr ":")));
        [among|].
      apply (StepCat _ _ _ (MState (Some "e"%char) (lit ":" ++ w2) [])).
      * apply (steps_ichars_intro (lit "else") ltac:(repeat constructor)
                 None (lit ":" ++ w2) []).
      * apply StepClass. reflexivity.
    + apply (StepCat _ _ _ (MState (prevAfter (Some ":"%char) w2) [] [])).
      * pose proof (steps_star_class_intro isWhiteSpace w2 Hw2
                      (Some ":"%char) [] []) as K.
        rewrite app_nil_r in K. exact K.
      * apply StepEol. reflexivity.
  - apply (client_opens (lit "else")); [cbn; tauto|].
    rewrite E. reflexivity.
Qed.

(** A line on which the text is [elseif], text and a colon. *)
Lemma elseif_line (l : str) :
  colonHeader (lit "elseif") (trim l) = true ->
  Nesting.serverDecreases l = true /\ Nesting.serverIncreases l = true
  /\ Nesting.clientDecreases l = true /\ Nesting.clientIncreases l = true.
Proof.
  intros H.
  split.
  { unfold Nesting.serverDecreases. apply orb_true_iff. right.
    unfold Server.RE_FMT_TRANSITIONAL. cbn [cat].
    apply (server_colon_header _ (lit "elsei") "f" _ eq_refl H). among. }
  split; [apply (server_opens (lit "elseif")); [cbn; tauto | exact H]|].
  split; [|apply (client_opens (lit "elseif")); [cbn; tauto | exact H]].
  destruct (colonHeader_split (lit "elsei") "f" _ eq_refl H) as [r0 [Et _]].
  destruct (client_text_with_colon l (lit "elseif" ++ r0)) as [w2 [Hw2 Ec]].
  { rewrite Et. rewrite <- !app_assoc. reflexivity. }
  unfold Nesting.clientDecreases. rewrite Ec.
  unfold Extension.DECREASE_INDENT_RE. cbn [cat].
  apply (client_colon_header (iword "elseif") _ (lit "elsei") "f"
           (trim l) w2 eq_refl);
    [repeat constructor | exact H | exact Hw2 | intros st st' K; exact K
    | among].
Qed.

Lemma wordEnds_app (a z : str) :
  wordEnds a = true -> wordEnds z = true -> wordEnds (a ++ z) = true.
Proof. intros Ha Hz. destruct a; [exact Hz | exact Ha]. Qed.

Lemma wordEnds_ws (w : str) : allWs w -> wordEnds w = true.
Proof.
  intros H. destruct w as [|x w]; [reflexivity|].
  cbn. rewrite (ServerOutline.ws_not_word x (Forall_inv H)). reflexivity.
Qed.

(** The parts of a line that opens a task. *)
Lemma taskOpener_split (l : str) :
  taskOpener l = true ->
  exists x w r',
    trim l = lit "start" ++ (x :: w) ++ lit "task" ++ r'
    /\ allWs (x :: w) /\ wordEnds r' = true /\ oneLine r' = true
    /\ oneLine l = true.
Proof.
  unfold taskOpener. intros H.
  apply andb_true_iff in H. destruct H as [H Hv].
  apply andb_true_iff in H. destruct H as [H Hlen].
  apply andb_true_iff in H. destruct H as [Hl Hs].
  apply startsWith_begins in Hs. destruct Hs as [r Er].
  rewrite Er in Hlen, Hv.
  change (skipn 5 (lit "start" ++ r)) with r in *.
  apply Nat.ltb_lt in Hlen.
  destruct (trimStart_shorter r Hlen) as [x [w [Ew Hw]]].
  apply wordThenText_split in Hv. destruct Hv as [r' [Ev [Hw' Hl']]].
  exists x, w, r'. rewrite Er, Ew, Ev. repeat split; assumption.
Qed.

(** The text the formatter of the client looks at, for a line that
    starts with a solid word: the trimmed line and, behind it, a colon or
    the whitespace at the end of the line. *)
Lemma client_text_cases (l : str) :
  solidHead (trim l) ->
  exists z, trimStart (Extension.normalize l) = trim l ++ z
            /\ (z = lit ":" \/ (allWs z /\ exists w1, l = w1 ++ trim l ++ z)).
Proof.
  intros Hs.
  destruct (ClientFormat.normalize_cases l) as [E | [E _]]; rewrite E.
  - exists (lit ":"). split; [|left; reflexivity].
    destruct (trimStart_split (trimEnd l)) as [w [Ew Hw]].
    rewrite trimStart_trimEnd in Ew. rewrite Ew.
    rewrite <- app_assoc, trimStart_ws by exact Hw.
    apply trimStart_solid.
    destruct Hs as [c [r [Ec Hc]]]. exists c, (r ++ lit ":").
    rewrite Ec. split; [reflexivity | exact Hc].
  - destruct (trim_split l) as [w1 [w2 [El [Hw1 [Hw2 Et]]]]].
    exists w2. split; [exact Et|]. right. split; [exact Hw2|].
    exists w1. exact El.
Qed.

(** Both formatters open a block behind a line that opens a task. *)
Lemma task_opener_opens (l : str) :
  taskOpener l = true ->
  Nesting.serverIncreases l = true /\ Nesting.clientIncreases l = true.
Proof.
  intros H.
  destruct (taskOpener_split l H) as [x [w [r' [Et [Hw [Hw' [Hl' Hl]]]]]]].
  split.
  - unfold Nesting.serverIncreases. apply orb_true_iff. left.
    rewrite Et. unfold Server.RE_FMT_START_TASK. cbn [cat].
    eapply test_anchored_complete.
    eapply StepCat; [apply (steps_chars_intro (lit "start"))|].
    eapply StepCat; [apply (steps_plus_ws_intro x w _ Hw)|].
    eapply StepCat; [apply (steps_chars_intro (lit "task"))|].
    apply StepWordB. unfold wordBefore, wordAfter. cbn [m_prev m_rest].
    destruct r' as [|y r']; [reflexivity|].
    cbn in Hw' |- *. destruct (isWordChar y); [discriminate | reflexivity].
  - destruct (client_text_cases l) as [z [Ez Hz]].
    { rewrite Et. exists "s"%char. eexists. split; reflexivity. }
    assert (Hzz : wordEnds z = true /\ oneLine z = true).
    { destruct Hz as [-> | [Hz [w1 El]]]; [split; reflexivity|].
      split; [apply wordEnds_ws; exact Hz|].
      rewrite El in Hl. rewrite !oneLine_app in Hl.
      apply andb_true_iff in Hl. destruct Hl as [_ Hl].
      apply andb_true_iff in Hl. apply Hl. }
    destruct Hzz as [Hz1 Hz2].
    unfold Nesting.clientIncreases. rewrite Ez, Et.
    replace ((lit "start" ++ (x :: w) ++ lit "task" ++ r') ++ z)
      with (lit "start" ++ (x :: w) ++ lit "task" ++ (r' ++ z))
      by (rewrite <- !app_assoc; reflexivity).
    unfold Extension.INCREASE_INDENT_RE. cbn [cat].
    eapply test_anchored_complete.
    eapply StepCat; [apply StepStarStop|].
    apply (StepCat _ _ _ (MState (prevAfter (Some "k"%char) (r' ++ z)) [] [])).
    + refine (steps_alt_intro _
                (Cat (iword "start")
                   (Cat (Plus ws)
                      (Cat (iword "task")
                         (Cat WordB
                            (Cat (Star dot)
                               (Cat (Opt (Cat (chr ":") (Star ws))) Eol))))))
                _ _ _ _); [among|].
      eapply StepCat;
        [apply (steps_ichars_intro (lit "start") ltac:(repeat constructor))|].
      eapply StepCat; [apply (steps_plus_ws_intro x w _ Hw)|].
      eapply StepCat;
        [apply (steps_ichars_intro (lit "task") ltac:(repeat constructor))|].
      apply (StepCat _ _ _ (MState (Some "k"%char) (r' ++ z) [])).
      * apply StepWordB. unfold wordBefore, wordAfter. cbn [m_prev m_rest].
        pose proof (wordEnds_app r' z Hw' Hz1) as K.
        destruct (r' ++ z) as [|y rz]; [reflexivity|].
        cbn in K |- *. destruct (isWordChar y); [discriminate | reflexivity].
      * apply (StepCat _ _ _
                 (MState (prevAfter (Some "k"%char) (r' ++ z)) [] [])).
        -- pose proof (steps_star_class_intro
                         (fun c => negb (isLineTerminator c)) (r' ++ z)
                         ltac:(apply oneLine_dots; rewrite oneLine_app, Hl', Hz2;
                               reflexivity)
                         (Some "k"%char) [] []) as K.
           rewrite app_nil_r in K. exact K.
        -- eapply StepCat; [apply StepOrR; apply StepEmpty|].
           apply StepEol. reflexivity.
    + eapply StepCat; [apply StepStarStop|]. apply StepEol. reflexivity.
Qed.

(** An opening header with its colon opens a block in both formatters. *)
Lemma opening_header_opens (l : str) :
  openingHeader l = true ->
  Nesting.serverIncreases l = true /\ Nesting.clientIncreases l = true.
Proof.
  unfold openingHeader. intros H. apply orb_true_iff in H.
  destruct H as [H | H]; [|apply task_opener_opens; exact H].
  apply existsb_exists in H. destruct H as [kw [Hin H]].
  cbn in Hin. split.
  - apply (server_opens kw); [|exact H]. cbn.
    repeat (destruct Hin as [<- | Hin]; [tauto|]). contradiction.
  - apply (client_opens kw); [|exact H]. cbn.
    repeat (destruct Hin as [<- | Hin]; [tauto|]). contradiction.
Qed.

(** At a transitional header both formatters step back and open the
    block of its body. *)
Lemma transitional_header_steps (l : str) :
  transitionalHeader l = true ->
  Nesting.serverDecreases l = true /\ Nesting.serverIncreases l = true
  /\ Nesting.clientDecreases l = true /\ Nesting.clientIncreases l = true.
Proof.
  unfold transitionalHeader. intros H. apply orb_true_iff in H.
  destruct H as [H | H]; [apply elseif_line; exact H|].
  apply else_line. apply ServerChecks.str_eqb_eq. exact H.
Qed.

End FormatterHeaders.

Import JS.

(* ================================================================== *)
(** * The claims                                                       *)
(* ================================================================== *)

(** ** Task balance *)

(** Claim C1, at the failing input.  The document [end task] /
    [start task "A"] has one opener and one closer, and the closer at
    line 0 has no opener before it.  The check of the server compares the
    two totals only and reports no unbalanced task; the client-side check
    reports both lines. *)
Theorem C1_server_misses_closer_before_opener :
  let doc := [lit "end task"; q "start task ~A~"] in
  Outline.countOpeners Outline.serverRole doc
    = Outline.countClosers Outline.serverRole doc
  /\ Outline.unmatchedClosers Outline.serverRole doc = [0]
  /\ filter Server.isUnbalancedTask
       (Server.diagnosticsOf Server.defaultSettings doc) = []
  /\ Extension.collectTaskBalanceDiagnostics doc Extension.SeverityWarning 200
     = [Outline.closerDiag doc Extension.SeverityWarning 0;
        Outline.openerDiag doc Extension.SeverityWarning 1].
Proof. vm_compute. repeat split; reflexivity. Qed.

(** Claim C2, refuted as stated: for two openers followed by one closer
    the single diagnostic is anchored at line 0, the first opener, and
    not at line 1, the second. *)
Lemma C2_counterexample :
  let doc := [q "start task ~A~"; q "start task ~B~"; lit "end task"] in
  let anchors :=
    map (fun d => Extension.startLine (Extension.range d))
        (Extension.collectTaskBalanceDiagnostics doc
           Extension.SeverityWarning 200) in
  anchors = [0] /\ anchors <> [1].
Proof. vm_compute. split; [reflexivity | discriminate]. Qed.

(** Claim C2, amended.  The client-side check emits the first [budget]
    entries of: one diagnostic per closer without opener, at that
    closer's line, in document order, then one per opener without closer,
    at that opener's line, innermost first.  A closer matches the
    innermost open opener: two openers followed by one closer leave the
    first opener unmatched, and the single diagnostic is anchored there. *)
Theorem C2_task_balance_diagnostics :
  (forall doc sev budget,
      Extension.collectTaskBalanceDiagnostics doc sev budget
      = firstn (Z.to_nat budget) (Outline.taskDefects doc sev))
  /\ (forall o1 o2 c sev budget,
         Outline.clientRole o1 = Outline.Opens ->
         Outline.clientRole o2 = Outline.Opens ->
         Outline.clientRole c = Outline.Closes ->
         (1 <= budget)%Z ->
         Extension.collectTaskBalanceDiagnostics [o1; o2; c] sev budget
         = [Outline.openerDiag [o1; o2; c] sev 0]).
Proof.
  split; [exact ClientBalance.collectTaskBalance_spec|].
  intros o1 o2 c sev budget H1 H2 Hc Hb.
  rewrite ClientBalance.collectTaskBalance_spec.
  unfold Outline.taskDefects, Outline.unmatchedClosers,
    Outline.unmatchedClosersFrom, Outline.unmatchedOpeners,
    Outline.closerWithoutOpenerFrom, Outline.openerWithoutCloser,
    Outline.closes, Outline.opens.
  cbn [length seq filter nth firstn skipn Outline.depthFrom Outline.staysOpen
       Outline.depthStep].
  unfold Outline.depthStep. rewrite H1, H2, Hc. cbn.
  destruct (Z.to_nat budget) as [|n] eqn:E; [lia|].
  cbn [firstn]. rewrite firstn_nil. reflexivity.
Qed.

Lemma C2_witness :
  let doc := [q "start task ~A~"; q "start task ~B~"; lit "end task"] in
  Extension.collectTaskBalanceDiagnostics doc Extension.SeverityWarning 200
  = [Outline.openerDiag doc Extension.SeverityWarning 0].
Proof.
  apply (proj2 C2_task_balance_diagnostics); [reflexivity .. | lia].
Defined.

(** ** Formatting *)

(** Claim C3, at the failing input.  The formatter of the server puts the
    missing colon on [if x] but takes the indentation of the next line
    from the text without the colon: formatting its own output moves the
    next line, so [format (format d)] is not [format d].  The formatter of
    the client, which puts the colon first, is stable on the same
    document. *)
Theorem C3_server_format_not_idempotent :
  let doc := [lit "if x"; lit "say hi"] in
  let once := [lit "if x:"; lit "say hi"] in
  let twice := [lit "if x:"; lit "  say hi"] in
  Server.formatDocument Server.defaultSettings doc = Some once
  /\ Server.formatDocument Server.defaultSettings once = Some twice
  /\ once <> twice
  /\ Extension.formatDocument Extension.defaultConfiguration doc = Some twice
  /\ Extension.formatDocument Extension.defaultConfiguration twice = Some twice.
Proof. vm_compute. repeat split; try reflexivity. discriminate. Qed.



(** Scenario D on both formatters: [else:] is written at the level of its
    [if], and the bodies one level deeper; so it is along a chain of
    [elseif] and [else]. *)
Example scenario_D_levels :
  let doc := [lit "if x:"; lit "say a"; lit "else:"; lit "say b"] in
  let chain := [lit "if x:"; lit "say a"; lit "elseif y:"; lit "say b";
                lit "else:"; lit "say c"] in
  Server.levelTrace 0 doc = [0; 1; 0; 1]%Z
  /\ Extension.levelTrace 0 doc = [0; 1; 0; 1]%Z
  /\ map Nesting.serverIncreases doc = [true; false; true; false]
  /\ map Nesting.serverDecreases doc = [false; false; true; false]
  /\ Nesting.closedBetween Nesting.serverDecreases Nesting.serverIncreases
       chain 0 4
  /\ Nesting.closedBetween Nesting.clientDecreases Nesting.clientIncreases
       chain 0 4
  /\ Server.levelTrace 0 chain = [0; 1; 0; 1; 0; 1]%Z
  /\ Extension.levelTrace 0 chain = [0; 1; 0; 1; 0; 1]%Z.
Proof. vm_compute. repeat split; reflexivity. Qed.

(** ** Outline and folds *)




(** ** Diagnostics *)





(** ** Whitespace-only and comment-only lines *)

(** Claim C7, refuted as stated: the blank line 2 inside the [if] block
    ends the fold of the block at line 1, while a comment at the same
    place leaves the fold running to the last line. *)
Lemma C7_counterexample :
  let blank := [lit "if x:"; lit "  say a"; lit ""; lit "  say b"] in
  let comment := [lit "if x:"; lit "  say a"; lit "// note"; lit "  say b"] in
  Outline.isBlank (nth 2 blank []) = true
  /\ Server.onFoldingRanges (Some blank)
     = [ {| Server.foldStart := 0; Server.foldEnd := 1;
            Server.foldKind := None |} ]
  /\ Server.onFoldingRanges (Some comment)
     = [ {| Server.foldStart := 0; Server.foldEnd := 3;
            Server.foldKind := None |} ].
Proof. vm_compute. repeat split; reflexivity. Qed.

(** Claim C7, amended.  A whitespace-only or comment-only line is skipped
    by the formatter (the level stays as it is), by the task-balance
    checks of the client and of the server, and by the task folds; a
    comment-only line is skipped by the block folds as well.  A
    whitespace-only line is not: it closes the innermost open block fold
    at the line before it.  The levels of the other lines, the messages of
    the client-side task-balance check and the counters of the server are
    those of the document without its whitespace-only and comment-only
    lines. *)
Theorem C7_transparent_lines (l : str) :
  Outline.isTransparent l = true ->
  (forall level rest,
      Server.levelTrace level (l :: rest)
      = level :: Server.levelTrace level rest)
  /\ Outline.clientRole l = Outline.Neutral
  /\ (forall doc sev budget i rest stack emitted,
        Extension.taskBalanceLoop doc sev budget i (l :: rest) stack emitted
        = if (Z.of_nat emitted <? budget)%Z
          then Extension.taskBalanceLoop doc sev budget (S i) rest stack emitted
          else ([], stack))
  /\ (forall rest starts ends,
        Server.countTasks (l :: rest) starts ends
        = Server.countTasks rest starts ends)
  /\ (forall i rest taskStart,
        Server.taskFoldLoop i (l :: rest) taskStart
        = Server.taskFoldLoop (S i) rest taskStart)
  /\ (Outline.isCommentOnly l = true ->
      forall i rest stack,
        Server.blockFoldLoop i (l :: rest) stack
        = Server.blockFoldLoop (S i) rest stack)
  /\ (Outline.isBlank l = true ->
      forall i rest s stack,
        Server.blockFoldLoop i (l :: rest) (s :: stack)
        = (Server.pushFold s (i - 1) None
             ++ fst (Server.blockFoldLoop (S i) rest stack),
           snd (Server.blockFoldLoop (S i) rest stack)))
  /\ (forall doc level,
        Outline.solidLevels doc (Server.levelTrace level doc)
        = Server.levelTrace level (Outline.solidLines doc))
  /\ (forall doc sev budget,
        map Extension.message
            (Extension.collectTaskBalanceDiagnostics doc sev budget)
        = map Extension.message
            (Extension.collectTaskBalanceDiagnostics
               (Outline.solidLines doc) sev budget))
  /\ (forall doc starts ends,
        Server.countTasks (Outline.solidLines doc) starts ends
        = Server.countTasks doc starts ends).
Proof.
  intros Ht.
  destruct (ServerLines.transparent_not_task l Ht) as [HnS HnE].
  split; [intros; apply TransparentLines.levelTrace_transparent; exact Ht|].
  split; [apply TransparentLines.transparent_clientRole; exact Ht|].
  split.
  { intros. cbn [Extension.taskBalanceLoop].
    rewrite (TransparentLines.transparent_strip l Ht). reflexivity. }
  split.
  { intros. cbn [Server.countTasks]. rewrite HnS, HnE. reflexivity. }
  split.
  { intros. cbn [Server.taskFoldLoop].
    unfold Server.isStartTask, Server.isEndTask in HnS, HnE.
    rewrite HnS, HnE. reflexivity. }
  split.
  { intros Hc i rest stack. cbn [Server.blockFoldLoop].
    destruct (ServerLines.comment_no_fold l Hc) as [-> ->]. reflexivity. }
  split.
  { intros Hb i rest s stack. cbn [Server.blockFoldLoop].
    destruct (ServerLines.blank_closes_fold l Hb) as [-> ->].
    destruct (Server.blockFoldLoop (S i) rest stack). reflexivity. }
  split; [intros; apply TransparentLines.levels_of_solid_lines|].
  split; [intros; apply SolidLines.client_messages_solid|].
  intros; apply SolidLines.server_counters_solid.
Qed.

Lemma C7_witness :
  Server.levelTrace 1 [lit "   // a note"; lit "say x"] = [1; 1]%Z
  /\ Server.blockFoldLoop 1 [lit "   // a note"; lit "say x"] [0]
     = Server.blockFoldLoop 2 [lit "say x"] [0]
  /\ Server.blockFoldLoop 2 [lit "   "; lit "say b"] [0]
     = ([ {| Server.foldStart := 0; Server.foldEnd := 1;
             Server.foldKind := None |} ], []).
Proof.
  pose proof (C7_transparent_lines (lit "   // a note") eq_refl) as Hc.
  pose proof (C7_transparent_lines (lit "   ") eq_refl) as Hb.
  split; [exact (proj1 Hc 1%Z [lit "say x"])|].
  split.
  - exact (proj1 (proj2 (proj2 (proj2 (proj2 (proj2 Hc))))) eq_refl
             1 [lit "say x"] [0]).
  - exact (proj1 (proj2 (proj2 (proj2 (proj2 (proj2 (proj2 Hb)))))) eq_refl
             2 [lit "say b"] 0 []).
Defined.

(** ** The diagnostic budget *)

(** Claim C8, at the failing input.  The document holds three header
    lines without their colon.  With a budget of 1
    ([validation.maxProblems]) the validator of the client publishes one
    diagnostic.  The pass of the server has no budget among its settings:
    it publishes one diagnostic for each of the three lines, and on [n]
    such lines at least [n], so that no budget bounds it. *)
Theorem C8_server_ignores_budget :
  let doc := [lit "if x"; lit "when y"; lit "else"] in
  let budget1 :=
    Extension.withMaxProblems Extension.defaultConfiguration 1 in
  length (Extension.published (Extension.validateDocument budget1 true doc))
  = 1
  /\ Server.validateTextDocument Server.defaultSettings doc
     = [Server.PublishDiagnostics
          (map (Checks.missingColonDiag Server.defaultSettings doc) [0; 1; 2])]
  /\ length (Server.diagnosticsOf Server.defaultSettings doc) = 3
  /\ forall n,
       n <= length (Server.diagnosticsOf Server.defaultSettings
                      (List.repeat (lit "if x") n)).
Proof.
  split; [vm_compute; reflexivity|].
  split; [vm_compute; reflexivity|].
  split; [vm_compute; reflexivity|].
  apply Budgets.server_pass_unbounded.
Qed.

(** ** The outline of unterminated tasks *)



(** ** Completion *)

(** Claim C10.  When the text before the cursor matches none of the
    context rules, the completion returns the whole catalog, in order:
    every verb of the action catalog, the directives, the structural
    keywords, the operators and the extra keywords of the settings.  The
    completion sends no diagnostics, whatever its input. *)
Theorem C10_completion_fallback
    (settings : Server.RoopSettings) (doc : Server.TextDocument)
    (pos : nat * nat) :
  let tillCursor := slice0 (Server.lineAt doc (fst pos)) (snd pos) in
  test Server.RE_BLANK tillCursor = false ->
  test Server.RE_AFTER_ON tillCursor = false ->
  test Server.RE_AFTER_USE tillCursor = false ->
  test Server.RE_AFTER_REPEAT tillCursor = false ->
  test Server.RE_AFTER_IF tillCursor = false ->
  test Server.RE_AFTER_AT_TIME tillCursor = false ->
  fst (Server.onCompletion settings (Some doc) pos)
  = Server.actionItems
    ++ Server.keywordItems (Server.completion_extraKeywords settings)
  /\ map Server.label (fst (Server.onCompletion settings (Some doc) pos))
     = flat_map snd Server.ACTIONS ++ Server.DIRECTIVES ++ Server.STRUCTURAL
       ++ Server.OPERATORS ++ Server.completion_extraKeywords settings
  /\ forall d p, snd (Server.onCompletion settings d p) = [].
Proof.
  intros tillCursor H1 H2 H3 H4 H5 H6.
  assert (E : fst (Server.onCompletion settings (Some doc) pos)
              = Server.actionItems
                ++ Server.keywordItems (Server.completion_extraKeywords settings)).
  { unfold Server.onCompletion, Server.contextItems. cbn [fst].
    fold tillCursor. rewrite H1, H2, H3, H4, H5, H6. reflexivity. }
  split; [exact E|]. split.
  - rewrite E. unfold Server.keywordItems.
    rewrite !map_app, !map_map. cbn [Server.push Server.label].
    rewrite !map_id.
    assert (Ea : map Server.label Server.actionItems
                 = flat_map snd Server.ACTIONS) by (vm_compute; reflexivity).
    rewrite Ea. reflexivity.
  - intros [d|] p; reflexivity.
Qed.

Lemma C10_witness :
  let settings := Server.defaultSettings in
  let doc := [q "start task ~A~"; lit "  say x"] in
  fst (Server.onCompletion settings (Some doc) (1, 5))
  = Server.actionItems ++ Server.keywordItems []
  /\ length (fst (Server.onCompletion settings (Some doc) (1, 5))) = 155.
Proof.
  pose proof (C10_completion_fallback Server.defaultSettings
                [q "start task ~A~"; lit "  say x"] (1, 5)
                eq_refl eq_refl eq_refl eq_refl eq_refl eq_refl) as H.
  cbv zeta. split; [exact (proj1 H) | vm_compute; reflexivity].
Defined.

(* ================================================================== *)
(** * Further properties of the two programs                           *)
(* ================================================================== *)

(** ** The diagnostics pass of the server *)

(** X1.  The task counters of the diagnostics pass ([validateTextDocument],
    check 6.2): when the check is on, the pass reports an unbalanced task
    exactly when the number of [start task] lines differs from the number
    of [end task] lines, with one diagnostic that carries the two totals
    and lies on line 0, from character 0 to the length of that line (at
    least 1); when the check is off it reports none. *)
Theorem X1_server_unbalanced_report
    (settings : Server.RoopSettings) (doc : Server.TextDocument) :
  filter Server.isUnbalancedTask (Server.diagnosticsOf settings doc)
  = if Server.isOff (Server.lint_unbalancedTask settings) then []
    else if length (filter Server.isStartTask doc)
            =? length (filter Server.isEndTask doc)
         then []
         else [Checks.unbalancedDiag settings doc].
Proof.
  rewrite ServerDiagnostics.unbalanced_of_pass.
  destruct (Server.isOff (Server.lint_unbalancedTask settings)); [reflexivity|].
  unfold Server.unbalancedTaskCheck.
  rewrite ServerTotals.countTasks_totals. cbn [Nat.add].
  destruct (length (filter Server.isStartTask doc)
            =? length (filter Server.isEndTask doc)); reflexivity.
Qed.

(** X2.  The missing-colon check of the pass (check 6.1): when it is on,
    the pass reports one [MissingColon] diagnostic, over the whole line,
    for each line of the colon-requiring shape whose trimmed text does not
    end with a colon, in document order, and no other; such a line is
    never blank nor a comment, and its trimmed text starts with one of the
    ten header words. *)
Theorem X2_server_missing_colon_lines
    (settings : Server.RoopSettings) (doc : Server.TextDocument) :
  filter Server.isMissingColon (Server.diagnosticsOf settings doc)
  = (if Server.isOff (Server.lint_missingColon settings) then []
     else map (Checks.missingColonDiag settings doc)
              (filter (fun i => Checks.serverNeedsColon (Server.lineAt doc i))
                      (seq 0 (Server.lineCount doc))))
  /\ forall l, Checks.serverNeedsColon l = true ->
       Outline.isTransparent l = false
       /\ endsWith (trim l) (lit ":") = false
       /\ exists kw r, In kw Server.headerWords /\ trim l = kw ++ r.
Proof.
  split; [apply ServerFormat.missingColon_of_pass|].
  intros l H. unfold Checks.serverNeedsColon in H.
  apply andb_true_iff in H. destruct H as [Hc He].
  apply negb_true_iff in He.
  split; [|split; [exact He | apply ServerLines.candidate_shape; exact Hc]].
  destruct (Outline.isTransparent l) eqn:Et; [|reflexivity].
  exfalso. unfold Server.endsWithColonCandidate in Hc.
  unfold Outline.isTransparent in Et. apply orb_true_iff in Et.
  destruct Et as [Hb | Hcm].
  - rewrite (ServerLines.blank_trim l Hb) in Hc. vm_compute in Hc.
    discriminate.
  - destruct (ServerLines.comment_trim l Hcm) as [r Hr]. rewrite Hr in Hc.
    replace (test Server.RE_COMMENT ("/"%char :: "/"%char :: r)) with true
      in Hc by (unfold Server.RE_COMMENT; cbn [cat];
                rewrite ServerLines.test_anchored_eq; reflexivity).
    discriminate.
Qed.

Lemma X2_witness :
  Outline.isTransparent (lit "  if x") = false
  /\ endsWith (trim (lit "  if x")) (lit ":") = false.
Proof.
  destruct (proj2 (X2_server_missing_colon_lines Server.defaultSettings [])
              (lit "  if x") eq_refl) as [H1 [H2 _]].
  split; assumption.
Defined.

(** X3.  The unknown-verb hint of the pass (check 6.3): every
    [UnrecognizedVerb] diagnostic is a hint on a line of the document,
    about the leading verb of that line; the verb is in neither list of
    known starters nor among the extra keywords of the settings; and the
    range of the diagnostic is exactly the verb, behind the indentation
    of the line. *)
Theorem X3_unrecognized_verb_hint
    (settings : Server.RoopSettings) (doc : Server.TextDocument)
    (d : Server.Diagnostic) (v : str) :
  In d (Server.diagnosticsOf settings doc) ->
  Server.message d = Server.UnrecognizedVerb v ->
  let i := Server.line (Server.range_start (Server.range d)) in
  i < Server.lineCount doc
  /\ Server.severity d = Some Server.SevHint
  /\ Server.firstVerb (Server.lineAt doc i) = Some v
  /\ Checks.knownVerb v = false
  /\ includes (Server.completion_extraKeywords settings) v = false
  /\ exists indent rest,
       Server.lineAt doc i = indent ++ v ++ rest
       /\ allWs indent
       /\ v <> []
       /\ Server.range d
          = Server.makeRange i (Z.of_nat (length indent))
              (Z.of_nat (length indent) + Z.of_nat (length v)).
Proof.
  intros Hin Hm i.
  assert (Hin' : In d (Server.unknownVerbLoop
                         (Server.completion_extraKeywords settings) 0 doc)).
  { unfold Server.diagnosticsOf in Hin.
    apply in_app_or in Hin. destruct Hin as [Hin|Hin].
    { exfalso. destruct (negb _); [|destruct Hin].
      pose proof (ServerDiagnostics.missingColonLoop_lines
                    (Server.toSeverity (Server.lint_missingColon settings))
                    doc 0) as F.
      rewrite Forall_forall in F. destruct (F d Hin) as [_ F2]. congruence. }
    apply in_app_or in Hin. destruct Hin as [Hin|Hin]; [|exact Hin].
    exfalso. destruct (negb _); [|destruct Hin].
    pose proof (ServerDiagnostics.unbalancedTaskCheck_messages
                  (Server.toSeverity (Server.lint_unbalancedTask settings)) doc)
      as F.
    rewrite Forall_forall in F. destruct (F d Hin) as [F1 _].
    unfold Server.isUnbalancedTask in F1. rewrite Hm in F1. discriminate. }
  destruct (ServerChecks.unknownVerbLoop_sound _ _ _ _ Hin')
    as [k [v0 [indent [rest [Hk [Hl [Hs [Hm0 [Hn [Hw [Hf [Hr [Hkn Hex]]]]]]]]]]]]].
  assert (v0 = v) by congruence. subst v0.
  cbn [Nat.add] in Hl, Hr. subst i. rewrite Hl.
  split; [exact Hk|]. split; [exact Hs|]. split; [exact Hf|].
  split; [exact Hkn|]. split; [exact Hex|].
  exists indent, rest. split; [exact Hn|]. split; [exact Hw|].
  split; [|exact Hr].
  destruct (ServerChecks.firstVerb_prefix _ _ Hf) as [c [v' [_ [-> _]]]].
  discriminate.
Qed.

Lemma X3_witness :
  let doc := [q "start task ~A~"; lit "   frobnicate the mug"; lit "end task"] in
  let d := {| Server.severity := Some Server.SevHint;
              Server.message := Server.UnrecognizedVerb (lit "frobnicate");
              Server.range := Server.makeRange 1 3 13 |} in
  Server.firstVerb (Server.lineAt doc 1) = Some (lit "frobnicate")
  /\ Checks.knownVerb (lit "frobnicate") = false.
Proof.
  pose proof (X3_unrecognized_verb_hint Server.defaultSettings
                [q "start task ~A~"; lit "   frobnicate the mug";
                 lit "end task"]
                {| Server.severity := Some Server.SevHint;
                   Server.message := Server.UnrecognizedVerb (lit "frobnicate");
                   Server.range := Server.makeRange 1 3 13 |}
                (lit "frobnicate")
                ltac:(vm_compute; left; reflexivity) eq_refl) as H.
  cbv zeta in H. cbv zeta. split; [apply H | apply H].
Defined.

(** X4.  The extra keywords of the settings only take hints away: the
    diagnostics of the pass under [completion.extraKeywords = ks] are
    those it computes without extra keywords, less the unknown-verb hints
    about a verb of [ks]; order, ranges and severities are unchanged. *)
Theorem X4_extra_keywords_only_silence
    (settings : Server.RoopSettings) (ks : list str)
    (doc : Server.TextDocument) :
  Server.diagnosticsOf (Checks.withExtraKeywords settings ks) doc
  = filter (Checks.notAbout ks)
      (Server.diagnosticsOf (Checks.withExtraKeywords settings []) doc).
Proof.
  unfold Server.diagnosticsOf, Checks.withExtraKeywords.
  cbn [Server.lint_missingColon Server.lint_unbalancedTask
       Server.completion_extraKeywords].
  rewrite !filter_app. f_equal; [|f_equal].
  - symmetry. apply ServerChecks.filter_all.
    destruct (negb _); [|constructor].
    eapply Forall_impl; [|apply ServerDiagnostics.missingColonLoop_lines].
    cbv beta. intros d [_ H]. unfold Checks.notAbout. rewrite H. reflexivity.
  - symmetry. apply ServerChecks.filter_all.
    destruct (negb _); [|constructor].
    eapply Forall_impl; [|apply ServerDiagnostics.unbalancedTaskCheck_messages].
    cbv beta. intros d [H _]. unfold Checks.notAbout.
    unfold Server.isUnbalancedTask in H.
    destruct (Server.message d); try discriminate; reflexivity.
  - apply ServerChecks.unknownVerbLoop_extras.
Qed.

(** X5.  [firstVerb]: the verb found on a line is a non-empty prefix of
    the trimmed line and starts with a letter; blank lines and comment
    lines have no verb; and whitespace around a line does not change its
    verb. *)
Theorem X5_firstVerb_prefix (l : str) :
  (forall v, Server.firstVerb l = Some v ->
     exists c v' r, v = c :: v' /\ isAlpha c = true /\ trim l = v ++ r)
  /\ (Outline.isTransparent l = true -> Server.firstVerb l = None)
  /\ (forall w1 w2, allWs w1 -> allWs w2 ->
        Server.firstVerb (w1 ++ trim l ++ w2) = Server.firstVerb l).
Proof.
  split; [intros v; apply ServerChecks.firstVerb_prefix|]. split.
  - intros Ht. unfold Server.firstVerb.
    unfold Outline.isTransparent, Outline.isBlank, Outline.isCommentOnly in Ht.
    destruct (trim l) as [|c t]; [reflexivity|].
    cbn [isEmpty orb] in Ht. rewrite Ht.
    rewrite orb_true_r. reflexivity.
  - intros w1 w2 H1 H2. unfold Server.firstVerb.
    replace (trim (w1 ++ trim l ++ w2)) with (trim l); [reflexivity|].
    symmetry.
    destruct (StrFacts.trim_head l) as [E | Hs].
    + rewrite E. apply StrFacts.trim_ws. cbn [app].
      apply Forall_app. split; assumption.
    + unfold trim at 1. rewrite StrFacts.trimStart_ws by exact H1.
      rewrite StrFacts.trimStart_solid.
      2:{ destruct Hs as [c [r [E Hc]]]. exists c, (r ++ w2).
          rewrite E. split; [reflexivity | exact Hc]. }
      destruct (trim l) as [|c t] eqn:E;
        [destruct Hs as [? [? [? _]]]; discriminate|].
      rewrite <- E.
      assert (Hne : trimEnd (trim l) <> []).
      { unfold trim. rewrite FormatterFacts.trimEnd_idem. fold (trim l).
        rewrite E. discriminate. }
      assert (Hgen : forall s, trimEnd s <> [] -> trimEnd (s ++ w2) = trimEnd s).
      { intros s. induction s as [|x s IH]; intros Hn; [contradiction|].
        cbn [app trimEnd] in *.
        destruct (trimEnd s) as [|y r] eqn:Es.
        - replace (trimEnd (s ++ w2)) with (@nil ascii).
          + reflexivity.
          + symmetry. apply StrFacts.trimEnd_ws.
            apply Forall_app. split; [|exact H2].
            apply StrFacts.trimEnd_nil_ws. exact Es.
        - rewrite IH by discriminate. reflexivity. }
      rewrite Hgen by exact Hne.
      unfold trim. rewrite FormatterFacts.trimEnd_idem. reflexivity.
Qed.

Lemma X5_witness :
  (exists c v' r,
      lit "turn on" = c :: v' /\ isAlpha c = true
      /\ trim (lit "  turn on the lamp ") = lit "turn on" ++ r)
  /\ Server.firstVerb (lit "// say hi") = None.
Proof.
  split.
  - exact (proj1 (X5_firstVerb_prefix (lit "  turn on the lamp "))
             (lit "turn on") eq_refl).
  - exact (proj1 (proj2 (X5_firstVerb_prefix (lit "// say hi"))) eq_refl).
Defined.
(** ** The formatter of the server *)

(** X6.  [onDocumentFormatting] with an indent size that is not negative
    never throws: on an open document, with formatting enabled, it
    answers one edit that replaces the whole document by as many lines as
    the document has; each line is written as its trimmed text, with the
    colon a header misses, behind [level * indentSize] spaces.  With
    formatting disabled, or on a document that is not open, it answers no
    edit. *)
Theorem X6_server_format_total
    (settings : Server.RoopSettings) (doc : Server.TextDocument) :
  (0 <= Server.format_indentSize settings)%Z ->
  (Server.format_enabled settings = true ->
   exists out,
     Server.onDocumentFormatting settings (Some doc)
     = Some [ {| Server.editRange := Server.fullRange doc;
                 Server.newText := join out |} ]
     /\ length out = length doc
     /\ map trim out = map (fun l => Server.ensureColon (trim l)) doc
     /\ forall i, i < length doc ->
          exists pad,
            JS.repeat (lit " ")
              (nth i (Server.levelTrace 0 doc) 0%Z
               * Server.format_indentSize settings) = Some pad
            /\ nth i out [] = pad ++ Server.ensureColon (trim (nth i doc [])))
  /\ (Server.format_enabled settings = false ->
      Server.onDocumentFormatting settings (Some doc) = Some [])
  /\ Server.onDocumentFormatting settings None = Some [].
Proof.
  intros Hi. split; [|split; [|reflexivity]].
  - intros He.
    destruct (ServerFormat.formatLoop_total _ doc Hi 0%Z ltac:(lia))
      as [out Hout].
    exists out. unfold Server.onDocumentFormatting. rewrite He, Hout.
    split; [reflexivity|].
    destruct (ServerFormat.formatLoop_colons _ _ _ _ Hout) as [_ [_ [H3 H4]]].
    split; [exact H3|]. split; [exact H4|].
    apply (NestingFacts.formatLoop_levels _ _ _ _ Hout).
  - intros He. unfold Server.onDocumentFormatting. rewrite He. reflexivity.
Qed.

Lemma X6_witness :
  exists out,
    Server.onDocumentFormatting Server.defaultSettings
      (Some [lit "if x"; lit "say hi"])
    = Some [ {| Server.editRange :=
                  Server.fullRange [lit "if x"; lit "say hi"];
                Server.newText := join out |} ]
    /\ length out = 2.
Proof.
  destruct (proj1 (X6_server_format_total Server.defaultSettings
                     [lit "if x"; lit "say hi"] ltac:(vm_compute; discriminate))
              eq_refl) as [out [H1 [H2 _]]].
  exists out. split; assumption.
Defined.

(** X7.  What the formatter of the server writes misses no colon: after
    a formatting request, the diagnostics pass reports no [MissingColon]
    on the document, whatever the settings of the pass. *)
Theorem X7_formatted_misses_no_colon
    (settings settings' : Server.RoopSettings)
    (doc once : Server.TextDocument) :
  doc <> [] -> Formatted.noLineBreaks doc ->
  Server.format_enabled settings = true ->
  Server.formatDocument settings doc = Some once ->
  filter Server.isMissingColon (Server.diagnosticsOf settings' once) = [].
Proof.
  intros Hne Hn He. unfold Server.formatDocument, Server.onDocumentFormatting.
  rewrite He. cbn [negb].
  destruct (Server.formatLoop _ 0 doc) as [out|] eqn:Hout; [|discriminate].
  cbn [Server.applyFormatting Server.newText]. intros H. injection H as <-.
  destruct (ServerFormat.formatLoop_colons _ _ _ _ Hout) as [H1 [H2 [H3 _]]].
  rewrite (FormatterFacts.splitLines_join out
             (ServerFormat.nonempty_length _ _ H3 Hne) (H2 Hn)).
  rewrite ServerFormat.missingColon_of_pass.
  destruct (Server.isOff (Server.lint_missingColon settings')); [reflexivity|].
  rewrite ServerDiagnostics.filter_none; [reflexivity|].
  apply Forall_forall. intros i Hin. apply in_seq in Hin.
  apply ServerFormat.needsColon_ensure.
  unfold Formatted.colonsPresent in H1. rewrite Forall_forall in H1.
  apply H1. apply nth_In. unfold Server.lineCount in Hin. lia.
Qed.

Lemma X7_witness :
  filter Server.isMissingColon
    (Server.diagnosticsOf Server.defaultSettings [lit "if x:"; lit "say hi"])
  = [].
Proof.
  apply (X7_formatted_misses_no_colon Server.defaultSettings
           Server.defaultSettings [lit "if x"; lit "say hi"]).
  - discriminate.
  - repeat constructor.
  - reflexivity.
  - vm_compute. reflexivity.
Defined.

(** X8.  The formatter of the server settles after two passes: with an
    indent size that is not negative, formatting the output of a
    formatting request succeeds, and formatting that second output
    changes nothing. *)
Theorem X8_server_format_settles
    (settings : Server.RoopSettings) (doc once : Server.TextDocument) :
  (0 <= Server.format_indentSize settings)%Z ->
  doc <> [] -> Formatted.noLineBreaks doc ->
  Server.formatDocument settings doc = Some once ->
  exists twice,
    Server.formatDocument settings once = Some twice
    /\ Server.formatDocument settings twice = Some twice.
Proof.
  intros Hi Hne Hn H.
  destruct (Server.format_enabled settings) eqn:He.
  - unfold Server.formatDocument, Server.onDocumentFormatting in H.
    rewrite He in H. cbn [negb] in H.
    destruct (Server.formatLoop _ 0 doc) as [out|] eqn:Hout; [|discriminate].
    cbn [Server.applyFormatting Server.newText] in H. injection H as <-.
    destruct (ServerFormat.formatLoop_colons _ _ _ _ Hout) as [H1 [H2 [H3 _]]].
    pose proof (ServerFormat.nonempty_length _ _ H3 Hne) as Hne1.
    rewrite (FormatterFacts.splitLines_join out Hne1 (H2 Hn)).
    destruct (ServerFormat.formatLoop_total _ out Hi 0%Z ltac:(lia))
      as [out2 Hout2].
    destruct (ServerFormat.formatLoop_colons _ _ _ _ Hout2) as [_ [K2 [K3 _]]].
    pose proof (ServerFormat.nonempty_length _ _ K3 Hne1) as Hne2.
    exists out2.
    assert (E : Server.formatDocument settings out = Some out2).
    { unfold Server.formatDocument, Server.onDocumentFormatting.
      rewrite He, Hout2. cbn [negb Server.applyFormatting Server.newText].
      rewrite (FormatterFacts.splitLines_join out2 Hne2 (K2 (H2 Hn))).
      reflexivity. }
    split; [exact E|].
    apply (FormatterFacts.server_format_stable settings out out2
             Hne1 (H2 Hn) H1 E).
  - assert (E : forall d, Server.formatDocument settings d = Some d).
    { intros d. unfold Server.formatDocument, Server.onDocumentFormatting.
      rewrite He. reflexivity. }
    rewrite E in H. injection H as <-. exists doc. split; apply E.
Qed.

Lemma X8_witness :
  exists twice,
    Server.formatDocument Server.defaultSettings [lit "if x:"; lit "say hi"]
    = Some twice
    /\ Server.formatDocument Server.defaultSettings twice = Some twice.
Proof.
  apply (X8_server_format_settles Server.defaultSettings
           [lit "if x"; lit "say hi"]).
  - vm_compute. discriminate.
  - discriminate.
  - repeat constructor.
  - vm_compute. reflexivity.
Defined.
(** ** The outline and the folds of the server *)



(** X10.  [onFoldingRanges]: every folding range spans at least two
    lines and ends inside the document; the folds of the task kind are
    those of the task scan, and they follow one another in document
    order without overlapping. *)
Theorem X10_folds_well_formed (doc : Server.TextDocument) :
  (forall f, In f (Server.onFoldingRanges (Some doc)) ->
     Server.foldStart f < Server.foldEnd f
     /\ Server.foldEnd f < Server.lineCount doc)
  /\ filter Ranges.isTaskFold (Server.onFoldingRanges (Some doc))
     = Server.taskFoldLoop 0 doc None
  /\ Sorted.StronglySorted Ranges.foldBefore
       (filter Ranges.isTaskFold (Server.onFoldingRanges (Some doc))).
Proof.
  destruct (RangeFacts.taskFoldLoop_wf doc 0 None ltac:(discriminate))
    as [T1 T2].
  split; [|split;
           [apply RangeFacts.filter_task_folds
           |rewrite RangeFacts.filter_task_folds; exact T2]].
  unfold Server.onFoldingRanges.
  destruct (RangeFacts.blockFoldLoop_wf doc 0 [] ltac:(constructor))
    as [B1 B2].
  destruct (Server.blockFoldLoop 0 doc []) as [blockFolds stack].
  cbn [fst snd Nat.add] in *. unfold Server.lineCount.
  intros f Hin. apply in_app_or in Hin. destruct Hin as [Hin | Hin].
  { rewrite Forall_forall in T1. destruct (T1 f Hin) as [Ha [Hb _]].
    split; lia. }
  apply in_app_or in Hin. destruct Hin as [Hin | Hin].
  { rewrite Forall_forall in B1. destruct (B1 f Hin) as [Ha [Hb _]].
    split; lia. }
  apply in_flat_map in Hin. destruct Hin as [s [Hs Hf]].
  unfold Server.pushFold, Server.lineCount in Hf.
  destruct (s <? length doc - 1) eqn:E; [|destruct Hf].
  apply Nat.ltb_lt in E. destruct Hf as [<- | []]. cbn. lia.
Qed.

Lemma X10_witness :
  let doc := [q "start task ~A~"; lit "if x:"; lit "say hi"; lit "end task"] in
  let f := {| Server.foldStart := 1; Server.foldEnd := 3;
              Server.foldKind := None |} in
  Server.foldStart f < Server.foldEnd f /\ Server.foldEnd f < 4.
Proof.
  exact (proj1 (X10_folds_well_formed
                  [q "start task ~A~"; lit "if x:"; lit "say hi";
                   lit "end task"])
           {| Server.foldStart := 1; Server.foldEnd := 3;
              Server.foldKind := None |}
           ltac:(vm_compute; right; left; reflexivity)).
Defined.
(** ** The quick fix of the server *)

(** X11.  [onCodeAction]: the request gets one quick fix for each of its
    diagnostics of the missing-colon check, in order, and none for the
    others.  The fix of a diagnostic on line [i] of the document replaces
    that whole line by its text without trailing whitespace, followed by a
    colon; once the edit is applied, the other lines are unchanged and the
    diagnostics pass reports the same [MissingColon] diagnostics as
    before, less those on line [i]. *)
Theorem X11_quick_fix_adds_the_colon
    (settings : Server.RoopSettings) (doc : Server.TextDocument) :
  (forall ds,
      map CodeActions.fixes (CodeActions.onCodeAction (Some doc) ds)
      = map (fun d => [d]) (filter Server.isMissingColon ds))
  /\ (forall d i,
        Server.message d = Server.MissingColon ->
        Server.line (Server.range_start (Server.range d)) = i ->
        i < Server.lineCount doc ->
        exists a,
          CodeActions.onCodeAction (Some doc) [d] = [a]
          /\ Server.editRange (CodeActions.edit a)
             = Server.makeRange i 0 (Z.of_nat (length (Server.lineAt doc i)))
          /\ Server.newText (CodeActions.edit a)
             = trimEnd (Server.lineAt doc i) ++ lit ":"
          /\ let fixed := CodeActions.applyEdit doc (CodeActions.edit a) in
             Server.lineCount fixed = Server.lineCount doc
             /\ Server.lineAt fixed i = trimEnd (Server.lineAt doc i) ++ lit ":"
             /\ (forall j, j <> i -> Server.lineAt fixed j = Server.lineAt doc j)
             /\ filter Server.isMissingColon
                  (Server.diagnosticsOf settings fixed)
                = filter (CodeActions.offLine i)
                    (filter Server.isMissingColon
                       (Server.diagnosticsOf settings doc))).
Proof.
  split.
  - intros ds. unfold CodeActions.onCodeAction.
    induction ds as [|d ds IH]; [reflexivity|].
    cbn [flat_map filter]. unfold Server.isMissingColon at 1.
    destruct (Server.message d); cbn [app map]; rewrite ?IH; reflexivity.
  - intros d i Hm Hl Hi. eexists. split.
    + unfold CodeActions.onCodeAction. cbn [flat_map]. rewrite Hm, Hl.
      reflexivity.
    + cbn [CodeActions.edit Server.editRange Server.newText].
      split; [reflexivity|]. split; [reflexivity|].
      unfold CodeActions.applyEdit. cbn.
      split; [apply QuickFix.setLine_length|].
      split; [unfold Server.lineAt at 1;
              rewrite QuickFix.setLine_nth, Nat.eqb_refl by exact Hi;
              reflexivity|].
      split; [|apply QuickFix.missingColon_after_fix; exact Hi].
      intros j Hj. unfold Server.lineAt at 1.
      rewrite QuickFix.setLine_nth by exact Hi.
      replace (j =? i) with false by (symmetry; apply Nat.eqb_neq; exact Hj).
      reflexivity.
Qed.

Lemma X11_witness :
  let doc := [q "start task ~A~"; lit "  if door is open  "; lit "end task"] in
  let d := Checks.missingColonDiag Server.defaultSettings doc 1 in
  exists a,
    CodeActions.onCodeAction (Some doc) [d] = [a]
    /\ Server.newText (CodeActions.edit a) = lit "  if door is open:".
Proof.
  destruct (proj2 (X11_quick_fix_adds_the_colon Server.defaultSettings
                     [q "start task ~A~"; lit "  if door is open  ";
                      lit "end task"])
              (Checks.missingColonDiag Server.defaultSettings
                 [q "start task ~A~"; lit "  if door is open  ";
                  lit "end task"] 1)
              1 eq_refl eq_refl ltac:(vm_compute; lia))
    as [a [H1 [_ [H2 _]]]].
  exists a. split; [exact H1 | exact H2].
Defined.
(** ** The settings of the server *)

(** X12.  [onDidChangeConfiguration] with [clampInt] and [validateLint]:
    whatever the settings object holds, the indent size kept is an
    integer between 2 and 8: for a number it is the floor of that number
    (the integer [k] with [k <= x < k + 1]) brought into that range, 8
    for the positive and 2 for the negative infinity, and 2 when the
    value is not a number.  A lint level that is one of the four names is
    kept, any other value gives the default of its check, and a settings
    object that sets nothing gives back the default settings.  Every open
    document is validated again under the new settings, and a formatting
    request under them never throws. *)
Theorem X12_settings_are_normalised
    (cfg : Settings.RawSettings) (openDocuments : list Server.TextDocument) :
  let globalSettings :=
    fst (Settings.onDidChangeConfiguration cfg openDocuments) in
  (2 <= Server.format_indentSize globalSettings <= 8)%Z
  /\ (forall n, Settings.raw_indentSize cfg
                = Settings.Num (Settings.Finite (QArith_base.inject_Z n)) ->
        Server.format_indentSize globalSettings = Z.max 2 (Z.min 8 n))
  /\ (forall x, Settings.raw_indentSize cfg = Settings.Num (Settings.Finite x) ->
        exists k,
          QArith_base.Qle (QArith_base.inject_Z k) x
          /\ QArith_base.Qlt x (QArith_base.inject_Z (k + 1))
          /\ Server.format_indentSize globalSettings = Z.max 2 (Z.min 8 k))
  /\ (Settings.raw_indentSize cfg = Settings.Num Settings.PosInfinity ->
        Server.format_indentSize globalSettings = 8%Z)
  /\ (Settings.raw_indentSize cfg = Settings.Num Settings.NegInfinity ->
        Server.format_indentSize globalSettings = 2%Z)
  /\ ((forall n, Settings.raw_indentSize cfg <> Settings.Num n) ->
        Server.format_indentSize globalSettings = 2%Z)
  /\ (forall def,
        map (fun s => Settings.validateLint (Settings.Str (lit s)) def)
            ["off"; "hint"; "warning"; "error"]%string
        = [Server.off; Server.hint; Server.warning; Server.error])
  /\ (forall v def, (forall s, v <> Settings.Str s) ->
        Settings.validateLint v def = def)
  /\ (forall s, Settings.raw_missingColon cfg = Settings.Str s ->
        ~ In s (map lit ["off"; "hint"; "warning"; "error"]%string) ->
        Server.lint_missingColon globalSettings = Server.hint)
  /\ (forall s, Settings.raw_unbalancedTask cfg = Settings.Str s ->
        ~ In s (map lit ["off"; "hint"; "warning"; "error"]%string) ->
        Server.lint_unbalancedTask globalSettings = Server.warning)
  /\ fst (Settings.onDidChangeConfiguration Settings.noSettings openDocuments)
     = Server.defaultSettings
  /\ snd (Settings.onDidChangeConfiguration cfg openDocuments)
     = map (fun doc =>
              Server.PublishDiagnostics
                (Server.diagnosticsOf globalSettings doc))
           openDocuments
  /\ forall doc, Server.formatDocument globalSettings doc <> None.
Proof.
  intros g. subst g. cbn [fst snd Settings.onDidChangeConfiguration].
  assert (Hrange : (2 <= Server.format_indentSize (Settings.settingsOf cfg)
                    <= 8)%Z).
  { cbn. unfold Settings.clampInt.
    destruct (Settings.raw_indentSize cfg) as [| | |[x| |]| | |]; cbn; lia. }
  assert (Hlint : forall s def,
            ~ In s (map lit ["off"; "hint"; "warning"; "error"]%string) ->
            Settings.validateLint (Settings.Str s) def = def).
  { intros s def Hn. unfold Settings.validateLint.
    destruct (str_eqb s (lit "off")) eqn:E1;
      [apply ServerChecks.str_eqb_eq in E1; exfalso; apply Hn; subst;
       cbn; tauto|].
    destruct (str_eqb s (lit "hint")) eqn:E2;
      [apply ServerChecks.str_eqb_eq in E2; exfalso; apply Hn; subst;
       cbn; tauto|].
    destruct (str_eqb s (lit "warning")) eqn:E3;
      [apply ServerChecks.str_eqb_eq in E3; exfalso; apply Hn; subst;
       cbn; tauto|].
    destruct (str_eqb s (lit "error")) eqn:E4;
      [apply ServerChecks.str_eqb_eq in E4; exfalso; apply Hn; subst;
       cbn; tauto|].
    reflexivity. }
  split; [exact Hrange|].
  split.
  { intros n Hn. unfold Settings.settingsOf.
    cbn [Server.format_indentSize]. rewrite Hn. unfold Settings.clampInt.
    rewrite Qround.Qfloor_Z. reflexivity. }
  split.
  { intros x Hx. exists (Qround.Qfloor x).
    split; [apply Qround.Qfloor_le|]. split; [apply Qround.Qlt_floor|].
    unfold Settings.settingsOf. cbn [Server.format_indentSize].
    rewrite Hx. reflexivity. }
  split.
  { intros Hx. unfold Settings.settingsOf. cbn [Server.format_indentSize].
    rewrite Hx. reflexivity. }
  split.
  { intros Hx. unfold Settings.settingsOf. cbn [Server.format_indentSize].
    rewrite Hx. reflexivity. }
  split.
  { intros Hx. unfold Settings.settingsOf. cbn [Server.format_indentSize].
    destruct (Settings.raw_indentSize cfg) as [| | |n| | |];
      try reflexivity.
    exfalso. apply (Hx n). reflexivity. }
  split; [intros def; reflexivity|].
  split.
  { intros v def Hv. destruct v as [| | | |s| |]; try reflexivity.
    exfalso. apply (Hv s). reflexivity. }
  split; [intros s Hs Hn; cbn; rewrite Hs; apply Hlint; exact Hn|].
  split; [intros s Hs Hn; cbn; rewrite Hs; apply Hlint; exact Hn|].
  split; [reflexivity|].
  split.
  { induction openDocuments as [|d ds IH]; [reflexivity|].
    cbn [flat_map map]. rewrite IH. reflexivity. }
  intros doc. unfold Server.formatDocument, Server.onDocumentFormatting.
  destruct (negb (Server.format_enabled (Settings.settingsOf cfg)));
    [discriminate|].
  destruct (ServerFormat.formatLoop_total
              (Server.format_indentSize (Settings.settingsOf cfg)) doc
              ltac:(lia) 0%Z ltac:(lia)) as [out ->].
  discriminate.
Qed.

Lemma X12_witness :
  let cfg := {| Settings.raw_enabled := Settings.Str (lit "no");
                Settings.raw_indentSize :=
                  Settings.Num (Settings.Finite (QArith_base.inject_Z 40));
                Settings.raw_missingColon := Settings.Str (lit "fatal");
                Settings.raw_unbalancedTask := Settings.Str (lit "error");
                Settings.raw_extraKeywords := Settings.Object |} in
  Server.format_indentSize (fst (Settings.onDidChangeConfiguration cfg [])) = 8%Z
  /\ Server.lint_missingColon (fst (Settings.onDidChangeConfiguration cfg []))
     = Server.hint.
Proof.
  pose proof (X12_settings_are_normalised
                {| Settings.raw_enabled := Settings.Str (lit "no");
                   Settings.raw_indentSize :=
                     Settings.Num (Settings.Finite (QArith_base.inject_Z 40));
                   Settings.raw_missingColon := Settings.Str (lit "fatal");
                   Settings.raw_unbalancedTask := Settings.Str (lit "error");
                   Settings.raw_extraKeywords := Settings.Object |} [])
    as [_ [H1 [_ [_ [_ [_ [_ [_ [H2 _]]]]]]]]].
  split.
  - exact (H1 40%Z eq_refl).
  - apply (H2 (lit "fatal") eq_refl). vm_compute.
    intros [H | [H | [H | [H | []]]]]; discriminate H.
Defined.
(** ** The word under the cursor *)

(** X13.  [scanBackward] and [scanForward], the two scans of
    [getWordRangeAt]: for a cursor at [offset] in the text, the span
    found runs from [b <= offset - 1] to [e >= offset], inside the text;
    every character of the span is a letter, a digit, an underscore or a
    dash, except possibly the one just before the cursor, which the
    backward scan takes without looking at it; the span cannot be
    extended at either end. *)
Theorem X13_word_span (text : str) (offset : nat) :
  offset <= length text ->
  let b := fst (Words.getWordSpan text offset) in
  let e := snd (Words.getWordSpan text offset) in
  b <= offset - 1
  /\ offset <= e /\ e <= length text
  /\ (forall k, b <= k -> k < e -> S k <> offset ->
        exists ch, nth_error text k = Some ch /\ Words.isWordish ch = true)
  /\ (e < length text ->
        exists ch, nth_error text e = Some ch /\ Words.isWordish ch = false)
  /\ (forall b', b = S b' ->
        exists ch, nth_error text b' = Some ch /\ Words.isWordish ch = false)
  /\ (forall text', firstn (offset - 1) text' = firstn (offset - 1) text ->
        Words.scanBackward text' offset = b).
Proof.
  intros Ho b e. subst b e. unfold Words.getWordSpan. cbn [fst snd].
  unfold Words.scanBackward, Words.scanForward. cbn [Nat.max].
  destruct (WordFacts.scanBackward_loop_spec text (offset - 1) ltac:(lia))
    as [B1 [B2 B3]].
  destruct (WordFacts.scanForward_loop_spec (skipn offset text) offset)
    as [F1 [F2 F3]].
  rewrite length_skipn in F1, F3.
  split; [exact B1|]. split; [lia|]. split; [lia|].
  split.
  { intros k Hk1 Hk2 Hk3.
    destruct (Nat.lt_ge_cases k offset) as [Hlt | Hge].
    - apply B2; lia.
    - destruct (F2 (k - offset) ltac:(lia)) as [ch [Hn Hw]].
      exists ch. split; [|exact Hw].
      rewrite nth_error_skipn in Hn.
      replace (offset + (k - offset)) with k in Hn by lia. exact Hn. }
  split.
  { intros He. destruct (F3 ltac:(lia)) as [ch [Hn Hw]].
    exists ch. split; [|exact Hw].
    rewrite nth_error_skipn in Hn.
    replace (offset + (Words.scanForward_loop (skipn offset text) offset
                       - offset))
      with (Words.scanForward_loop (skipn offset text) offset) in Hn by lia.
    exact Hn. }
  split; [exact B3|].
  intros text' H. apply WordFacts.scanBackward_loop_prefix. exact H.
Qed.

Lemma X13_witness :
  fst (Words.getWordSpan (lit "say hi there") 7) <= 7 - 1
  /\ Words.scanBackward (lit "say hi+there") 7
     = fst (Words.getWordSpan (lit "say hi there") 7).
Proof.
  pose proof (X13_word_span (lit "say hi there") 7 ltac:(vm_compute; lia))
    as H.
  cbv zeta in H. destruct H as [H1 [_ [_ [_ [_ [_ H]]]]]].
  split; [exact H1 | exact (H (lit "say hi+there") eq_refl)].
Defined.
(** ** The validator of the client *)

(** X14.  [validateDocument]: a document of another language is left
    alone; with [validation.enable] off the diagnostics of the document
    are deleted; otherwise the validator publishes the first
    [max(1, validation.maxProblems)] entries of: the missing-colon
    diagnostics, one per header line without its colon, in document
    order, followed by the task-balance diagnostics (each list only when
    the severity of its check is truthy). *)
Theorem X14_client_validator_publishes
    (cfg : Extension.Configuration) (doc : Extension.TextDocument) :
  Extension.validateDocument cfg false doc = Extension.Untouched
  /\ (Extension.validation_enable cfg = false ->
      Extension.validateDocument cfg true doc = Extension.Delete)
  /\ (Extension.validation_enable cfg = true ->
      Extension.validateDocument cfg true doc
      = Extension.SetDiagnostics
          (firstn (Z.to_nat (Z.max 1 (Extension.validation_maxProblems cfg)))
                  (Outline.allDefects cfg doc))).
Proof.
  split; [reflexivity|]. split.
  - intros H. unfold Extension.validateDocument. rewrite H. reflexivity.
  - apply ClientValidator.validateDocument_spec.
Qed.

Lemma X14_witness :
  Extension.validateDocument
    (Extension.withMaxProblems Extension.defaultConfiguration 1) true
    [lit "if x"; lit "end task"]
  = Extension.SetDiagnostics
      [Outline.colonDiag [lit "if x"; lit "end task"] Extension.SeverityHint 0].
Proof.
  exact (proj2 (proj2 (X14_client_validator_publishes
                         (Extension.withMaxProblems
                            Extension.defaultConfiguration 1)
                         [lit "if x"; lit "end task"])) eq_refl).
Defined.

(** X15.  The lint level [error] in the client: [toSeverity] maps it to
    [vscode.DiagnosticSeverity.Error], the number 0, which
    [validateDocument] reads as "off".  With the missing-colon check set
    to [error] no missing-colon diagnostic is published, with the
    task-balance check set to [error] no task-balance diagnostic is, and
    with both at [error] the validator publishes an empty list. *)
Theorem X15_client_error_level_is_off
    (cfg : Extension.Configuration) (doc : Extension.TextDocument) :
  Extension.validation_enable cfg = true ->
  (Extension.lint_missingColon_severity cfg = Extension.error ->
   Forall (fun d => Extension.message d <> Extension.MissingTrailingColon)
          (Extension.published (Extension.validateDocument cfg true doc)))
  /\ (Extension.lint_unbalancedTask_severity cfg = Extension.error ->
      Forall (fun d => Extension.message d = Extension.MissingTrailingColon)
             (Extension.published (Extension.validateDocument cfg true doc)))
  /\ (Extension.lint_missingColon_severity cfg = Extension.error ->
      Extension.lint_unbalancedTask_severity cfg = Extension.error ->
      Extension.validateDocument cfg true doc = Extension.SetDiagnostics []).
Proof.
  intros Hen.
  rewrite (ClientValidator.validateDocument_spec cfg doc Hen).
  cbn [Extension.published].
  assert (Hfirst : forall (P : Extension.Diagnostic -> Prop) n l,
            Forall P l -> Forall P (firstn n l)).
  { intros P n l H. apply Forall_forall. intros x Hx.
    rewrite Forall_forall in H. apply H.
    rewrite <- (firstn_skipn n l). apply in_or_app. left. exact Hx. }
  assert (Htask : forall sev,
            Forall (fun d => Extension.message d
                             <> Extension.MissingTrailingColon)
                   (Outline.taskDefects doc sev)).
  { intros sev. unfold Outline.taskDefects. apply Forall_app. split;
      apply Forall_forall; intros d Hd; apply in_map_iff in Hd;
      destruct Hd as [i [<- _]]; discriminate. }
  assert (Hcolon : forall sev,
            Forall (fun d => Extension.message d
                             = Extension.MissingTrailingColon)
                   (Outline.colonDefects doc sev)).
  { intros sev. unfold Outline.colonDefects. apply Forall_forall.
    intros d Hd. apply in_map_iff in Hd. destruct Hd as [i [<- _]].
    reflexivity. }
  split; [|split].
  - intros H. apply Hfirst. unfold Outline.allDefects. rewrite H.
    cbn [Extension.toSeverity Extension.truthy Extension.SeverityError
         Nat.eqb negb app].
    destruct (Extension.truthy _); [apply Htask | constructor].
  - intros H. apply Hfirst. unfold Outline.allDefects. rewrite H.
    cbn [Extension.toSeverity Extension.truthy Extension.SeverityError
         Nat.eqb negb]. rewrite app_nil_r.
    destruct (Extension.truthy _); [apply Hcolon | constructor].
  - intros H1 H2. unfold Outline.allDefects. rewrite H1, H2. cbn [app].
    cbn. rewrite firstn_nil. reflexivity.
Qed.

Lemma X15_witness :
  let cfg := {| Extension.validation_enable := true;
                Extension.validation_maxProblems := 200;
                Extension.lint_missingColon_severity := Extension.error;
                Extension.lint_unbalancedTask_severity := Extension.error;
                Extension.format_indentSize := 2 |} in
  Extension.validateDocument cfg true [lit "if x"; lit "end task"]
  = Extension.SetDiagnostics [].
Proof.
  exact (proj2 (proj2 (X15_client_error_level_is_off
                         {| Extension.validation_enable := true;
                            Extension.validation_maxProblems := 200;
                            Extension.lint_missingColon_severity :=
                              Extension.error;
                            Extension.lint_unbalancedTask_severity :=
                              Extension.error;
                            Extension.format_indentSize := 2 |}
                         [lit "if x"; lit "end task"] eq_refl))
           eq_refl eq_refl).
Defined.

(** X16.  The task-balance check of the client
    ([collectTaskBalanceDiagnostics]) has the balance property on every
    document: with a budget of at least one it reports nothing exactly
    when the document has as many task openers as closers and every
    closer has an opener open when it appears.  With a budget of zero or
    less it reports nothing at all. *)
Theorem X16_client_balance_property
    (doc : Extension.TextDocument) (severity : nat) (budget : Z) :
  ((1 <= budget)%Z ->
   Extension.collectTaskBalanceDiagnostics doc severity budget = []
   <-> Outline.balanced Outline.clientRole doc)
  /\ ((budget <= 0)%Z ->
      Extension.collectTaskBalanceDiagnostics doc severity budget = []).
Proof.
  split; [apply ClientValidator.client_balance_property|].
  intros H. unfold Extension.collectTaskBalanceDiagnostics.
  replace (budget <=? 0)%Z with true by (symmetry; apply Z.leb_le; exact H).
  reflexivity.
Qed.

Lemma X16_witness :
  Extension.collectTaskBalanceDiagnostics
    [lit "end task"; q "start task ~A~"] Extension.SeverityWarning 200 <> []
  /\ Extension.collectTaskBalanceDiagnostics
       [lit "end task"] Extension.SeverityWarning 0 = [].
Proof.
  pose proof (X16_client_balance_property
                [lit "end task"; q "start task ~A~"]
                Extension.SeverityWarning 200) as [H _].
  pose proof (X16_client_balance_property
                [lit "end task"] Extension.SeverityWarning 0) as [_ H0].
  split; [|apply H0; lia].
  intros E. apply (H ltac:(lia)) in E. destruct E as [_ E].
  specialize (E 0 ltac:(vm_compute; lia) eq_refl).
  vm_compute in E. inversion E.
Defined.
(** ** Line comments in the client *)

(** X17.  [stripLineComment]: the result is a prefix of the text, it
    holds no [//] and no trailing whitespace, and stripping it again
    changes nothing; a text without [//] only loses its trailing
    whitespace, and any other text is cut at its first [//], wherever
    that is (inside a quoted string as well). *)
Theorem X17_stripLineComment (text : str) :
  indexOf (Extension.stripLineComment text) (lit "//") = (-1)%Z
  /\ (exists tail, text = Extension.stripLineComment text ++ tail)
  /\ trimEnd (Extension.stripLineComment text) = Extension.stripLineComment text
  /\ Extension.stripLineComment (Extension.stripLineComment text)
     = Extension.stripLineComment text
  /\ (indexOf text (lit "//") = (-1)%Z ->
      Extension.stripLineComment text = trimEnd text)
  /\ (forall k, indexOf text (lit "//") = Z.of_nat k ->
      Extension.stripLineComment text = trimEnd (firstn k text)).
Proof.
  assert (Hnone : indexOf (Extension.stripLineComment text) (lit "//")
                  = (-1)%Z).
  { apply CommentFacts.indexOf_none; [discriminate|].
    apply CommentFacts.no_comment_left. }
  assert (Htrim : trimEnd (Extension.stripLineComment text)
                  = Extension.stripLineComment text).
  { unfold Extension.stripLineComment. apply FormatterFacts.trimEnd_idem. }
  split; [exact Hnone|]. split; [|split; [exact Htrim|split; [|split]]].
  - destruct (CommentFacts.stripLineComment_cases text)
      as [[_ H] | [k [_ [H _]]]]; rewrite H.
    + destruct (StrFacts.trimEnd_split text) as [w [Hw _]]. exists w. exact Hw.
    + destruct (StrFacts.trimEnd_split (firstn k text)) as [w [Hw _]].
      exists (w ++ skipn k text). rewrite app_assoc, <- Hw.
      symmetry. apply firstn_skipn.
  - unfold Extension.stripLineComment at 1. rewrite Hnone. cbn [Z.leb].
    exact Htrim.
  - intros H. unfold Extension.stripLineComment. rewrite H. reflexivity.
  - intros k H. unfold Extension.stripLineComment. rewrite H.
    replace (0 <=? Z.of_nat k)%Z with true by (symmetry; apply Z.leb_le; lia).
    unfold slice0. rewrite Nat2Z.id. reflexivity.
Qed.

Lemma X17_witness :
  Extension.stripLineComment (q "say ~http://x~  // hi") = q "say ~http:".
Proof.
  rewrite (proj2 (proj2 (proj2 (proj2 (proj2
             (X17_stripLineComment (q "say ~http://x~  // hi"))))))
             10 eq_refl).
  vm_compute. reflexivity.
Defined.
(** ** The formatter of the client *)

(** X18.  The formatter of the client ([provideDocumentFormattingEdits])
    is idempotent on every document: a formatting request never throws,
    and on the document it leaves behind a second request answers no edit
    at all. *)
Theorem X18_client_format_idempotent
    (cfg : Extension.Configuration) (doc : Extension.TextDocument) :
  exists once,
    Extension.formatDocument cfg doc = Some once
    /\ Extension.provideDocumentFormattingEdits cfg once = Some []
    /\ Extension.formatDocument cfg once = Some once.
Proof.
  unfold Extension.formatDocument, Extension.provideDocumentFormattingEdits.
  set (indentSize := Z.max 2 (Z.min 8 (Extension.format_indentSize cfg))).
  destruct (ClientFormat.rebuiltLines_total indentSize doc ltac:(lia)
              0%Z ltac:(lia)) as [out [Hout _]].
  destruct (ClientFormat.formatLoop_rebuilt indentSize doc 0%Z out [] Hout)
    as [edits [H1 [H2 _]]].
  cbn [length app] in H1, H2.
  exists out. rewrite H1, H2.
  rewrite (ClientFormat.formatLoop_on_rebuilt indentSize doc 0%Z out 0 Hout).
  repeat split.
Qed.

(** X19.  What the formatter of the client writes: it answers one edit
    for each line that changes and none for the others, in document
    order; an edit replaces its whole line; the document has as many
    lines afterwards, and each line is the text behind its leading
    whitespace, with the colon of [normalize], behind
    [level * indentSize] spaces, for an indent size between 2 and 8. *)
Theorem X19_client_format_edits
    (cfg : Extension.Configuration) (doc : Extension.TextDocument) :
  let indentSize := Z.max 2 (Z.min 8 (Extension.format_indentSize cfg)) in
  exists edits out,
    Extension.provideDocumentFormattingEdits cfg doc = Some edits
    /\ Extension.formatDocument cfg doc = Some out
    /\ length out = length doc
    /\ map (fun e => Extension.startLine (Extension.editRange e)) edits
       = Rebuilt.changedLines doc out
    /\ Forall (fun e =>
                 exists k, Extension.editRange e = Extension.lineRange doc k
                           /\ Extension.newText e = nth k out [])
              edits
    /\ (forall i, i < length doc ->
          exists pad,
            JS.repeat (lit " ")
              (nth i (Extension.levelTrace 0 doc) 0%Z * indentSize) = Some pad
            /\ nth i out []
               = pad ++ trimStart (Extension.normalize (nth i doc [])))
    /\ (forall text,
          Extension.normalize text = text
          \/ Extension.normalize text = trimEnd text ++ lit ":").
Proof.
  intros indentSize.
  unfold Extension.formatDocument, Extension.provideDocumentFormattingEdits.
  fold indentSize.
  destruct (ClientFormat.rebuiltLines_total indentSize doc
              ltac:(subst indentSize; lia) 0%Z ltac:(lia))
    as [out [Hout Hlen]].
  destruct (ClientFormat.formatLoop_rebuilt indentSize doc 0%Z out [] Hout)
    as [edits [H1 [H2 [H3 H4]]]].
  cbn [length app Nat.add] in H1, H2, H3, H4.
  exists edits, out. rewrite H1, H2.
  split; [reflexivity|]. split; [reflexivity|]. split; [exact Hlen|].
  split; [rewrite H3, map_id; reflexivity|].
  split; [exact H4|].
  split; [apply (ClientFormat.rebuiltLines_nth _ _ _ _ Hout)|].
  intros text. destruct (ClientFormat.normalize_cases text) as [H | [H _]];
    [right | left]; exact H.
Qed.
(** ** The tasks of a document, in the client *)




(** ** Quoting and file names, in the client *)

(** X22.  [quote]: the word starts and ends with the quote character of
    the platform (a double quote on win32, a single quote elsewhere); a
    text without that character is only wrapped; and two different texts
    never give the same word. *)
Theorem X22_quote_is_injective (win32 : bool) (s : str) :
  let mark := if win32 then DQ else Shell.SQ in
  (exists body, Shell.quote win32 s = mark :: body ++ [mark])
  /\ (~ In mark s -> Shell.quote win32 s = mark :: s ++ [mark])
  /\ (forall s', Shell.quote win32 s' = Shell.quote win32 s -> s' = s).
Proof.
  assert (Hplain : forall (m : ascii) (by_ : str) (t : str),
            ~ In m t ->
            flat_map (fun x => if Ascii.eqb m x then by_ else [x]) t = t).
  { intros m by_ t. induction t as [|c t IH]; intros Hn; [reflexivity|].
    cbn [flat_map].
    replace (Ascii.eqb m c) with false.
    - cbn [app]. rewrite IH; [reflexivity|].
      intros H. apply Hn. right. exact H.
    - symmetry. apply Ascii.eqb_neq. intros ->. apply Hn. left. reflexivity. }
  destruct win32; cbn zeta.
  - split; [rewrite ShellFacts.quote_win32; eexists; reflexivity|].
    split; [intros Hn; rewrite ShellFacts.quote_win32, Hplain by exact Hn;
            reflexivity|].
    intros s' H. rewrite !ShellFacts.quote_win32 in H.
    apply (f_equal (fun w => Shell.unescape (removelast (tl w) ++ []))) in H.
    cbv beta in H. cbn [tl] in H. rewrite !removelast_last in H.
    rewrite !ShellFacts.unescape_escaped in H by (intros c r E; discriminate E).
    cbn [Shell.unescape] in H. rewrite !app_nil_r in H. exact H.
  - split; [rewrite ShellFacts.quote_posix; eexists; reflexivity|].
    split; [intros Hn; rewrite ShellFacts.quote_posix, Hplain by exact Hn;
            reflexivity|].
    intros s' H. rewrite !ShellFacts.quote_posix in H.
    apply (f_equal (fun w => Shell.readWord true (tl w))) in H.
    cbv beta in H. cbn [tl] in H.
    rewrite !ShellFacts.readWord_quoted in H. injection H as H. exact H.
Qed.

Lemma X22_witness :
  Shell.quote false (lit "/home/me/brew.roop")
  = Shell.SQ :: lit "/home/me/brew.roop" ++ [Shell.SQ].
Proof.
  apply (proj1 (proj2 (X22_quote_is_injective false
                         (lit "/home/me/brew.roop")))).
  vm_compute. intuition discriminate.
Defined.

(** X23.  [quote] outside win32: a POSIX shell reads the word back as
    the text that was quoted, whatever characters the text holds. *)
Theorem X23_quote_posix_round_trip (s : str) :
  Shell.readWord false (Shell.quote false s) = Some s.
Proof.
  rewrite ShellFacts.quote_posix.
  rewrite ShellFacts.readWord_open. apply ShellFacts.readWord_quoted.
Qed.

(** X24.  [sanitizeFileName]: the name it gives holds only letters,
    digits, underscores, dashes and dots, so no path separator; it is not
    longer than the name given and not empty unless that one is; a name
    made of such characters already is unchanged, so sanitizing twice is
    sanitizing once. *)
Theorem X24_sanitizeFileName (name : str) :
  Forall (fun c => FileNames.isSafe c = true) (FileNames.sanitizeFileName name)
  /\ ~ In "/"%char (FileNames.sanitizeFileName name)
  /\ ~ In Shell.BSL (FileNames.sanitizeFileName name)
  /\ length (FileNames.sanitizeFileName name) <= length name
  /\ (name <> [] -> FileNames.sanitizeFileName name <> [])
  /\ (Forall (fun c => FileNames.isSafe c = true) name ->
      FileNames.sanitizeFileName name = name)
  /\ FileNames.sanitizeFileName (FileNames.sanitizeFileName name)
     = FileNames.sanitizeFileName name.
Proof.
  assert (Hconv : forall l,
            Forall (fun c => negb (FileNames.isSafe c) = false) l
            <-> Forall (fun c => FileNames.isSafe c = true) l).
  { intros l. split; intros H; eapply Forall_impl; try exact H; cbv beta;
      intros c Hc; destruct (FileNames.isSafe c); auto; discriminate. }
  assert (Hspec : forall s,
            Forall (fun c => FileNames.isSafe c = true)
                   (FileNames.sanitizeFileName s)
            /\ length (FileNames.sanitizeFileName s) <= length s
            /\ (s <> [] -> FileNames.sanitizeFileName s <> [])
            /\ (Forall (fun c => FileNames.isSafe c = true) s ->
                FileNames.sanitizeFileName s = s)).
  { intros s. unfold FileNames.sanitizeFileName, Global.replaceAll.
    destruct (GlobalFacts.replaceAll_runs
                (fun c => negb (FileNames.isSafe c)) "_"%char eq_refl
                (S (length s)) s None ltac:(lia)) as [H1 [H2 [H3 H4]]].
    split; [apply Hconv; exact H1|]. split; [exact H2|].
    split; [exact H3|]. intros Hs. apply H4. apply Hconv. exact Hs. }
  destruct (Hspec name) as [H1 [H2 [H3 H4]]].
  split; [exact H1|].
  split; [apply (Titles.not_in_forall _ _ _ H1); discriminate|].
  split; [apply (Titles.not_in_forall _ _ _ H1); discriminate|].
  split; [exact H2|]. split; [exact H3|]. split; [exact H4|].
  apply (proj2 (proj2 (proj2 (Hspec (FileNames.sanitizeFileName name))))).
  exact H1.
Qed.

Lemma X24_witness :
  FileNames.sanitizeFileName (lit "6-DoF Robotic Arm") <> []
  /\ FileNames.sanitizeFileName (lit "loop.arm_v1") = lit "loop.arm_v1".
Proof.
  pose proof (X24_sanitizeFileName (lit "6-DoF Robotic Arm"))
    as [_ [_ [_ [_ [H _]]]]].
  pose proof (X24_sanitizeFileName (lit "loop.arm_v1"))
    as [_ [_ [_ [_ [_ [H2 _]]]]]].
  split; [apply H; discriminate|].
  apply H2. repeat constructor.
Defined.
(** ** Completion in the server *)

(** X25.  [onCompletion] on an open document: the answer is the items of
    the context rules followed by the whole catalog, whatever the
    position.  Every context item has a sort text from [a] to [e], an
    insert text and a detail; every catalog item has the default sort
    text [z], so the context items are listed first.  After a blank
    prefix the answer starts with the five block starters, in the order
    [start task], [when], [if], [parallel], [repeat].  On a document that
    is not open the answer is empty. *)
Theorem X25_completion_layout
    (settings : Server.RoopSettings) (doc : Server.TextDocument)
    (pos : nat * nat) :
  let tillCursor := slice0 (Server.lineAt doc (fst pos)) (snd pos) in
  let catalog :=
    Server.actionItems
    ++ Server.keywordItems (Server.completion_extraKeywords settings) in
  let items := fst (Server.onCompletion settings (Some doc) pos) in
  items = Server.contextItems tillCursor ++ catalog
  /\ Forall (fun it =>
               In (Server.sortText it) (map lit ["a"; "b"; "c"; "d"; "e"]%string)
               /\ Server.insertText it <> None
               /\ Server.detail it <> None)
            (Server.contextItems tillCursor)
  /\ Forall (fun it => Server.sortText it = lit "z"
                       /\ Server.detail it <> None)
            catalog
  /\ (test Server.RE_BLANK tillCursor = true ->
      map Server.label (firstn 5 items)
      = map lit ["start task"; "when"; "if"; "parallel"; "repeat"]%string)
  /\ Server.onCompletion settings None pos = ([], []).
Proof.
  intros tillCursor catalog items. subst items catalog.
  unfold Server.onCompletion. cbn [fst]. fold tillCursor.
  split; [reflexivity|].
  split.
  { unfold Server.contextItems.
    destruct (test Server.RE_BLANK tillCursor),
             (test Server.RE_AFTER_ON tillCursor),
             (test Server.RE_AFTER_USE tillCursor),
             (test Server.RE_AFTER_REPEAT tillCursor),
             (test Server.RE_AFTER_IF tillCursor),
             (test Server.RE_AFTER_AT_TIME tillCursor);
      cbn [app map Server.EVENTS];
      repeat (constructor;
              [split; [cbn; tauto | split; discriminate]|]);
      constructor. }
  split.
  { apply Forall_app. split.
    - apply Forall_forall. intros it Hin. unfold Server.actionItems in Hin.
      apply in_flat_map in Hin. destruct Hin as [[category verbs] [_ Hin]].
      apply in_map_iff in Hin. destruct Hin as [v [<- _]].
      split; [reflexivity | discriminate].
    - apply Forall_forall. intros it Hin. unfold Server.keywordItems in Hin.
      repeat (apply in_app_or in Hin; destruct Hin as [Hin | Hin]);
        apply in_map_iff in Hin; destruct Hin as [v [<- _]];
        (split; [reflexivity | discriminate]). }
  split; [|reflexivity].
  intros Hb. unfold Server.contextItems. rewrite Hb. reflexivity.
Qed.

Lemma X25_witness :
  map Server.label
    (firstn 5 (fst (Server.onCompletion Server.defaultSettings
                      (Some [lit "   "]) (0, 2))))
  = map lit ["start task"; "when"; "if"; "parallel"; "repeat"]%string.
Proof.
  exact (proj1 (proj2 (proj2 (proj2
           (X25_completion_layout Server.defaultSettings [lit "   "] (0, 2)))))
           eq_refl).
Defined.
(** ** Where the folds of the server start and end *)

(** X26.  [onFoldingRanges]: a fold of the task kind runs from a
    [start task] line to an [end task] line with no [start task] and no
    [end task] line in between; any other fold starts at a block header
    line (with its colon) and ends at the last line of the document or
    just before a blank line. *)
Theorem X26_fold_anchors (doc : Server.TextDocument) (f : Server.FoldingRange) :
  In f (Server.onFoldingRanges (Some doc)) ->
  (Ranges.isTaskFold f = true ->
   test Server.RE_START_TASK (Server.lineAt doc (Server.foldStart f)) = true
   /\ test Server.RE_END_TASK (Server.lineAt doc (Server.foldEnd f)) = true
   /\ forall j, Server.foldStart f < j -> j < Server.foldEnd f ->
        test Server.RE_START_TASK (Server.lineAt doc j) = false
        /\ test Server.RE_END_TASK (Server.lineAt doc j) = false)
  /\ (Ranges.isTaskFold f = false ->
      test Server.RE_BLOCK_HEADER
        (trim (Server.lineAt doc (Server.foldStart f))) = true
      /\ (Server.foldEnd f = Server.lineCount doc - 1
          \/ (S (Server.foldEnd f) < Server.lineCount doc
              /\ test Server.RE_BLANK
                   (trim (Server.lineAt doc (S (Server.foldEnd f)))) = true))).
Proof.
  unfold Server.onFoldingRanges.
  pose proof (FoldAnchors.taskFoldLoop_anchors doc doc 0 None
                ltac:(intros; reflexivity) ltac:(discriminate)) as T.
  destruct (RangeFacts.taskFoldLoop_wf doc 0 None ltac:(discriminate))
    as [Tk _].
  destruct (FoldAnchors.blockFoldLoop_anchors doc doc 0 [] eq_refl
              ltac:(intros; reflexivity) ltac:(constructor)) as [B1 B2].
  destruct (RangeFacts.blockFoldLoop_wf doc 0 [] ltac:(constructor))
    as [Bk _].
  destruct (Server.blockFoldLoop 0 doc []) as [blockFolds stack].
  cbn [fst snd] in *. rewrite Forall_forall in T, Tk, B1, Bk, B2.
  intros Hin. apply in_app_or in Hin. destruct Hin as [Hin | Hin].
  { split; [intros _; apply T; exact Hin|].
    intros Hk. destruct (Tk f Hin) as [_ [_ [_ Hk']]]. congruence. }
  apply in_app_or in Hin. destruct Hin as [Hin | Hin].
  { split.
    - intros Hk. destruct (Bk f Hin) as [_ [_ Hk']]. congruence.
    - intros _. destruct (B1 f Hin) as [H1 [H2 H3]].
      split; [exact H1|]. right. split; assumption. }
  apply in_flat_map in Hin. destruct Hin as [s [Hs Hf]].
  unfold Server.pushFold in Hf.
  destruct (s <? Server.lineCount doc - 1); [|destruct Hf].
  destruct Hf as [<- | []]. cbn [Server.foldStart Server.foldEnd].
  split; [discriminate|]. intros _. split; [apply B2; exact Hs|].
  left. reflexivity.
Qed.

Lemma X26_witness :
  let doc := [q "start task ~A~"; lit "if x:"; lit "say hi"; lit "";
              lit "end task"] in
  test Server.RE_BLOCK_HEADER (trim (Server.lineAt doc 1)) = true
  /\ (2 = Server.lineCount doc - 1
      \/ (3 < Server.lineCount doc
          /\ test Server.RE_BLANK (trim (Server.lineAt doc 3)) = true)).
Proof.
  exact (proj2 (X26_fold_anchors
                  [q "start task ~A~"; lit "if x:"; lit "say hi"; lit "";
                   lit "end task"]
                  {| Server.foldStart := 1; Server.foldEnd := 2;
                     Server.foldKind := None |}
                  ltac:(vm_compute; right; left; reflexivity))
           eq_refl).
Defined.

(** X27.  Formatting settles the colons of a document without comments:
    when no line of the document holds [//], the formatter of the client
    leaves a document on which the missing-colon check of the client
    reports nothing, whatever the severity and the budget. *)
Theorem X27_client_formatted_misses_no_colon
    (cfg : Extension.Configuration) (doc : Extension.TextDocument) :
  Forall (fun l => indexOf l (lit "//") = (-1)%Z) doc ->
  exists once,
    Extension.formatDocument cfg doc = Some once
    /\ forall severity budget,
         Extension.collectMissingColonDiagnostics once severity budget = [].
Proof.
  intros Hdoc.
  unfold Extension.formatDocument, Extension.provideDocumentFormattingEdits.
  set (indentSize := Z.max 2 (Z.min 8 (Extension.format_indentSize cfg))).
  destruct (ClientFormat.rebuiltLines_total indentSize doc ltac:(lia)
              0%Z ltac:(lia)) as [out [Hout Hlen]].
  destruct (ClientFormat.formatLoop_rebuilt indentSize doc 0%Z out [] Hout)
    as [edits [H1 [H2 _]]].
  cbn [length app] in H1, H2.
  exists out. rewrite H1, H2. split; [reflexivity|].
  intros severity budget. unfold Extension.collectMissingColonDiagnostics.
  destruct (budget <=? 0)%Z eqn:Hb; [reflexivity|].
  apply Z.leb_gt in Hb.
  rewrite ClientValidator.missingColonLoop_spec by (cbn; lia).
  rewrite (CleanDocuments.filter_nowhere _ _
             (CleanDocuments.formatted_needs_none _ _ _ _ Hdoc Hout Hlen)).
  cbn [map]. apply firstn_nil.
Qed.

Lemma X27_witness :
  exists once,
    Extension.formatDocument Extension.defaultConfiguration
      [lit "  if ready"; lit "say hi"; lit "end if"] = Some once
    /\ forall severity budget,
         Extension.collectMissingColonDiagnostics once severity budget = [].
Proof.
  apply X27_client_formatted_misses_no_colon.
  repeat constructor.
Defined.
